(** * A shallow embedding of the marketplace data generator and of the
      explain-plan helper of the test runner

    Sources embedded here:
    - [script.py]: the synthetic data generator (random record builder,
      base catalog initializer, partition writer, orchestrator, count
      reconciler);
    - [test_runner/app.py]: the shard mapping, [count_shards_from_explain]
      and [get_agg_stats].

    Python values are embedded as the inductive type [pyval]; code that can
    raise returns a [result]; code that touches the random generator, the
    file system or standard output runs in the monad [M] defined below. *)

From Stdlib Require Import ZArith QArith Qround Lia Lqa List Ascii String.
From stdpp Require Import gmap strings list fin_maps.

#[local] Set Warnings "-register-all,-clear-no-such-hyp".
Local Open Scope string_scope.
Local Open Scope Z_scope.

(** ** Python values *)

(** A Python [float] that came out of [round(x, ndigits)] or of a decimal
    literal, kept as the decimal number its [repr] shows:
    [fl_mant / 10 ^ fl_places]. *)
Record pyfloat := Dec { fl_mant : Z; fl_places : nat }.

Inductive pyval :=
| PNone
| PBool (b : bool)
| PInt (z : Z)
| PFloat (f : pyfloat)
| PStr (s : string)
| PList (l : list pyval)
| PDict (d : list (string * pyval)).

(** Dictionaries keep insertion order, as Python's do; keys are strings
    (the only keys of a JSON or BSON document). *)
Abbreviation pydict := (list (string * pyval)).

Inductive exn :=
| AttributeError
| TypeError
| KeyError
| IndexError
| ValueError
| OSError
| JSONDecodeError
| BrokenProcessPool.

Inductive result (A : Type) :=
| Ok (a : A)
| Raise (e : exn).
Arguments Ok {A} a.
Arguments Raise {A} e.

#[global] Instance result_ret : MRet result := fun A a => Ok a.
#[global] Instance result_bind : MBind result := fun A B f m =>
  match m with
  | Ok a => f a
  | Raise e => Raise e
  end.

Definition is_ok {A} (r : result A) : bool :=
  match r with Ok _ => true | Raise _ => false end.

(** *** Dictionary primitives *)

Fixpoint dict_lookup (k : string) (d : pydict) : option pyval :=
  match d with
  | [] => None
  | (k', v) :: d' => if String.eqb k k' then Some v else dict_lookup k d'
  end.

Definition dict_has (k : string) (d : pydict) : bool :=
  match dict_lookup k d with Some _ => true | None => false end.

(** [d[k] = v]: an existing key keeps its position, a new key goes last. *)
Fixpoint dict_set (k : string) (v : pyval) (d : pydict) : pydict :=
  match d with
  | [] => [(k, v)]
  | (k', v') :: d' =>
      if String.eqb k k' then (k', v) :: d' else (k', v') :: dict_set k v d'
  end.

Definition dict_keys (d : pydict) : list string := map fst d.

(** *** Substring test, for [sub in text] on two strings *)

Fixpoint is_substring (sub text : string) : bool :=
  String.prefix sub text
  || match text with
     | EmptyString => false
     | String _ rest => is_substring sub rest
     end.

(** *** The operations of the object protocol used by the sources *)

(** [obj.get(key, dflt)]: only dictionaries have the method. *)
Definition py_get (obj : pyval) (key : string) (dflt : pyval) : result pyval :=
  match obj with
  | PDict d => Ok (default dflt (dict_lookup key d))
  | _ => Raise AttributeError
  end.

(** [obj[key]] for a string key. *)
Definition py_getitem (obj : pyval) (key : string) : result pyval :=
  match obj with
  | PDict d =>
      match dict_lookup key d with
      | Some v => Ok v
      | None => Raise KeyError
      end
  | _ => Raise TypeError
  end.

(** [obj[key] = v] for a string key. *)
Definition py_setitem (obj : pyval) (key : string) (v : pyval) : result pyval :=
  match obj with
  | PDict d => Ok (PDict (dict_set key v d))
  | _ => Raise TypeError
  end.

Definition is_the_str (key : string) (v : pyval) : bool :=
  match v with
  | PStr s => String.eqb key s
  | _ => false
  end.

(** [key in obj] for a string key: key membership on a dictionary, element
    membership on a list, substring test on a string; the other values are
    not containers. *)
Definition py_contains (key : string) (obj : pyval) : result bool :=
  match obj with
  | PDict d => Ok (dict_has key d)
  | PList l => Ok (existsb (is_the_str key) l)
  | PStr s => Ok (is_substring key s)
  | _ => Raise TypeError
  end.

Definition py_len (obj : pyval) : result Z :=
  match obj with
  | PDict d => Ok (Z.of_nat (length d))
  | PList l => Ok (Z.of_nat (length l))
  | PStr s => Ok (Z.of_nat (String.length s))
  | _ => Raise TypeError
  end.

(** ** Numbers as text and rounded floats *)

Definition digit_char (d : Z) : ascii := ascii_of_nat (48 + Z.to_nat d).

(** The decimal digits of [n ≥ 0], most significant first, in front of
    [acc]. *)
Fixpoint str_nat_go (fuel : nat) (n : Z) (acc : string) : string :=
  match fuel with
  | O => acc
  | S fuel' =>
      let acc' := String (digit_char (n `mod` 10)) acc in
      if n <? 10 then acc' else str_nat_go fuel' (n `div` 10) acc'
  end.

Definition str_nat (n : Z) : string :=
  str_nat_go (S (Z.to_nat (Z.log2 n))) n "".

(** [str(z)] for an [int]. *)
Definition str_int (z : Z) : string :=
  if z <? 0 then "-" +:+ str_nat (- z) else str_nat z.

(** Rounding to the nearest integer, ties to even: what [round] does on
    the exact value of its argument. *)
Definition round_half_even (q : Q) : Z :=
  let n := Qnum q in
  let d := Zpos (Qden q) in
  let f := n `div` d in
  match 2 * (n `mod` d) ?= d with
  | Lt => f
  | Gt => f + 1
  | Eq => if Z.even f then f else f + 1
  end.

(** [repr] shows no trailing zero after the first decimal place. *)
Fixpoint strip_zeros (m : Z) (places : nat) : pyfloat :=
  match places with
  | S (S p as places') =>
      if m `mod` 10 =? 0 then strip_zeros (m `div` 10) places' else Dec m places
  | _ => Dec m places
  end.

(** [round(x, ndigits)] on a float. *)
Definition py_round (x : Q) (ndigits : nat) : pyfloat :=
  strip_zeros (round_half_even (x * inject_Z (10 ^ Z.of_nat ndigits)) * 10)
    (S ndigits).

Definition fl_value (f : pyfloat) : Q :=
  Qmake (fl_mant f) (Z.to_pos (10 ^ Z.of_nat (fl_places f))).

(** ** The json module *)

Definition DQ : ascii := "034"%char.
Definition BS : ascii := "092"%char.
Definition LF : string := String "010"%char "".

Module Json.

(** *** Encoding: [json.dumps] and [json.dump] *)

Definition hex_char (n : nat) : ascii :=
  if (n <? 10)%nat then ascii_of_nat (48 + n) else ascii_of_nat (87 + n).

(** One character inside a string literal ([ensure_ascii] is on: what is
    not between space and tilde is escaped). *)
Definition escape_char (c : ascii) : string :=
  let n := nat_of_ascii c in
  if (n =? 34)%nat then String BS (String DQ "")
  else if (n =? 92)%nat then String BS (String BS "")
  else if (n =? 8)%nat then String BS "b"
  else if (n =? 12)%nat then String BS "f"
  else if (n =? 10)%nat then String BS "n"
  else if (n =? 13)%nat then String BS "r"
  else if (n =? 9)%nat then String BS "t"
  else if (n <? 32)%nat || (126 <? n)%nat then
    String BS (String "u" (String "0" (String "0"
      (String (hex_char (n / 16)) (String (hex_char (n `mod` 16)) "")))))
  else String c "".

Fixpoint escape (s : string) : string :=
  match s with
  | EmptyString => ""
  | String c r => escape_char c +:+ escape r
  end.

Definition encode_string (s : string) : string :=
  String DQ (escape s +:+ String DQ "").

(** Exactly [places] decimal digits of [r], in front of [acc]. *)
Fixpoint frac_digits (places : nat) (r : Z) (acc : string) : string :=
  match places with
  | O => acc
  | S p => frac_digits p (r `div` 10) (String (digit_char (r `mod` 10)) acc)
  end.

(** [float.__repr__], in fixed notation: the script prints prices and
    ratings only, which lie between 1e-4 and 1e16, where [repr] uses no
    exponent. *)
Definition repr_float (f : pyfloat) : string :=
  let m := Z.abs (fl_mant f) in
  let scale := 10 ^ Z.of_nat (fl_places f) in
  (if fl_mant f <? 0 then "-" else "")
  +:+ str_nat (m `div` scale) +:+ "."
  +:+ match fl_places f with
      | O => "0"
      | p => frac_digits p (m `mod` scale) ""
      end.

Fixpoint spaces (n : nat) : string :=
  match n with
  | O => ""
  | S n' => String " " (spaces n')
  end.

Definition newline_indent (indent : option nat) (level : nat) : string :=
  match indent with
  | None => ""
  | Some n => LF +:+ spaces (n * level)
  end.

Definition item_separator (indent : option nat) (level : nat) : string :=
  match indent with
  | None => ", "
  | Some _ => "," +:+ newline_indent indent level
  end.

Fixpoint encode (indent : option nat) (level : nat) (v : pyval) : string :=
  match v with
  | PNone => "null"
  | PBool true => "true"
  | PBool false => "false"
  | PInt z => str_int z
  | PFloat f => repr_float f
  | PStr s => encode_string s
  | PList [] => "[]"
  | PList l =>
      "[" +:+ newline_indent indent (S level)
      +:+ String.concat (item_separator indent (S level))
            (map (encode indent (S level)) l)
      +:+ newline_indent indent level +:+ "]"
  | PDict [] => "{}"
  | PDict d =>
      "{" +:+ newline_indent indent (S level)
      +:+ String.concat (item_separator indent (S level))
            (map (fun kv => encode_string kv.1 +:+ ": "
                            +:+ encode indent (S level) kv.2) d)
      +:+ newline_indent indent level +:+ "}"
  end.

(** [json.dumps(obj)] *)
Definition dumps (obj : pyval) : string := encode None 0 obj.

(** [json.dumps(obj, indent=n)], the text that [json.dump(obj, f, indent=n)]
    writes. *)
Definition dumps_indent (n : nat) (obj : pyval) : string := encode (Some n) 0 obj.

(** *** Decoding: [json.loads] and [json.load] *)

Definition is_ws (c : ascii) : bool :=
  let n := nat_of_ascii c in
  (n =? 32)%nat || (n =? 9)%nat || (n =? 10)%nat || (n =? 13)%nat.

Fixpoint skip_ws (s : string) : string :=
  match s with
  | EmptyString => ""
  | String c r => if is_ws c then skip_ws r else s
  end.

Definition is_digit (c : ascii) : bool :=
  let n := nat_of_ascii c in (48 <=? n)%nat && (n <=? 57)%nat.

Definition digit_value (c : ascii) : Z := Z.of_nat (nat_of_ascii c) - 48.

(** The longest prefix of digits, as a number and a digit count, and what
    follows it. *)
Fixpoint span_digits (acc : Z) (count : nat) (s : string) : Z * nat * string :=
  match s with
  | EmptyString => (acc, count, s)
  | String c r =>
      if is_digit c then span_digits (10 * acc + digit_value c) (S count) r
      else (acc, count, s)
  end.

Definition hex_value (c : ascii) : option nat :=
  let n := nat_of_ascii c in
  if is_digit c then Some (n - 48)%nat
  else if (97 <=? n)%nat && (n <=? 102)%nat then Some (n - 87)%nat
  else if (65 <=? n)%nat && (n <=? 70)%nat then Some (n - 55)%nat
  else None.

Definition unescape (e : ascii) : option ascii :=
  if Ascii.eqb e DQ then Some DQ
  else if Ascii.eqb e BS then Some BS
  else if Ascii.eqb e "/" then Some "/"%char
  else if Ascii.eqb e "b" then Some "008"%char
  else if Ascii.eqb e "f" then Some "012"%char
  else if Ascii.eqb e "n" then Some "010"%char
  else if Ascii.eqb e "r" then Some "013"%char
  else if Ascii.eqb e "t" then Some "009"%char
  else None.

(** The characters of a string literal up to its closing quote; the
    opening quote has been read. A code point above 255 has no counterpart
    in the model and is refused. *)
Fixpoint scanstring (s : string) : option (string * string) :=
  match s with
  | EmptyString => None
  | String c r =>
      if Ascii.eqb c DQ then Some ("", r)
      else if Ascii.eqb c BS then
        match r with
        | EmptyString => None
        | String e r1 =>
            if Ascii.eqb e "u" then
              match r1 with
              | String h1 (String h2 (String h3 (String h4 r2))) =>
                  match hex_value h1, hex_value h2, hex_value h3, hex_value h4 with
                  | Some 0%nat, Some 0%nat, Some a, Some b =>
                      match scanstring r2 with
                      | Some (k, rest) => Some (String (ascii_of_nat (16 * a + b)) k, rest)
                      | None => None
                      end
                  | _, _, _, _ => None
                  end
              | _ => None
              end
            else
              match unescape e, scanstring r1 with
              | Some c', Some (k, rest) => Some (String c' k, rest)
              | _, _ => None
              end
        end
      else if (nat_of_ascii c <? 32)%nat then None
      else
        match scanstring r with
        | Some (k, rest) => Some (String c k, rest)
        | None => None
        end
  end.

(** The float written [mantissa / 10 ^ places * 10 ^ exponent]. *)
Definition float_of_decimal (mantissa : Z) (places : nat) (exponent : Z) : pyfloat :=
  let q := Z.of_nat places - exponent in
  if 0 <=? q then strip_zeros (mantissa * 10) (S (Z.to_nat q))
  else strip_zeros (mantissa * 10 ^ (- q) * 10) 1.

(** A number is an optional minus sign; an integer part, a lone zero or
    digits that start with a non-zero one; an optional fraction, a dot and
    at least one digit; an optional exponent, [e] or [E], an optional sign
    and at least one digit. A dot or an exponent mark that is not followed
    by a digit is left unread. *)
Definition scan_sign (s : string) : bool * string :=
  match s with
  | String "-" r => (true, r)
  | _ => (false, s)
  end.

Definition scan_int_part (s : string) : option (Z * string) :=
  match s with
  | EmptyString => None
  | String c r =>
      if is_digit c then
        if Ascii.eqb c "0" then Some (0, r)
        else let '(v, _, rest) := span_digits 0 0 s in Some (v, rest)
      else None
  end.

(** The mantissa with the fraction digits appended, and their count. *)
Definition scan_frac (int_part : Z) (s : string) : Z * nat * string :=
  match s with
  | String "." r =>
      match span_digits int_part 0 r with
      | (_, O, _) => (int_part, O, s)
      | found => found
      end
  | _ => (int_part, O, s)
  end.

Definition scan_exp (s : string) : option Z * string :=
  match s with
  | String e r =>
      if Ascii.eqb e "e" || Ascii.eqb e "E" then
        let '(esign, r1) :=
          match r with
          | String "-" r' => (-1, r')
          | String "+" r' => (1, r')
          | _ => (1, r)
          end in
        match span_digits 0 0 r1 with
        | (_, O, _) => (None, s)
        | (ev, _, r2) => (Some (esign * ev), r2)
        end
      else (None, s)
  | _ => (None, s)
  end.

Definition scan_number (s : string) : option (pyval * string) :=
  let '(negative, s1) := scan_sign s in
  let sign (z : Z) := if (negative : bool) then - z else z in
  match scan_int_part s1 with
  | None => None
  | Some (int_part, s2) =>
      let '(mantissa, places, s3) := scan_frac int_part s2 in
      let '(exponent, s4) := scan_exp s3 in
      match places, exponent with
      | O, None => Some (PInt (sign int_part), s4)
      | _, _ =>
          Some (PFloat (float_of_decimal (sign mantissa) places
                          (default 0 exponent)), s4)
      end
  end.

Fixpoint strip_prefix (p s : string) : option string :=
  match p, s with
  | EmptyString, _ => Some s
  | String a p', String b s' => if Ascii.eqb a b then strip_prefix p' s' else None
  | String _ _, EmptyString => None
  end.

(** The elements of an array after the first one has been located. *)
Fixpoint scan_items (scan : string → option (pyval * string)) (k : nat)
    (s : string) : option (list pyval * string) :=
  match k with
  | O => None
  | S k' =>
      match scan s with
      | None => None
      | Some (v, s1) =>
          match skip_ws s1 with
          | EmptyString => None
          | String c s2 =>
              if Ascii.eqb c "]" then Some ([v], s2)
              else if Ascii.eqb c "," then
                match scan_items scan k' (skip_ws s2) with
                | Some (vs, s3) => Some (v :: vs, s3)
                | None => None
                end
              else None
          end
      end
  end.

(** The members of an object; the opening quote of the key has been
    read. *)
Fixpoint scan_members (scan : string → option (pyval * string)) (k : nat)
    (s : string) : option (list (string * pyval) * string) :=
  match k with
  | O => None
  | S k' =>
      match scanstring s with
      | None => None
      | Some (key, s1) =>
          match skip_ws s1 with
          | String ":" s2 =>
              match scan (skip_ws s2) with
              | None => None
              | Some (v, s3) =>
                  match skip_ws s3 with
                  | EmptyString => None
                  | String c s4 =>
                      if Ascii.eqb c "}" then Some ([(key, v)], s4)
                      else if Ascii.eqb c "," then
                        match skip_ws s4 with
                        | String q s5 =>
                            if Ascii.eqb q DQ then
                              match scan_members scan k' s5 with
                              | Some (kvs, s6) => Some ((key, v) :: kvs, s6)
                              | None => None
                              end
                            else None
                        | EmptyString => None
                        end
                      else None
                  end
              end
          | _ => None
          end
      end
  end.

(** [dict(pairs)]: a later pair overwrites the value of an earlier one
    with the same key. *)
Definition dict_of_pairs (pairs : list (string * pyval)) : pydict :=
  fold_left (fun d kv => dict_set kv.1 kv.2 d) pairs [].

(** One value at the head of the text. *)
Fixpoint scan_once (fuel : nat) (s : string) : option (pyval * string) :=
  match fuel with
  | O => None
  | S fuel' =>
      match s with
      | EmptyString => None
      | String c r =>
          if Ascii.eqb c DQ then
            match scanstring r with
            | Some (k, rest) => Some (PStr k, rest)
            | None => None
            end
          else if Ascii.eqb c "{" then
            match skip_ws r with
            | EmptyString => None
            | String c1 r1 =>
                if Ascii.eqb c1 "}" then Some (PDict [], r1)
                else if Ascii.eqb c1 DQ then
                  match scan_members (scan_once fuel') fuel' r1 with
                  | Some (kvs, rest) => Some (PDict (dict_of_pairs kvs), rest)
                  | None => None
                  end
                else None
            end
          else if Ascii.eqb c "[" then
            match skip_ws r with
            | EmptyString => None
            | String c1 r1 =>
                if Ascii.eqb c1 "]" then Some (PList [], r1)
                else
                  match scan_items (scan_once fuel') fuel' (String c1 r1) with
                  | Some (vs, rest) => Some (PList vs, rest)
                  | None => None
                  end
            end
          else
            match strip_prefix "null" s, strip_prefix "true" s,
                  strip_prefix "false" s with
            | Some rest, _, _ => Some (PNone, rest)
            | _, Some rest, _ => Some (PBool true, rest)
            | _, _, Some rest => Some (PBool false, rest)
            | _, _, _ => scan_number s
            end
      end
  end.

(** What may follow a number in a text: not a character that would
    extend it. *)
Definition number_ends (rest : string) : bool :=
  match rest with
  | EmptyString => true
  | String c _ =>
      negb (is_digit c || Ascii.eqb c "." || Ascii.eqb c "e" || Ascii.eqb c "E")
  end.

Definition starts_with_digit (s : string) : bool :=
  match s with
  | EmptyString => false
  | String c _ => is_digit c
  end.

(** A float as [repr] shows it: at least one decimal, and no trailing
    zero after the first decimal. *)
Definition canonical (f : pyfloat) : Prop :=
  (1 ≤ fl_places f)%nat ∧ (fl_places f = 1%nat ∨ fl_mant f `mod` 10 ≠ 0).

(** The values that [loads] can give back: floats as [repr] shows them,
    and no key twice in a dictionary. *)
Fixpoint json_wf (v : pyval) : Prop :=
  match v with
  | PFloat f => canonical f
  | PList l => foldr (fun x acc => json_wf x ∧ acc) True l
  | PDict d =>
      NoDup (dict_keys d) ∧ foldr (fun kv acc => json_wf kv.2 ∧ acc) True d
  | _ => True
  end.

(** The number of nodes of a value. *)
Fixpoint size (v : pyval) : nat :=
  match v with
  | PList l => S (foldr (fun x acc => size x + acc)%nat O l)
  | PDict d => S (foldr (fun kv acc => size kv.2 + acc)%nat O d)
  | _ => 1%nat
  end.

(** The characters a value can start with. *)
Definition value_start (c : ascii) : bool :=
  is_digit c || Ascii.eqb c "-" || Ascii.eqb c DQ || Ascii.eqb c "["
  || Ascii.eqb c "{" || Ascii.eqb c "n" || Ascii.eqb c "t" || Ascii.eqb c "f".

Definition all_ws (w : string) : bool :=
  forallb is_ws (list_ascii_of_string w).

(** [json.loads(s)], for the texts that the script writes and reads
    back: an integer is read whatever its length (CPython stops at 4300
    digits), a number with a fraction or an exponent keeps all its
    digits, nesting is not bounded by a recursion limit, and a [\u]
    escape stands for one of the 256 characters of a [string]. *)
Definition loads (s : string) : result pyval :=
  match scan_once (S (String.length s)) (skip_ws s) with
  | Some (v, rest) =>
      match skip_ws rest with
      | EmptyString => Ok v
      | _ => Raise JSONDecodeError
      end
  | None => Raise JSONDecodeError
  end.

End Json.

(** [range(n)] *)
Definition range (n : Z) : list Z := seqZ 0 n.

(** ** script.py: the data generator *)

(** The configuration constants at the top of the script. *)
Class Config := {
  NUM_CATEGORIES : Z;
  VENDOR_COUNT : Z;
  ATTRIBUTES_PER_PRODUCT : Z;
  SPLIT_PARTS : Z;
  PRODUCTS_PER_FILE : Z
}.

Definition TOTAL_PRODUCTS `{Config} : Z := PRODUCTS_PER_FILE * SPLIT_PARTS.

(** The values the script is shipped with. *)
Definition script_config : Config := {|
  NUM_CATEGORIES := 100;
  VENDOR_COUNT := 100;
  ATTRIBUTES_PER_PRODUCT := 3;
  SPLIT_PARTS := 4;
  PRODUCTS_PER_FILE := 2500000
|}.

Definition OUTPUT_DIR : string := "generated_data".
Definition path_join (dir name : string) : string := dir +:+ "/" +:+ name.
Definition VENDORS_FILE : string := path_join OUTPUT_DIR "vendors.json".
Definition CATEGORIES_FILE : string := path_join OUTPUT_DIR "categories.json".

Definition WORDS : list string :=
  ["Electronics"; "Apparel"; "HomeGoods"; "Tools"; "Books"; "Software"; "Sporting"].
Definition PHRASES : list string :=
  ["Ultimate Pro Gadget"; "Smart Home Device"; "Vintage Look Accessory";
   "High Performance Tool"; "Economical Choice"].
Definition RAMS : list Z := [8; 16; 32; 64].
Definition STORAGES : list Z := [128; 256; 512; 1024].
Definition COLORS : list string := ["Red"; "Blue"; "Green"; "Black"; "White"; "Silver"].

(** *** The random module

    The generator behind [random] is a parameter: a state [G] with the two
    draws the script relies on, each with the range its documentation
    promises. Floats drawn are kept as the rationals they are. *)
Class RandomSource (G : Type) := {
  randbelow : Z → G → Z * G;
  uniform_draw : Q → Q → G → Q * G;
  randbelow_range n g : 0 < n → 0 ≤ (randbelow n g).1 < n;
  uniform_draw_range a b g :
    (a <= b)%Q → (a <= (uniform_draw a b g).1 <= b)%Q
}.

(** Computations that draw random numbers and may raise. *)
Definition Rand (G A : Type) : Type := G → result (A * G).

#[global] Instance Rand_ret {G} : MRet (Rand G) := fun A a g => Ok (a, g).
#[global] Instance Rand_bind {G} : MBind (Rand G) := fun A B f m g =>
  match m g with
  | Ok (a, g') => f a g'
  | Raise e => Raise e
  end.

Section Generator.
Context `{Config} {G : Type} `{RandomSource G}.

(** [random.randrange(n)] *)
Definition randrange (n : Z) : Rand G Z := fun g =>
  if 0 <? n then Ok (randbelow n g) else Raise ValueError.

(** [random.choice(seq)] *)
Definition choice {A} (seq : list A) : Rand G A := fun g =>
  match seq with
  | [] => Raise IndexError
  | _ =>
      let '(i, g') := randbelow (Z.of_nat (length seq)) g in
      match seq !! Z.to_nat i with
      | Some x => Ok (x, g')
      | None => Raise IndexError
      end
  end.

(** [random.uniform(a, b)] *)
Definition uniform (a b : Q) : Rand G Q := fun g => Ok (uniform_draw a b g).

Definition get_random_word : Rand G string := choice WORDS.

Definition get_random_phrase : Rand G string := choice PHRASES.

Definition generate_attribute (attribute_index : Z) : Rand G pyval :=
  if attribute_index =? 0 then
    ram ← choice RAMS;
    mret (PDict [("k", PStr "RAM"); ("v", PStr (str_int ram +:+ "GB"))])
  else if attribute_index =? 1 then
    storage ← choice STORAGES;
    mret (PDict [("k", PStr "Storage"); ("v", PStr (str_int storage +:+ "GB SSD"))])
  else
    color ← choice COLORS;
    mret (PDict [("k", PStr "Color"); ("v", PStr color)]).

(** Returns [(product, vendor_id, category_id)]. *)
Definition generate_product_json (global_product_id : Z)
    : Rand G (pyval * Z * Z) :=
  attributes ← mapM generate_attribute (range ATTRIBUTES_PER_PRODUCT);
  vendor_id ← randrange VENDOR_COUNT;
  category_id ← randrange NUM_CATEGORIES;
  name ← get_random_phrase;
  price ← uniform 10 5000;
  rating ← uniform 3 5;
  let product := PDict [
    ("name", PStr name);
    ("price", PFloat (py_round price 2));
    ("rating", PFloat (py_round rating 1));
    ("attributs", PList attributes);
    ("category_id", PInt category_id);
    ("vendor_id", PInt vendor_id);
    ("product_id", PInt global_product_id)
  ] in
  mret (product, vendor_id, category_id).

End Generator.


(** *** Processes, files and standard output

    What [print] writes is kept as one [log_line] per call, with the
    values that the format string interpolates; elapsed times are left
    out. *)
Inductive log_line :=
| LogGeneratingStructure
    (* Generating Categories and Vendors structure files... *)
| LogStarting
    (* --- Starting Interleaved Product Generation --- *)
| LogTotal (total per_file : Z)
    (* Total products to generate: {total} (4 files x {per_file} each) *)
| LogUsingProcesses
    (* Using {MAX_WORKERS} processes... *)
| LogGenerating (count file_part_index : Z)
    (* -> Generating {count} products for File {file_part_index}... *)
| LogErrorWriting (file_part_index : Z) (e : exn)
    (* Error writing file {file_part_index}: {e} *)
| LogFinished (file_part_index count : Z)
    (* <- Finished File {file_part_index}. Saved {count} products in ...s. *)
| LogErrorGeneration (e : exn)
    (* Error during file generation: {e} *)
| LogCountsUpdated
    (* --- Base Data Counts Updated Successfully --- *)
| LogComplete
    (* --- Generation Complete --- *)
| LogSavedTo (file_part_index : Z) (path : string)
    (* File {file_part_index} saved to: {path} *)
| LogTotalTime.
    (* Total execution time: ... seconds *)

(** The partition a line names, if it names one. *)
Definition line_partition (l : log_line) : option Z :=
  match l with
  | LogGenerating _ i | LogErrorWriting i _ | LogFinished i _ | LogSavedTo i _ =>
      Some i
  | _ => None
  end.

(** An output names partition [i] when one of its lines does. *)
Definition names_partition (out : list log_line) (i : Z) : Prop :=
  ∃ l, l ∈ out ∧ line_partition l = Some i.

(** A process: the state of its random generator, and the world it shares
    with the others: the files, the number of operations done so far on
    each path, and what was printed. *)
Record process (G : Type) := Process {
  rng : G;
  files : gmap string string;
  io_count : gmap string nat;
  stdout : list log_line
}.
Arguments Process {G}.
Arguments rng {G}.
Arguments files {G}.
Arguments io_count {G}.
Arguments stdout {G}.

(** Commands: they change the process and return or raise. *)
Definition M (G A : Type) : Type := process G → result A * process G.

#[global] Instance M_ret {G} : MRet (M G) := fun A a st => (Ok a, st).
#[global] Instance M_bind {G} : MBind (M G) := fun A B f m st =>
  match m st with
  | (Ok a, st') => f a st'
  | (Raise e, st') => (Raise e, st')
  end.

(** [try: body except Exception as e: handler(e)] *)
Definition try_except {G A} (body : M G A) (handler : exn → M G A) : M G A :=
  fun st =>
    match body st with
    | (Ok a, st') => (Ok a, st')
    | (Raise e, st') => handler e st'
    end.

(** [for x in xs: acc = body(x, acc)] *)
Fixpoint for_each {G A S} (xs : list A) (acc : S) (body : A → S → M G S)
    : M G S :=
  match xs with
  | [] => mret acc
  | x :: xs' => acc' ← body x acc; for_each xs' acc' body
  end.

(** The results of the partitions: the value that
    [generate_interleaved_products_for_file] returns. *)
Record tally := Tally {
  file_index : Z;
  category_counts : gmap Z Z;
  vendor_counts : gmap Z Z
}.

(** What is left of a worker that the pool lost, as the environment
    decides it: the worker was stopped anywhere between the submission of
    its task and the delivery of its result. Its file is untouched, or
    holds whatever had reached the disk by then; it did some operations
    on it; and of the lines of the partition writer it had printed none,
    the first, or the first and the last (the one that ends a success or
    the one that reports an error). *)
Inductive lost_output :=
| PrintedNothing
| PrintedGenerating
| PrintedFinished
| PrintedError (e : exn).

Record lost_worker := LostWorker {
  left_file : option string;
  left_operations : nat;
  left_output : lost_output
}.

(** *** What a well-formed attribute entry is, per slot *)

Definition RAM_entry (a : pyval) : Prop :=
  ∃ n, n ∈ RAMS ∧ a = PDict [("k", PStr "RAM"); ("v", PStr (str_int n +:+ "GB"))].

Definition Storage_entry (a : pyval) : Prop :=
  ∃ n, n ∈ STORAGES
       ∧ a = PDict [("k", PStr "Storage"); ("v", PStr (str_int n +:+ "GB SSD"))].

Definition Color_entry (a : pyval) : Prop :=
  ∃ c, c ∈ COLORS ∧ a = PDict [("k", PStr "Color"); ("v", PStr c)].

Definition slot_entry (i : Z) (a : pyval) : Prop :=
  if i =? 0 then RAM_entry a
  else if i =? 1 then Storage_entry a
  else Color_entry a.

(** *** A concrete random source

    A linear congruential generator, to run the model on examples. *)
Module Lcg.

Definition next (g : Z) : Z := (g * 1103515245 + 12345) `mod` 2147483648.

Definition below (n g : Z) : Z * Z := ((g `div` 65536) `mod` n, next g).

Definition between (a b : Q) (g : Z) : Q * Z :=
  ((a + (b - a) * Qmake (g `mod` 1001) 1000)%Q, next g).

End Lcg.

Section Script.
Context `{Config} {G : Type} `{RandomSource G}.

(** The environment of a run: which operation on which path fails (the
    [n]-th operation on [path] raises [OSError] when [io_fails path n]),
    the generator state of the worker that gets partition [i], the
    futures whose worker the pool loses, with what is left of the worker,
    and the order in which [as_completed] hands back the futures that
    were submitted. *)
Variable io_fails : string → nat → bool.
Variable worker_rng : Z → G.
Variable pool_broken : Z → option lost_worker.
Variable as_completed : list (Z * Z) → list (Z * Z).

(** Drawing random numbers inside a command. When the computation
    raises, the generator is left as it was before it: the draws made
    until then are not recorded. In the script only a partition writer
    can be in that case; it then returns, and the state of its generator
    is not used again. *)
Definition rand {A} (r : Rand G A) : M G A := fun st =>
  match r (rng st) with
  | Ok (a, g') => (Ok a, Process g' (files st) (io_count st) (stdout st))
  | Raise e => (Raise e, st)
  end.

(** A computation that only returns or raises. *)
Definition lift_result {A} (r : result A) : M G A := fun st => (r, st).

Definition print (l : log_line) : M G () := fun st =>
  (Ok (), Process (rng st) (files st) (io_count st) (stdout st ++ [l])).

(** One operation on [path]: it is counted, and fails when the
    environment says so; otherwise [effect] is applied to the files. *)
Definition io {A} (path : string)
    (effect : gmap string string → result (A * gmap string string)) : M G A :=
  fun st =>
    let n := default O (io_count st !! path) in
    let counted := <[path := S n]> (io_count st) in
    if io_fails path n then
      (Raise OSError, Process (rng st) (files st) counted (stdout st))
    else
      match effect (files st) with
      | Ok (a, fs) => (Ok a, Process (rng st) fs counted (stdout st))
      | Raise e => (Raise e, Process (rng st) (files st) counted (stdout st))
      end.

(** [os.makedirs(path, exist_ok=True)]: directories are not kept. *)
Definition makedirs (path : string) : M G () :=
  io path (fun fs => Ok ((), fs)).

(** [open(path, 'w')] *)
Definition open_w (path : string) : M G () :=
  io path (fun fs => Ok ((), <[path := ""]> fs)).

(** [f.write(data)] on a file opened for writing at [path]. *)
Definition write (path data : string) : M G () :=
  io path (fun fs => Ok ((), <[path := default "" (fs !! path) +:+ data]> fs)).

(** [open(path, 'r')] and reading the whole file. *)
Definition read (path : string) : M G string :=
  io path (fun fs =>
    match fs !! path with
    | Some text => Ok (text, fs)
    | None => Raise OSError
    end).

(** [with open(path, 'w') as f: json.dump(data, f, indent=2)] *)
Definition dump_json (path : string) (data : pyval) : M G () :=
  open_w path;;
  write path (Json.dumps_indent 2 data).

(** [with open(path, 'r') as f: json.load(f)] *)
Definition load_json (path : string) : M G pyval :=
  text ← read path;
  lift_result (Json.loads text).

(** [counts[key] += n] on a [defaultdict(int)] *)
Definition add_count (key n : Z) (counts : gmap Z Z) : gmap Z Z :=
  <[key := default 0 (counts !! key) + n]> counts.

Definition part_path (file_part_index : Z) : string :=
  path_join OUTPUT_DIR ("products_part_" +:+ str_int file_part_index +:+ ".json").

(** The body of the loop of the partition writer; the state of the loop
    is the pair of the vendor counts and the category counts. *)
Definition write_product (output_path : string) (start_product_id i : Z)
    (counts : gmap Z Z * gmap Z Z) : M G (gmap Z Z * gmap Z Z) :=
  let '(vendor_counts, category_counts) := counts in
  let global_product_id := start_product_id + i in
  '(product, vendor_id, category_id) ←
    rand (generate_product_json global_product_id);
  let vendor_counts := add_count vendor_id 1 vendor_counts in
  let category_counts := add_count category_id 1 category_counts in
  (if 0 <? i then write output_path ("," +:+ LF) else mret ());;
  write output_path (Json.dumps product);;
  mret (vendor_counts, category_counts).

(** The [try] block of the partition writer. *)
Definition write_partition (output_path : string) (start_product_id : Z)
    : M G (gmap Z Z * gmap Z Z) :=
  open_w output_path;;
  write output_path ("[" +:+ LF);;
  counts ← for_each (range PRODUCTS_PER_FILE) (∅, ∅)
              (write_product output_path start_product_id);
  write output_path (LF +:+ "]");;
  mret counts.

Definition generate_interleaved_products_for_file
    (file_part_index start_product_id : Z) : M G (option tally) :=
  let output_path := part_path file_part_index in
  print (LogGenerating PRODUCTS_PER_FILE file_part_index);;
  outcome ← try_except
    (counts ← write_partition output_path start_product_id; mret (Some counts))
    (fun e => print (LogErrorWriting file_part_index e);; mret None);
  match outcome with
  | None => mret None
  | Some (vendor_counts, category_counts) =>
      print (LogFinished file_part_index PRODUCTS_PER_FILE);;
      mret (Some {| file_index := file_part_index;
                    category_counts := category_counts;
                    vendor_counts := vendor_counts |})
  end.

(** The two lists are extended in place; the extended lists are
    returned. *)
Definition generate_base_data (categories_data vendors_data : list pyval)
    : M G (list pyval * list pyval) :=
  categories_data ← for_each (range NUM_CATEGORIES) categories_data
    (fun i data =>
       word ← rand get_random_word;
       mret (data ++ [PDict [
         ("_id", PInt i);
         ("label", PStr ("Category Label " +:+ str_int i +:+ " - " +:+ word));
         ("products_count", PInt 0)]])%list);
  vendors_data ← for_each (range VENDOR_COUNT) vendors_data
    (fun i data =>
       mret (data ++ [PDict [
         ("_id", PInt i);
         ("full_name", PStr ("Vendor Company " +:+ str_int i));
         ("products_count", PInt 0)]])%list);
  dump_json CATEGORIES_FILE (PList categories_data);;
  dump_json VENDORS_FILE (PList vendors_data);;
  mret (categories_data, vendors_data).

(** [for key, count in counts.items(): total[key] += count] *)
Definition add_counts (total counts : gmap Z Z) : gmap Z Z :=
  map_fold add_count total counts.

(** The integer that a value is equal to, as a dictionary key: integers,
    booleans and whole floats; [None] for the other hashable values; lists
    and dictionaries cannot be keys. *)
Definition int_key (v : pyval) : result (option Z) :=
  match v with
  | PInt z => Ok (Some z)
  | PBool b => Ok (Some (if b then 1 else 0))
  | PFloat f =>
      let scale := 10 ^ Z.of_nat (fl_places f) in
      Ok (if fl_mant f `mod` scale =? 0 then Some (fl_mant f `div` scale)
          else None)
  | PNone | PStr _ => Ok None
  | PList _ | PDict _ => Raise TypeError
  end.

(** [total[key]] on a [defaultdict(int)] *)
Definition total_of (total : gmap Z Z) (key : option Z) : Z :=
  match key with
  | Some z => default 0 (total !! z)
  | None => 0
  end.

(** [entity["products_count"] = total[entity["_id"]]] *)
Definition update_entity (total : gmap Z Z) (entity : pyval) : result pyval :=
  entity_id ← py_getitem entity "_id";
  key ← int_key entity_id;
  py_setitem entity "products_count" (PInt (total_of total key)).

(** [for entity in data: ...]: the elements of a list are updated in
    place; any other value that has elements has none that can be
    subscripted by a key. *)
Definition update_products_count (total : gmap Z Z) (data : pyval)
    : result pyval :=
  match data with
  | PList l => l' ← mapM (update_entity total) l; mret (PList l')
  | PDict [] | PStr EmptyString => Ok data
  | _ => Raise TypeError
  end.

(** The aggregation loop: the state is the pair of the vendor totals and
    the category totals. *)
Definition aggregate_step (totals : gmap Z Z * gmap Z Z)
    (result : option tally) : gmap Z Z * gmap Z Z :=
  match result with
  | None => totals
  | Some r =>
      let '(total_vendor_counts, total_category_counts) := totals in
      let total_category_counts :=
        add_counts total_category_counts (category_counts r) in
      let total_vendor_counts :=
        add_counts total_vendor_counts (vendor_counts r) in
      (total_vendor_counts, total_category_counts)
  end.

Definition aggregate (results : list (option tally)) : gmap Z Z * gmap Z Z :=
  fold_left aggregate_step results (∅, ∅).

Definition update_base_data_counts (results : list (option tally)) : M G () :=
  let '(total_vendor_counts, total_category_counts) := aggregate results in
  categories_data ← load_json CATEGORIES_FILE;
  vendors_data ← load_json VENDORS_FILE;
  categories_data ←
    lift_result (update_products_count total_category_counts categories_data);
  vendors_data ←
    lift_result (update_products_count total_vendor_counts vendors_data);
  dump_json CATEGORIES_FILE categories_data;;
  dump_json VENDORS_FILE vendors_data;;
  print LogCountsUpdated.

(** [range(1, n + 1)] *)
Definition range_from_1 (n : Z) : list Z := seqZ 1 n.

(** The loop that builds the task list; its state is the list and
    [current_product_id]. *)
Definition build_tasks : list (Z * Z) :=
  (fold_left
     (fun '(tasks, current_product_id) i =>
        ((tasks ++ [(i, current_product_id)])%list,
         current_product_id + PRODUCTS_PER_FILE))
     (range_from_1 SPLIT_PARTS) ([], 0)).1.

(** The lines that a lost worker had printed. *)
Definition lost_lines (file_part_index : Z) (o : lost_output) : list log_line :=
  match o with
  | PrintedNothing => []
  | PrintedGenerating => [LogGenerating PRODUCTS_PER_FILE file_part_index]
  | PrintedFinished =>
      [LogGenerating PRODUCTS_PER_FILE file_part_index;
       LogFinished file_part_index PRODUCTS_PER_FILE]
  | PrintedError e =>
      [LogGenerating PRODUCTS_PER_FILE file_part_index;
       LogErrorWriting file_part_index e]
  end.

(** What a lost worker leaves behind: it touched its own file and the
    shared output, and nothing else. *)
Definition leave (file_part_index : Z) (lost : lost_worker) (st : process G)
    : process G :=
  let path := part_path file_part_index in
  Process (rng st)
    (match left_file lost with
     | Some text => <[path := text]> (files st)
     | None => files st
     end)
    (<[path := (default O (io_count st !! path) + left_operations lost)%nat]>
       (io_count st))
    (stdout st ++ lost_lines file_part_index (left_output lost)).

(** [future.result()]: the worker ran the partition writer in its own
    process, on the shared files, and left its prints on the shared
    output; or the pool lost the worker, and the call raises, whatever
    the worker had done until then. *)
Definition future_result (task : Z * Z) : M G (option tally) := fun st =>
  let '(file_idx, start_id) := task in
  match pool_broken file_idx with
  | Some lost => (Raise BrokenProcessPool, leave file_idx lost st)
  | None =>
      let '(r, st') :=
        generate_interleaved_products_for_file file_idx start_id
          (Process (worker_rng file_idx) (files st) (io_count st) (stdout st)) in
      (r, Process (rng st) (files st') (io_count st') (stdout st'))
  end.

(** The body of the loop over the completed futures. *)
Definition collect_result (future : Z * Z) (results : list (option tally))
    : M G (list (option tally)) :=
  try_except
    (result ← future_result future;
     match result with
     | Some _ => mret (results ++ [result])%list
     | None => mret results
     end)
    (fun e => print (LogErrorGeneration e);; mret results).

Definition run_interleaved_generation : M G (list (option tally)) :=
  print LogStarting;;
  print (LogTotal TOTAL_PRODUCTS PRODUCTS_PER_FILE);;
  print LogUsingProcesses;;
  let tasks := build_tasks in
  for_each (as_completed tasks) [] collect_result.

(** *** What the theorems below talk about *)

(** The records that a partition generates, in order, with the vendor and
    category drawn for each. *)
Definition partition_products (start_product_id : Z) (ids : list Z)
    : Rand G (list (pyval * Z * Z)) :=
  mapM (fun i => generate_product_json (start_product_id + i)) ids.

(** The text of a partition file that holds the given records. *)
Definition artifact_text (records : list pyval) : string :=
  "[" +:+ LF +:+ String.concat ("," +:+ LF) (map Json.dumps records)
  +:+ LF +:+ "]".

(** The counts of a sequence of records, on top of [counts]. *)
Definition count_products (products : list (pyval * Z * Z))
    (counts : gmap Z Z * gmap Z Z) : gmap Z Z * gmap Z Z :=
  fold_left
    (fun counts p => (add_count p.1.2 1 counts.1, add_count p.2 1 counts.2))
    products counts.

(** The [product_id] of a record. *)
Definition product_id_of (record : pyval) : Z :=
  match py_getitem record "product_id" with
  | Ok (PInt z) => z
  | _ => -1
  end.

(** The [products_count] of a catalog entry, and their sum over the
    catalog stored in a text. *)
Definition products_count_of (entity : pyval) : Z :=
  match py_getitem entity "products_count" with
  | Ok (PInt z) => z
  | _ => 0
  end.

Definition catalog_entries (text : option string) : list pyval :=
  match text with
  | Some t =>
      match Json.loads t with
      | Ok (PList entities) => entities
      | _ => []
      end
  | None => []
  end.

Definition catalog_total (text : option string) : Z :=
  foldr (fun e acc => products_count_of e + acc) 0 (catalog_entries text).

(** The sum of [f] over a list of keys. *)
Definition sum_list (f : Z → Z) (keys : list Z) : Z :=
  foldr (fun key acc => f key + acc) 0 keys.

(** The count that a tally holds for [key]; a missing key counts for
    nothing. *)
Definition count_of (counts : gmap Z Z) (key : Z) : Z :=
  default 0 (counts !! key).

(** The sum of the counts of the keys in [0, n). *)
Definition sum_over (n : Z) (counts : gmap Z Z) : Z :=
  sum_list (count_of counts) (range n).

(** The task that the orchestrator builds for partition [i]. *)
Definition task_of `{Config} (i : Z) : Z * Z := (i, (i - 1) * PRODUCTS_PER_FILE).

(** The total of the category counts, and of the vendor counts, that the
    given results hold for [key]. *)
Definition category_total (results : list (option tally)) (key : Z) : Z :=
  foldr (fun result acc =>
           match result with
           | Some r => count_of (category_counts r) key + acc
           | None => acc
           end) 0 results.

Definition vendor_total (results : list (option tally)) (key : Z) : Z :=
  foldr (fun result acc =>
           match result with
           | Some r => count_of (vendor_counts r) key + acc
           | None => acc
           end) 0 results.

(** The entries of the two catalogs. *)
Definition category_record (i : Z) (word : string) (count : Z) : pyval :=
  PDict [("_id", PInt i);
         ("label", PStr ("Category Label " +:+ str_int i +:+ " - " +:+ word));
         ("products_count", PInt count)].

Definition vendor_record (i : Z) (count : Z) : pyval :=
  PDict [("_id", PInt i);
         ("full_name", PStr ("Vendor Company " +:+ str_int i));
         ("products_count", PInt count)].

(** What the loop of the partition writer appends to the file for the
    indices [xs] and the records generated for them. *)
Fixpoint pieces (xs : list Z) (records : list pyval) : string :=
  match xs, records with
  | i :: xs', r :: rs =>
      (if 0 <? i then "," +:+ LF else "") +:+ Json.dumps r +:+ pieces xs' rs
  | _, _ => ""
  end.

(** The initializer followed by the reconciler, on given results. *)
Definition init_and_reconcile (results : list (option tally)) : M G () :=
  generate_base_data [] [];;
  update_base_data_counts results.

(** The script, run as a program. *)
Definition main : M G () :=
  makedirs OUTPUT_DIR;;
  print LogGeneratingStructure;;
  generate_base_data [] [];;
  all_counts ← run_interleaved_generation;
  update_base_data_counts all_counts;;
  print LogComplete;;
  for_each (range_from_1 SPLIT_PARTS) ()
    (fun i _ => print (LogSavedTo i (part_path i)));;
  print LogTotalTime.

(** The tally that the future of a task gives back on [st]: none when
    the writer returned [None] or when the pool lost the worker. *)
Definition tally_of_future (task : Z * Z) (st : process G) : option tally :=
  match (future_result task st).1 with
  | Ok (Some t) => Some t
  | _ => None
  end.

(** The state in which the script calls the orchestrator. *)
Definition before_run (st : process G) : process G :=
  ((makedirs OUTPUT_DIR;;
    print LogGeneratingStructure;;
    generate_base_data [] []) st).2.

(** The tallies of the partitions that succeed in a run of the script
    from [st], in the order of completion: one for each task whose future
    gives back a tally on the files that the initializer left. *)
Definition collected (st : process G) : list tally :=
  omap (fun task => tally_of_future task (before_run st))
    (as_completed build_tasks).

End Script.

(** ** test_runner/app.py: the explain-plan helpers *)

Module TestRunner.

(** The body of the [try] block. *)
Definition count_shards_try (explain_json : pyval) : result Z :=
  stats ← py_get explain_json "executionStats" (PDict []);
  stages ← py_get stats "executionStages" (PDict []);
  in_stages ← py_contains "shards" stages;
  if (in_stages : bool) then
    shards ← py_getitem stages "shards";
    py_len shards
  else
    in_top ← py_contains "shards" explain_json;
    if (in_top : bool) then
      shards ← py_getitem explain_json "shards";
      py_len shards
    else Ok 1.

(** The bare [except:] turns every exception into the answer [0]. *)
Definition count_shards_from_explain (explain_json : pyval) : Z :=
  match count_shards_try explain_json with
  | Ok n => n
  | Raise _ => 0
  end.

(** What the sentence about dictionaries talks about. *)
Definition is_dict (v : pyval) : bool :=
  match v with PDict _ => true | _ => false end.

Definition has_key (key : string) (v : pyval) : bool :=
  match v with PDict d => dict_has key d | _ => false end.

(** [v[k1][k2]] is there and is a dictionary with the key [key]. *)
Definition has_key_under (k1 k2 key : string) (v : pyval) : bool :=
  match v with
  | PDict d =>
      match dict_lookup k1 d with
      | Some (PDict d1) =>
          match dict_lookup k2 d1 with
          | Some w => has_key key w
          | None => false
          end
      | _ => false
      end
  | _ => false
  end.

(** The entry [key] of a dictionary is absent or is itself a dictionary
    that satisfies [p]. *)
Definition absent_or_dict (key : string) (p : pydict → bool) (d : pydict) : bool :=
  match dict_lookup key d with
  | None => true
  | Some (PDict d') => p d'
  | Some _ => false
  end.

Definition stages_well_typed (d : pydict) : bool :=
  absent_or_dict "executionStats"
    (absent_or_dict "executionStages" (fun _ => true)) d.

(** *** The shard mapping *)

Definition SHARD_1_IDS : list Z := filter (fun i => i `mod` 3 = 0) (range 100).
Definition SHARD_2_IDS : list Z := filter (fun i => i `mod` 3 = 1) (range 100).
Definition SHARD_3_IDS : list Z := filter (fun i => i `mod` 3 = 2) (range 100).

(** *** [get_agg_stats] *)

(** [obj[0]]: the first element of a list, the first character of a
    string; the keys of a document are strings, so no dictionary has the
    key [0]; the other values cannot be subscripted. *)
Definition py_getitem_0 (obj : pyval) : result pyval :=
  match obj with
  | PList (x :: _) => Ok x
  | PList [] => Raise IndexError
  | PStr (String c _) => Ok (PStr (String c EmptyString))
  | PStr EmptyString => Raise IndexError
  | PDict _ => Raise KeyError
  | _ => Raise TypeError
  end.

(** [obj.items()]: only dictionaries have the method. *)
Definition py_items (obj : pyval) : result (list (string * pyval)) :=
  match obj with
  | PDict d => Ok d
  | _ => Raise AttributeError
  end.

(** The arithmetic of floats is a parameter: the sum of two floats, and
    the float an integer is converted to, which raises when the integer
    is too large. *)
Class FloatArith := {
  float_add : pyfloat → pyfloat → pyfloat;
  float_of_int : Z → result pyfloat
}.

(** The numbers: [int], [bool] (a subclass of [int]) and [float]. *)
Definition as_number (v : pyval) : option (Z + pyfloat) :=
  match v with
  | PInt z => Some (inl z)
  | PBool b => Some (inl (if b then 1 else 0))
  | PFloat f => Some (inr f)
  | _ => None
  end.

(** [a + b] when [a] is a number: the other values do not add to a
    number. *)
Definition py_add `{FloatArith} (a b : pyval) : result pyval :=
  match as_number a, as_number b with
  | Some (inl x), Some (inl y) => Ok (PInt (x + y))
  | Some (inl x), Some (inr g) =>
      f ← float_of_int x; Ok (PFloat (float_add f g))
  | Some (inr f), Some (inl y) =>
      g ← float_of_int y; Ok (PFloat (float_add f g))
  | Some (inr f), Some (inr g) => Ok (PFloat (float_add f g))
  | _, _ => Raise TypeError
  end.

(** Statements that read and assign the two local variables
    [total_examined] and [total_returned], and may raise. *)
Definition Totals (A : Type) : Type :=
  pyval * pyval → result A * (pyval * pyval).

#[global] Instance Totals_ret : MRet Totals := fun A a t => (Ok a, t).
#[global] Instance Totals_bind : MBind Totals := fun A B f m t =>
  match m t with
  | (Ok a, t') => f a t'
  | (Raise e, t') => (Raise e, t')
  end.

(** An expression that only returns or raises. *)
Definition value {A} (r : result A) : Totals A := fun t => (r, t).

(** [total_examined += x] and [total_returned += x] *)
Definition add_examined `{FloatArith} (x : pyval) : Totals () := fun t =>
  match py_add t.1 x with
  | Ok total => (Ok (), (total, t.2))
  | Raise e => (Raise e, t)
  end.

Definition add_returned `{FloatArith} (x : pyval) : Totals () := fun t =>
  match py_add t.2 x with
  | Ok total => (Ok (), (t.1, total))
  | Raise e => (Raise e, t)
  end.

(** [total_examined = x] and [total_returned = x] *)
Definition set_examined (x : pyval) : Totals () := fun t => (Ok (), (x, t.2)).
Definition set_returned (x : pyval) : Totals () := fun t => (Ok (), (t.1, x)).

(** [try: body except: pass] *)
Definition try_pass (body : Totals ()) : Totals () := fun t =>
  (Ok (), (body t).2).

(** [for x in xs: body(x)] *)
Fixpoint for_in {A} (xs : list A) (body : A → Totals ()) : Totals () :=
  match xs with
  | [] => mret ()
  | x :: xs' => body x;; for_in xs' body
  end.

(** The body of the loop over the shards. *)
Definition add_shard_stats `{FloatArith} (shard_data : pyval) : Totals () :=
  try_pass (
    in_stages ← value (py_contains "stages" shard_data);
    if (in_stages : bool) then
      cursor_stage ← value (stages ← py_getitem shard_data "stages";
                            first ← py_getitem_0 stages;
                            py_get first "$cursor" (PDict []));
      stats ← value (py_get cursor_stage "executionStats" (PDict []));
      examined ← value (py_get stats "totalDocsExamined" (PInt 0));
      add_examined examined;;
      returned ← value (py_get stats "nReturned" (PInt 0));
      add_returned returned
    else mret ()).

Definition get_agg_stats `{FloatArith} (explain_json : pyval) : pyval * pyval :=
  (try_pass (
     in_shards ← value (py_contains "shards" explain_json);
     if (in_shards : bool) then
       items ← value (shards ← py_getitem explain_json "shards";
                      py_items shards);
       for_in items (fun '(shard_name, shard_data) => add_shard_stats shard_data)
     else
       in_stages ← value (py_contains "stages" explain_json);
       if (in_stages : bool) then
         cursor_stage ← value (stages ← py_getitem explain_json "stages";
                               first ← py_getitem_0 stages;
                               py_get first "$cursor" (PDict []));
         stats ← value (py_get cursor_stage "executionStats" (PDict []));
         examined ← value (py_get stats "totalDocsExamined" (PInt 0));
         set_examined examined;;
         returned ← value (py_get stats "nReturned" (PInt 0));
         set_returned returned
       else mret ())
     (PInt 0, PInt 0)).2.

(** Float arithmetic on decimals kept exact, to run the model on answers
    whose statistics are integers. *)
Definition exact_floats : FloatArith := {|
  float_add := fun f g =>
    let p := max (fl_places f) (fl_places g) in
    Dec (fl_mant f * 10 ^ Z.of_nat (p - fl_places f)
         + fl_mant g * 10 ^ Z.of_nat (p - fl_places g)) p;
  float_of_int := fun z => Ok (Dec (z * 10) 1)
|}.

(** *** What the theorems on [get_agg_stats] talk about *)

(** [holder["stages"][0].get("$cursor", {}).get("executionStats", {})]:
    the statistics that both branches of [get_agg_stats] read. *)
Definition stats_at (holder : pyval) : result pyval :=
  stages ← py_getitem holder "stages";
  first ← py_getitem_0 stages;
  cursor_stage ← py_get first "$cursor" (PDict []);
  py_get cursor_stage "executionStats" (PDict []).

(** The integer that a statistic holds; a missing statistic counts for
    [0]. *)
Definition int_stat (key : string) (stats : pydict) : option Z :=
  match dict_lookup key stats with
  | None => Some 0
  | Some v =>
      match as_number v with
      | Some (inl z) => Some z
      | _ => None
      end
  end.

(** What the entry of a shard adds to the two totals. *)
Inductive shard_adds : pyval → Z * Z → Prop :=
| adds_no_stages data :
    py_contains "stages" data = Ok false → shard_adds data (0, 0)
| adds_not_a_container data e :
    py_contains "stages" data = Raise e → shard_adds data (0, 0)
| adds_unreadable data e :
    stats_at data = Raise e → shard_adds data (0, 0)
| adds_stats_not_a_dict data v :
    stats_at data = Ok v → is_dict v = false → shard_adds data (0, 0)
| adds_examined_not_a_number data stats v :
    stats_at data = Ok (PDict stats) →
    dict_lookup "totalDocsExamined" stats = Some v → as_number v = None →
    shard_adds data (0, 0)
| adds_examined_only data stats x v :
    stats_at data = Ok (PDict stats) →
    int_stat "totalDocsExamined" stats = Some x →
    dict_lookup "nReturned" stats = Some v → as_number v = None →
    shard_adds data (x, 0)
| adds_both data stats x y :
    stats_at data = Ok (PDict stats) →
    int_stat "totalDocsExamined" stats = Some x →
    int_stat "nReturned" stats = Some y →
    shard_adds data (x, y).

(** The entry of a shard that examined [examined] documents and returned
    [returned]. *)
Definition shard_entry (examined returned : pyval) : pyval :=
  PDict [("host", PStr "shard-a:27018");
         ("stages",
          PList [PDict [("$cursor",
                         PDict [("queryPlanner", PDict []);
                                ("executionStats",
                                 PDict [("executionSuccess", PBool true);
                                        ("nReturned", returned);
                                        ("totalDocsExamined", examined)])])];
                 PDict [("$group", PDict [])]])].

(** An aggregation answer with three shards: the second entry is not a
    document, the third has a [nReturned] that is not a number. *)
Definition explain_three_shards : pydict :=
  [("serverInfo", PDict []);
   ("stages", PList []);
   ("shards",
    PDict [("shard1", shard_entry (PInt 120) (PInt 7));
           ("shard2", PInt 3);
           ("shard3", shard_entry (PInt 40) PNone)])].

(** The answer of a single shard. *)
Definition explain_one_shard : pyval :=
  PDict [("stages",
          PList [PDict [("$cursor",
                         PDict [("executionStats",
                                 PDict [("nReturned", PInt 12)])])]])].

End TestRunner.

(** ** A small run

    Four partitions of three records each, three categories and two
    vendors; the futures complete last first; in the second scenario the
    file of partition 2 cannot be written after its second operation. *)

Module Scenario.

Definition config : Config := {|
  NUM_CATEGORIES := 3;
  VENDOR_COUNT := 2;
  ATTRIBUTES_PER_PRODUCT := 3;
  SPLIT_PARTS := 4;
  PRODUCTS_PER_FILE := 3
|}.

Definition no_faults : string → nat → bool := fun _ _ => false.

Definition part_2_fails : string → nat → bool :=
  fun path n => String.eqb path (part_path 2) && (2 <=? n)%nat.

Definition seeds (i : Z) : Z := 1000 + i.

Definition no_loss : Z → option lost_worker := fun _ => None.

Definition last_first (tasks : list (Z * Z)) : list (Z * Z) := reverse tasks.

Definition start : process Z := Process 42 ∅ ∅ [].

(** Three results, one of them of a partition that returned no tally, and
    the same results in another order. *)
Definition tally_1 : tally := Tally 1 {[0 := 2; 2 := 1]} {[0 := 1; 1 := 2]}.
Definition tally_3 : tally := Tally 3 {[1 := 3]} {[1 := 3]}.
Definition results : list (option tally) := [Some tally_1; None; Some tally_3].
Definition results_reordered : list (option tally) :=
  [None; Some tally_3; Some tally_1].

End Scenario.

(** ** What the further theorems talk about *)

(** The records of a list whose field [name] is the integer [key]. *)
Definition field_is (name : string) (key : Z) (record : pyval) : bool :=
  match py_getitem record name with
  | Ok (PInt z) => z =? key
  | _ => false
  end.

Definition count_where (name : string) (key : Z) (records : list pyval) : Z :=
  Z.of_nat (length (filter (fun r => field_is name key r = true) records)).

(** The number of records with the integer [key] in the field [name], in
    the arrays that the files at [paths] hold. *)
Definition count_in_files (fs : gmap string string) (name : string)
    (paths : list string) (key : Z) : Z :=
  foldr (fun path acc => count_where name key (catalog_entries (fs !! path)) + acc)
    0 paths.

(** An entity with its [products_count] set to the total of its [_id]. *)
Definition recount (total : Z → Z) (entity : pyval) : pyval :=
  match entity with
  | PDict d =>
      match dict_lookup "_id" d with
      | Some (PInt i) => PDict (dict_set "products_count" (PInt (total i)) d)
      | _ => entity
      end
  | _ => entity
  end.

Definition has_int_id (entity : pyval) : Prop :=
  ∃ i, py_getitem entity "_id" = Ok (PInt i).

(** The integers that [json] writes and reads back: CPython refuses to
    convert an integer of more than 4300 digits to or from text. *)
Definition MAX_STR_DIGITS : Z := 4300.

Definition convertible (z : Z) : bool := Z.abs z <? 10 ^ MAX_STR_DIGITS.

(** The values that [json.load] and [json.dump] handle as the model of
    [json] above does: integers that can be converted, no float, and at
    most [depth] levels of lists and dictionaries, far from the recursion
    limit. *)
Fixpoint plain (depth : nat) (v : pyval) : bool :=
  match v with
  | PNone | PBool _ | PStr _ => true
  | PInt z => convertible z
  | PFloat _ => false
  | PList l =>
      match depth with
      | O => false
      | S depth' => forallb (plain depth') l
      end
  | PDict d =>
      match depth with
      | O => false
      | S depth' => forallb (fun kv : string * pyval => plain depth' kv.2) d
      end
  end.

(** Further cases to run the model on. *)
Module Cases.

(** A configuration with no vendor, one with five attributes per product,
    and one with no record. *)
Definition no_vendors : Config := {|
  NUM_CATEGORIES := 3;
  VENDOR_COUNT := 0;
  ATTRIBUTES_PER_PRODUCT := 3;
  SPLIT_PARTS := 2;
  PRODUCTS_PER_FILE := 3
|}.

Definition five_attributes : Config := {|
  NUM_CATEGORIES := 3;
  VENDOR_COUNT := 2;
  ATTRIBUTES_PER_PRODUCT := 5;
  SPLIT_PARTS := 2;
  PRODUCTS_PER_FILE := 3
|}.

Definition no_records : Config := {|
  NUM_CATEGORIES := 3;
  VENDOR_COUNT := 2;
  ATTRIBUTES_PER_PRODUCT := 3;
  SPLIT_PARTS := 2;
  PRODUCTS_PER_FILE := 0
|}.

(** Catalogs that were not written by the initializer: compact text,
    ids in no order, a field of their own, a count that is missing. *)
Definition edited_categories : list pyval :=
  [PDict [("_id", PInt 2); ("label", PStr "Garden");
          ("products_count", PInt 99); ("note", PStr "kept")];
   PDict [("label", PStr "Tools"); ("_id", PInt 0)]].

Definition edited_vendors : list pyval :=
  [PDict [("_id", PInt 1); ("full_name", PStr "Acme")]].

Definition edited_catalogs : process Z :=
  Process 42
    {[CATEGORIES_FILE := Json.dumps (PList edited_categories);
      VENDORS_FILE := Json.dumps (PList edited_vendors)]}
    ∅ [].

(** A category catalog with an entry that has no [_id]. *)
Definition categories_without_id : list pyval :=
  [PDict [("_id", PInt 0); ("label", PStr "Tools")];
   PDict [("label", PStr "Garden")]].

Definition catalog_without_id : process Z :=
  Process 42
    {[CATEGORIES_FILE := Json.dumps (PList categories_without_id);
      VENDORS_FILE := Json.dumps (PList edited_vendors)]}
    ∅ [].

End Cases.

(** * Theorems *)

(** ** Rounding *)

Section Rounding.

Lemma round_half_even_ge (q : Q) (k : Z) :
  (inject_Z k <= q)%Q → k ≤ round_half_even q.
Proof.
  unfold Qle, round_half_even. simpl. intros Hk.
  assert (k ≤ Qnum q `div` Z.pos (Qden q)).
  { apply Z.div_le_lower_bound; lia. }
  destruct (_ ?= _); [destruct (Z.even _)|..]; lia.
Qed.

Lemma round_half_even_le (q : Q) (k : Z) :
  (q <= inject_Z k)%Q → round_half_even q ≤ k.
Proof.
  unfold Qle, round_half_even. simpl. intros Hk.
  pose proof (Z.div_mod (Qnum q) (Z.pos (Qden q)) ltac:(lia)) as Hdm.
  pose proof (Z.mod_pos_bound (Qnum q) (Z.pos (Qden q)) ltac:(lia)) as Hr.
  set (f := Qnum q `div` Z.pos (Qden q)) in *.
  set (r := Qnum q `mod` Z.pos (Qden q)) in *.
  assert (f ≤ k) by nia.
  destruct (Z.compare_spec (2 * r) (Z.pos (Qden q))) as [He|Hl|Hg].
  - destruct (Z.even f); [lia|]. nia.
  - lia.
  - nia.
Qed.

Lemma strip_zeros_SS m p :
  strip_zeros m (S (S p)) =
  if m `mod` 10 =? 0 then strip_zeros (m `div` 10) (S p) else Dec m (S (S p)).
Proof. reflexivity. Qed.

Lemma fl_value_strip_zeros m p :
  (fl_value (strip_zeros m p) == fl_value (Dec m p))%Q.
Proof.
  revert m. induction p as [|[|p] IH]; intros m; try reflexivity.
  rewrite strip_zeros_SS.
  destruct (Z.eqb_spec (m `mod` 10) 0) as [Hz|Hz]; [|reflexivity].
  eapply Qeq_trans; [apply IH|]. unfold fl_value, Qeq. simpl fl_mant. simpl fl_places. simpl Qnum. simpl Qden.
  pose proof (Z.div_mod m 10 ltac:(lia)) as Hm.
  assert (0 < 10 ^ Z.of_nat (S p)) by (apply Z.pow_pos_nonneg; lia).
  assert (0 < 10 ^ Z.of_nat (S (S p))) by (apply Z.pow_pos_nonneg; lia).
  rewrite !Z2Pos.id by done.
  replace (Z.of_nat (S (S p))) with (Z.succ (Z.of_nat (S p))) by lia.
  rewrite Z.pow_succ_r by lia.
  set (t := 10 ^ Z.of_nat (S p)) in *.
  set (d := m `div` 10) in *. rewrite Hz in Hm.
  replace m with (10 * d) by lia. ring.
Qed.

Lemma strip_zeros_places m p : (fl_places (strip_zeros m p) ≤ p)%nat.
Proof.
  revert m. induction p as [|[|p] IH]; intros m; [simpl; lia..|].
  rewrite strip_zeros_SS.
  destruct (_ =? _); [|simpl; lia]. specialize (IH (m `div` 10)). lia.
Qed.

Lemma strip_zeros_places_pos m p :
  (1 ≤ p)%nat → (1 ≤ fl_places (strip_zeros m p))%nat.
Proof.
  revert m. induction p as [|[|p] IH]; intros m Hp; [simpl; lia..|].
  rewrite strip_zeros_SS.
  destruct (_ =? _); [|simpl; lia]. apply IH. lia.
Qed.

(** Rounding keeps a value between two bounds that are themselves
    decimals with [ndigits] places. *)
Lemma py_round_range (x : Q) (nd : nat) (lo hi : Z) :
  (inject_Z lo <= x <= inject_Z hi)%Q →
  (inject_Z lo <= fl_value (py_round x nd) <= inject_Z hi)%Q.
Proof.
  intros [Hlo Hhi]. unfold py_round.
  pose proof (fl_value_strip_zeros
    (round_half_even (x * inject_Z (10 ^ Z.of_nat nd)) * 10) (S nd)) as ->.
  set (s := 10 ^ Z.of_nat nd).
  assert (Hs : 0 < s) by (apply Z.pow_pos_nonneg; lia).
  assert (lo * s ≤ round_half_even (x * inject_Z s)).
  { apply round_half_even_ge. rewrite inject_Z_mult.
    apply Qmult_le_compat_r; [done|]. unfold Qle; simpl; lia. }
  assert (round_half_even (x * inject_Z s) ≤ hi * s).
  { apply round_half_even_le. rewrite inject_Z_mult.
    apply Qmult_le_compat_r; [done|]. unfold Qle; simpl; lia. }
  unfold fl_value, Qle. simpl fl_mant. simpl fl_places. simpl Qnum. simpl Qden.
  assert (0 < 10 ^ Z.of_nat (S nd)) by (apply Z.pow_pos_nonneg; lia).
  rewrite !Z2Pos.id by done.
  replace (Z.of_nat (S nd)) with (Z.succ (Z.of_nat nd)) by lia.
  rewrite Z.pow_succ_r by lia. fold s. nia.
Qed.

Lemma py_round_places (x : Q) (nd : nat) :
  (1 ≤ fl_places (py_round x nd) ≤ max 1 nd)%nat.
Proof.
  unfold py_round. split; [apply strip_zeros_places_pos; lia|].
  destruct nd as [|nd]; [simpl; lia|].
  rewrite strip_zeros_SS, Z.mod_mul by lia.
  change (0 =? 0) with true. cbv iota. rewrite Z.div_mul by lia.
  etrans; [apply strip_zeros_places|]. lia.
Qed.

Lemma strip_zeros_is_canonical m p :
  (1 ≤ p)%nat → Json.canonical (strip_zeros m p).
Proof.
  revert m. induction p as [|[|p] IH]; intros m Hp; [lia|by split; simpl; auto|].
  rewrite strip_zeros_SS. destruct (Z.eqb_spec (m `mod` 10) 0) as [Hz|Hz].
  - apply IH. lia.
  - split; simpl; [lia|by right].
Qed.

Lemma py_round_canonical x nd : Json.canonical (py_round x nd).
Proof. apply strip_zeros_is_canonical. lia. Qed.

End Rounding.

(** ** Text: digits and string literals *)

Module TextFacts.
Import Json.

Lemma append_cons x (a b : string) : String x a +:+ b = String x (a +:+ b).
Proof. reflexivity. Qed.

Lemma append_nil_l (b : string) : "" +:+ b = b.
Proof. reflexivity. Qed.

Lemma append_assoc (a b c : string) : (a +:+ b) +:+ c = a +:+ (b +:+ c).
Proof.
  induction a as [|x a IH]; [done|]. rewrite !append_cons. by rewrite IH.
Qed.

Lemma append_nil_r (a : string) : a +:+ "" = a.
Proof. induction a as [|x a IH]; [done|]. rewrite append_cons. by rewrite IH. Qed.

Lemma length_append (a b : string) :
  String.length (a +:+ b) = (String.length a + String.length b)%nat.
Proof.
  induction a as [|x a IH]; [done|]. rewrite append_cons. simpl. by rewrite IH.
Qed.

(** Appending to a literal, character by character. *)
Ltac norm_append := rewrite ?append_assoc, ?append_cons, ?append_nil_l.

Lemma digit_char_spec d :
  0 ≤ d < 10 →
  is_digit (digit_char d) = true ∧ digit_value (digit_char d) = d
  ∧ is_ws (digit_char d) = false
  ∧ (Ascii.eqb (digit_char d) "0" = true → d = 0).
Proof.
  intros Hd.
  assert (d = 0 ∨ d = 1 ∨ d = 2 ∨ d = 3 ∨ d = 4 ∨ d = 5 ∨ d = 6 ∨ d = 7
          ∨ d = 8 ∨ d = 9) as Hcases by lia.
  repeat destruct Hcases as [->|Hcases]; try subst d; by vm_compute.
Qed.

Lemma str_nat_go_append fuel n acc rest :
  str_nat_go fuel n acc +:+ rest = str_nat_go fuel n (acc +:+ rest).
Proof.
  revert n acc. induction fuel as [|fuel IH]; intros n acc; simpl; [done|].
  destruct (n <? 10); [done|]. by rewrite IH, append_cons.
Qed.

Lemma str_nat_go_S fuel n acc :
  str_nat_go (S fuel) n acc =
  if n <? 10 then String (digit_char (n `mod` 10)) acc
  else str_nat_go fuel (n `div` 10) (String (digit_char (n `mod` 10)) acc).
Proof. reflexivity. Qed.

(** Reading back the digits that [str_nat_go] wrote. *)
Lemma span_digits_str_nat_go fuel n acc a count :
  0 ≤ n < 2 ^ Z.of_nat (S fuel) →
  ∃ len, span_digits a count (str_nat_go (S fuel) n acc)
         = span_digits (a * 10 ^ Z.of_nat len + n) (count + len) acc
         ∧ (0 < len)%nat.
Proof.
  revert n acc. induction fuel as [|fuel IH]; intros n acc Hn.
  - change (2 ^ Z.of_nat 1) with 2 in Hn.
    exists 1%nat. split; [|lia]. cbn [str_nat_go].
    replace (n <? 10) with true by (symmetry; apply Z.ltb_lt; lia).
    rewrite Z.mod_small by lia.
    destruct (digit_char_spec n ltac:(lia)) as (Hd & Hv & _).
    cbn [span_digits]. rewrite Hd, Hv. f_equal; [|lia].
    change (10 ^ Z.of_nat 1) with 10. f_equal. lia.
  - rewrite (str_nat_go_S (S fuel)).
    pose proof (Z.mod_pos_bound n 10 ltac:(lia)) as Hm.
    destruct (digit_char_spec (n `mod` 10) Hm) as (Hd & Hv & _).
    destruct (Z.ltb_spec n 10) as [Hlt|Hge].
    + exists 1%nat. split; [|lia]. rewrite Z.mod_small by lia.
      rewrite Z.mod_small in Hd, Hv by lia.
      cbn [span_digits]. rewrite Hd, Hv. f_equal; [|lia].
      change (10 ^ Z.of_nat 1) with 10. f_equal. lia.
    + destruct (IH (n `div` 10) (String (digit_char (n `mod` 10)) acc))
        as (len & Hspan & Hlen).
      { split; [apply Z.div_pos; lia|].
        apply Z.div_lt_upper_bound; [lia|].
        replace (Z.of_nat (S (S fuel))) with (Z.succ (Z.of_nat (S fuel))) in Hn
          by lia.
        rewrite Z.pow_succ_r in Hn by lia. lia. }
      exists (S len). split; [|lia]. rewrite Hspan.
      cbn [span_digits]. rewrite Hd, Hv. f_equal; [|lia].
      replace (Z.of_nat (S len)) with (Z.succ (Z.of_nat len)) by lia.
      rewrite Z.pow_succ_r by lia.
      pose proof (Z.div_mod n 10 ltac:(lia)) as Hdm.
      set (P := 10 ^ Z.of_nat len).
      set (q := n `div` 10) in *. set (r := n `mod` 10) in *.
      rewrite Hdm. ring.
Qed.

Lemma log2_fuel n : 0 ≤ n → n < 2 ^ Z.of_nat (S (Z.to_nat (Z.log2 n))).
Proof.
  intros Hn. destruct (decide (n = 0)) as [->|Hne]; [done|].
  pose proof (Z.log2_spec n ltac:(lia)) as [_ Hlt].
  pose proof (Z.log2_nonneg n).
  replace (Z.of_nat (S (Z.to_nat (Z.log2 n)))) with (Z.succ (Z.log2 n)) by lia.
  done.
Qed.

Lemma span_digits_str_nat n rest a count :
  0 ≤ n →
  ∃ len, span_digits a count (str_nat n +:+ rest)
         = span_digits (a * 10 ^ Z.of_nat len + n) (count + len) rest
         ∧ (0 < len)%nat.
Proof.
  intros Hn. unfold str_nat. rewrite str_nat_go_append, append_nil_l.
  apply span_digits_str_nat_go. split; [done|]. by apply log2_fuel.
Qed.

(** The first digit written is not a zero, except for the number zero. *)
Lemma str_nat_go_head fuel n acc :
  0 < n < 2 ^ Z.of_nat (S fuel) →
  ∃ c r, str_nat_go (S fuel) n acc = String c r
         ∧ is_digit c = true ∧ Ascii.eqb c "0" = false.
Proof.
  revert n acc. induction fuel as [|fuel IH]; intros n acc Hn.
  - change (2 ^ Z.of_nat 1) with 2 in Hn. assert (n = 1) as -> by lia.
    by eexists _, _.
  - rewrite (str_nat_go_S (S fuel)). destruct (Z.ltb_spec n 10) as [Hlt|Hge].
    + rewrite Z.mod_small by lia.
      destruct (digit_char_spec n ltac:(lia)) as (Hd & _ & _ & Hz).
      eexists _, _. split; [done|]. split; [done|].
      destruct (Ascii.eqb _ _); [|done]. lia.
    + apply IH. split; [apply Z.div_str_pos; lia|].
      apply Z.div_lt_upper_bound; [lia|].
      replace (Z.of_nat (S (S fuel))) with (Z.succ (Z.of_nat (S fuel))) in Hn
        by lia.
      rewrite Z.pow_succ_r in Hn by lia. lia.
Qed.

Lemma str_nat_head n :
  0 ≤ n →
  ∃ c r, str_nat n = String c r ∧ is_digit c = true
         ∧ (Ascii.eqb c "0" = true → n = 0 ∧ r = "").
Proof.
  intros Hn. destruct (decide (n = 0)) as [->|Hne].
  - by eexists _, _.
  - destruct (str_nat_go_head (Z.to_nat (Z.log2 n)) n "") as (c & r & Hs & Hd & Hz).
    { split; [lia|]. by apply log2_fuel. }
    exists c, r. split; [done|]. split; [done|]. by rewrite Hz.
Qed.

Lemma span_digits_stop a count rest :
  starts_with_digit rest = false → span_digits a count rest = (a, count, rest).
Proof. destruct rest as [|c r]; simpl; [done|]. by intros ->. Qed.

Lemma number_ends_no_digit rest :
  number_ends rest = true → starts_with_digit rest = false.
Proof.
  destruct rest as [|c r]; simpl; [done|].
  destruct (is_digit c); simpl; [done|done].
Qed.

Lemma scan_int_part_str_nat n rest :
  0 ≤ n → starts_with_digit rest = false →
  scan_int_part (str_nat n +:+ rest) = Some (n, rest).
Proof.
  intros Hn Hrest.
  destruct (str_nat_head n Hn) as (c & r & Hs & Hd & Hz).
  destruct (span_digits_str_nat n rest 0 0 Hn) as (len & Hspan & Hlen).
  rewrite Hs in Hspan |- *. rewrite append_cons in Hspan |- *.
  unfold scan_int_part. rewrite Hd.
  destruct (Ascii.eqb c "0") eqn:Hc.
  - destruct (Hz eq_refl) as [-> ->]. by rewrite append_nil_l.
  - rewrite Hspan, span_digits_stop by done.
    by replace (0 * 10 ^ Z.of_nat len + n) with n by lia.
Qed.

Lemma scan_sign_digit c r :
  is_digit c = true → scan_sign (String c r) = (false, String c r).
Proof. destruct c as [[] [] [] [] [] [] [] []]; by vm_compute. Qed.

Lemma is_ws_ends_number c : is_ws c = true → ∀ r, number_ends (String c r) = true.
Proof. destruct c as [[] [] [] [] [] [] [] []]; by vm_compute. Qed.

Lemma is_digit_not_ws c : is_digit c = true → is_ws c = false.
Proof. destruct c as [[] [] [] [] [] [] [] []]; by vm_compute. Qed.

Lemma scan_frac_none ip rest :
  number_ends rest = true → scan_frac ip rest = (ip, O, rest).
Proof.
  destruct rest as [|c r]; [done|].
  destruct c as [[] [] [] [] [] [] [] []]; by vm_compute.
Qed.

Lemma scan_exp_none rest :
  number_ends rest = true → scan_exp rest = (None, rest).
Proof.
  destruct rest as [|c r]; [done|].
  destruct c as [[] [] [] [] [] [] [] []]; by vm_compute.
Qed.

(** An integer is read back, whatever follows it that ends a number. *)
Lemma scan_number_str_int z rest :
  number_ends rest = true →
  scan_number (str_int z +:+ rest) = Some (PInt z, rest).
Proof.
  intros Hrest. pose proof (number_ends_no_digit rest Hrest) as Hnd.
  unfold scan_number, str_int.
  destruct (Z.ltb_spec z 0) as [Hneg|Hpos].
  - rewrite append_assoc, append_cons, append_nil_l.
    change (scan_sign (String "-" ?r)) with (true, r). cbv beta iota zeta.
    rewrite scan_int_part_str_nat by (done || lia).
    rewrite scan_frac_none, scan_exp_none by done.
    by replace (- - z) with z by lia.
  - destruct (str_nat_head z Hpos) as (c & r & Hs & Hd & _).
    pose proof (scan_int_part_str_nat z rest Hpos Hnd) as Hip.
    rewrite Hs in Hip |- *. rewrite append_cons in Hip |- *.
    rewrite scan_sign_digit by done. cbv beta iota zeta. rewrite Hip.
    by rewrite scan_frac_none, scan_exp_none.
Qed.

Lemma frac_digits_append p r acc rest :
  frac_digits p r acc +:+ rest = frac_digits p r (acc +:+ rest).
Proof.
  revert r acc. induction p as [|p IH]; intros r acc; simpl; [done|].
  by rewrite IH, append_cons.
Qed.

Lemma span_digits_frac_digits p r acc a count :
  0 ≤ r < 10 ^ Z.of_nat p →
  span_digits a count (frac_digits p r acc)
  = span_digits (a * 10 ^ Z.of_nat p + r) (count + p) acc.
Proof.
  revert r acc. induction p as [|p IH]; intros r acc Hr.
  - change (10 ^ Z.of_nat 0) with 1 in *. simpl.
    f_equal; [f_equal; lia|lia].
  - replace (Z.of_nat (S p)) with (Z.succ (Z.of_nat p)) in * by lia.
    rewrite Z.pow_succ_r in * by lia.
    pose proof (Z.mod_pos_bound r 10 ltac:(lia)) as Hm.
    destruct (digit_char_spec (r `mod` 10) Hm) as (Hd & Hv & _).
    simpl frac_digits. rewrite IH.
    2:{ split; [apply Z.div_pos; lia|]. apply Z.div_lt_upper_bound; lia. }
    cbn [span_digits]. rewrite Hd, Hv.
    pose proof (Z.div_mod r 10 ltac:(lia)) as Hdm.
    set (P := 10 ^ Z.of_nat p) in *.
    set (q := r `div` 10) in *. set (d := r `mod` 10) in *.
    clearbody q d. subst r.
    replace (10 * (a * P + q) + d) with (a * (10 * P) + (10 * q + d)) by ring.
    f_equal. lia.
Qed.

Lemma strip_zeros_canonical m p :
  canonical (Dec m p) → strip_zeros (m * 10) (S p) = Dec m p.
Proof.
  intros [Hp Hc]. simpl in Hp, Hc.
  destruct p as [|p]; [lia|].
  rewrite strip_zeros_SS, Z.mod_mul, Z.div_mul by lia.
  change (0 =? 0) with true. cbv iota.
  destruct p as [|p]; [done|].
  rewrite strip_zeros_SS.
  destruct Hc as [Hc|Hc]; [lia|].
  by destruct (Z.eqb_spec (m `mod` 10) 0).
Qed.

(** A float is read back. *)
Lemma scan_number_repr_float f rest :
  canonical f → number_ends rest = true →
  scan_number (repr_float f +:+ rest) = Some (PFloat f, rest).
Proof.
  destruct f as [m p]. intros Hcan Hrest.
  pose proof Hcan as [Hp _]. simpl in Hp.
  pose proof (number_ends_no_digit rest Hrest) as Hnd.
  unfold repr_float. simpl fl_mant. simpl fl_places.
  set (scale := 10 ^ Z.of_nat p).
  assert (Hscale : 0 < scale) by (apply Z.pow_pos_nonneg; lia).
  set (a := Z.abs m).
  assert (Hq : 0 ≤ a `div` scale) by (apply Z.div_pos; lia).
  pose proof (Z.mod_pos_bound a scale Hscale) as Hr.
  destruct p as [|p']; [lia|]. set (p := S p') in *.
  assert (Hint : ∀ tail, starts_with_digit tail = false →
            scan_int_part (str_nat (a `div` scale) +:+ tail)
            = Some (a `div` scale, tail))
    by (intros; by apply scan_int_part_str_nat).
  assert (Hfrac : scan_frac (a `div` scale)
            ("." +:+ frac_digits p (a `mod` scale) "" +:+ rest) = (a, p, rest)).
  { rewrite append_cons, append_nil_l. unfold scan_frac.
    rewrite frac_digits_append, append_nil_l.
    rewrite span_digits_frac_digits by done.
    rewrite span_digits_stop by done.
    replace (a `div` scale * 10 ^ Z.of_nat p + a `mod` scale) with a.
    2:{ fold scale. pose proof (Z.div_mod a scale ltac:(lia)). lia. }
    by unfold p. }
  unfold scan_number.
  destruct (Z.ltb_spec m 0) as [Hneg|Hpos].
  - rewrite !append_assoc, append_cons, append_nil_l.
    change (scan_sign (String "-" ?r)) with (true, r). cbv beta iota zeta.
    rewrite Hint by done. rewrite Hfrac, scan_exp_none by done.
    unfold p at 1. unfold float_of_decimal. simpl default.
    rewrite Z.sub_0_r.
    replace (0 <=? Z.of_nat p) with true by (symmetry; apply Z.leb_le; lia).
    rewrite Nat2Z.id. replace (- a) with m by lia.
    by rewrite strip_zeros_canonical.
  - rewrite append_nil_l, !append_assoc.
    destruct (str_nat_head _ Hq) as (c & r & Hs & Hd & _).
    specialize (Hint ("." +:+ frac_digits p (a `mod` scale) "" +:+ rest) eq_refl).
    rewrite Hs in Hint |- *. rewrite append_cons in Hint |- *.
    rewrite scan_sign_digit by done. cbv beta iota zeta.
    rewrite Hint, Hfrac, scan_exp_none by done.
    unfold p at 1. unfold float_of_decimal. simpl default.
    rewrite Z.sub_0_r.
    replace (0 <=? Z.of_nat p) with true by (symmetry; apply Z.leb_le; lia).
    rewrite Nat2Z.id. replace a with m by lia.
    by rewrite strip_zeros_canonical.
Qed.

(** String literals *)

Lemma scanstring_escape_char c r :
  scanstring (escape_char c +:+ r) =
  match scanstring r with
  | Some (k, rest) => Some (String c k, rest)
  | None => None
  end.
Proof.
  destruct c as [[] [] [] [] [] [] [] []];
    match goal with
    | |- context [escape_char ?c] =>
        let e := eval vm_compute in (escape_char c) in
        change (escape_char c) with e
    end;
    rewrite ?append_cons, ?append_nil_l; reflexivity.
Qed.

Lemma scanstring_escape s rest :
  scanstring (escape s +:+ String DQ rest) = Some (s, rest).
Proof.
  induction s as [|c s IH]; [done|].
  simpl escape. by rewrite append_assoc, scanstring_escape_char, IH.
Qed.

(** White space *)

Lemma skip_ws_all_ws w s : all_ws w = true → skip_ws (w +:+ s) = skip_ws s.
Proof.
  unfold all_ws. induction w as [|c w IH]; simpl; [done|].
  intros [Hc Hw]%andb_prop. rewrite ?append_cons. simpl. rewrite Hc. auto.
Qed.

Lemma number_ends_all_ws w c s :
  all_ws w = true → number_ends (String c s) = true →
  number_ends (w +:+ String c s) = true.
Proof.
  unfold all_ws. destruct w as [|x w]; [done|]. simpl list_ascii_of_string.
  simpl forallb. intros [Hx _]%andb_prop _. rewrite append_cons.
  by apply is_ws_ends_number.
Qed.

Lemma all_ws_spaces n : all_ws (spaces n) = true.
Proof. induction n as [|n IH]; [done|]. unfold all_ws in *. simpl. done. Qed.

Lemma all_ws_newline_indent indent level :
  all_ws (newline_indent indent level) = true.
Proof.
  destruct indent as [n|]; [|done]. unfold newline_indent, LF.
  rewrite append_cons, append_nil_l. unfold all_ws. simpl.
  apply all_ws_spaces.
Qed.

Lemma skip_ws_head c r : is_ws c = false → skip_ws (String c r) = String c r.
Proof. simpl. by intros ->. Qed.

End TextFacts.

(** ** Decoding what was encoded *)

Module JsonFacts.
Import Json TextFacts.

Lemma pyval_ind' (P : pyval → Prop) :
  P PNone → (∀ b, P (PBool b)) → (∀ z, P (PInt z)) → (∀ f, P (PFloat f)) →
  (∀ s, P (PStr s)) →
  (∀ l, Forall P l → P (PList l)) →
  (∀ d, Forall (fun kv => P kv.2) d → P (PDict d)) →
  ∀ v, P v.
Proof.
  intros HN HB HI HF HS HL HD. fix IH 1.
  intros [|b|z|f|s|l|d];
    [apply HN|apply HB|apply HI|apply HF|apply HS|apply HL|apply HD].
  - induction l as [|x l IHl]; constructor; [apply IH|apply IHl].
  - induction d as [|[k x] d IHd]; constructor; [apply IH|apply IHd].
Qed.

(** An encoder [enc] and a scanner [scan] agree on [x]: the text of [x] is
    read back, and it does not start with white space. *)
Definition reads_back (scan : string → option (pyval * string))
    (enc : pyval → string) (x : pyval) : Prop :=
  (∀ tail, number_ends tail = true → scan (enc x +:+ tail) = Some (x, tail))
  ∧ (∀ tail, skip_ws (enc x +:+ tail) = enc x +:+ tail).

Lemma concat_cons_cons sep (a b : string) l :
  String.concat sep (a :: b :: l) = a +:+ sep +:+ String.concat sep (b :: l).
Proof. reflexivity. Qed.

(** The elements of an array, written with a comma and white space between
    them and white space before the closing bracket, are read back. *)
Lemma scan_items_render scan enc sep_ws close_ws l rest :
  all_ws sep_ws = true → all_ws close_ws = true →
  Forall (reads_back scan enc) l → l ≠ [] →
  ∀ k, (length l ≤ k)%nat →
  scan_items scan k
    (String.concat ("," +:+ sep_ws) (map enc l) +:+ close_ws +:+ "]" +:+ rest)
  = Some (l, rest).
Proof.
  intros Hsep Hclose HF Hne. induction HF as [|x l [Hx Hxs] HF IH]; [done|].
  intros k Hk. destruct k as [|k]; [simpl in Hk; lia|]. simpl in Hk.
  destruct l as [|y l].
  - simpl map. simpl String.concat. cbn [scan_items].
    rewrite Hx.
    2:{ rewrite append_cons, append_nil_l. by apply number_ends_all_ws. }
    rewrite skip_ws_all_ws by done. rewrite append_cons, append_nil_l.
    rewrite skip_ws_head by done. done.
  - simpl map. rewrite concat_cons_cons. rewrite !append_assoc.
    cbn [scan_items]. rewrite Hx by done.
    match goal with
    | |- context [skip_ws ("," +:+ sep_ws +:+ ?X)] =>
        change ("," +:+ sep_ws +:+ X) with (String "," (sep_ws +:+ X))
    end.
    rewrite skip_ws_head by done.
    change (Ascii.eqb "," "]") with false. change (Ascii.eqb "," ",") with true.
    cbv iota. rewrite skip_ws_all_ws by done.
    specialize (IH ltac:(done) k ltac:(simpl in *; lia)).
    simpl map in IH. inversion HF as [|? ? [_ Hys] _]; subst.
    assert (Hskip : ∀ tail,
      skip_ws (String.concat ("," +:+ sep_ws) (enc y :: map enc l) +:+ tail)
      = String.concat ("," +:+ sep_ws) (enc y :: map enc l) +:+ tail).
    { intros tail. destruct l as [|z l]; [apply Hys|].
      simpl map. rewrite concat_cons_cons, !append_assoc. apply Hys. }
    rewrite Hskip. by rewrite IH.
Qed.

(** The text of one member of an object. *)
Definition member_text (enc : pyval → string) (kv : string * pyval) : string :=
  encode_string kv.1 +:+ ": " +:+ enc kv.2.

Lemma member_text_eq enc key x tail :
  member_text enc (key, x) +:+ tail
  = String DQ (escape key +:+ String DQ (String ":" (String " " (enc x +:+ tail)))).
Proof.
  unfold member_text, encode_string. simpl fst. simpl snd.
  repeat (rewrite append_assoc || rewrite append_cons || rewrite append_nil_l).
  reflexivity.
Qed.

Lemma concat_member_head enc sep kv d tail :
  ∃ body, String.concat sep (map (member_text enc) (kv :: d)) +:+ tail
          = String DQ body.
Proof.
  destruct kv as [key x]. destruct d as [|kv' d].
  - simpl map. simpl String.concat. rewrite member_text_eq. eauto.
  - simpl map. rewrite concat_cons_cons, append_assoc, member_text_eq. eauto.
Qed.

(** The members of an object are read back. *)
Lemma scan_members_render scan enc sep_ws close_ws d rest :
  all_ws sep_ws = true → all_ws close_ws = true →
  Forall (fun kv => reads_back scan enc kv.2) d → d ≠ [] →
  ∀ k body, (length d ≤ k)%nat →
  String DQ body
  = String.concat ("," +:+ sep_ws) (map (member_text enc) d)
    +:+ close_ws +:+ "}" +:+ rest →
  scan_members scan k body = Some (d, rest).
Proof.
  intros Hsep Hclose HF Hne.
  induction HF as [|[key x] d [Hx Hxs] HF IH]; [done|].
  intros k body Hk Hbody. destruct k as [|k]; [simpl in Hk; lia|].
  simpl in Hx, Hxs. destruct d as [|kv d].
  - simpl map in Hbody. simpl String.concat in Hbody.
    rewrite member_text_eq in Hbody. injection Hbody as ->.
    cbn [scan_members]. rewrite scanstring_escape.
    rewrite skip_ws_head by done.
    change (skip_ws (String " " ?s)) with (skip_ws s). rewrite Hxs.
    rewrite Hx.
    2:{ rewrite append_cons, append_nil_l. by apply number_ends_all_ws. }
    rewrite skip_ws_all_ws by done. rewrite append_cons, append_nil_l.
    rewrite skip_ws_head by done. done.
  - change (map (member_text enc) ((key, x) :: kv :: d))
      with (member_text enc (key, x) :: member_text enc kv
            :: map (member_text enc) d) in Hbody.
    rewrite concat_cons_cons in Hbody.
    rewrite !append_assoc in Hbody. rewrite member_text_eq in Hbody.
    destruct (concat_member_head enc ("," +:+ sep_ws) kv d
                (close_ws +:+ "}" +:+ rest)) as [body' Hbody'].
    change (map (member_text enc) (kv :: d))
      with (member_text enc kv :: map (member_text enc) d) in Hbody'.
    rewrite Hbody' in Hbody.
    injection Hbody as ->.
    cbn [scan_members]. rewrite scanstring_escape.
    rewrite skip_ws_head by done.
    change (skip_ws (String " " ?s)) with (skip_ws s). rewrite Hxs.
    rewrite Hx by done.
    match goal with
    | |- context [skip_ws ("," +:+ sep_ws +:+ ?X)] =>
        change ("," +:+ sep_ws +:+ X) with (String "," (sep_ws +:+ X))
    end.
    rewrite skip_ws_head by done.
    change (Ascii.eqb "," "}") with false. change (Ascii.eqb "," ",") with true.
    cbv iota. rewrite skip_ws_all_ws by done.
    rewrite skip_ws_head by done.
    change (Ascii.eqb DQ DQ) with true. cbv iota.
    rewrite (IH ltac:(done) k body' ltac:(simpl in *; lia)); [done|].
    by rewrite <- Hbody'.
Qed.

(** [dict(pairs)] on pairs with distinct keys keeps them as they are. *)
Lemma dict_set_fresh key x (d : pydict) :
  key ∉ dict_keys d → dict_set key x d = (d ++ [(key, x)])%list.
Proof.
  induction d as [|[k' x'] d IH]; simpl; [done|].
  intros Hnot. apply not_elem_of_cons in Hnot as [Hne Hnot].
  destruct (String.eqb_spec key k'); [done|]. by rewrite IH.
Qed.

Lemma dict_of_pairs_nodup (d : pydict) :
  NoDup (dict_keys d) → dict_of_pairs d = d.
Proof.
  unfold dict_of_pairs.
  assert (Hgen : ∀ acc, NoDup (dict_keys (acc ++ d)%list) →
            fold_left (fun a kv => dict_set kv.1 kv.2 a) d acc = (acc ++ d)%list).
  { induction d as [|[key x] d IH]; intros acc Hnd; simpl.
    - by rewrite app_nil_r.
    - unfold dict_keys in Hnd. rewrite map_app in Hnd. simpl in Hnd.
      apply NoDup_app in Hnd as (Hacc & Hdisj & Hd).
      rewrite dict_set_fresh.
      2:{ intros Hin. apply (Hdisj key Hin). left. }
      rewrite IH; [by rewrite <- app_assoc|].
      unfold dict_keys. rewrite !map_app. simpl. rewrite <- app_assoc. simpl.
      apply NoDup_app. split; [done|]. split; [|done]. done. }
  intros Hnd. by apply (Hgen []).
Qed.

(** How [scan_once] dispatches on the first character. *)

Lemma scan_once_string fuel r :
  scan_once (S fuel) (String DQ r) =
  match scanstring r with
  | Some (k, rest) => Some (PStr k, rest)
  | None => None
  end.
Proof. reflexivity. Qed.

Lemma scan_once_array fuel r :
  scan_once (S fuel) (String "[" r) =
  match skip_ws r with
  | EmptyString => None
  | String c1 r1 =>
      if Ascii.eqb c1 "]" then Some (PList [], r1)
      else
        match scan_items (scan_once fuel) fuel (String c1 r1) with
        | Some (vs, rest) => Some (PList vs, rest)
        | None => None
        end
  end.
Proof. reflexivity. Qed.

Lemma scan_once_object fuel r :
  scan_once (S fuel) (String "{" r) =
  match skip_ws r with
  | EmptyString => None
  | String c1 r1 =>
      if Ascii.eqb c1 "}" then Some (PDict [], r1)
      else if Ascii.eqb c1 DQ then
        match scan_members (scan_once fuel) fuel r1 with
        | Some (kvs, rest) => Some (PDict (dict_of_pairs kvs), rest)
        | None => None
        end
      else None
  end.
Proof. reflexivity. Qed.

Lemma scan_once_number fuel c r :
  is_digit c = true ∨ c = "-"%char →
  scan_once (S fuel) (String c r) = scan_number (String c r).
Proof.
  destruct c as [[] [] [] [] [] [] [] []]; intros [Hc|Hc];
    try discriminate Hc; reflexivity.
Qed.

Lemma value_start_spec c :
  value_start c = true →
  is_ws c = false ∧ Ascii.eqb c "]" = false ∧ Ascii.eqb c "}" = false.
Proof. destruct c as [[] [] [] [] [] [] [] []]; by vm_compute. Qed.

Lemma is_digit_value_start c : is_digit c = true → value_start c = true.
Proof. unfold value_start. by intros ->. Qed.

(** Every encoded value starts with a character that starts a value. *)
Lemma encode_head indent level v tail :
  ∃ c r, encode indent level v +:+ tail = String c r ∧ value_start c = true.
Proof.
  destruct v as [|[]|z|[m p]|s|[|x l]|[|kv d]]; try by eexists _, _.
  - simpl encode. unfold str_int. destruct (Z.ltb_spec z 0).
    + by eexists _, _.
    + destruct (str_nat_head z ltac:(done)) as (c & r & -> & Hd & _).
      rewrite append_cons. exists c, (r +:+ tail).
      split; [done|]. by apply is_digit_value_start.
  - simpl encode. unfold repr_float. simpl fl_mant. simpl fl_places.
    destruct (Z.ltb_spec m 0).
    + by eexists _, _.
    + rewrite append_nil_l.
      destruct (str_nat_head (Z.abs m `div` 10 ^ Z.of_nat p)) as (c & r & -> & Hd & _).
      { apply Z.div_pos; [lia|]. apply Z.pow_pos_nonneg; lia. }
      rewrite !append_cons. eexists c, _.
      split; [done|]. by apply is_digit_value_start.
Qed.

Lemma encode_solid indent level v tail :
  skip_ws (encode indent level v +:+ tail) = encode indent level v +:+ tail.
Proof.
  destruct (encode_head indent level v tail) as (c & r & -> & Hc).
  apply skip_ws_head. by apply value_start_spec.
Qed.

Lemma item_separator_eq indent level :
  ∃ w, all_ws w = true ∧ item_separator indent level = "," +:+ w.
Proof.
  destruct indent as [n|].
  - exists (newline_indent (Some n) level). split; [|done].
    apply all_ws_newline_indent.
  - by exists " ".
Qed.

Lemma size_pos v : (1 ≤ size v)%nat.
Proof. destruct v; simpl; lia. Qed.

Lemma size_sum_list (l : list pyval) :
  (length l ≤ foldr (fun x acc => size x + acc) 0 l)%nat
  ∧ Forall (fun x => size x ≤ foldr (fun x acc => size x + acc) 0 l)%nat l.
Proof.
  induction l as [|x l [IH1 IH2]]; simpl; [by split|].
  pose proof (size_pos x). split; [lia|].
  constructor; [lia|]. eapply Forall_impl; [done|]. simpl. intros; lia.
Qed.

Lemma size_sum_dict (d : pydict) :
  (length d ≤ foldr (fun kv acc => size kv.2 + acc) 0 d)%nat
  ∧ Forall (fun kv => size kv.2 ≤ foldr (fun kv acc => size kv.2 + acc) 0 d)%nat d.
Proof.
  induction d as [|x d [IH1 IH2]]; simpl; [by split|].
  pose proof (size_pos x.2). split; [lia|].
  constructor; [lia|]. eapply Forall_impl; [done|]. simpl. intros; lia.
Qed.

Lemma json_wf_list l : json_wf (PList l) ↔ Forall json_wf l.
Proof.
  simpl. induction l as [|x l IH]; simpl; [by split|].
  rewrite IH. split; [intros []; by constructor|by intros [??]%Forall_cons].
Qed.

Lemma json_wf_dict d :
  json_wf (PDict d) ↔ NoDup (dict_keys d) ∧ Forall (fun kv => json_wf kv.2) d.
Proof.
  simpl. apply and_iff_compat_l.
  induction d as [|x d IH]; simpl; [by split|].
  rewrite IH. split; [intros []; by constructor|by intros [??]%Forall_cons].
Qed.

Lemma encode_list_cons indent level x l :
  encode indent level (PList (x :: l)) =
  "[" +:+ newline_indent indent (S level)
  +:+ String.concat (item_separator indent (S level))
        (map (encode indent (S level)) (x :: l))
  +:+ newline_indent indent level +:+ "]".
Proof. reflexivity. Qed.

Lemma encode_dict_cons indent level kv d :
  encode indent level (PDict (kv :: d)) =
  "{" +:+ newline_indent indent (S level)
  +:+ String.concat (item_separator indent (S level))
        (map (member_text (encode indent (S level))) (kv :: d))
  +:+ newline_indent indent level +:+ "}".
Proof. reflexivity. Qed.

Lemma str_int_head z :
  ∃ c r, str_int z = String c r ∧ (is_digit c = true ∨ c = "-"%char).
Proof.
  unfold str_int. destruct (Z.ltb_spec z 0).
  - eexists _, _. split; [reflexivity|by right].
  - destruct (str_nat_head z ltac:(done)) as (c & r & -> & Hd & _).
    exists c, r. auto.
Qed.

Lemma repr_float_head f :
  ∃ c r, repr_float f = String c r ∧ (is_digit c = true ∨ c = "-"%char).
Proof.
  destruct f as [m p]. unfold repr_float. simpl fl_mant. simpl fl_places.
  destruct (Z.ltb_spec m 0).
  - eexists _, _. split; [reflexivity|by right].
  - rewrite append_nil_l.
    destruct (str_nat_head (Z.abs m `div` 10 ^ Z.of_nat p)) as (c & r & -> & Hd & _).
    { apply Z.div_pos; [lia|]. apply Z.pow_pos_nonneg; lia. }
    rewrite append_cons. eexists c, _. auto.
Qed.

Lemma concat_head_cons sep enc (x : pyval) l tail :
  ∃ more, String.concat sep (map enc (x :: l)) +:+ tail = enc x +:+ more.
Proof.
  destruct l as [|y l]; [by eexists|].
  change (map enc (x :: y :: l)) with (enc x :: enc y :: map enc l).
  rewrite concat_cons_cons, append_assoc. by eexists.
Qed.

(** The main lemma: one encoded value at the head of a text is read back,
    whatever the indentation, when there is fuel for its nodes. *)
Lemma scan_once_encode indent v :
  json_wf v →
  ∀ level fuel rest, (size v ≤ fuel)%nat → number_ends rest = true →
  scan_once fuel (encode indent level v +:+ rest) = Some (v, rest).
Proof.
  induction v as [|b|z|f|s|l IH|d IH] using pyval_ind';
    intros Hwf level fuel rest Hfuel Hrest;
    (destruct fuel as [|fuel]; [pose proof (size_pos PNone); simpl in *; lia|]).
  - done.
  - by destruct b.
  - simpl encode. destruct (str_int_head z) as (c & r & Hs & Hc).
    rewrite Hs, append_cons, scan_once_number by done.
    rewrite <- append_cons, <- Hs. by apply scan_number_str_int.
  - simpl encode. destruct (repr_float_head f) as (c & r & Hs & Hc).
    rewrite Hs, append_cons, scan_once_number by done.
    rewrite <- append_cons, <- Hs. by apply scan_number_repr_float.
  - simpl encode. unfold encode_string. rewrite append_cons, append_assoc.
    rewrite append_cons, append_nil_l, scan_once_string.
    by rewrite scanstring_escape.
  - destruct l as [|x l]; [done|].
    apply json_wf_list in Hwf. simpl in Hfuel.
    destruct (size_sum_list (x :: l)) as [Hlen Hsizes]. simpl in Hlen, Hsizes.
    assert (Hreads : Forall (reads_back (scan_once fuel)
                               (encode indent (S level))) (x :: l)).
    { apply Forall_forall. intros y Hy.
      rewrite Forall_forall in IH, Hwf, Hsizes.
      split; [|apply encode_solid].
      intros tail Htail. apply IH; [done|by apply Hwf| |done].
      specialize (Hsizes y Hy). simpl in Hsizes. lia. }
    rewrite encode_list_cons.
    destruct (item_separator_eq indent (S level)) as (w & Hw & ->).
    rewrite !append_assoc, append_cons, append_nil_l, scan_once_array.
    rewrite skip_ws_all_ws by apply all_ws_newline_indent.
    set (tail := newline_indent indent level +:+ "]" +:+ rest).
    destruct (concat_head_cons ("," +:+ w) (encode indent (S level)) x l tail)
      as [more Hmore].
    destruct (encode_head indent (S level) x more) as (c & r & Hhead & Hc).
    apply value_start_spec in Hc as (Hws & Hnb & _).
    rewrite Hmore, Hhead, skip_ws_head, Hnb by done.
    rewrite <- Hhead, <- Hmore. unfold tail.
    rewrite scan_items_render; try done.
    + apply all_ws_newline_indent.
    + simpl in *; lia.
  - destruct d as [|kv d]; [done|].
    apply json_wf_dict in Hwf as [Hnodup Hwf]. simpl in Hfuel.
    destruct (size_sum_dict (kv :: d)) as [Hlen Hsizes]. simpl in Hlen, Hsizes.
    assert (Hreads : Forall (fun kv => reads_back (scan_once fuel)
                               (encode indent (S level)) kv.2) (kv :: d)).
    { apply Forall_forall. intros y Hy.
      rewrite Forall_forall in IH, Hwf, Hsizes.
      split; [|apply encode_solid].
      intros tail Htail. apply IH; [done|by apply Hwf| |done].
      specialize (Hsizes y Hy). simpl in Hsizes. lia. }
    rewrite encode_dict_cons.
    destruct (item_separator_eq indent (S level)) as (w & Hw & ->).
    rewrite !append_assoc, append_cons, append_nil_l, scan_once_object.
    rewrite skip_ws_all_ws by apply all_ws_newline_indent.
    set (tail := newline_indent indent level +:+ "}" +:+ rest).
    destruct (concat_member_head (encode indent (S level)) ("," +:+ w) kv d tail)
      as [body Hbody].
    rewrite Hbody, skip_ws_head by done.
    change (Ascii.eqb DQ "}") with false. change (Ascii.eqb DQ DQ) with true.
    cbv iota.
    rewrite (scan_members_render (scan_once fuel) (encode indent (S level))
               w (newline_indent indent level) (kv :: d) rest); try done.
    + by rewrite dict_of_pairs_nodup.
    + apply all_ws_newline_indent.
    + simpl in *; lia.
Qed.

(** Fuel: a text is at least as long as the value it encodes has nodes. *)

Lemma length_concat_ge sep (ts : list string) :
  (foldr (fun t acc => String.length t + acc) 0 ts
   ≤ String.length (String.concat sep ts))%nat.
Proof.
  induction ts as [|t ts IH]; [done|].
  destruct ts as [|t' ts].
  - simpl. lia.
  - rewrite concat_cons_cons, !length_append.
    change (foldr _ 0 (t :: t' :: ts))%nat
      with (String.length t + foldr (fun t acc => String.length t + acc) 0 (t' :: ts))%nat.
    lia.
Qed.

Lemma sum_sizes_le_lengths {A} (sz : A → nat) (enc : A → string) (l : list A) :
  Forall (fun x => sz x ≤ String.length (enc x))%nat l →
  (foldr (fun x acc => sz x + acc) 0 l
   ≤ foldr (fun t acc => String.length t + acc) 0 (map enc l))%nat.
Proof. induction 1; simpl; lia. Qed.

Lemma encode_nonempty indent level v :
  (1 ≤ String.length (encode indent level v))%nat.
Proof.
  destruct (encode_head indent level v "") as (c & r & Hc & _).
  rewrite append_nil_r in Hc. rewrite Hc. simpl. lia.
Qed.

Lemma size_le_length indent v :
  ∀ level, (size v ≤ String.length (encode indent level v))%nat.
Proof.
  induction v as [|b|z|f|s|l IH|d IH] using pyval_ind'; intros level;
    try apply (encode_nonempty indent level).
  - destruct l as [|x l]; [simpl; lia|].
    rewrite encode_list_cons, !length_append.
    etrans; [|apply le_n_S, Nat.le_add_l].
    etrans; [|apply le_n_S, Nat.le_add_r].
    cbn [size]. apply le_n_S.
    etrans; [|apply length_concat_ge].
    apply sum_sizes_le_lengths.
    eapply Forall_impl; [exact IH|]. intros y Hy. apply Hy.
  - destruct d as [|kv d]; [simpl; lia|].
    rewrite encode_dict_cons, !length_append.
    etrans; [|apply le_n_S, Nat.le_add_l].
    etrans; [|apply le_n_S, Nat.le_add_r].
    cbn [size]. apply le_n_S.
    etrans; [|apply length_concat_ge].
    apply (sum_sizes_le_lengths (fun kv => size kv.2)).
    eapply Forall_impl; [exact IH|]. intros y Hy. unfold member_text.
    rewrite !length_append. specialize (Hy (S level)). lia.
Qed.

(** [loads] gives back every value that was encoded, with or without
    indentation. *)
Lemma loads_encode indent level v :
  json_wf v → loads (encode indent level v) = Ok v.
Proof.
  intros Hwf. unfold loads.
  pose proof (encode_solid indent level v "") as Hsolid.
  pose proof (scan_once_encode indent v Hwf level
                (S (String.length (encode indent level v))) "") as Hscan.
  rewrite append_nil_r in Hsolid, Hscan.
  rewrite Hsolid, Hscan; [done| |done].
  pose proof (size_le_length indent v level). lia.
Qed.

(** A text made of an opening bracket, the encodings of the elements with
    a comma and white space between them, and a closing bracket, with
    white space inside the brackets, is read as the list of the
    elements. *)
Lemma loads_array_text indent level open_ws sep_ws close_ws (l : list pyval) :
  all_ws open_ws = true → all_ws sep_ws = true → all_ws close_ws = true →
  Forall json_wf l →
  loads ("[" +:+ open_ws
         +:+ String.concat ("," +:+ sep_ws) (map (encode indent level) l)
         +:+ close_ws +:+ "]")
  = Ok (PList l).
Proof.
  intros Hopen Hsep Hclose Hwf. unfold loads.
  set (body := String.concat ("," +:+ sep_ws) (map (encode indent level) l)).
  set (text := "[" +:+ open_ws +:+ body +:+ close_ws +:+ "]").
  assert (Htext : text = String "[" (open_ws +:+ body +:+ close_ws +:+ "]" +:+ ""))
    by (unfold text; by rewrite append_cons, append_nil_l, append_nil_r).
  assert (Hlen : (String.length body ≤ String.length text)%nat).
  { rewrite Htext. clear Htext. clearbody text body.
    cbn [String.length]. rewrite !length_append. lia. }
  rewrite Htext at 2. rewrite skip_ws_head by done.
  rewrite scan_once_array, skip_ws_all_ws by done.
  destruct l as [|x l].
  - unfold body. simpl String.concat. rewrite append_nil_l.
    rewrite skip_ws_all_ws by done. by rewrite append_cons, append_nil_l.
  - destruct (concat_head_cons ("," +:+ sep_ws) (encode indent level) x l
                (close_ws +:+ "]" +:+ "")) as [more Hmore].
    fold body in Hmore.
    destruct (encode_head indent level x more) as (c & r & Hhead & Hc).
    apply value_start_spec in Hc as (Hws & Hnb & _).
    rewrite Hmore, Hhead, skip_ws_head, Hnb by done.
    rewrite <- Hhead, <- Hmore. unfold body.
    assert (Hsum : (foldr (fun x acc => size x + acc) 0 (x :: l)
                    ≤ String.length body)%nat).
    { etrans; [|apply length_concat_ge].
      apply sum_sizes_le_lengths, Forall_forall.
      intros y _. apply size_le_length. }
    destruct (size_sum_list (x :: l)) as [Hcount Hsizes].
    rewrite scan_items_render; try done.
    + apply Forall_forall. intros y Hy.
      rewrite Forall_forall in Hwf, Hsizes.
      split; [|apply encode_solid].
      intros tail Htail. apply scan_once_encode; [by apply Hwf| |done].
      specialize (Hsizes y Hy). cbv beta in Hsizes. lia.
    + lia.
Qed.

End JsonFacts.

(** ** The concrete random source meets the interface *)

Lemma Lcg_below_range n g : 0 < n → 0 ≤ (Lcg.below n g).1 < n.
Proof. intros Hn. simpl. apply Z.mod_pos_bound. lia. Qed.

Lemma Lcg_between_range a b g :
  (a <= b)%Q → (a <= (Lcg.between a b g).1 <= b)%Q.
Proof.
  intros Hab. simpl.
  pose proof (Z.mod_pos_bound g 1001 ltac:(lia)) as Hm.
  set (t := Qmake (g `mod` 1001) 1000).
  assert (Ht0 : (0 <= t)%Q) by (unfold t, Qle; simpl; lia).
  assert (Ht1 : (t <= 1)%Q) by (unfold t, Qle; simpl; lia).
  clearbody t. split; nra.
Qed.

#[global] Instance Lcg_source : RandomSource Z := {|
  randbelow := Lcg.below;
  uniform_draw := Lcg.between;
  randbelow_range := Lcg_below_range;
  uniform_draw_range := Lcg_between_range
|}.

(** ** The random record builder *)

Section GeneratorFacts.
Context `{Config} {G : Type} `{RandomSource G}.

Lemma Rand_bind_ok {A B} (m : Rand G A) (f : A → Rand G B) g a g' :
  m g = Ok (a, g') → (m ≫= f) g = f a g'.
Proof. unfold mbind, Rand_bind. by intros ->. Qed.

Lemma Rand_bind_inv {A B} (m : Rand G A) (f : A → Rand G B) g r :
  (m ≫= f) g = Ok r → ∃ a g', m g = Ok (a, g') ∧ f a g' = Ok r.
Proof.
  unfold mbind, Rand_bind. destruct (m g) as [[a g']|]; [|done]. eauto.
Qed.

Lemma randrange_ok n (g : G) :
  0 < n → ∃ v g', randrange n g = Ok (v, g') ∧ 0 ≤ v < n.
Proof.
  intros Hn. unfold randrange.
  destruct (Z.ltb_spec 0 n); [|lia].
  pose proof (randbelow_range n g Hn).
  destruct (randbelow n g) as [v g']. eauto.
Qed.

Lemma choice_ok {A} (seq : list A) (g : G) :
  seq ≠ [] → ∃ x g', choice seq g = Ok (x, g') ∧ x ∈ seq.
Proof.
  intros Hne. unfold choice. destruct seq as [|a seq]; [done|].
  set (l := a :: seq) in *.
  assert (Hlen : 0 < Z.of_nat (length l)) by (simpl; lia).
  pose proof (randbelow_range _ g Hlen) as Hr.
  destruct (randbelow _ g) as [i g']. cbn [fst] in Hr. clearbody l.
  destruct (l !! Z.to_nat i) as [x|] eqn:Hx.
  - exists x, g'. split; [done|]. by eapply list_elem_of_lookup_2.
  - apply lookup_ge_None in Hx. lia.
Qed.

Lemma mapM_Rand_ok {A B} (f : A → Rand G B) (P : A → B → Prop) l (g : G) :
  (∀ x g, ∃ y g', f x g = Ok (y, g') ∧ P x y) →
  ∃ ys g', mapM f l g = Ok (ys, g') ∧ Forall2 P l ys.
Proof.
  intros Hf. revert g. induction l as [|x l IH]; intros g.
  - exists [], g. split; [done|constructor].
  - destruct (Hf x g) as (y & g1 & Hy & HP).
    destruct (IH g1) as (ys & g2 & Hys & HPs).
    exists (y :: ys), g2. split; [|by constructor].
    simpl. rewrite (Rand_bind_ok _ _ _ _ _ Hy), (Rand_bind_ok _ _ _ _ _ Hys).
    done.
Qed.

Lemma generate_attribute_ok i (g : G) :
  ∃ a g', generate_attribute i g = Ok (a, g') ∧ slot_entry i a.
Proof.
  unfold generate_attribute, slot_entry.
  destruct (i =? 0); [|destruct (i =? 1)].
  - destruct (choice_ok RAMS g ltac:(done)) as (n & g' & Hc & Hn).
    exists (PDict [("k", PStr "RAM"); ("v", PStr (str_int n +:+ "GB"))]), g'.
    split; [|by exists n]. by rewrite (Rand_bind_ok _ _ _ _ _ Hc).
  - destruct (choice_ok STORAGES g ltac:(done)) as (n & g' & Hc & Hn).
    exists (PDict [("k", PStr "Storage"); ("v", PStr (str_int n +:+ "GB SSD"))]), g'.
    split; [|by exists n]. by rewrite (Rand_bind_ok _ _ _ _ _ Hc).
  - destruct (choice_ok COLORS g ltac:(done)) as (c & g' & Hc & Hn).
    exists (PDict [("k", PStr "Color"); ("v", PStr c)]), g'.
    split; [|by exists c]. by rewrite (Rand_bind_ok _ _ _ _ _ Hc).
Qed.

(** The shape of every record the builder returns. *)
Lemma generate_product_json_shape (gid : Z) (g : G) :
  0 < NUM_CATEGORIES → 0 < VENDOR_COUNT →
  ∃ name price rating attributes category_id vendor_id g',
    generate_product_json gid g =
      Ok (PDict [("name", PStr name);
                 ("price", PFloat (py_round price 2));
                 ("rating", PFloat (py_round rating 1));
                 ("attributs", PList attributes);
                 ("category_id", PInt category_id);
                 ("vendor_id", PInt vendor_id);
                 ("product_id", PInt gid)],
          vendor_id, category_id, g')
    ∧ name ∈ PHRASES
    ∧ (10 <= price <= 5000)%Q
    ∧ (3 <= rating <= 5)%Q
    ∧ Forall2 slot_entry (range ATTRIBUTES_PER_PRODUCT) attributes
    ∧ 0 ≤ category_id < NUM_CATEGORIES
    ∧ 0 ≤ vendor_id < VENDOR_COUNT.
Proof.
  intros Hc Hv. unfold generate_product_json.
  destruct (mapM_Rand_ok generate_attribute slot_entry
              (range ATTRIBUTES_PER_PRODUCT) g generate_attribute_ok)
    as (attrs & g1 & Hattrs & Hslots).
  destruct (randrange_ok VENDOR_COUNT g1 Hv) as (ven & g2 & Hven & Hvr).
  destruct (randrange_ok NUM_CATEGORIES g2 Hc) as (cat & g3 & Hcat & Hcr).
  destruct (choice_ok PHRASES g3 ltac:(done)) as (name & g4 & Hname & Hin).
  pose proof (uniform_draw_range 10 5000 g4 ltac:(done)) as Hp.
  destruct (uniform_draw 10 5000 g4) as [price g5] eqn:Hprice.
  pose proof (uniform_draw_range 3 5 g5 ltac:(done)) as Hr.
  destruct (uniform_draw 3 5 g5) as [rating g6] eqn:Hrating.
  cbn [fst snd] in Hp, Hr.
  exists name, price, rating, attrs, cat, ven, g6.
  split; [|repeat split; first [apply Hp|apply Hr|apply Hcr|apply Hvr|done]].
  rewrite (Rand_bind_ok _ _ _ _ _ Hattrs), (Rand_bind_ok _ _ _ _ _ Hven),
    (Rand_bind_ok _ _ _ _ _ Hcat), (Rand_bind_ok _ _ _ _ _ Hname).
  unfold mbind, Rand_bind, uniform. by rewrite Hprice, Hrating.
Qed.

Lemma slots_of_Forall2 n (attributes : list pyval) :
  Forall2 slot_entry (range n) attributes →
  length attributes = Z.to_nat n
  ∧ ∀ (j : nat) a, attributes !! j = Some a → slot_entry (Z.of_nat j) a.
Proof.
  intros HF. split.
  - apply Forall2_length in HF. unfold range in HF.
    rewrite length_seqZ in HF. done.
  - intros j a Ha.
    destruct (Forall2_lookup_r _ _ _ _ _ HF Ha) as (i & Hi & Hs).
    unfold range in Hi. apply lookup_seqZ in Hi as [-> _].
    by rewrite Z.add_0_l in Hs.
Qed.

Lemma randrange_inv n (g : G) v g' : randrange n g = Ok (v, g') → 0 < n.
Proof. unfold randrange. destruct (Z.ltb_spec 0 n); [done|discriminate]. Qed.

(** The same, read from a record that was returned. *)
Lemma generate_product_json_inv (gid : Z) (g : G) product ven cat g' :
  generate_product_json gid g = Ok (product, ven, cat, g') →
  ∃ name price rating attributes,
    product = PDict [("name", PStr name);
                     ("price", PFloat (py_round price 2));
                     ("rating", PFloat (py_round rating 1));
                     ("attributs", PList attributes);
                     ("category_id", PInt cat);
                     ("vendor_id", PInt ven);
                     ("product_id", PInt gid)]
    ∧ Forall2 slot_entry (range ATTRIBUTES_PER_PRODUCT) attributes
    ∧ 0 ≤ cat < NUM_CATEGORIES
    ∧ 0 ≤ ven < VENDOR_COUNT.
Proof.
  intros Hgen. pose proof Hgen as Hgen0. unfold generate_product_json in Hgen0.
  apply Rand_bind_inv in Hgen0 as (attrs & g1 & _ & Hgen0).
  apply Rand_bind_inv in Hgen0 as (ven' & g2 & Hv%randrange_inv & Hgen0).
  apply Rand_bind_inv in Hgen0 as (cat' & g3 & Hc%randrange_inv & _).
  destruct (generate_product_json_shape gid g Hc Hv)
    as (name & price & rating & attributes & cat0 & ven0 & g0 & Hgen1 & _ & _
        & _ & Hslots & Hcr & Hvr).
  rewrite Hgen in Hgen1. injection Hgen1 as -> -> -> ->.
  by exists name, price, rating, attributes.
Qed.

Lemma slot_entry_wf i a : slot_entry i a → Json.json_wf a.
Proof.
  unfold slot_entry.
  destruct (i =? 0); [|destruct (i =? 1)]; intros (x & _ & ->); simpl;
    (split; [|done]); unfold dict_keys; simpl;
    by apply (bool_decide_unpack _).
Qed.

(** A generated record can be written and read back, and carries the id
    it was generated for. *)
Lemma generate_product_json_wf (gid : Z) (g : G) product ven cat g' :
  generate_product_json gid g = Ok (product, ven, cat, g') →
  Json.json_wf product ∧ product_id_of product = gid.
Proof.
  intros (name & price & rating & attributes & -> & Hslots & _)
    %generate_product_json_inv.
  split; [|done]. apply JsonFacts.json_wf_dict. split.
  - unfold dict_keys. simpl. by apply (bool_decide_unpack _).
  - repeat match goal with
           | |- Forall _ (_ :: _) => constructor
           | |- Forall _ [] => constructor
           end; try exact I; try apply py_round_canonical.
    apply JsonFacts.json_wf_list, Forall_forall. intros a Ha.
    apply list_elem_of_lookup in Ha as [j Hj].
    destruct (Forall2_lookup_r _ _ _ _ _ Hslots Hj) as (i & _ & Hs).
    by eapply slot_entry_wf.
Qed.

(** C3. Every record the builder produces has a category id in
    [0, NUM_CATEGORIES), a vendor id in [0, VENDOR_COUNT), a price in
    [10.00, 5000.00] with at most two decimals, a rating in [3.0, 5.0]
    with one decimal, and an attribute list of length
    ATTRIBUTES_PER_PRODUCT whose slot 0 is a RAM entry, slot 1 a Storage
    entry and slot 2 a Color entry; with the three attributes of the
    script, the list is exactly such a triple. The builder always returns
    when the two id ranges are not empty. *)
Theorem generate_product_json_ranges (gid : Z) (g : G) :
  0 < NUM_CATEGORIES → 0 < VENDOR_COUNT →
  ∃ product vendor_id category_id g' price rating attributes,
    generate_product_json gid g = Ok (product, vendor_id, category_id, g')
    ∧ py_getitem product "category_id" = Ok (PInt category_id)
    ∧ 0 ≤ category_id < NUM_CATEGORIES
    ∧ py_getitem product "vendor_id" = Ok (PInt vendor_id)
    ∧ 0 ≤ vendor_id < VENDOR_COUNT
    ∧ py_getitem product "price" = Ok (PFloat price)
    ∧ (10 <= fl_value price <= 5000)%Q ∧ (fl_places price ≤ 2)%nat
    ∧ py_getitem product "rating" = Ok (PFloat rating)
    ∧ (3 <= fl_value rating <= 5)%Q ∧ (fl_places rating ≤ 1)%nat
    ∧ py_getitem product "attributs" = Ok (PList attributes)
    ∧ length attributes = Z.to_nat ATTRIBUTES_PER_PRODUCT
    ∧ (∀ a, attributes !! 0%nat = Some a → RAM_entry a)
    ∧ (∀ a, attributes !! 1%nat = Some a → Storage_entry a)
    ∧ (∀ a, attributes !! 2%nat = Some a → Color_entry a)
    ∧ (ATTRIBUTES_PER_PRODUCT = 3 →
       ∃ ram storage color, attributes = [ram; storage; color]
         ∧ RAM_entry ram ∧ Storage_entry storage ∧ Color_entry color).
Proof.
  intros Hc Hv.
  destruct (generate_product_json_shape gid g Hc Hv)
    as (name & price & rating & attrs & cat & ven & g' & Hgen & _ & Hp & Hr
        & Hslots & Hcr & Hvr).
  apply slots_of_Forall2 in Hslots as [Hlen Hslot].
  exists (PDict [("name", PStr name);
                 ("price", PFloat (py_round price 2));
                 ("rating", PFloat (py_round rating 1));
                 ("attributs", PList attrs);
                 ("category_id", PInt cat);
                 ("vendor_id", PInt ven);
                 ("product_id", PInt gid)]),
    ven, cat, g', (py_round price 2), (py_round rating 1), attrs.
  pose proof (py_round_range price 2 10 5000 Hp) as [??].
  pose proof (py_round_places price 2) as [_ ?].
  pose proof (py_round_range rating 1 3 5 Hr) as [??].
  pose proof (py_round_places rating 1) as [_ ?].
  split_and!; try done; try lia.
  - intros a Ha. apply (Hslot 0%nat a Ha).
  - intros a Ha. apply (Hslot 1%nat a Ha).
  - intros a Ha. apply (Hslot 2%nat a Ha).
  - intros Hthree. rewrite Hthree in Hlen.
    destruct attrs as [|r [|s' [|c [|]]]]; try done.
    exists r, s', c. split; [done|].
    split; [apply (Hslot 0%nat); done|].
    split; [apply (Hslot 1%nat); done|apply (Hslot 2%nat); done].
Qed.

(** C4 on the code: the record has seven fields, and the attribute list
    is stored under the key [attributs]; there is no field [attributes]. *)
Theorem generate_product_json_fields (gid : Z) (g : G) :
  match generate_product_json gid g with
  | Ok (product, _, _, _) =>
      ∃ d attributes, product = PDict d
        ∧ dict_keys d = ["name"; "price"; "rating"; "attributs";
                         "category_id"; "vendor_id"; "product_id"]
        ∧ py_getitem product "attributs" = Ok (PList attributes)
        ∧ py_getitem product "attributes" = Raise KeyError
  | Raise _ => True
  end.
Proof.
  destruct (generate_product_json gid g) as [[[[product ven] cat] g']|] eqn:E;
    [|done].
  unfold generate_product_json in E.
  apply Rand_bind_inv in E as (attrs & g1 & _ & E).
  apply Rand_bind_inv in E as (ven' & g2 & _ & E).
  apply Rand_bind_inv in E as (cat' & g3 & _ & E).
  apply Rand_bind_inv in E as (name & g4 & _ & E).
  apply Rand_bind_inv in E as (price & g5 & _ & E).
  apply Rand_bind_inv in E as (rating & g6 & _ & E).
  injection E as <- <- <- <-. simpl. eauto 10.
Qed.

End GeneratorFacts.

Lemma generate_product_json_ranges_witness :
  ∃ product vendor_id category_id g',
    @generate_product_json script_config Z Lcg_source 0 42
      = Ok (product, vendor_id, category_id, g')
    ∧ 0 ≤ category_id < 100 ∧ 0 ≤ vendor_id < 100.
Proof.
  destruct (@generate_product_json_ranges script_config Z Lcg_source 0 42)
    as (product & ven & cat & g' & _ & _ & _ & Hgen & _ & Hc & _ & Hv & _);
    [simpl; lia..|].
  by exists product, ven, cat, g'.
Defined.

(** The first record of the script with the generator seeded at 42. *)
Example generate_product_json_seed_42 :
  @generate_product_json script_config Z Lcg_source 0 42 =
    Ok (PDict [("name", PStr "Smart Home Device");
               ("price", PFloat (Dec 469062 2));
               ("rating", PFloat (Dec 48 1));
               ("attributs",
                PList [PDict [("k", PStr "RAM"); ("v", PStr "8GB")];
                       PDict [("k", PStr "Storage"); ("v", PStr "256GB SSD")];
                       PDict [("k", PStr "Color"); ("v", PStr "Silver")]]);
               ("category_id", PInt 61);
               ("vendor_id", PInt 69);
               ("product_id", PInt 0)], 69, 61, 1736731266).
Proof. vm_compute. reflexivity. Qed.

(** ** Commands *)

Section Commands.
Context {G : Type}.

Lemma M_bind_ok {A B} (m : M G A) (f : A → M G B) st a st1 :
  m st = (Ok a, st1) → (m ≫= f) st = f a st1.
Proof. unfold mbind, M_bind. by intros ->. Qed.

Lemma M_bind_raise {A B} (m : M G A) (f : A → M G B) st e st1 :
  m st = (Raise e, st1) → (m ≫= f) st = (Raise e, st1).
Proof. unfold mbind, M_bind. by intros ->. Qed.

Lemma M_bind_ok_inv {A B} (m : M G A) (f : A → M G B) st b st' :
  (m ≫= f) st = (Ok b, st') →
  ∃ a st1, m st = (Ok a, st1) ∧ f a st1 = (Ok b, st').
Proof.
  unfold mbind, M_bind. destruct (m st) as [[a|e] st1]; [eauto|done].
Qed.

(** What a command leaves alone: the files and the operation counts of
    all paths but [path]. *)
Definition same_elsewhere (path : string) (st st' : process G) : Prop :=
  ∀ p, p ≠ path →
    files st' !! p = files st !! p ∧ io_count st' !! p = io_count st !! p.

Lemma same_elsewhere_refl path st : same_elsewhere path st st.
Proof. by intros p _. Qed.

Lemma same_elsewhere_trans path st1 st2 st3 :
  same_elsewhere path st1 st2 → same_elsewhere path st2 st3 →
  same_elsewhere path st1 st3.
Proof.
  intros H12 H23 p Hp. destruct (H12 p Hp), (H23 p Hp). split; congruence.
Qed.

(** A command that changes nothing but what is at [path], whatever it
    returns. *)
Definition confined (path : string) {A} (m : M G A) : Prop :=
  ∀ st, same_elsewhere path st (m st).2.

Lemma confined_bind path {A B} (m : M G A) (f : A → M G B) :
  confined path m → (∀ a, confined path (f a)) → confined path (m ≫= f).
Proof.
  intros Hm Hf st. specialize (Hm st). unfold mbind, M_bind.
  destruct (m st) as [[a|e] st1]; simpl in *; [|done].
  eapply same_elsewhere_trans; [done|apply Hf].
Qed.

Lemma confined_ret path {A} (a : A) : confined path (mret a : M G A).
Proof. intros st. apply same_elsewhere_refl. Qed.

Lemma confined_try_except path {A} (body : M G A) handler :
  confined path body → (∀ e, confined path (handler e)) →
  confined path (try_except body handler).
Proof.
  intros Hb Hh st. specialize (Hb st). unfold try_except.
  destruct (body st) as [[a|e] st1]; simpl in *; [done|].
  eapply same_elsewhere_trans; [done|apply Hh].
Qed.

Lemma confined_for_each path {A S} (xs : list A) (body : A → S → M G S) :
  (∀ x acc, confined path (body x acc)) →
  ∀ acc, confined path (for_each xs acc body).
Proof.
  intros Hbody. induction xs as [|x xs IH]; intros acc; simpl.
  - apply confined_ret.
  - apply confined_bind; [apply Hbody|apply IH].
Qed.

Lemma try_except_ok {A} (body : M G A) handler st a st1 :
  body st = (Ok a, st1) → try_except body handler st = (Ok a, st1).
Proof. unfold try_except. by intros ->. Qed.

Lemma try_except_raise {A} (body : M G A) handler st e st1 :
  body st = (Raise e, st1) → try_except body handler st = handler e st1.
Proof. unfold try_except. by intros ->. Qed.

(** A command that prints nothing, whatever it returns. *)
Definition quiet {A} (m : M G A) : Prop := ∀ st, stdout (m st).2 = stdout st.

Lemma quiet_bind {A B} (m : M G A) (f : A → M G B) :
  quiet m → (∀ a, quiet (f a)) → quiet (m ≫= f).
Proof.
  intros Hm Hf st. specialize (Hm st). unfold mbind, M_bind.
  destruct (m st) as [[a|e] st1]; simpl in *; [|done].
  by rewrite Hf.
Qed.

Lemma quiet_ret {A} (a : A) : quiet (mret a : M G A).
Proof. by intros st. Qed.

Lemma quiet_for_each {A S} (xs : list A) (body : A → S → M G S) :
  (∀ x acc, quiet (body x acc)) → ∀ acc, quiet (for_each xs acc body).
Proof.
  intros Hbody. induction xs as [|x xs IH]; intros acc; simpl.
  - apply quiet_ret.
  - apply quiet_bind; [apply Hbody|apply IH].
Qed.

End Commands.

(** ** The partition writer *)

Section WriterFacts.
Context `{Config} {G : Type} `{RandomSource G}.
Variable io_fails : string → nat → bool.

Lemma io_confined {A} path
    (effect : gmap string string → result (A * gmap string string)) :
  (∀ fs a (fs' : gmap string string),
     effect fs = Ok (a, fs') → ∀ p, p ≠ path → fs' !! p = fs !! p) →
  confined path (io (G:=G) io_fails path effect).
Proof.
  intros Heff st p Hp. unfold io.
  destruct (io_fails path _); simpl.
  - by rewrite lookup_insert_ne.
  - destruct (effect (files st)) as [[a fs]|e] eqn:He; simpl;
      rewrite lookup_insert_ne by done; [|done].
    split; [|done]. by eapply Heff.
Qed.

Lemma open_w_confined path : confined path (open_w (G:=G) io_fails path).
Proof.
  apply io_confined. intros fs a fs' [= _ <-] p Hp. by rewrite lookup_insert_ne.
Qed.

Lemma write_confined path data : confined path (write (G:=G) io_fails path data).
Proof.
  apply io_confined. intros fs a fs' [= _ <-] p Hp. by rewrite lookup_insert_ne.
Qed.

Lemma rand_confined path {A} (r : Rand G A) : confined path (rand r).
Proof.
  intros st p Hp. unfold rand. by destruct (r (rng st)) as [[a g']|e].
Qed.

Lemma print_confined path l : confined path (print (G:=G) l).
Proof. by intros st p Hp. Qed.

Lemma io_quiet {A} path
    (effect : gmap string string → result (A * gmap string string)) :
  quiet (io (G:=G) io_fails path effect).
Proof.
  intros st. unfold io. destruct (io_fails path _); [done|].
  by destruct (effect (files st)) as [[a fs]|e].
Qed.

Lemma rand_quiet {A} (r : Rand G A) : quiet (rand r).
Proof. intros st. unfold rand. by destruct (r (rng st)) as [[a g']|e]. Qed.

Lemma write_partition_quiet path start :
  quiet (write_partition io_fails path start).
Proof.
  unfold write_partition.
  apply quiet_bind; [apply io_quiet|]. intros _.
  apply quiet_bind; [apply io_quiet|]. intros _.
  apply quiet_bind.
  { apply quiet_for_each. intros i [vc cc]. unfold write_product.
    apply quiet_bind; [apply rand_quiet|]. intros [[product ven] cat].
    apply quiet_bind.
    { destruct (0 <? i); [apply io_quiet|apply quiet_ret]. }
    intros _. apply quiet_bind; [apply io_quiet|]. intros _. apply quiet_ret. }
  intros counts. apply quiet_bind; [apply io_quiet|]. intros _. apply quiet_ret.
Qed.

Lemma print_bind {B} l (f : () → M G B) st :
  (print l ≫= f) st
  = f () (Process (rng st) (files st) (io_count st) (stdout st ++ [l])).
Proof. reflexivity. Qed.

Lemma io_ok_inv {A} path
    (effect : gmap string string → result (A * gmap string string))
    (st : process G) a st' :
  io io_fails path effect st = (Ok a, st') →
  ∃ fs, effect (files st) = Ok (a, fs)
        ∧ rng st' = rng st ∧ files st' = fs ∧ stdout st' = stdout st.
Proof.
  unfold io. destruct (io_fails path _); [done|].
  destruct (effect (files st)) as [[a' fs]|e]; [|done].
  intros [= <- <-]. by exists fs.
Qed.

Lemma open_w_ok_inv path (st : process G) u st' :
  open_w io_fails path st = (Ok u, st') →
  rng st' = rng st ∧ files st' = <[path := ""]> (files st)
  ∧ stdout st' = stdout st.
Proof.
  intros (fs & Heff & ? & ? & ?)%io_ok_inv. injection Heff as _ <-. done.
Qed.

Lemma write_ok_inv path data (st : process G) u st' :
  write io_fails path data st = (Ok u, st') →
  rng st' = rng st
  ∧ files st' = <[path := default "" (files st !! path) +:+ data]> (files st)
  ∧ stdout st' = stdout st.
Proof.
  intros (fs & Heff & ? & ? & ?)%io_ok_inv. injection Heff as _ <-. done.
Qed.

Lemma rand_ok_inv {A} (r : Rand G A) st a st' :
  rand r st = (Ok a, st') →
  r (rng st) = Ok (a, rng st') ∧ files st' = files st
  ∧ stdout st' = stdout st.
Proof.
  unfold rand. destruct (r (rng st)) as [[a' g']|e]; [|done].
  by intros [= <- <-].
Qed.

Lemma write_product_confined path start i counts :
  confined path (write_product io_fails path start i counts).
Proof.
  unfold write_product. destruct counts as [vc cc].
  apply confined_bind; [apply rand_confined|]. intros [[product ven] cat].
  apply confined_bind.
  { destruct (0 <? i); [apply write_confined|apply confined_ret]. }
  intros _. apply confined_bind; [apply write_confined|].
  intros _. apply confined_ret.
Qed.

Lemma write_partition_confined path start :
  confined path (write_partition io_fails path start).
Proof.
  unfold write_partition.
  apply confined_bind; [apply open_w_confined|]. intros _.
  apply confined_bind; [apply write_confined|]. intros _.
  apply confined_bind.
  { apply confined_for_each. intros. apply write_product_confined. }
  intros counts. apply confined_bind; [apply write_confined|].
  intros _. apply confined_ret.
Qed.

(** The partition writer changes nothing but its own file. *)
Lemma generate_interleaved_products_for_file_confined idx start :
  confined (part_path idx)
    (generate_interleaved_products_for_file io_fails idx start).
Proof.
  unfold generate_interleaved_products_for_file.
  apply confined_bind; [apply print_confined|]. intros _.
  apply confined_bind.
  - apply confined_try_except.
    + apply confined_bind; [apply write_partition_confined|].
      intros. apply confined_ret.
    + intros e. apply confined_bind; [apply print_confined|].
      intros. apply confined_ret.
  - intros [[vc cc]|]; [|apply confined_ret].
    apply confined_bind; [apply print_confined|]. intros. apply confined_ret.
Qed.

(** The loop, when it ends without an exception: the records are the ones
    that the builder generates in a row, each was counted, and each was
    appended to the file. *)
Lemma for_each_write_product_ok path start xs :
  ∀ counts st counts' st',
  for_each xs counts (write_product io_fails path start) st = (Ok counts', st') →
  ∃ products,
    partition_products start xs (rng st) = Ok (products, rng st')
    ∧ stdout st' = stdout st
    ∧ counts' = count_products products counts
    ∧ ∀ text, files st !! path = Some text →
        files st' !! path = Some (text +:+ pieces xs (map (fun p => p.1.1) products)).
Proof.
  induction xs as [|i xs IH]; intros counts st counts' st' Hrun.
  - injection Hrun as <- <-. exists []. split; [done|]. split; [done|].
    split; [done|]. intros text ->. simpl. by rewrite TextFacts.append_nil_r.
  - simpl in Hrun.
    apply M_bind_ok_inv in Hrun as (counts1 & st1 & Hbody & Hrest).
    destruct counts as [vc cc]. unfold write_product in Hbody.
    apply M_bind_ok_inv in Hbody as ([[product ven] cat] & sa & Hgen & Hbody).
    apply rand_ok_inv in Hgen as (Hgen & Hfa & Hoa).
    apply M_bind_ok_inv in Hbody as ([] & sb & Hsep & Hbody).
    apply M_bind_ok_inv in Hbody as ([] & sc & Hdump & Hbody).
    injection Hbody as <- <-.
    apply write_ok_inv in Hdump as (Hrc & Hfc & Hoc).
    destruct (IH _ _ _ _ Hrest) as (products & Hprods & Hout & Hcounts & Hfile).
    exists ((product, ven, cat) :: products).
    assert (Hsb : rng sb = rng sa ∧ stdout sb = stdout sa
              ∧ ∀ text, files sa !! path = Some text →
                  files sb !! path
                  = Some (text +:+ (if 0 <? i then "," +:+ LF else ""))).
    { destruct (0 <? i).
      - apply write_ok_inv in Hsep as (? & Hfb & ?).
        split; [done|]. split; [done|]. intros text Htext.
        by rewrite Hfb, lookup_insert_eq, Htext.
      - injection Hsep as <-. split; [done|]. split; [done|].
        intros text ->. by rewrite TextFacts.append_nil_r. }
    destruct Hsb as (Hrb & Hob & Hfb).
    split; [|split; [|split]].
    + unfold partition_products in *. simpl mapM.
      rewrite (Rand_bind_ok _ _ _ _ _ Hgen).
      rewrite Hrc, Hrb in Hprods. rewrite (Rand_bind_ok _ _ _ _ _ Hprods).
      done.
    + congruence.
    + by rewrite Hcounts.
    + intros text Htext. rewrite <- Hfa in Htext.
      specialize (Hfb text Htext).
      erewrite Hfile; last first.
      { rewrite Hfc, lookup_insert_eq, Hfb. simpl. reflexivity. }
      simpl map. cbn [pieces]. by rewrite !TextFacts.append_assoc.
Qed.

Lemma pieces_positive xs :
  Forall (fun i => 0 < i) xs →
  ∀ r rs, length rs = length xs →
  Json.dumps r +:+ pieces xs rs
  = String.concat ("," +:+ LF) (map Json.dumps (r :: rs)).
Proof.
  induction 1 as [|i xs Hi _ IH]; intros r rs Hlen.
  - destruct rs; [|done]. simpl. by rewrite TextFacts.append_nil_r.
  - destruct rs as [|r' rs]; [done|]. injection Hlen as Hlen.
    cbn [pieces]. replace (0 <? i) with true by (symmetry; by apply Z.ltb_lt).
    rewrite (IH r' rs Hlen). reflexivity.
Qed.

Lemma pieces_range n records :
  length records = Z.to_nat n →
  pieces (range n) records = String.concat ("," +:+ LF) (map Json.dumps records).
Proof.
  intros Hlen. unfold range. destruct (decide (n ≤ 0)) as [Hn|Hn].
  - rewrite seqZ_nil by done. destruct records; [done|]. simpl in Hlen. lia.
  - rewrite seqZ_cons by lia. destruct records as [|r rs]; [simpl in Hlen; lia|].
    cbn [pieces]. change (0 <? 0) with false. cbv iota.
    rewrite TextFacts.append_nil_l. apply pieces_positive.
    + apply Forall_forall. intros i [??]%elem_of_seqZ. lia.
    + rewrite length_seqZ. simpl in Hlen. lia.
Qed.

Lemma mapM_Rand_inv {A B} (f : A → Rand G B) l :
  ∀ g ys g', mapM f l g = Ok (ys, g') →
  Forall2 (fun x y => ∃ g1 g2, f x g1 = Ok (y, g2)) l ys.
Proof.
  induction l as [|x l IH]; intros g ys g' Hm.
  - injection Hm as <- _. constructor.
  - simpl in Hm. apply Rand_bind_inv in Hm as (y & g1 & Hy & Hm).
    apply Rand_bind_inv in Hm as (ys' & g2 & Hys & Hm).
    injection Hm as <- _. constructor; [eauto|]. by eapply IH.
Qed.

(** The partition writer, when it returns a tally: the file holds the
    records that the builder generates in a row from the start id, and
    the tally counts each of them. *)
Lemma generate_interleaved_products_for_file_ok idx start st t st' :
  generate_interleaved_products_for_file io_fails idx start st
    = (Ok (Some t), st') →
  ∃ products g',
    partition_products start (range PRODUCTS_PER_FILE) (rng st)
      = Ok (products, g')
    ∧ file_index t = idx
    ∧ (vendor_counts t, category_counts t) = count_products products (∅, ∅)
    ∧ files st' !! part_path idx
      = Some (artifact_text (map (fun p => p.1.1) products))
    ∧ stdout st' = (stdout st ++ [LogGenerating PRODUCTS_PER_FILE idx;
                                  LogFinished idx PRODUCTS_PER_FILE])%list.
Proof.
  unfold generate_interleaved_products_for_file. intros Hrun.
  rewrite print_bind in Hrun.
  apply M_bind_ok_inv in Hrun as (outcome & s1 & Htry & Hrun).
  destruct outcome as [[vc cc]|]; [|by injection Hrun].
  rewrite print_bind in Hrun. injection Hrun as <- <-.
  unfold try_except in Htry.
  match type of Htry with
  | match ?body ?s0 with _ => _ end = _ =>
      destruct (body s0) as [[counts|e] s2] eqn:Hbody
  end; [|by rewrite print_bind in Htry].
  injection Htry as -> ->.
  apply M_bind_ok_inv in Hbody as ([vc' cc'] & s3 & Hpart & Hret).
  injection Hret as -> -> ->.
  unfold write_partition in Hpart.
  apply M_bind_ok_inv in Hpart as ([] & sa & Hopen & Hpart).
  apply M_bind_ok_inv in Hpart as ([] & sb & Hhead & Hpart).
  apply M_bind_ok_inv in Hpart as (counts & sc & Hloop & Hpart).
  apply M_bind_ok_inv in Hpart as ([] & sd & Htail & Hpart).
  injection Hpart as -> ->.
  apply open_w_ok_inv in Hopen as (Hra & Hfa & Hoa).
  apply write_ok_inv in Hhead as (Hrb & Hfb & Hob).
  apply write_ok_inv in Htail as (Hrd & Hfd & Hod).
  apply for_each_write_product_ok in Hloop
    as (products & Hprods & Hoc & Hcounts & Hfile).
  exists products, (rng sc). simpl in *.
  assert (Hlen : length (map (fun p : pyval * Z * Z => p.1.1) products)
                 = Z.to_nat PRODUCTS_PER_FILE).
  { apply mapM_Rand_inv, Forall2_length in Hprods.
    unfold range in Hprods. rewrite length_seqZ in Hprods.
    by rewrite length_map. }
  rewrite Hrb, Hra in Hprods. split; [done|]. split; [done|].
  split; [by rewrite Hcounts|]. split.
  - rewrite Hfd, lookup_insert_eq.
    erewrite Hfile; last first.
    { rewrite Hfb, lookup_insert_eq, Hfa, lookup_insert_eq. simpl. reflexivity. }
    simpl. rewrite pieces_range by done. unfold artifact_text.
    rewrite TextFacts.append_nil_l.
    by rewrite !TextFacts.append_assoc.
  - rewrite Hod, Hoc, Hob, Hoa. by rewrite <- app_assoc.
Qed.

(** The partition writer never raises: it returns a tally or [None]; and
    when it returns [None], what it printed names the partition. *)
Lemma generate_interleaved_products_for_file_returns idx start st :
  ∃ r st',
    generate_interleaved_products_for_file io_fails idx start st = (Ok r, st')
    ∧ (r = None →
       ∃ e, stdout st' = (stdout st ++ [LogGenerating PRODUCTS_PER_FILE idx;
                                        LogErrorWriting idx e])%list).
Proof.
  unfold generate_interleaved_products_for_file. rewrite print_bind.
  set (s0 := Process _ _ _ _).
  pose proof (write_partition_quiet (part_path idx) start s0) as Hquiet.
  destruct (write_partition io_fails (part_path idx) start s0)
    as [[[vc cc]|e] s2] eqn:Hbody; simpl in Hquiet.
  - erewrite M_bind_ok; last first.
    { apply try_except_ok. erewrite M_bind_ok by done. reflexivity. }
    cbv beta iota. rewrite print_bind. eexists _, _. by split.
  - erewrite M_bind_ok; last first.
    { erewrite try_except_raise; last first.
      { erewrite M_bind_raise by done. reflexivity. }
      rewrite print_bind. reflexivity. }
    eexists _, _. split; [reflexivity|]. intros _. exists e. simpl.
    rewrite Hquiet. unfold s0. simpl. by rewrite <- app_assoc.
Qed.

(** The records of a partition: each can be read back, they carry the
    ids of the range in order, and their category and vendor ids are in
    range. *)
Lemma partition_products_facts start xs g products g' :
  partition_products start xs g = Ok (products, g') →
  Forall Json.json_wf (map (fun p => p.1.1) products)
  ∧ map product_id_of (map (fun p => p.1.1) products) = map (Z.add start) xs
  ∧ Forall (fun p => 0 ≤ p.2 < NUM_CATEGORIES ∧ 0 ≤ p.1.2 < VENDOR_COUNT)
      products.
Proof.
  intros HF%mapM_Rand_inv.
  induction HF as [|i [[product ven] cat] xs products (g1 & g2 & Hgen) _ IH].
  - by repeat split.
  - destruct IH as (IH1 & IH2 & IH3).
    pose proof (generate_product_json_wf _ _ _ _ _ _ Hgen) as [Hwf Hid].
    apply generate_product_json_inv in Hgen as (?&?&?&?& _ & _ & Hc & Hv).
    simpl. split; [by constructor|]. split; [by rewrite Hid, IH2|].
    by constructor.
Qed.

Lemma seqZ_increasing m n (j k : nat) a b :
  (j < k)%nat → seqZ m n !! j = Some a → seqZ m n !! k = Some b → a < b.
Proof. intros Hjk [-> _]%lookup_seqZ [-> _]%lookup_seqZ. lia. Qed.

(** C5. The file of a partition that succeeded, written piece by piece,
    is read by [json.loads] as a list: the list of the records that were
    generated, PRODUCTS_PER_FILE of them, with the product ids of the
    range in strictly increasing order. *)
Theorem partition_artifact_round_trip idx start st t st' :
  generate_interleaved_products_for_file io_fails idx start st
    = (Ok (Some t), st') →
  ∃ products g' text,
    partition_products start (range PRODUCTS_PER_FILE) (rng st)
      = Ok (products, g')
    ∧ files st' !! part_path idx = Some text
    ∧ Json.loads text = Ok (PList (map (fun p => p.1.1) products))
    ∧ length products = Z.to_nat PRODUCTS_PER_FILE
    ∧ map product_id_of (map (fun p => p.1.1) products)
      = seqZ start PRODUCTS_PER_FILE
    ∧ ∀ (j k : nat) a b, (j < k)%nat →
        map product_id_of (map (fun p => p.1.1) products) !! j = Some a →
        map product_id_of (map (fun p => p.1.1) products) !! k = Some b →
        a < b.
Proof.
  intros (products & g' & Hprods & _ & _ & Hfile & _)
    %generate_interleaved_products_for_file_ok.
  pose proof (partition_products_facts _ _ _ _ _ Hprods) as (Hwf & Hids & _).
  unfold range in Hids. rewrite fmap_add_seqZ, Z.add_0_r in Hids.
  exists products, g', (artifact_text (map (fun p => p.1.1) products)).
  split; [done|]. split; [done|]. split.
  { unfold artifact_text.
    apply (JsonFacts.loads_array_text None 0 LF LF LF); done. }
  split.
  { apply (f_equal length) in Hids.
    by rewrite !length_map, length_seqZ in Hids. }
  split; [done|]. rewrite Hids. apply seqZ_increasing.
Qed.

End WriterFacts.

(** ** Tallies and their aggregation *)

Section TallyFacts.

Lemma add_counts_lookup (total counts : gmap Z Z) (k : Z) :
  add_counts total counts !! k =
  match counts !! k with
  | Some n => Some (count_of total k + n)
  | None => total !! k
  end.
Proof.
  unfold add_counts. revert k.
  apply (map_fold_weak_ind
    (fun (r : gmap Z Z) (m : gmap Z Z) =>
       ∀ k, r !! k = match m !! k with
                     | Some n => Some (count_of total k + n)
                     | None => total !! k
                     end)).
  - intros k. by rewrite lookup_empty.
  - intros i x m r Hi IH k. unfold add_count.
    destruct (decide (i = k)) as [->|Hne].
    + rewrite !lookup_insert_eq. specialize (IH k). rewrite Hi in IH.
      unfold count_of. by rewrite IH.
    + rewrite !lookup_insert_ne by done. apply IH.
Qed.

Lemma count_of_add_counts (total counts : gmap Z Z) (k : Z) :
  count_of (add_counts total counts) k = count_of total k + count_of counts k.
Proof.
  unfold count_of at 1 3. rewrite add_counts_lookup.
  destruct (counts !! k); simpl; [done|]. unfold count_of. lia.
Qed.

Lemma add_counts_comm (total a b : gmap Z Z) :
  add_counts (add_counts total a) b = add_counts (add_counts total b) a.
Proof.
  apply map_eq. intros k. rewrite !add_counts_lookup.
  unfold count_of. rewrite !add_counts_lookup.
  destruct (a !! k), (b !! k); simpl; try done. f_equal. unfold count_of. lia.
Qed.

Lemma fold_left_permutation {A B} (f : B → A → B) (l l' : list A) :
  (∀ b x y, f (f b x) y = f (f b y) x) →
  l ≡ₚ l' → ∀ b, fold_left f l b = fold_left f l' b.
Proof.
  intros Hf Hperm. induction Hperm as [|x l l' _ IH|x y l|l1 l2 l3 _ IH1 _ IH2];
    intros b; simpl.
  - done.
  - apply IH.
  - by rewrite Hf.
  - by rewrite IH1, IH2.
Qed.

(** The totals do not depend on the order of the results. *)
Lemma aggregate_permutation (results results' : list (option tally)) :
  results ≡ₚ results' → aggregate results = aggregate results'.
Proof.
  intros Hperm. unfold aggregate. apply fold_left_permutation; [|done].
  intros [tv tc] [x|] [y|]; try done. simpl.
  f_equal; apply add_counts_comm.
Qed.

Lemma aggregate_app (results : list (option tally)) :
  ∀ totals k,
    count_of (fold_left aggregate_step results totals).1 k
      = count_of totals.1 k + vendor_total results k
    ∧ count_of (fold_left aggregate_step results totals).2 k
      = count_of totals.2 k + category_total results k.
Proof.
  induction results as [|[r|] results IH]; intros [tv tc] k; simpl.
  - split; lia.
  - destruct (IH (add_counts tv (vendor_counts r),
                  add_counts tc (category_counts r)) k) as [IHv IHc].
    rewrite IHv, IHc. simpl. rewrite !count_of_add_counts.
    split; lia.
  - apply (IH (tv, tc) k).
Qed.

(** The totals are, key by key, the sums of the counts of the results. *)
Lemma aggregate_totals (results : list (option tally)) (k : Z) :
  count_of (aggregate results).1 k = vendor_total results k
  ∧ count_of (aggregate results).2 k = category_total results k.
Proof.
  destruct (aggregate_app results (∅, ∅) k) as [Hv Hc].
  unfold aggregate. split; [rewrite Hv|rewrite Hc]; simpl;
    unfold count_of; by rewrite lookup_empty.
Qed.

(** Sums of counts *)

Lemma sum_list_plus (f g : Z → Z) keys :
  sum_list (fun k => f k + g k) keys = sum_list f keys + sum_list g keys.
Proof. induction keys as [|k keys IH]; simpl; lia. Qed.

Lemma sum_list_ext (f g : Z → Z) keys :
  (∀ k, k ∈ keys → f k = g k) → sum_list f keys = sum_list g keys.
Proof.
  induction keys as [|k keys IH]; intros Hfg; simpl; [done|].
  rewrite Hfg, IH; [done| |left]. intros k' Hk'. apply Hfg. by right.
Qed.

Lemma sum_list_zero keys : sum_list (fun _ => 0) keys = 0.
Proof. induction keys as [|k keys IH]; simpl; lia. Qed.

Lemma count_of_add_count key n counts k :
  count_of (add_count key n counts) k
  = count_of counts k + (if decide (k = key) then n else 0).
Proof.
  unfold count_of, add_count. destruct (decide (k = key)) as [->|Hne].
  - by rewrite lookup_insert_eq.
  - rewrite lookup_insert_ne by done. lia.
Qed.

Lemma sum_list_indicator key n keys :
  NoDup keys →
  sum_list (fun k => if decide (k = key) then n else 0) keys
  = if decide (key ∈ keys) then n else 0.
Proof.
  induction 1 as [|k keys Hnotin _ IH]; simpl; [done|]. rewrite IH.
  repeat case_decide; subst; try lia; set_solver.
Qed.

(** Counting one more record of a key below [n] adds one to the sum. *)
Lemma sum_over_add_count n key x counts :
  0 ≤ key < n →
  sum_over n (add_count key x counts) = sum_over n counts + x.
Proof.
  intros Hkey. unfold sum_over.
  rewrite (sum_list_ext _ (fun k => count_of counts k
                                    + (if decide (k = key) then x else 0))).
  2:{ intros k _. apply count_of_add_count. }
  rewrite sum_list_plus, sum_list_indicator by apply NoDup_seqZ.
  rewrite decide_True; [done|]. unfold range. apply elem_of_seqZ. lia.
Qed.

Lemma sum_over_empty n : sum_over n ∅ = 0.
Proof.
  unfold sum_over. rewrite <- (sum_list_zero (range n)).
  apply sum_list_ext. intros k _. unfold count_of. by rewrite lookup_empty.
Qed.

(** The counts of a sequence of records whose vendor ids are below [nv]
    and whose category ids are below [nc] sum up to the number of
    records. *)
Lemma count_products_sums nv nc products :
  Forall (fun p : pyval * Z * Z => 0 ≤ p.2 < nc ∧ 0 ≤ p.1.2 < nv) products →
  ∀ counts,
    sum_over nv (count_products products counts).1
      = sum_over nv counts.1 + Z.of_nat (length products)
    ∧ sum_over nc (count_products products counts).2
      = sum_over nc counts.2 + Z.of_nat (length products).
Proof.
  induction 1 as [|p products [Hc Hv] _ IH]; intros counts.
  - simpl. split; lia.
  - unfold count_products in *. simpl fold_left.
    destruct (IH (add_count p.1.2 1 counts.1, add_count p.2 1 counts.2))
      as [IHv IHc].
    rewrite IHv, IHc. simpl fst. simpl snd.
    rewrite !sum_over_add_count by done. simpl length. split; lia.
Qed.

(** The sums of the totals are the sums of the sums of the results. *)
Lemma sum_list_category_total results keys :
  sum_list (category_total results) keys
  = foldr (fun result acc =>
             match result with
             | Some r => sum_list (count_of (category_counts r)) keys + acc
             | None => acc
             end) 0 results.
Proof.
  induction results as [|[r|] results IH]; simpl.
  - apply sum_list_zero.
  - rewrite <- IH. apply sum_list_plus.
  - done.
Qed.

Lemma sum_list_vendor_total results keys :
  sum_list (vendor_total results) keys
  = foldr (fun result acc =>
             match result with
             | Some r => sum_list (count_of (vendor_counts r)) keys + acc
             | None => acc
             end) 0 results.
Proof.
  induction results as [|[r|] results IH]; simpl.
  - apply sum_list_zero.
  - rewrite <- IH. apply sum_list_plus.
  - done.
Qed.

End TallyFacts.

(** ** The base catalog and the count reconciler *)

Section CatalogFacts.
Context `{Config} {G : Type} `{RandomSource G}.
Variable io_fails : string → nat → bool.

(** Two processes that differ at most in their operation counts. *)
Definition same_data (st st' : process G) : Prop :=
  rng st' = rng st ∧ files st' = files st ∧ stdout st' = stdout st.

Lemma io_ok {A} path
    (effect : gmap string string → result (A * gmap string string))
    (st : process G) a fs :
  (∀ n, io_fails path n = false) → effect (files st) = Ok (a, fs) →
  ∃ st', io io_fails path effect st = (Ok a, st')
         ∧ rng st' = rng st ∧ files st' = fs ∧ stdout st' = stdout st.
Proof.
  intros Hnf Heff. unfold io. rewrite Hnf, Heff. by eexists.
Qed.

Lemma dump_json_ok path data (st : process G) :
  (∀ n, io_fails path n = false) →
  ∃ st', dump_json io_fails path data st = (Ok (), st')
         ∧ rng st' = rng st
         ∧ files st' = <[path := Json.dumps_indent 2 data]> (files st)
         ∧ stdout st' = stdout st.
Proof.
  intros Hnf. unfold dump_json, open_w, write.
  destruct (io_ok path (fun fs => Ok ((), <[path := ""]> fs)) st () _ Hnf eq_refl)
    as (s1 & Hopen & Hr1 & Hf1 & Ho1).
  destruct (io_ok path
              (fun fs => Ok ((), <[path := default "" (fs !! path)
                                          +:+ Json.dumps_indent 2 data]> fs))
              s1 () _ Hnf eq_refl) as (s2 & Hwrite & Hr2 & Hf2 & Ho2).
  exists s2. rewrite (M_bind_ok _ _ _ _ _ Hopen), Hwrite.
  split; [done|]. split; [congruence|]. split; [|congruence].
  rewrite Hf2, Hf1, lookup_insert_eq. simpl.
  by rewrite TextFacts.append_nil_l, insert_insert_eq.
Qed.

Lemma load_json_ok path data (st : process G) :
  (∀ n, io_fails path n = false) →
  files st !! path = Some (Json.dumps_indent 2 data) → Json.json_wf data →
  ∃ st', load_json io_fails path st = (Ok data, st') ∧ same_data st st'.
Proof.
  intros Hnf Hfile Hwf. unfold load_json, read.
  destruct (io_ok path
              (fun fs => match fs !! path with
                         | Some text => Ok (text, fs)
                         | None => Raise OSError
                         end) st (Json.dumps_indent 2 data) (files st) Hnf)
    as (s1 & Hread & Hr1 & Hf1 & Ho1); [by rewrite Hfile|].
  exists s1. rewrite (M_bind_ok _ _ _ _ _ Hread).
  unfold lift_result, Json.dumps_indent.
  by rewrite JsonFacts.loads_encode.
Qed.

(** The entries of the category catalog for the ids [ids], with the words
    [words] and the counts that [count] gives. *)
Definition category_records (ids : list Z) (words : list string)
    (count : Z → Z) : list pyval :=
  zip_with (fun i word => category_record i word (count i)) ids words.

Definition vendor_records (ids : list Z) (count : Z → Z) : list pyval :=
  map (fun i => vendor_record i (count i)) ids.

Lemma category_records_wf ids words count :
  Json.json_wf (PList (category_records ids words count)).
Proof.
  apply JsonFacts.json_wf_list, Forall_forall.
  intros e (i & w & -> & _)%elem_of_zip_with.
  apply JsonFacts.json_wf_dict. split.
  - unfold dict_keys. simpl. by apply (bool_decide_unpack _).
  - by repeat constructor.
Qed.

Lemma vendor_records_wf ids count :
  Json.json_wf (PList (vendor_records ids count)).
Proof.
  apply JsonFacts.json_wf_list, Forall_forall.
  intros e (i & -> & _)%list_elem_of_fmap.
  apply JsonFacts.json_wf_dict. split.
  - unfold dict_keys. simpl. by apply (bool_decide_unpack _).
  - by repeat constructor.
Qed.

(** The reconciler sets the count of every entry to the total of its
    id. *)
Lemma update_category_records total ids words count :
  update_products_count total (PList (category_records ids words count))
  = Ok (PList (category_records ids words (count_of total))).
Proof.
  unfold update_products_count.
  assert (mapM (update_entity total) (category_records ids words count)
          = Ok (category_records ids words (count_of total))) as ->; [|done].
  revert words. induction ids as [|i ids IH]; intros [|w words]; try done.
  unfold category_records in *. simpl. by rewrite IH.
Qed.

Lemma update_vendor_records total ids count :
  update_products_count total (PList (vendor_records ids count))
  = Ok (PList (vendor_records ids (count_of total))).
Proof.
  unfold update_products_count.
  assert (mapM (update_entity total) (vendor_records ids count)
          = Ok (vendor_records ids (count_of total))) as ->; [|done].
  induction ids as [|i ids IH]; [done|].
  unfold vendor_records in *. simpl. by rewrite IH.
Qed.

Lemma rand_ok {A} (r : Rand G A) (st : process G) a g' :
  r (rng st) = Ok (a, g') →
  rand r st = (Ok a, Process g' (files st) (io_count st) (stdout st)).
Proof. unfold rand. by intros ->. Qed.

Lemma category_loop xs :
  ∀ data (st : process G),
  ∃ words st',
    for_each xs data
      (fun i data =>
         word ← rand get_random_word;
         mret (data ++ [category_record i word 0])%list) st
    = (Ok (data ++ category_records xs words (fun _ => 0))%list, st')
    ∧ length words = length xs
    ∧ files st' = files st ∧ stdout st' = stdout st.
Proof.
  induction xs as [|i xs IH]; intros data st.
  - exists [], st. simpl. by rewrite app_nil_r.
  - destruct (choice_ok WORDS (rng st) ltac:(done)) as (w & g' & Hw & _).
    destruct (IH (data ++ [category_record i w 0])%list
                (Process g' (files st) (io_count st) (stdout st)))
      as (words & st' & Hloop & Hlen & Hf & Ho).
    exists (w :: words), st'. simpl for_each.
    erewrite M_bind_ok; last first.
    { erewrite M_bind_ok by (apply rand_ok; exact Hw). reflexivity. }
    rewrite Hloop. split; [|by simpl; auto].
    unfold category_records. simpl. by rewrite <- app_assoc.
Qed.

Lemma vendor_loop xs :
  ∀ data (st : process G),
    for_each xs data
      (fun i data => mret (data ++ [vendor_record i 0])%list) st
    = (Ok (data ++ vendor_records xs (fun _ => 0))%list, st).
Proof.
  induction xs as [|i xs IH]; intros data st; simpl.
  - by rewrite app_nil_r.
  - erewrite M_bind_ok by reflexivity. rewrite IH.
    unfold vendor_records. simpl. by rewrite <- app_assoc.
Qed.

(** The initializer, when the two catalog files can be written: it
    returns the two lists, extended, and the files hold them. *)
Lemma generate_base_data_ok categories_data vendors_data (st : process G) :
  (∀ n, io_fails CATEGORIES_FILE n = false) →
  (∀ n, io_fails VENDORS_FILE n = false) →
  ∃ words st',
    let categories := (categories_data
        ++ category_records (range NUM_CATEGORIES) words (fun _ => 0))%list in
    let vendors := (vendors_data
        ++ vendor_records (range VENDOR_COUNT) (fun _ => 0))%list in
    generate_base_data io_fails categories_data vendors_data st
      = (Ok (categories, vendors), st')
    ∧ length words = Z.to_nat NUM_CATEGORIES
    ∧ files st'
      = <[VENDORS_FILE := Json.dumps_indent 2 (PList vendors)]>
          (<[CATEGORIES_FILE := Json.dumps_indent 2 (PList categories)]>
             (files st))
    ∧ stdout st' = stdout st.
Proof.
  intros Hc Hv. unfold generate_base_data.
  destruct (category_loop (range NUM_CATEGORIES) categories_data st)
    as (words & s1 & Hcats & Hlen & Hf1 & Ho1).
  exists words.
  set (categories := (categories_data ++ _)%list) in *.
  set (vendors := (vendors_data
        ++ vendor_records (range VENDOR_COUNT) (fun _ => 0))%list).
  destruct (dump_json_ok CATEGORIES_FILE (PList categories) s1 Hc)
    as (s2 & Hd1 & Hr2 & Hf2 & Ho2).
  destruct (dump_json_ok VENDORS_FILE (PList vendors) s2 Hv)
    as (s3 & Hd2 & Hr3 & Hf3 & Ho3).
  exists s3. cbv zeta.
  erewrite M_bind_ok by exact Hcats.
  erewrite M_bind_ok by apply vendor_loop.
  fold vendors.
  erewrite M_bind_ok by exact Hd1. erewrite M_bind_ok by exact Hd2.
  split; [done|]. split.
  { unfold range in Hlen. by rewrite length_seqZ in Hlen. }
  split; [|congruence]. by rewrite Hf3, Hf2, Hf1.
Qed.

(** The reconciler, on a catalog as the initializer leaves it (or as the
    reconciler itself left it), when the two files can be read and
    written: every count becomes the total of its id. *)
Lemma update_base_data_counts_ok results cat_ids words cat_count ven_ids
    ven_count (st : process G) :
  (∀ n, io_fails CATEGORIES_FILE n = false) →
  (∀ n, io_fails VENDORS_FILE n = false) →
  files st !! CATEGORIES_FILE
    = Some (Json.dumps_indent 2
              (PList (category_records cat_ids words cat_count))) →
  files st !! VENDORS_FILE
    = Some (Json.dumps_indent 2 (PList (vendor_records ven_ids ven_count))) →
  ∃ st',
    update_base_data_counts io_fails results st = (Ok (), st')
    ∧ rng st' = rng st
    ∧ files st'
      = <[VENDORS_FILE :=
            Json.dumps_indent 2
              (PList (vendor_records ven_ids
                        (count_of (aggregate results).1)))]>
          (<[CATEGORIES_FILE :=
               Json.dumps_indent 2
                 (PList (category_records cat_ids words
                           (count_of (aggregate results).2)))]>
             (files st))
    ∧ stdout st' = (stdout st ++ [LogCountsUpdated])%list.
Proof.
  intros Hc Hv Hcfile Hvfile. unfold update_base_data_counts.
  destruct (aggregate results) as [tv tc]. simpl fst. simpl snd.
  destruct (load_json_ok CATEGORIES_FILE _ st Hc Hcfile
              (category_records_wf _ _ _)) as (s1 & Hl1 & Hr1 & Hf1 & Ho1).
  rewrite <- Hf1 in Hvfile.
  destruct (load_json_ok VENDORS_FILE _ s1 Hv Hvfile
              (vendor_records_wf _ _)) as (s2 & Hl2 & Hr2 & Hf2 & Ho2).
  destruct (dump_json_ok CATEGORIES_FILE
              (PList (category_records cat_ids words (count_of tc))) s2 Hc)
    as (s3 & Hd1 & Hr3 & Hf3 & Ho3).
  destruct (dump_json_ok VENDORS_FILE
              (PList (vendor_records ven_ids (count_of tv))) s3 Hv)
    as (s4 & Hd2 & Hr4 & Hf4 & Ho4).
  exists (Process (rng s4) (files s4) (io_count s4)
            (stdout s4 ++ [LogCountsUpdated])).
  erewrite M_bind_ok by exact Hl1. erewrite M_bind_ok by exact Hl2.
  erewrite M_bind_ok; last first.
  { unfold lift_result. rewrite update_category_records. reflexivity. }
  erewrite M_bind_ok; last first.
  { unfold lift_result. rewrite update_vendor_records. reflexivity. }
  erewrite M_bind_ok by exact Hd1. erewrite M_bind_ok by exact Hd2.
  split; [done|]. simpl. split; [congruence|].
  split; [|congruence]. by rewrite Hf4, Hf3, Hf2, Hf1.
Qed.

(** What the reconciler prints: at most its one fixed line, whatever the
    results are and whatever happens. *)
Lemma update_base_data_counts_stdout results (st : process G) :
  let st' := (update_base_data_counts io_fails results st).2 in
  stdout st' = stdout st ∨ stdout st' = (stdout st ++ [LogCountsUpdated])%list.
Proof.
  cbv zeta. unfold update_base_data_counts.
  destruct (aggregate results) as [tv tc].
  assert (Hload : ∀ path, quiet (load_json (G:=G) io_fails path)).
  { intros path. apply quiet_bind; [apply io_quiet|]. by intros text s. }
  assert (Hdump : ∀ path data, quiet (dump_json (G:=G) io_fails path data)).
  { intros path data. apply quiet_bind; [apply io_quiet|].
    intros _. apply io_quiet. }
  unfold mbind, M_bind.
  pose proof (Hload CATEGORIES_FILE st) as Q1.
  destruct (load_json io_fails CATEGORIES_FILE st) as [[c|e] s1];
    simpl in Q1; [|by left].
  pose proof (Hload VENDORS_FILE s1) as Q2.
  destruct (load_json io_fails VENDORS_FILE s1) as [[v|e] s2];
    simpl in Q2; [|left; simpl; congruence].
  unfold lift_result.
  destruct (update_products_count tc c) as [c'|e]; [|left; simpl; congruence].
  destruct (update_products_count tv v) as [v'|e]; [|left; simpl; congruence].
  pose proof (Hdump CATEGORIES_FILE c' s2) as Q3.
  destruct (dump_json io_fails CATEGORIES_FILE c' s2) as [[[]|e] s3];
    simpl in Q3; [|left; simpl; congruence].
  pose proof (Hdump VENDORS_FILE v' s3) as Q4.
  destruct (dump_json io_fails VENDORS_FILE v' s3) as [[[]|e] s4];
    simpl in Q4; [|left; simpl; congruence].
  right. simpl. congruence.
Qed.

End CatalogFacts.

(** ** The orchestrator *)

Section PathFacts.

Lemma append_cancel_l (a b c : string) : a +:+ b = a +:+ c → b = c.
Proof.
  induction a as [|x a IH]; [done|].
  rewrite !TextFacts.append_cons. intros [= Heq]. auto.
Qed.

Lemma part_path_inj i j : 0 ≤ i → 0 ≤ j → part_path i = part_path j → i = j.
Proof.
  intros Hi Hj Heq. unfold part_path, path_join in Heq.
  do 3 apply append_cancel_l in Heq.
  unfold str_int in Heq.
  replace (i <? 0) with false in Heq by (symmetry; apply Z.ltb_ge; lia).
  replace (j <? 0) with false in Heq by (symmetry; apply Z.ltb_ge; lia).
  pose proof (TextFacts.scan_int_part_str_nat i ".json" Hi eq_refl) as H1.
  pose proof (TextFacts.scan_int_part_str_nat j ".json" Hj eq_refl) as H2.
  rewrite Heq in H1. rewrite H1 in H2. by injection H2.
Qed.

Lemma part_path_not_catalog i :
  part_path i ≠ CATEGORIES_FILE ∧ part_path i ≠ VENDORS_FILE.
Proof.
  unfold part_path, CATEGORIES_FILE, VENDORS_FILE, path_join.
  split; intros Heq; do 2 apply append_cancel_l in Heq;
    rewrite TextFacts.append_cons in Heq; discriminate Heq.
Qed.

Lemma catalog_paths_distinct : CATEGORIES_FILE ≠ VENDORS_FILE.
Proof.
  unfold CATEGORIES_FILE, VENDORS_FILE, path_join. intros Heq.
  do 2 apply append_cancel_l in Heq. discriminate Heq.
Qed.

End PathFacts.

Section RunFacts.
Context `{Config} {G : Type} `{RandomSource G}.
Variable io_fails : string → nat → bool.
Variable worker_rng : Z → G.
Variable pool_broken : Z → option lost_worker.
Variable as_completed : list (Z * Z) → list (Z * Z).

Lemma build_tasks_loop (k : nat) :
  ∀ a tasks,
  fold_left
    (fun '(tasks, current_product_id) i =>
       ((tasks ++ [(i, current_product_id)])%list,
        current_product_id + PRODUCTS_PER_FILE))
    (seqZ a (Z.of_nat k)) (tasks, (a - 1) * PRODUCTS_PER_FILE)
  = ((tasks ++ map task_of (seqZ a (Z.of_nat k)))%list,
     (a + Z.of_nat k - 1) * PRODUCTS_PER_FILE).
Proof.
  induction k as [|k IH]; intros a tasks.
  - simpl. rewrite app_nil_r. do 2 f_equal. lia.
  - rewrite seqZ_cons by lia.
    replace (Z.pred (Z.of_nat (S k))) with (Z.of_nat k) by lia.
    simpl fold_left.
    replace ((a - 1) * PRODUCTS_PER_FILE + PRODUCTS_PER_FILE)
      with ((Z.succ a - 1) * PRODUCTS_PER_FILE) by lia.
    rewrite IH. simpl map. rewrite <- app_assoc. simpl.
    do 2 f_equal. lia.
Qed.

(** The tasks: partition [i] is given the start id
    [(i - 1) * PRODUCTS_PER_FILE]. *)
Lemma build_tasks_eq : build_tasks = map task_of (range_from_1 SPLIT_PARTS).
Proof.
  unfold build_tasks, range_from_1.
  assert (seqZ 1 SPLIT_PARTS = seqZ 1 (Z.of_nat (Z.to_nat SPLIT_PARTS))) as ->.
  { unfold seqZ. by rewrite Nat2Z.id. }
  change 0 with ((1 - 1) * PRODUCTS_PER_FILE) at 1.
  by rewrite build_tasks_loop.
Qed.

(** A partition whose writer returned the tally [t], seen from the state
    [st]: its file holds the records that its worker generated from its
    start id, and the tally counts them. *)
Definition good_partition (task : Z * Z) (t : tally) (st : process G) : Prop :=
  ∃ products g',
    partition_products task.2 (range PRODUCTS_PER_FILE) (worker_rng task.1)
      = Ok (products, g')
    ∧ file_index t = task.1
    ∧ (vendor_counts t, category_counts t) = count_products products (∅, ∅)
    ∧ files st !! part_path task.1
      = Some (artifact_text (map (fun p => p.1.1) products)).

Lemma collect_result_spec task results (st : process G) :
  ∃ outcome st',
    collect_result io_fails worker_rng pool_broken task results st
      = (Ok (results ++ option_list (Some <$> outcome))%list, st')
    ∧ rng st' = rng st
    ∧ (∀ p, p ≠ part_path task.1 → files st' !! p = files st !! p)
    ∧ (∀ t, outcome = Some t → good_partition task t st').
Proof.
  destruct task as [idx start]. unfold collect_result, future_result.
  destruct (pool_broken idx) as [lost|] eqn:Hbroken.
  - exists None. eexists.
    erewrite try_except_raise; last first.
    { erewrite M_bind_raise by reflexivity. reflexivity. }
    rewrite print_bind. simpl. rewrite app_nil_r.
    split; [reflexivity|]. split; [done|]. split; [|done].
    intros p Hp. unfold leave. simpl.
    destruct (left_file lost); [by rewrite lookup_insert_ne|done].
  - set (w0 := Process (worker_rng idx) (files st) (io_count st) (stdout st)).
    destruct (generate_interleaved_products_for_file_returns io_fails idx start w0)
      as (r & w1 & Hrun & _).
    pose proof (generate_interleaved_products_for_file_confined
                  io_fails idx start w0) as Hconf.
    rewrite Hrun in Hconf. simpl in Hconf.
    exists r, (Process (rng st) (files w1) (io_count w1) (stdout w1)).
    split.
    { apply try_except_ok. erewrite M_bind_ok; last first.
      { fold w0. rewrite Hrun. reflexivity. }
      destruct r; simpl; [done|]. by rewrite app_nil_r. }
    split; [done|]. split.
    { intros p Hp. by destruct (Hconf p Hp). }
    intros t ->.
    apply generate_interleaved_products_for_file_ok in Hrun
      as (products & g' & Hprods & Hidx & Hcounts & Hfile & _).
    by exists products, g'.
Qed.

Lemma good_partition_frame task t (st st' : process G) :
  files st' !! part_path task.1 = files st !! part_path task.1 →
  good_partition task t st → good_partition task t st'.
Proof.
  intros Hsame (products & g' & ? & ? & ? & Hfile).
  exists products, g'. by rewrite Hsame.
Qed.

(** The loop over the completed futures: it never raises; one tally is
    added per partition whose writer returned one, in the order of
    completion; the files of the partitions that returned a tally hold
    their records, and nothing but the partition files is touched. *)
Lemma collect_loop order :
  NoDup order.*1 → Forall (fun task => 0 ≤ task.1) order →
  ∀ results (st : process G),
  ∃ succeeded new st',
    for_each order results (collect_result io_fails worker_rng pool_broken) st
      = (Ok (results ++ (Some <$> new))%list, st')
    ∧ rng st' = rng st
    ∧ (∀ p, (∀ task, task ∈ order → p ≠ part_path task.1) →
         files st' !! p = files st !! p)
    ∧ sublist succeeded order
    ∧ Forall2 (fun task t => good_partition task t st') succeeded new.
Proof.
  induction order as [|task order IH]; intros Hnd Hpos results st.
  - exists [], [], st. simpl. rewrite app_nil_r. by repeat split.
  - apply NoDup_cons in Hnd as [Hnotin Hnd].
    apply Forall_cons in Hpos as [Hpos0 Hpos].
    destruct (collect_result_spec task results st)
      as (outcome & s1 & Hstep & Hr1 & Hf1 & Hgood).
    destruct (IH Hnd Hpos (results ++ option_list (Some <$> outcome))%list s1)
      as (succeeded & new & st' & Hloop & Hr & Hf & Hsub & Hall).
    assert (Hkeep : files st' !! part_path task.1 = files s1 !! part_path task.1).
    { apply Hf. intros task' Hin Heq.
      apply Hnotin, list_elem_of_fmap. exists task'. split; [|done].
      apply part_path_inj; [done| |done].
      by apply (proj1 (Forall_forall _ _) Hpos). }
    assert (Hframe : ∀ p, (∀ task', task' ∈ task :: order → p ≠ part_path task'.1) →
              files st' !! p = files st !! p).
    { intros p Hp. rewrite Hf, Hf1; [done|apply Hp; left|].
      intros task' Hin. apply Hp. by right. }
    simpl for_each. rewrite (M_bind_ok _ _ _ _ _ Hstep), Hloop.
    destruct outcome as [t|]; simpl.
    + exists (task :: succeeded), (t :: new), st'.
      rewrite <- app_assoc. simpl. split; [done|].
      split; [congruence|]. split; [done|].
      split; [by apply sublist_skip|].
      constructor; [|done]. eapply good_partition_frame; [done|]. by apply Hgood.
    + exists succeeded, new, st'. rewrite app_nil_r.
      split; [done|]. split; [congruence|]. split; [done|].
      split; [by apply sublist_cons|done].
Qed.

Lemma build_tasks_indices :
  NoDup build_tasks.*1 ∧ Forall (fun task => 0 ≤ task.1) build_tasks.
Proof.
  rewrite build_tasks_eq. unfold range_from_1. split.
  - rewrite <- list_fmap_compose.
    replace (fst ∘ task_of) with (@id Z) by done.
    rewrite list_fmap_id. apply NoDup_seqZ.
  - apply Forall_forall. intros task (i & -> & [??]%elem_of_seqZ)%list_elem_of_fmap.
    simpl. lia.
Qed.

(** The orchestrator: it never raises, whatever the partitions do. *)
Lemma run_interleaved_generation_spec (st : process G) :
  as_completed build_tasks ≡ₚ build_tasks →
  ∃ succeeded new st',
    run_interleaved_generation io_fails worker_rng pool_broken as_completed st
      = (Ok (Some <$> new), st')
    ∧ rng st' = rng st
    ∧ (∀ p, (∀ i, p ≠ part_path i) → files st' !! p = files st !! p)
    ∧ sublist succeeded (as_completed build_tasks)
    ∧ Forall2 (fun task t => good_partition task t st') succeeded new.
Proof.
  intros Hperm. destruct build_tasks_indices as [Hnd Hpos].
  unfold run_interleaved_generation. rewrite !print_bind. cbv zeta.
  set (s0 := Process _ _ _ _).
  destruct (collect_loop (as_completed build_tasks)) with (results := @nil (option tally))
    (st := s0) as (succeeded & new & st' & Hloop & Hr & Hf & Hsub & Hall).
  { by rewrite Hperm. }
  { by rewrite Hperm. }
  exists succeeded, new, st'. rewrite Hloop.
  split; [done|]. split; [done|]. split; [|done].
  intros p Hp. rewrite Hf; [done|]. intros task _. apply Hp.
Qed.

Lemma sublist_full {A} (l1 l2 : list A) :
  sublist l1 l2 → (length l2 ≤ length l1)%nat → l1 = l2.
Proof.
  induction 1 as [|x l1 l2 _ IH|x l1 l2 Hsub _]; simpl; intros Hlen.
  - done.
  - f_equal. apply IH. lia.
  - apply sublist_length in Hsub. lia.
Qed.

(** The ids of the partitions [a], [a + 1], ... put end to end. *)
Lemma concat_id_ranges (k : nat) :
  ∀ a (parts : list (list Z)),
  0 ≤ PRODUCTS_PER_FILE →
  Forall2 (fun i ids => ids = seqZ ((i - 1) * PRODUCTS_PER_FILE) PRODUCTS_PER_FILE)
    (seqZ a (Z.of_nat k)) parts →
  concat parts
  = seqZ ((a - 1) * PRODUCTS_PER_FILE) (PRODUCTS_PER_FILE * Z.of_nat k).
Proof.
  induction k as [|k IH]; intros a parts Hp HF.
  - simpl in HF. apply Forall2_nil_inv_l in HF as ->.
    by rewrite Z.mul_0_r.
  - rewrite seqZ_cons in HF by lia.
    replace (Z.pred (Z.of_nat (S k))) with (Z.of_nat k) in HF by lia.
    apply Forall2_cons_inv_l in HF as (ids & parts' & -> & HF & ->).
    simpl concat. rewrite (IH (Z.succ a) parts' Hp HF).
    replace (PRODUCTS_PER_FILE * Z.of_nat (S k))
      with (PRODUCTS_PER_FILE + PRODUCTS_PER_FILE * Z.of_nat k) by lia.
    rewrite seqZ_app by lia. do 2 f_equal. lia.
Qed.

(** C1. In a run in which all the partitions returned a tally, partition
    [i] was given the start id [(i - 1) * PRODUCTS_PER_FILE], its file
    holds records with the ids [start, start + 1, ...,
    start + PRODUCTS_PER_FILE - 1], and the ids of all the files, put end
    to end, are [0, 1, ..., TOTAL_PRODUCTS - 1]: pairwise distinct, and
    exactly the ids below TOTAL_PRODUCTS. *)
Theorem product_ids_cover (st : process G) results st' :
  as_completed build_tasks ≡ₚ build_tasks →
  0 ≤ PRODUCTS_PER_FILE → 0 ≤ SPLIT_PARTS →
  run_interleaved_generation io_fails worker_rng pool_broken as_completed st
    = (Ok results, st') →
  length results = Z.to_nat SPLIT_PARTS →
  build_tasks = map task_of (range_from_1 SPLIT_PARTS)
  ∧ ∃ parts : list (list pyval),
      Forall2 (fun i records =>
                 ∃ text, files st' !! part_path i = Some text
                   ∧ Json.loads text = Ok (PList records)
                   ∧ map product_id_of records
                     = seqZ ((i - 1) * PRODUCTS_PER_FILE) PRODUCTS_PER_FILE)
        (range_from_1 SPLIT_PARTS) parts
      ∧ map product_id_of (concat parts) = seqZ 0 TOTAL_PRODUCTS
      ∧ NoDup (map product_id_of (concat parts))
      ∧ ∀ id, id ∈ map product_id_of (concat parts) ↔ 0 ≤ id < TOTAL_PRODUCTS.
Proof.
  intros Hperm Hppf Hsplit Hrun Hlen. split; [apply build_tasks_eq|].
  destruct (run_interleaved_generation_spec st Hperm)
    as (succeeded & new & st1 & Hrun' & _ & _ & Hsub & Hgood).
  rewrite Hrun in Hrun'. injection Hrun' as -> <-.
  assert (Hall : succeeded = as_completed build_tasks).
  { apply sublist_full; [done|].
    rewrite (Forall2_length _ _ _ Hgood), Hperm, build_tasks_eq.
    rewrite length_fmap in Hlen. rewrite length_map. unfold range_from_1.
    rewrite length_seqZ. lia. }
  subst succeeded.
  assert (Hparts : Forall (fun i => ∃ records text,
            files st' !! part_path i = Some text
            ∧ Json.loads text = Ok (PList records)
            ∧ map product_id_of records
              = seqZ ((i - 1) * PRODUCTS_PER_FILE) PRODUCTS_PER_FILE)
          (range_from_1 SPLIT_PARTS)).
  { apply Forall_forall. intros i Hi.
    assert (Hin : task_of i ∈ as_completed build_tasks).
    { rewrite Hperm, build_tasks_eq. apply list_elem_of_fmap. eauto. }
    apply list_elem_of_lookup in Hin as [j Hj].
    destruct (Forall2_lookup_l _ _ _ _ _ Hgood Hj)
      as (t & _ & products & g' & Hprods & _ & _ & Hfile).
    simpl in *.
    pose proof (partition_products_facts _ _ _ _ _ Hprods) as (Hwf & Hids & _).
    unfold range in Hids. rewrite fmap_add_seqZ, Z.add_0_r in Hids.
    exists (map (fun p => p.1.1) products), (artifact_text (map (fun p => p.1.1) products)).
    split; [done|]. split; [|done].
    apply (JsonFacts.loads_array_text None 0 LF LF LF); done. }
  apply Forall_exists_Forall2_l in Hparts as [parts Hparts].
  exists parts. split.
  { eapply Forall2_impl; [done|]. simpl. intros i records (text & ?). eauto. }
  assert (Hids : map product_id_of (concat parts) = seqZ 0 TOTAL_PRODUCTS).
  { assert (Hcat : concat (map (map product_id_of) parts) = seqZ 0 TOTAL_PRODUCTS).
    { unfold TOTAL_PRODUCTS.
      replace SPLIT_PARTS with (Z.of_nat (Z.to_nat SPLIT_PARTS)) at 1 by lia.
      rewrite (concat_id_ranges (Z.to_nat SPLIT_PARTS) 1); [by rewrite Z.mul_0_l|done|].
      rewrite Z2Nat.id by done. apply Forall2_fmap_r.
      eapply Forall2_impl; [done|]. simpl. by intros i records (text & _ & _ & ->). }
    rewrite <- Hcat. clear. induction parts as [|x parts IH]; [done|].
    simpl. by rewrite map_app, IH. }
  split; [done|]. rewrite Hids. split; [apply NoDup_seqZ|].
  intros id. rewrite elem_of_seqZ. lia.
Qed.

End RunFacts.

(** ** The whole run *)

Section MainFacts.
Context `{Config} {G : Type} `{RandomSource G}.
Variable io_fails : string → nat → bool.
Variable worker_rng : Z → G.
Variable pool_broken : Z → option lost_worker.
Variable as_completed : list (Z * Z) → list (Z * Z).

Lemma category_records_ext ids words (f g : Z → Z) :
  (∀ i, f i = g i) →
  category_records ids words f = category_records ids words g.
Proof.
  intros Hfg. unfold category_records. revert words.
  induction ids as [|i ids IH]; intros [|w words]; simpl; try done.
  by rewrite Hfg, IH.
Qed.

Lemma vendor_records_ext ids (f g : Z → Z) :
  (∀ i, f i = g i) → vendor_records ids f = vendor_records ids g.
Proof.
  intros Hfg. unfold vendor_records.
  induction ids as [|i ids IH]; simpl; [done|]. by rewrite Hfg, IH.
Qed.

Lemma catalog_entries_dumps l :
  Json.json_wf (PList l) →
  catalog_entries (Some (Json.dumps_indent 2 (PList l))) = l.
Proof.
  intros Hwf. unfold catalog_entries, Json.dumps_indent.
  by rewrite JsonFacts.loads_encode.
Qed.

Lemma category_records_counts ids words f :
  length words = length ids →
  map products_count_of (category_records ids words f) = map f ids.
Proof.
  unfold category_records. revert words.
  induction ids as [|i ids IH]; intros [|w words] Hlen; simpl in *; try done.
  f_equal. apply IH. lia.
Qed.

Lemma vendor_records_counts ids f :
  map products_count_of (vendor_records ids f) = map f ids.
Proof.
  unfold vendor_records. induction ids as [|i ids IH]; simpl; [done|].
  by f_equal.
Qed.

Lemma catalog_total_counts text f ids :
  map products_count_of (catalog_entries text) = map f ids →
  catalog_total text = sum_list f ids.
Proof.
  unfold catalog_total, sum_list. generalize (catalog_entries text).
  intros l. revert l. induction ids as [|i ids IH]; intros [|e l] Heq;
    simpl in *; try done.
  injection Heq as -> Heq. by rewrite (IH l).
Qed.

Lemma print_loop (ids : list Z) (line : Z → log_line) (st : process G) :
  ∃ st', for_each ids () (fun i _ => print (line i)) st = (Ok (), st')
         ∧ rng st' = rng st ∧ files st' = files st.
Proof.
  revert st. induction ids as [|i ids IH]; intros st; simpl.
  - by exists st.
  - rewrite print_bind.
    destruct (IH (Process (rng st) (files st) (io_count st)
                    (stdout st ++ [line i]))) as (st' & -> & ? & ?).
    by exists st'.
Qed.

(** The tally of a partition whose file is complete sums up, over the
    categories and over the vendors, to the number of its records. *)
Lemma good_partition_sums task t (st : process G) :
  good_partition worker_rng task t st →
  ∃ text records,
    files st !! part_path (file_index t) = Some text
    ∧ Json.loads text = Ok (PList records)
    ∧ length records = Z.to_nat PRODUCTS_PER_FILE
    ∧ sum_over NUM_CATEGORIES (category_counts t) = Z.of_nat (length records)
    ∧ sum_over VENDOR_COUNT (vendor_counts t) = Z.of_nat (length records).
Proof.
  intros (products & g' & Hprods & -> & Hcounts & Hfile).
  pose proof (partition_products_facts _ _ _ _ _ Hprods) as (Hwf & Hids & Hrange).
  destruct (count_products_sums VENDOR_COUNT NUM_CATEGORIES products Hrange (∅, ∅))
    as [Hv Hc].
  rewrite <- Hcounts in Hv, Hc. simpl in Hv, Hc.
  rewrite sum_over_empty in Hv, Hc.
  exists (artifact_text (map (fun p => p.1.1) products)),
    (map (fun p => p.1.1) products).
  split; [done|]. split.
  { apply (JsonFacts.loads_array_text None 0 LF LF LF); done. }
  rewrite length_map. split; [|split; lia].
  apply (f_equal length) in Hids.
  unfold range in Hids. by rewrite !length_map, length_seqZ in Hids.
Qed.

Lemma foldr_constant_sum (new : list tally) (f : tally → Z) c :
  Forall (fun t => f t = c) new →
  foldr (fun result acc =>
           match result with
           | Some r => f r + acc
           | None => acc
           end) 0 (Some <$> new)
  = c * Z.of_nat (length new).
Proof.
  induction 1 as [|t new Ht _ IH]; [simpl; lia|].
  rewrite fmap_cons. cbn [foldr]. rewrite IH, Ht. simpl length. lia.
Qed.

Lemma category_total_absent (new : list tally) i :
  (∀ t, t ∈ new → category_counts t !! i = None) →
  category_total (Some <$> new) i = 0.
Proof.
  induction new as [|t new IH]; intros Habs; [done|].
  rewrite fmap_cons. cbn [category_total vendor_total foldr].
  fold (category_total (Some <$> new) i). fold (vendor_total (Some <$> new) i).
  rewrite IH by (intros t' Ht'; apply Habs; by right).
  unfold count_of. rewrite Habs by left. done.
Qed.

Lemma vendor_total_absent (new : list tally) i :
  (∀ t, t ∈ new → vendor_counts t !! i = None) →
  vendor_total (Some <$> new) i = 0.
Proof.
  induction new as [|t new IH]; intros Habs; [done|].
  rewrite fmap_cons. cbn [category_total vendor_total foldr].
  fold (category_total (Some <$> new) i). fold (vendor_total (Some <$> new) i).
  rewrite IH by (intros t' Ht'; apply Habs; by right).
  unfold count_of. rewrite Habs by left. done.
Qed.

End MainFacts.

(** ** The reconciler: order, re-runs, and what it reports *)

Section ReconcilerFacts.
Context `{Config} {G : Type} `{RandomSource G}.
Variable io_fails : string → nat → bool.

(** C7. The totals that the reconciler computes, and everything it then
    does, are the same for a list of results and for any permutation of
    it. *)
Theorem reconciler_order_independent results results' (st : process G) :
  results ≡ₚ results' →
  aggregate results = aggregate results'
  ∧ (∀ key, category_total results key = category_total results' key
            ∧ vendor_total results key = vendor_total results' key)
  ∧ update_base_data_counts io_fails results st
    = update_base_data_counts io_fails results' st.
Proof.
  intros Hperm. pose proof (aggregate_permutation _ _ Hperm) as Hagg.
  split; [done|]. split.
  - intros key.
    destruct (aggregate_totals results key) as [Hv Hc].
    destruct (aggregate_totals results' key) as [Hv' Hc'].
    rewrite Hagg in Hv, Hc. split; congruence.
  - unfold update_base_data_counts. by rewrite Hagg.
Qed.

Lemma init_and_reconcile_ok results (st : process G) :
  (∀ n, io_fails CATEGORIES_FILE n = false) →
  (∀ n, io_fails VENDORS_FILE n = false) →
  ∃ words st',
    init_and_reconcile io_fails results st = (Ok (), st')
    ∧ length words = Z.to_nat NUM_CATEGORIES
    ∧ files st'
      = <[VENDORS_FILE :=
            Json.dumps_indent 2
              (PList (vendor_records (range VENDOR_COUNT)
                        (vendor_total results)))]>
          (<[CATEGORIES_FILE :=
               Json.dumps_indent 2
                 (PList (category_records (range NUM_CATEGORIES) words
                           (category_total results)))]>
             (files st)).
Proof.
  intros Hcat Hven. unfold init_and_reconcile.
  destruct (generate_base_data_ok io_fails [] [] st Hcat Hven)
    as (words & s1 & Hinit & Hwords & Hf1 & Ho1).
  cbv zeta in Hinit. rewrite !app_nil_l in *.
  destruct (update_base_data_counts_ok io_fails results
              (range NUM_CATEGORIES) words (fun _ => 0)
              (range VENDOR_COUNT) (fun _ => 0) s1 Hcat Hven)
    as (s2 & Hupd & _ & Hf2 & _).
  { rewrite Hf1, lookup_insert_ne by (symmetry; apply catalog_paths_distinct).
    by rewrite lookup_insert_eq. }
  { by rewrite Hf1, lookup_insert_eq. }
  exists words, s2. rewrite (M_bind_ok _ _ _ _ _ Hinit), Hupd.
  split; [done|]. split; [done|]. rewrite Hf2, Hf1.
  rewrite (category_records_ext _ _ _ (category_total results))
    by (intros i; apply (proj2 (aggregate_totals _ i))).
  rewrite (vendor_records_ext _ _ (vendor_total results))
    by (intros i; apply (proj1 (aggregate_totals _ i))).
  pose proof catalog_paths_distinct.
  apply map_eq. intros p.
  destruct (decide (p = VENDORS_FILE)) as [->|Hv];
    [by rewrite !lookup_insert_eq|].
  rewrite !(lookup_insert_ne _ VENDORS_FILE) by congruence.
  destruct (decide (p = CATEGORIES_FILE)) as [->|Hc];
    [by rewrite !lookup_insert_eq|].
  by rewrite !lookup_insert_ne by congruence.
Qed.

(** C8 (amended). Running the initializer and the reconciler again on
    the same results gives the same vendor catalog, and a category
    catalog with the same ids and the same products_count values: every
    count is the total of the results for its id, not that total added to
    the count of the run before. Only the words drawn for the labels may
    differ. And running the reconciler again on its own output changes no
    file. *)
Theorem rerun_same_counts results (st : process G) :
  (∀ n, io_fails CATEGORIES_FILE n = false) →
  (∀ n, io_fails VENDORS_FILE n = false) →
  ∃ words1 words2 once twice again,
    init_and_reconcile io_fails results st = (Ok (), once)
    ∧ init_and_reconcile io_fails results once = (Ok (), twice)
    ∧ length words1 = Z.to_nat NUM_CATEGORIES
    ∧ length words2 = Z.to_nat NUM_CATEGORIES
    ∧ catalog_entries (files once !! CATEGORIES_FILE)
      = category_records (range NUM_CATEGORIES) words1 (category_total results)
    ∧ catalog_entries (files twice !! CATEGORIES_FILE)
      = category_records (range NUM_CATEGORIES) words2 (category_total results)
    ∧ files twice !! VENDORS_FILE = files once !! VENDORS_FILE
    ∧ catalog_entries (files once !! VENDORS_FILE)
      = vendor_records (range VENDOR_COUNT) (vendor_total results)
    ∧ update_base_data_counts io_fails results once = (Ok (), again)
    ∧ files again = files once.
Proof.
  intros Hcat Hven.
  destruct (init_and_reconcile_ok results st Hcat Hven)
    as (words1 & once & Hrun1 & Hw1 & Hf1).
  destruct (init_and_reconcile_ok results once Hcat Hven)
    as (words2 & twice & Hrun2 & Hw2 & Hf2).
  assert (Hc1 : files once !! CATEGORIES_FILE
                = Some (Json.dumps_indent 2
                          (PList (category_records (range NUM_CATEGORIES)
                                    words1 (category_total results))))).
  { rewrite Hf1, lookup_insert_ne by (symmetry; apply catalog_paths_distinct).
    by rewrite lookup_insert_eq. }
  assert (Hv1 : files once !! VENDORS_FILE
                = Some (Json.dumps_indent 2
                          (PList (vendor_records (range VENDOR_COUNT)
                                    (vendor_total results))))).
  { by rewrite Hf1, lookup_insert_eq. }
  destruct (update_base_data_counts_ok io_fails results _ _ _ _ _ once
              Hcat Hven Hc1 Hv1) as (again & Hupd & _ & Hfa & _).
  exists words1, words2, once, twice, again.
  split; [done|]. split; [done|]. split; [done|]. split; [done|].
  split; [by rewrite Hc1, catalog_entries_dumps by apply category_records_wf|].
  split.
  { rewrite Hf2, lookup_insert_ne by (symmetry; apply catalog_paths_distinct).
    by rewrite lookup_insert_eq, catalog_entries_dumps
      by apply category_records_wf. }
  split; [by rewrite Hf2, Hv1, lookup_insert_eq|].
  split; [by rewrite Hv1, catalog_entries_dumps by apply vendor_records_wf|].
  split; [done|]. rewrite Hfa.
  rewrite (category_records_ext _ _ _ (category_total results))
    by (intros i; apply (proj2 (aggregate_totals _ i))).
  rewrite (vendor_records_ext _ _ (vendor_total results))
    by (intros i; apply (proj1 (aggregate_totals _ i))).
  rewrite (insert_id (files once) CATEGORIES_FILE) by done.
  by rewrite insert_id.
Qed.

End ReconcilerFacts.

(** ** The theorems on the small run *)

Module ScenarioFacts.

(** The worker of partition 2 wrote its whole file and printed its last
    line, and the pool lost it before its result was fetched. *)
Definition finished_then_lost : lost_worker :=
  let w := (@generate_interleaved_products_for_file Scenario.config Z Lcg_source
              Scenario.no_faults 2 3 (Process (Scenario.seeds 2) ∅ ∅ [])).2 in
  LostWorker (files w !! part_path 2)
    (default O (io_count w !! part_path 2)) PrintedFinished.

Definition part_2_lost : Z → option lost_worker :=
  fun i => if i =? 2 then Some finished_then_lost else None.

Lemma last_first_permutation :
  Scenario.last_first (@build_tasks Scenario.config)
  ≡ₚ @build_tasks Scenario.config.
Proof. apply reverse_Permutation. Qed.

Lemma part_2_fails_elsewhere path :
  String.eqb path (part_path 2) = false →
  ∀ n, Scenario.part_2_fails path n = false.
Proof. intros Hpath n. unfold Scenario.part_2_fails. by rewrite Hpath. Qed.

End ScenarioFacts.

Lemma partition_artifact_round_trip_witness :
  ∃ records,
    Json.loads
      (default ""
         (files (@generate_interleaved_products_for_file Scenario.config Z
                   Lcg_source Scenario.no_faults 1 0 Scenario.start).2
          !! part_path 1))
    = Ok (PList records)
    ∧ map product_id_of records = [0; 1; 2].
Proof.
  let v := eval vm_compute in
    (@generate_interleaved_products_for_file Scenario.config Z Lcg_source
       Scenario.no_faults 1 0 Scenario.start) in
  match v with
  | (Ok (Some ?t), ?st') =>
      assert (Hrun : @generate_interleaved_products_for_file Scenario.config Z
                       Lcg_source Scenario.no_faults 1 0 Scenario.start
                     = (Ok (Some t), st')) by (vm_compute; reflexivity)
  end.
  destruct (@partition_artifact_round_trip Scenario.config Z Lcg_source
              Scenario.no_faults 1 0 Scenario.start _ _ Hrun)
    as (products & g' & text & _ & Hfile & Hloads & _ & Hids & _).
  exists (map (fun p => p.1.1) products). rewrite Hrun. simpl snd.
  rewrite Hfile. simpl. split; [exact Hloads|exact Hids].
Defined.

Lemma product_ids_cover_witness :
  ∃ parts : list (list pyval),
    map product_id_of (concat parts) = seqZ 0 12
    ∧ NoDup (map product_id_of (concat parts)).
Proof.
  let v := eval vm_compute in
    (@run_interleaved_generation Scenario.config Z Lcg_source
       Scenario.no_faults Scenario.seeds Scenario.no_loss Scenario.last_first
       Scenario.start) in
  match v with
  | (Ok ?results, ?st') =>
      assert (Hrun : @run_interleaved_generation Scenario.config Z Lcg_source
                       Scenario.no_faults Scenario.seeds Scenario.no_loss
                       Scenario.last_first Scenario.start
                     = (Ok results, st')) by (vm_compute; reflexivity)
  end.
  destruct (@product_ids_cover Scenario.config Z Lcg_source
              Scenario.no_faults Scenario.seeds Scenario.no_loss
              Scenario.last_first Scenario.start _ _
              ScenarioFacts.last_first_permutation ltac:(simpl; lia)
              ltac:(simpl; lia) Hrun eq_refl)
    as (_ & parts & _ & Hids & Hnd & _).
  exists parts. split; [exact Hids|exact Hnd].
Defined.

(** The second scenario, run: partition 2 is reported by its writer,
    the three other partitions are counted, and nothing else. *)
Example scenario_part_2_fails :
  let run := @main Scenario.config Z Lcg_source Scenario.part_2_fails
               Scenario.seeds Scenario.no_loss Scenario.last_first
               Scenario.start in
  run.1 = Ok ()
  ∧ stdout run.2
    = [LogGeneratingStructure; LogStarting; LogTotal 12 3; LogUsingProcesses;
       LogGenerating 3 4; LogFinished 4 3;
       LogGenerating 3 3; LogFinished 3 3;
       LogGenerating 3 2; LogErrorWriting 2 OSError;
       LogGenerating 3 1; LogFinished 1 3;
       LogCountsUpdated; LogComplete;
       LogSavedTo 1 "generated_data/products_part_1.json";
       LogSavedTo 2 "generated_data/products_part_2.json";
       LogSavedTo 3 "generated_data/products_part_3.json";
       LogSavedTo 4 "generated_data/products_part_4.json";
       LogTotalTime]
  ∧ catalog_total (files run.2 !! CATEGORIES_FILE) = 9
  ∧ catalog_total (files run.2 !! VENDORS_FILE) = 9.
Proof. vm_compute. repeat split. Qed.

Lemma reconciler_order_independent_witness :
  aggregate Scenario.results = aggregate Scenario.results_reordered
  ∧ @update_base_data_counts Z Scenario.no_faults Scenario.results Scenario.start
    = @update_base_data_counts Z Scenario.no_faults Scenario.results_reordered
        Scenario.start.
Proof.
  destruct (@reconciler_order_independent Z Scenario.no_faults
              Scenario.results Scenario.results_reordered Scenario.start)
    as (Hagg & _ & Hupd).
  - unfold Scenario.results, Scenario.results_reordered.
    apply (Permutation_cons_append [None; Some Scenario.tally_3]
             (Some Scenario.tally_1)).
  - split; [exact Hagg|exact Hupd].
Defined.

Lemma rerun_same_counts_witness :
  ∃ once twice,
    @init_and_reconcile Scenario.config Z Lcg_source Scenario.no_faults
      Scenario.results Scenario.start = (Ok (), once)
    ∧ @init_and_reconcile Scenario.config Z Lcg_source Scenario.no_faults
        Scenario.results once = (Ok (), twice)
    ∧ files twice !! VENDORS_FILE = files once !! VENDORS_FILE.
Proof.
  destruct (@rerun_same_counts Scenario.config Z Lcg_source Scenario.no_faults
              Scenario.results Scenario.start)
    as (w1 & w2 & once & twice & again & H1 & H2 & _ & _ & _ & _ & Hv & _).
  - intros n. reflexivity.
  - intros n. reflexivity.
  - exists once, twice. split; [exact H1|]. split; [exact H2|exact Hv].
Defined.

(** C8, as stated, fails: with the constants of the script, the category
    catalog after a second run of the initializer and the reconciler on
    the same results is not the one after the first run. *)
Lemma rerun_changes_labels :
  let once := (@init_and_reconcile script_config Z Lcg_source
                 Scenario.no_faults Scenario.results Scenario.start).2 in
  let twice := (@init_and_reconcile script_config Z Lcg_source
                  Scenario.no_faults Scenario.results once).2 in
  files twice !! CATEGORIES_FILE ≠ files once !! CATEGORIES_FILE.
Proof. cbv zeta. apply (bool_decide_eq_false_1 _). vm_compute. reflexivity. Qed.

(** C9, as stated, fails: with the constants of the script, on the
    catalog that the initializer wrote and on results that lack one
    partition, the reconciler prints its fixed line only: it names neither
    a partition that contributed nor the one that is missing. *)
Lemma reconciler_names_no_partition :
  let st := (@generate_base_data script_config Z Lcg_source Scenario.no_faults
               [] [] Scenario.start).2 in
  let out := stdout (@update_base_data_counts Z Scenario.no_faults
                       Scenario.results st).2 in
  (@update_base_data_counts Z Scenario.no_faults Scenario.results st).1 = Ok ()
  ∧ out = [LogCountsUpdated]
  ∧ ¬ names_partition out 1 ∧ ¬ names_partition out 2 ∧ ¬ names_partition out 3.
Proof.
  cbv zeta.
  assert (Hout : stdout (@update_base_data_counts Z Scenario.no_faults
                   Scenario.results
                   (@generate_base_data script_config Z Lcg_source
                      Scenario.no_faults [] [] Scenario.start).2).2
                 = [LogCountsUpdated]) by (vm_compute; reflexivity).
  split; [vm_compute; reflexivity|]. rewrite Hout. split; [done|].
  repeat split; intros (l & ->%list_elem_of_singleton & [=]).
Qed.

Module TestRunnerFacts.
Import TestRunner.

Lemma py_len_nonneg v n : py_len v = Ok n → 0 ≤ n.
Proof. destruct v; simpl; intros [= <-]; lia. Qed.

Lemma count_shards_try_nonneg v n : count_shards_try v = Ok n → 0 ≤ n.
Proof.
  unfold count_shards_try.
  destruct (py_get v _ _) as [stats|]; simpl; [|done].
  destruct (py_get stats _ _) as [stages|]; simpl; [|done].
  destruct (py_contains _ stages) as [[]|]; simpl; [| |done].
  - destruct (py_getitem stages _) as [sh|]; simpl; [|done]. apply py_len_nonneg.
  - destruct (py_contains _ v) as [[]|]; simpl; [| |done].
    + destruct (py_getitem v _) as [sh|]; simpl; [|done]. apply py_len_nonneg.
    + intros [= <-]. lia.
Qed.

(** A dictionary without any [shards] key whose [executionStats] is an
    integer: the [.get] on the integer raises and the answer is [0]. *)
Definition explain_stats_not_a_dict : pyval :=
  PDict [("executionStats", PInt 5)].

(** An aggregation answer whose [shards] entry is empty: nothing raises
    and the answer is [0]. *)
Definition explain_no_shard_hit : pyval :=
  PDict [("shards", PDict [])].

(** An explain answer of a query that was routed to one shard. *)
Definition explain_single_shard : pyval :=
  PDict [("executionStats",
          PDict [("nReturned", PInt 20);
                 ("executionStages", PDict [("stage", PStr "SINGLE_SHARD")])])].

(** C10, as stated, fails: a dictionary with no [shards] key at top level
    and none under [executionStats.executionStages] is answered [0], not
    [1]; and [0] is also answered when nothing raises. *)
Lemma count_shards_claim_fails :
  (is_dict explain_stats_not_a_dict = true
   ∧ has_key "shards" explain_stats_not_a_dict = false
   ∧ has_key_under "executionStats" "executionStages" "shards"
       explain_stats_not_a_dict = false
   ∧ count_shards_from_explain explain_stats_not_a_dict ≠ 1)
  ∧ (count_shards_from_explain explain_no_shard_hit = 0
     ∧ count_shards_try explain_no_shard_hit = Ok 0).
Proof. repeat split; done. Qed.

(** An answer whose [shards] entry is a number: every [.get], membership
    test and subscript succeeds, [len] raises, and the answer is [0]. *)
Definition explain_shards_not_sized : pyval := PDict [("shards", PInt 5)].

Example count_shards_len_raises :
  count_shards_from_explain explain_shards_not_sized = 0
  ∧ py_getitem explain_shards_not_sized "shards" = Ok (PInt 5)
  ∧ py_len (PInt 5) = Raise TypeError
  ∧ count_shards_try explain_shards_not_sized = Raise TypeError.
Proof. repeat split. Qed.

(** C10 (amended): [count_shards_from_explain] is total and its answer is
    a natural number; a dictionary with no [shards] key at top level whose
    [executionStats] entry is absent or a dictionary, whose
    [executionStages] entry in turn is absent or a dictionary, and that has
    no [shards] key there, is answered [1]; the answer [0] means that the
    [try] block raised, in any of its operations (a [.get], a membership
    test, a subscript, or [len] of the [shards] entry), or that the
    [shards] entry that was measured has length [0]. *)
Theorem count_shards_from_explain_spec (v : pyval) :
  0 ≤ count_shards_from_explain v
  ∧ (∀ d, v = PDict d →
       dict_has "shards" d = false →
       stages_well_typed d = true →
       has_key_under "executionStats" "executionStages" "shards" v = false →
       count_shards_from_explain v = 1)
  ∧ (count_shards_from_explain v = 0 →
       (∃ e, count_shards_try v = Raise e)
       ∨ (∃ holder shards,
            (holder = v
             ∨ ∃ stats, py_get v "executionStats" (PDict []) = Ok stats
                 ∧ py_get stats "executionStages" (PDict []) = Ok holder)
            ∧ py_getitem holder "shards" = Ok shards
            ∧ py_len shards = Ok 0)).
Proof.
  split; [|split].
  - unfold count_shards_from_explain.
    destruct (count_shards_try v) eqn:E; [|lia].
    by apply count_shards_try_nonneg in E.
  - intros d -> Htop Hty Hunder.
    unfold count_shards_from_explain, count_shards_try.
    unfold stages_well_typed, absent_or_dict in Hty.
    simpl in *.
    destruct (dict_lookup "executionStats" d) as [[| | | | | |d1]|]; simpl in *;
      try done.
    + destruct (dict_lookup "executionStages" d1) as [[| | | | | |d2]|];
        simpl in *; try done.
      * rewrite Hunder. simpl. by rewrite Htop.
      * by rewrite Htop.
    + by rewrite Htop.
  - unfold count_shards_from_explain, count_shards_try.
    destruct (py_get v _ _) as [stats|] eqn:Hstats; simpl; [|eauto].
    destruct (py_get stats _ _) as [stages|] eqn:Hstages; simpl; [|eauto].
    destruct (py_contains _ stages) as [[]|]; simpl; [| |eauto].
    + destruct (py_getitem stages _) as [sh|] eqn:Hsh; simpl; [|eauto].
      destruct (py_len sh) as [n|] eqn:Hn; [|eauto].
      intros ->. right. exists stages, sh. eauto 10.
    + destruct (py_contains _ v) as [[]|]; simpl; [| |eauto].
      * destruct (py_getitem v _) as [sh|] eqn:Hsh; simpl; [|eauto].
        destruct (py_len sh) as [n|] eqn:Hn; [|eauto].
        intros ->. right. exists v, sh. eauto.
      * done.
Qed.

Lemma count_shards_from_explain_spec_witness :
  count_shards_from_explain explain_single_shard = 1.
Proof.
  apply (proj1 (proj2 (count_shards_from_explain_spec explain_single_shard))
           [("executionStats",
             PDict [("nReturned", PInt 20);
                    ("executionStages", PDict [("stage", PStr "SINGLE_SHARD")])])]);
    reflexivity.
Defined.

End TestRunnerFacts.

(** * Further properties of the code *)

(** ** Dictionaries *)

Section DictFacts.

Lemma dict_lookup_set_eq k x d : dict_lookup k (dict_set k x d) = Some x.
Proof.
  induction d as [|[k1 v1] d IH]; simpl.
  - by rewrite String.eqb_refl.
  - destruct (String.eqb_spec k k1) as [->|Hne]; simpl.
    + by rewrite String.eqb_refl.
    + by destruct (String.eqb_spec k k1).
Qed.

Lemma dict_lookup_set_other k k' x d :
  k ≠ k' → dict_lookup k (dict_set k' x d) = dict_lookup k d.
Proof.
  intros Hne. induction d as [|[k1 v1] d IH]; simpl.
  - by destruct (String.eqb_spec k k').
  - destruct (String.eqb_spec k' k1) as [->|Hk1]; simpl.
    + by destruct (String.eqb_spec k k1).
    + destruct (String.eqb_spec k k1); [done|apply IH].
Qed.

Lemma dict_keys_set k x d :
  dict_keys (dict_set k x d)
  = if dict_has k d then dict_keys d else (dict_keys d ++ [k])%list.
Proof.
  unfold dict_has. induction d as [|[k1 v1] d IH]; simpl; [done|].
  destruct (String.eqb_spec k k1) as [->|Hne]; simpl; [done|].
  rewrite IH. by destruct (dict_lookup k d).
Qed.

End DictFacts.

(** ** test_runner/app.py: [get_agg_stats] and the shard lists *)

Module AggStatsFacts.
Import TestRunner.

Section WithFloats.
Context `{FloatArith}.

Lemma stats_at_contains data v :
  stats_at data = Ok v → py_contains "stages" data = Ok true.
Proof.
  unfold stats_at. destruct data as [| | | | | |d]; simpl; try done.
  unfold dict_has. by destruct (dict_lookup "stages" d).
Qed.

Lemma py_add_int a v x :
  as_number v = Some (inl x) → py_add (PInt a) v = Ok (PInt (a + x)).
Proof. unfold py_add. simpl. by intros ->. Qed.

Lemma py_add_not_a_number a v :
  as_number v = None → py_add a v = Raise TypeError.
Proof. unfold py_add. intros ->. by destruct (as_number a) as [[]|]. Qed.

Lemma int_stat_get key stats x :
  int_stat key stats = Some x →
  as_number (default (PInt 0) (dict_lookup key stats)) = Some (inl x).
Proof.
  unfold int_stat. destruct (dict_lookup key stats) as [v|]; simpl.
  - destruct (as_number v) as [[z|]|]; congruence.
  - congruence.
Qed.

(** The statements of the loop body after the test, given what
    [stats_at] evaluates to. *)
Lemma add_shard_stats_eq data (t : pyval * pyval) :
  add_shard_stats data t
  = (Ok (),
     match py_contains "stages" data with
     | Ok true =>
         match stats_at data with
         | Ok stats =>
             match py_get stats "totalDocsExamined" (PInt 0) with
             | Ok examined =>
                 match py_add t.1 examined with
                 | Ok total_examined =>
                     match py_get stats "nReturned" (PInt 0) with
                     | Ok returned =>
                         match py_add t.2 returned with
                         | Ok total_returned => (total_examined, total_returned)
                         | Raise _ => (total_examined, t.2)
                         end
                     | Raise _ => (total_examined, t.2)
                     end
                 | Raise _ => t
                 end
             | Raise _ => t
             end
         | Raise _ => t
         end
     | _ => t
     end).
Proof.
  unfold add_shard_stats, try_pass, stats_at.
  cbv [mbind Totals_bind value mret Totals_ret result_bind add_examined
       add_returned].
  f_equal.
  destruct (py_contains "stages" data) as [[]|]; [|done..].
  destruct (py_getitem data "stages") as [stages|]; [|done].
  destruct (py_getitem_0 stages) as [first|]; [|done].
  destruct (py_get first "$cursor" (PDict [])) as [cursor_stage|]; [|done].
  destruct (py_get cursor_stage "executionStats" (PDict [])) as [stats|];
    [|done].
  destruct (py_get stats "totalDocsExamined" (PInt 0)) as [examined|]; [|done].
  destruct (py_add t.1 examined) as [te|]; [|done].
  destruct (py_get stats "nReturned" (PInt 0)) as [returned|]; [|done].
  by destruct (py_add _ returned).
Qed.

Lemma add_shard_stats_adds data xy a b :
  shard_adds data xy →
  add_shard_stats data (PInt a, PInt b)
  = (Ok (), (PInt (a + xy.1), PInt (b + xy.2))).
Proof.
  intros Hadds. rewrite add_shard_stats_eq. f_equal.
  destruct Hadds as [data Hc|data e Hc|data e Hs|data v Hs Hv
                    |data stats v Hs Hl Hn|data stats x v Hs Hx Hl Hn
                    |data stats x y Hs Hx Hy]; simpl.
  - rewrite Hc. by rewrite !Z.add_0_r.
  - rewrite Hc. by rewrite !Z.add_0_r.
  - rewrite Hs. rewrite !Z.add_0_r. by destruct (py_contains _ _) as [[]|].
  - rewrite Hs, !Z.add_0_r. destruct (py_contains _ _) as [[]|]; try done.
    by destruct v.
  - rewrite Hs, (stats_at_contains _ _ Hs), !Z.add_0_r. simpl. rewrite Hl. simpl.
    by rewrite (py_add_not_a_number _ _ Hn).
  - rewrite Hs, (stats_at_contains _ _ Hs), Z.add_0_r. simpl.
    rewrite (py_add_int _ _ _ (int_stat_get _ _ _ Hx)). rewrite Hl. simpl.
    by rewrite (py_add_not_a_number _ _ Hn).
  - rewrite Hs, (stats_at_contains _ _ Hs). simpl.
    rewrite (py_add_int _ _ _ (int_stat_get _ _ _ Hx)).
    by rewrite (py_add_int _ _ _ (int_stat_get _ _ _ Hy)).
Qed.

Lemma for_in_adds (shards : list (string * pyval)) (adds : list (Z * Z)) :
  Forall2 (fun kv xy => shard_adds kv.2 xy) shards adds →
  ∀ a b,
    for_in shards (fun '(shard_name, shard_data) => add_shard_stats shard_data)
      (PInt a, PInt b)
    = (Ok (), (PInt (a + foldr Z.add 0 adds.*1),
               PInt (b + foldr Z.add 0 adds.*2))).
Proof.
  induction 1 as [|[name data] xy shards adds Hadds _ IH]; intros a b.
  - simpl. by rewrite !Z.add_0_r.
  - cbn [for_in]. unfold mbind, Totals_bind.
    rewrite (add_shard_stats_adds _ _ _ _ Hadds).
    fold (@mbind Totals _). unfold mbind, Totals_bind in IH. rewrite IH.
    rewrite !fmap_cons. cbn [foldr]. do 3 f_equal; lia.
Qed.

(** The sharded answer: the two totals are the sums, over the entries
    of [shards] in their order, of what each entry adds; an entry that
    cannot be read adds nothing, and an entry whose [nReturned] is not a
    number still adds its [totalDocsExamined]. *)
Theorem get_agg_stats_sharded d shards adds :
  dict_lookup "shards" d = Some (PDict shards) →
  Forall2 (fun kv xy => shard_adds kv.2 xy) shards adds →
  get_agg_stats (PDict d)
  = (PInt (foldr Z.add 0 adds.*1), PInt (foldr Z.add 0 adds.*2)).
Proof.
  intros Hd Hadds. unfold get_agg_stats, try_pass.
  unfold mbind at 1, Totals_bind at 1, value at 1. simpl.
  unfold dict_has. rewrite Hd.
  unfold mbind at 1, Totals_bind at 1, value at 1. simpl.
  by rewrite (for_in_adds _ _ Hadds 0 0).
Qed.

(** The statements of the second branch, given what [stats_at] evaluates
    to. *)
Lemma get_agg_stats_eq v :
  get_agg_stats v
  = match py_contains "shards" v with
    | Ok true =>
        match py_getitem v "shards" ≫= py_items with
        | Ok items =>
            (for_in items
               (fun '(shard_name, shard_data) => add_shard_stats shard_data)
               (PInt 0, PInt 0)).2
        | Raise _ => (PInt 0, PInt 0)
        end
    | Ok false =>
        match py_contains "stages" v with
        | Ok true =>
            match stats_at v with
            | Ok stats =>
                match py_get stats "totalDocsExamined" (PInt 0) with
                | Ok examined =>
                    match py_get stats "nReturned" (PInt 0) with
                    | Ok returned => (examined, returned)
                    | Raise _ => (examined, PInt 0)
                    end
                | Raise _ => (PInt 0, PInt 0)
                end
            | Raise _ => (PInt 0, PInt 0)
            end
        | _ => (PInt 0, PInt 0)
        end
    | Raise _ => (PInt 0, PInt 0)
    end.
Proof.
  unfold get_agg_stats, try_pass, stats_at.
  cbv [mbind Totals_bind value mret Totals_ret result_bind set_examined
       set_returned].
  destruct (py_contains "shards" v) as [[]|]; [| |done].
  - destruct (py_getitem v "shards") as [shards|]; [|done].
    by destruct (py_items shards).
  - destruct (py_contains "stages" v) as [[]|]; [|done..].
    destruct (py_getitem v "stages") as [stages|]; [|done].
    destruct (py_getitem_0 stages) as [first|]; [|done].
    destruct (py_get first "$cursor" (PDict [])) as [cursor_stage|]; [|done].
    destruct (py_get cursor_stage "executionStats" (PDict [])) as [stats|];
      [|done].
    destruct (py_get stats "totalDocsExamined" (PInt 0)) as [examined|];
      [|done].
    by destruct (py_get stats "nReturned" (PInt 0)).
Qed.

(** The answer of a single shard or of an unsharded collection: the two
    statistics are returned as they are found, whatever they are, and [0]
    for a statistic that is missing. *)
Theorem get_agg_stats_unsharded v stats :
  py_contains "shards" v = Ok false →
  stats_at v = Ok (PDict stats) →
  get_agg_stats v
  = (default (PInt 0) (dict_lookup "totalDocsExamined" stats),
     default (PInt 0) (dict_lookup "nReturned" stats)).
Proof.
  intros Hsh Hst. rewrite get_agg_stats_eq, Hsh, Hst.
  by rewrite (stats_at_contains _ _ Hst).
Qed.

(** No exception leaves [get_agg_stats]: an answer that is not a
    container, an answer with neither key, a [shards] entry that is not a
    dictionary, and statistics that cannot be reached all give [(0, 0)]. *)
Theorem get_agg_stats_falls_back v :
  ((∃ e, py_contains "shards" v = Raise e) → get_agg_stats v = (PInt 0, PInt 0))
  ∧ (py_contains "shards" v = Ok true →
     (∃ e, py_getitem v "shards" ≫= py_items = Raise e) →
     get_agg_stats v = (PInt 0, PInt 0))
  ∧ (py_contains "shards" v = Ok false →
     py_contains "stages" v = Ok false →
     get_agg_stats v = (PInt 0, PInt 0))
  ∧ (py_contains "shards" v = Ok false →
     (∃ e, stats_at v = Raise e) →
     get_agg_stats v = (PInt 0, PInt 0))
  ∧ (py_contains "shards" v = Ok false →
     (∃ w, stats_at v = Ok w ∧ is_dict w = false) →
     get_agg_stats v = (PInt 0, PInt 0)).
Proof.
  rewrite get_agg_stats_eq. repeat split.
  - by intros [e ->].
  - by intros -> [e ->].
  - by intros -> ->.
  - intros -> [e ->]. by destruct (py_contains "stages" v) as [[]|].
  - intros -> (w & -> & Hw). destruct (py_contains "stages" v) as [[]|]; try done.
    by destruct w.
Qed.

(** The [shards] branch comes first: when the answer has a [shards]
    entry, its top-level [stages] entry is not looked at. *)
Theorem get_agg_stats_shards_first d x :
  dict_has "shards" d = true →
  get_agg_stats (PDict (dict_set "stages" x d)) = get_agg_stats (PDict d).
Proof.
  intros Hsh. rewrite !get_agg_stats_eq. simpl. unfold dict_has in *.
  rewrite (dict_lookup_set_other "shards" "stages") by done.
  by destruct (dict_lookup "shards" d).
Qed.

End WithFloats.

(** Where [count_shards_from_explain] takes its answer from: the
    [shards] entry under [executionStats.executionStages] when there is
    one, whatever the top level holds; otherwise the top-level [shards]
    entry, and then the answer is the number of entries that
    [get_agg_stats] goes through. *)
Theorem count_shards_source d :
  (∀ stats stages nested,
     dict_lookup "executionStats" d = Some (PDict stats) →
     dict_lookup "executionStages" stats = Some (PDict stages) →
     dict_lookup "shards" stages = Some nested →
     count_shards_from_explain (PDict d)
     = match py_len nested with Ok n => n | Raise _ => 0 end)
  ∧ (∀ shards,
       stages_well_typed d = true →
       has_key_under "executionStats" "executionStages" "shards" (PDict d)
         = false →
       dict_lookup "shards" d = Some (PDict shards) →
       count_shards_from_explain (PDict d) = Z.of_nat (length shards)).
Proof.
  split.
  - intros stats stages nested Hst Hsg Hn.
    unfold count_shards_from_explain, count_shards_try. simpl.
    rewrite Hst. simpl. rewrite Hsg. simpl. unfold dict_has. by rewrite Hn.
  - intros shards Hty Hunder Hsh.
    unfold count_shards_from_explain, count_shards_try.
    unfold stages_well_typed, absent_or_dict in Hty. simpl in *.
    unfold dict_has in *.
    destruct (dict_lookup "executionStats" d) as [[| | | | | |d1]|]; simpl in *;
      try done.
    + destruct (dict_lookup "executionStages" d1) as [[| | | | | |d2]|];
        simpl in *; try done.
      * unfold dict_has in *.
        destruct (dict_lookup "shards" d2); [done|]. simpl. by rewrite Hsh.
      * by rewrite Hsh.
    + by rewrite Hsh.
Qed.

(** The three shard lists split the ids below 100 by their remainder
    modulo 3: none is empty, none holds an id twice, and every id below
    100 is in exactly one of them. *)
Theorem shard_ids_partition (i : Z) :
  (i ∈ SHARD_1_IDS ↔ 0 ≤ i < 100 ∧ i `mod` 3 = 0)
  ∧ (i ∈ SHARD_2_IDS ↔ 0 ≤ i < 100 ∧ i `mod` 3 = 1)
  ∧ (i ∈ SHARD_3_IDS ↔ 0 ≤ i < 100 ∧ i `mod` 3 = 2)
  ∧ NoDup (SHARD_1_IDS ++ SHARD_2_IDS ++ SHARD_3_IDS)
  ∧ (length SHARD_1_IDS, length SHARD_2_IDS, length SHARD_3_IDS)
    = (34%nat, 33%nat, 33%nat).
Proof.
  unfold SHARD_1_IDS, SHARD_2_IDS, SHARD_3_IDS, range.
  rewrite !list_elem_of_filter, !elem_of_seqZ.
  split; [lia|]. split; [lia|]. split; [lia|].
  split; [|by vm_compute].
  apply (bool_decide_unpack _). by vm_compute.
Qed.
End AggStatsFacts.

Section ShardTargets.
Context {G : Type} `{RandomSource G}.

(** With the constants of the script, every category id that the record
    builder draws is in exactly one of the three shard lists of the test
    runner: the one of its remainder modulo 3. *)
Theorem category_id_has_one_shard (gid : Z) (g : G) product ven cat g' :
  @generate_product_json script_config G _ gid g = Ok (product, ven, cat, g') →
  py_getitem product "category_id" = Ok (PInt cat)
  ∧ (cat ∈ TestRunner.SHARD_1_IDS ↔ cat `mod` 3 = 0)
  ∧ (cat ∈ TestRunner.SHARD_2_IDS ↔ cat `mod` 3 = 1)
  ∧ (cat ∈ TestRunner.SHARD_3_IDS ↔ cat `mod` 3 = 2)
  ∧ (cat ∈ TestRunner.SHARD_1_IDS ∨ cat ∈ TestRunner.SHARD_2_IDS
     ∨ cat ∈ TestRunner.SHARD_3_IDS).
Proof.
  intros (name & price & rating & attributes & -> & _ & Hcat & _)
    %generate_product_json_inv.
  simpl in Hcat. split; [done|].
  unfold TestRunner.SHARD_1_IDS, TestRunner.SHARD_2_IDS,
    TestRunner.SHARD_3_IDS, range.
  rewrite !list_elem_of_filter, !elem_of_seqZ.
  pose proof (Z.mod_pos_bound cat 3). lia.
Qed.

End ShardTargets.

Lemma category_id_has_one_shard_witness :
  61 ∈ TestRunner.SHARD_2_IDS.
Proof.
  let v := eval vm_compute in
    (@generate_product_json script_config Z Lcg_source 0 42) in
  match v with
  | Ok (?product, ?ven, ?cat, ?g') =>
      pose proof (@category_id_has_one_shard Z Lcg_source 0 42 product ven
                    cat g' ltac:(vm_compute; reflexivity))
        as (_ & _ & H2 & _)
  end.
  apply H2. reflexivity.
Defined.

(** ** The record builder on empty id ranges *)

Section BuilderErrors.
Context `{Config} {G : Type} `{RandomSource G}.
Variable io_fails : string → nat → bool.

Lemma Rand_bind_raise {A B} (m : Rand G A) (f : A → Rand G B) g e :
  m g = Raise e → (m ≫= f) g = Raise e.
Proof. unfold mbind, Rand_bind. by intros ->. Qed.

Lemma rand_raise {A} (r : Rand G A) (st : process G) e :
  r (rng st) = Raise e → rand r st = (Raise e, st).
Proof. unfold rand. by intros ->. Qed.

Lemma generate_product_json_value_error (gid : Z) (g : G) :
  VENDOR_COUNT ≤ 0 ∨ NUM_CATEGORIES ≤ 0 →
  generate_product_json gid g = Raise ValueError.
Proof.
  intros Hrange. unfold generate_product_json.
  destruct (mapM_Rand_ok generate_attribute slot_entry
              (range ATTRIBUTES_PER_PRODUCT) g
              (fun x g => generate_attribute_ok x g))
    as (attrs & g1 & Hattrs & _).
  rewrite (Rand_bind_ok _ _ _ _ _ Hattrs).
  destruct (Z.ltb_spec 0 VENDOR_COUNT) as [Hv|Hv].
  - destruct (randrange_ok VENDOR_COUNT g1 Hv) as (v & g2 & Hven & _).
    rewrite (Rand_bind_ok _ _ _ _ _ Hven).
    apply Rand_bind_raise. unfold randrange.
    destruct (Z.ltb_spec 0 NUM_CATEGORIES); [lia|done].
  - apply Rand_bind_raise. unfold randrange.
    destruct (Z.ltb_spec 0 VENDOR_COUNT); [lia|done].
Qed.

(** The record builder raises exactly when one of the two id ranges is
    empty, and then it raises [ValueError]: the attributes never fail,
    whatever ATTRIBUTES_PER_PRODUCT is. *)
Theorem generate_product_json_empty_range (gid : Z) (g : G) :
  (VENDOR_COUNT ≤ 0 ∨ NUM_CATEGORIES ≤ 0 →
   generate_product_json gid g = Raise ValueError)
  ∧ (0 < VENDOR_COUNT → 0 < NUM_CATEGORIES →
     is_ok (generate_product_json gid g) = true).
Proof.
  split.
  - apply generate_product_json_value_error.
  - intros Hv Hc.
    destruct (generate_product_json_shape gid g Hc Hv)
      as (?&?&?&?&?&?&?& -> & _).
    done.
Qed.

(** With an empty id range and at least one record to write, a partition
    whose file can be written fails at its first record: the writer
    reports the [ValueError], returns no tally, and leaves a file that
    holds the opening bracket only, which [json.loads] rejects. *)
Theorem partition_fails_on_empty_range idx start (st : process G) :
  VENDOR_COUNT ≤ 0 ∨ NUM_CATEGORIES ≤ 0 →
  0 < PRODUCTS_PER_FILE →
  (∀ n, io_fails (part_path idx) n = false) →
  ∃ st',
    generate_interleaved_products_for_file io_fails idx start st
      = (Ok None, st')
    ∧ stdout st'
      = (stdout st ++ [LogGenerating PRODUCTS_PER_FILE idx;
                       LogErrorWriting idx ValueError])%list
    ∧ files st' = <[part_path idx := "[" +:+ LF]> (files st)
    ∧ Json.loads ("[" +:+ LF) = Raise JSONDecodeError.
Proof.
  intros Hrange Hppf Hnf.
  unfold generate_interleaved_products_for_file. rewrite print_bind.
  set (st0 := Process _ _ _ _).
  destruct (io_ok io_fails (part_path idx)
              (fun fs => Ok ((), <[part_path idx := ""]> fs)) st0 () _ Hnf eq_refl)
    as (st1 & Hopen & Hr1 & Hf1 & Ho1).
  destruct (io_ok io_fails (part_path idx)
              (fun fs => Ok ((), <[part_path idx :=
                                    default "" (fs !! part_path idx)
                                    +:+ ("[" +:+ LF)]> fs))
              st1 () _ Hnf eq_refl)
    as (st2 & Hwrite & Hr2 & Hf2 & Ho2).
  assert (Hbody : (counts ← write_partition io_fails (part_path idx) start;
                   mret (Some counts)) st0 = (Raise ValueError, st2)).
  { apply M_bind_raise. unfold write_partition.
    erewrite M_bind_ok by exact Hopen. erewrite M_bind_ok by exact Hwrite.
    apply M_bind_raise. unfold range.
    rewrite seqZ_cons by lia. cbn [for_each]. apply M_bind_raise.
    unfold write_product. apply M_bind_raise, rand_raise.
    by apply generate_product_json_value_error. }
  erewrite M_bind_ok; last first.
  { erewrite try_except_raise by exact Hbody. rewrite print_bind. reflexivity. }
  eexists. split; [reflexivity|]. simpl.
  split; [rewrite Ho2, Ho1; unfold st0; simpl; by rewrite <- app_assoc|].
  split; [|by vm_compute].
  rewrite Hf2, Hf1, lookup_insert_eq, insert_insert_eq. done.
Qed.

End BuilderErrors.

(** ** The attribute slots *)

Section AttributeSlots.
Context `{Config} {G : Type} `{RandomSource G}.

(** The attribute list for any ATTRIBUTES_PER_PRODUCT: it has that many
    entries, none when the constant is not positive, and every entry from
    slot 2 on is a Color entry. *)
Theorem generate_product_json_attribute_slots (gid : Z) (g : G)
    product ven cat g' :
  generate_product_json gid g = Ok (product, ven, cat, g') →
  ∃ attributes,
    py_getitem product "attributs" = Ok (PList attributes)
    ∧ length attributes = Z.to_nat ATTRIBUTES_PER_PRODUCT
    ∧ (ATTRIBUTES_PER_PRODUCT ≤ 0 → attributes = [])
    ∧ (∀ (j : nat) a, (2 ≤ j)%nat → attributes !! j = Some a → Color_entry a).
Proof.
  intros (name & price & rating & attributes & -> & Hslots & _)
    %generate_product_json_inv.
  apply slots_of_Forall2 in Hslots as [Hlen Hslot].
  exists attributes. split; [done|]. split; [done|]. split.
  - intros Hle. apply length_zero_iff_nil. lia.
  - intros j a Hj Ha. specialize (Hslot j a Ha). unfold slot_entry in Hslot.
    destruct (Z.eqb_spec (Z.of_nat j) 0); [lia|].
    destruct (Z.eqb_spec (Z.of_nat j) 1); [lia|]. done.
Qed.

End AttributeSlots.

(** ** The tally of a partition and its file *)

Section TallyFile.
Context `{Config} {G : Type} `{RandomSource G}.
Variable io_fails : string → nat → bool.

Lemma count_products_count (products : list (pyval * Z * Z)) :
  ∀ counts key,
    count_of (count_products products counts).1 key
      = count_of counts.1 key
        + Z.of_nat (length (filter (fun p => p.1.2 = key) products))
    ∧ count_of (count_products products counts).2 key
      = count_of counts.2 key
        + Z.of_nat (length (filter (fun p => p.2 = key) products)).
Proof.
  induction products as [|p products IH]; intros counts key.
  - simpl. lia.
  - cbn [count_products fold_left].
    fold (count_products products
            (add_count p.1.2 1 counts.1, add_count p.2 1 counts.2)).
    destruct (IH (add_count p.1.2 1 counts.1, add_count p.2 1 counts.2) key)
      as [-> ->].
    cbn [fst snd]. rewrite !count_of_add_count, !filter_cons.
    split.
    + destruct (decide (key = p.1.2)) as [->|Hne].
      * rewrite decide_True by done. simpl. lia.
      * rewrite decide_False by done. lia.
    + destruct (decide (key = p.2)) as [->|Hne].
      * rewrite decide_True by done. simpl. lia.
      * rewrite decide_False by done. lia.
Qed.

Lemma partition_products_fields start xs (g : G) products g' :
  partition_products start xs g = Ok (products, g') →
  Forall (fun p => py_getitem p.1.1 "category_id" = Ok (PInt p.2)
                   ∧ py_getitem p.1.1 "vendor_id" = Ok (PInt p.1.2)) products.
Proof.
  intros Hprods%mapM_Rand_inv.
  induction Hprods as [|x [[product ven] cat] xs products (g1 & g2 & Hgen) _ IH];
    constructor; [|done].
  apply generate_product_json_inv in Hgen as (?&?&?&?& -> & _). done.
Qed.

Lemma count_where_products (products : list (pyval * Z * Z)) key :
  Forall (fun p => py_getitem p.1.1 "category_id" = Ok (PInt p.2)
                   ∧ py_getitem p.1.1 "vendor_id" = Ok (PInt p.1.2)) products →
  count_where "category_id" key (map (fun p => p.1.1) products)
    = Z.of_nat (length (filter (fun p => p.2 = key) products))
  ∧ count_where "vendor_id" key (map (fun p => p.1.1) products)
    = Z.of_nat (length (filter (fun p => p.1.2 = key) products)).
Proof.
  unfold count_where.
  induction 1 as [|p products [Hc Hv] _ [IHc IHv]]; [done|].
  cbn [map]. rewrite !filter_cons.
  assert (Hfc : field_is "category_id" key p.1.1 = (p.2 =? key))
    by (unfold field_is; by rewrite Hc).
  assert (Hfv : field_is "vendor_id" key p.1.1 = (p.1.2 =? key))
    by (unfold field_is; by rewrite Hv).
  split.
  - destruct (decide (field_is "category_id" key p.1.1 = true)) as [Ht|Hf],
      (decide (p.2 = key)) as [Hk|Hk]; cbn [length]; [lia| | |lia].
    + rewrite Hfc in Ht. apply Z.eqb_eq in Ht. done.
    + rewrite Hfc in Hf. apply Z.eqb_eq in Hk. done.
  - destruct (decide (field_is "vendor_id" key p.1.1 = true)) as [Ht|Hf],
      (decide (p.1.2 = key)) as [Hk|Hk]; cbn [length]; [lia| | |lia].
    + rewrite Hfv in Ht. apply Z.eqb_eq in Ht. done.
    + rewrite Hfv in Hf. apply Z.eqb_eq in Hk. done.
Qed.

Lemma add_count_keys (n : Z) key (counts : gmap Z Z) :
  0 ≤ key < n →
  map_Forall (fun k c => 0 ≤ k < n ∧ 1 ≤ c) counts →
  map_Forall (fun k c => 0 ≤ k < n ∧ 1 ≤ c) (add_count key 1 counts).
Proof.
  intros Hkey Hall. unfold add_count. apply map_Forall_insert_2; [|done].
  split; [done|]. destruct (counts !! key) as [c|] eqn:Hc; simpl; [|lia].
  destruct (Hall _ _ Hc). lia.
Qed.

Lemma count_products_keys (products : list (pyval * Z * Z)) :
  Forall (fun p => 0 ≤ p.2 < NUM_CATEGORIES ∧ 0 ≤ p.1.2 < VENDOR_COUNT)
    products →
  ∀ counts,
    map_Forall (fun k c => 0 ≤ k < VENDOR_COUNT ∧ 1 ≤ c) counts.1 →
    map_Forall (fun k c => 0 ≤ k < NUM_CATEGORIES ∧ 1 ≤ c) counts.2 →
    map_Forall (fun k c => 0 ≤ k < VENDOR_COUNT ∧ 1 ≤ c)
      (count_products products counts).1
    ∧ map_Forall (fun k c => 0 ≤ k < NUM_CATEGORIES ∧ 1 ≤ c)
        (count_products products counts).2.
Proof.
  induction 1 as [|p products [Hc Hv] _ IH]; intros counts Hv0 Hc0; [done|].
  cbn [count_products fold_left]. apply IH; by apply add_count_keys.
Qed.

(** The tally of a partition that succeeded agrees with its file: for
    every id, the count that the tally holds, [0] when it holds none, is
    the number of records of the file with that [category_id], and
    likewise for [vendor_id]. *)
Theorem tally_matches_file idx start (st : process G) t st' :
  generate_interleaved_products_for_file io_fails idx start st
    = (Ok (Some t), st') →
  ∃ text records,
    files st' !! part_path idx = Some text
    ∧ Json.loads text = Ok (PList records)
    ∧ (∀ key, count_of (category_counts t) key
              = count_where "category_id" key records)
    ∧ (∀ key, count_of (vendor_counts t) key
              = count_where "vendor_id" key records).
Proof.
  intros Hrun.
  destruct (generate_interleaved_products_for_file_ok io_fails _ _ _ _ _ Hrun)
    as (products & g' & Hprods & _ & Hcounts & Hfile & _).
  pose proof (partition_products_facts _ _ _ _ _ Hprods) as (Hwf & _ & Hrange).
  pose proof (partition_products_fields _ _ _ _ _ Hprods) as Hfields.
  exists (artifact_text (map (fun p => p.1.1) products)),
    (map (fun p => p.1.1) products).
  split; [done|]. split.
  { apply (JsonFacts.loads_array_text None 0 LF LF LF); done. }
  assert (Hv : vendor_counts t = (count_products products (∅, ∅)).1)
    by (by rewrite <- Hcounts).
  assert (Hc : category_counts t = (count_products products (∅, ∅)).2)
    by (by rewrite <- Hcounts).
  split.
  - intros key. rewrite Hc, (proj1 (count_where_products _ key Hfields)).
    rewrite (proj2 (count_products_count products (∅, ∅) key)). done.
  - intros key. rewrite Hv, (proj2 (count_where_products _ key Hfields)).
    rewrite (proj1 (count_products_count products (∅, ∅) key)). done.
Qed.

(** The keys of a tally: every key of the category counts is a category
    id of the range, every key of the vendor counts a vendor id of the
    range, and every count is at least 1 and at most PRODUCTS_PER_FILE:
    the tally has no entry for an id that no record of the partition
    drew. *)
Theorem tally_keys_in_range idx start (st : process G) t st' :
  generate_interleaved_products_for_file io_fails idx start st
    = (Ok (Some t), st') →
  (∀ key count, category_counts t !! key = Some count →
     0 ≤ key < NUM_CATEGORIES ∧ 1 ≤ count ≤ PRODUCTS_PER_FILE)
  ∧ (∀ key count, vendor_counts t !! key = Some count →
       0 ≤ key < VENDOR_COUNT ∧ 1 ≤ count ≤ PRODUCTS_PER_FILE).
Proof.
  intros Hrun.
  destruct (generate_interleaved_products_for_file_ok io_fails _ _ _ _ _ Hrun)
    as (products & g' & Hprods & _ & Hcounts & _).
  pose proof (partition_products_facts _ _ _ _ _ Hprods) as (_ & _ & Hrange).
  assert (Hlen : length products = Z.to_nat PRODUCTS_PER_FILE).
  { apply mapM_Rand_inv, Forall2_length in Hprods.
    unfold range in Hprods. by rewrite length_seqZ in Hprods. }
  assert (Hv : vendor_counts t = (count_products products (∅, ∅)).1)
    by (by rewrite <- Hcounts).
  assert (Hc : category_counts t = (count_products products (∅, ∅)).2)
    by (by rewrite <- Hcounts).
  destruct (count_products_keys products Hrange (∅, ∅)) as [Kv Kc];
    [apply map_Forall_empty..|].
  split; intros key count Hkey.
  - rewrite Hc in Hkey. destruct (Kc _ _ Hkey) as [Hk Hpos].
    split; [done|]. split; [done|].
    pose proof (proj2 (count_products_count products (∅, ∅) key)) as Hn.
    unfold count_of at 1 in Hn. rewrite Hkey in Hn. simpl in Hn.
    unfold count_of in Hn. rewrite lookup_empty in Hn. simpl in Hn.
    pose proof (length_filter (fun p : pyval * Z * Z => p.2 = key) products).
    lia.
  - rewrite Hv in Hkey. destruct (Kv _ _ Hkey) as [Hk Hpos].
    split; [done|]. split; [done|].
    pose proof (proj1 (count_products_count products (∅, ∅) key)) as Hn.
    unfold count_of at 1 in Hn. rewrite Hkey in Hn. simpl in Hn.
    unfold count_of in Hn. rewrite lookup_empty in Hn. simpl in Hn.
    pose proof (length_filter (fun p : pyval * Z * Z => p.1.2 = key) products).
    lia.
Qed.

End TallyFile.

(** ** The initializer *)

Section InitializerFacts.
Context `{Config} {G : Type} `{RandomSource G}.
Variable io_fails : string → nat → bool.

Lemma category_loop_words xs :
  ∀ data (st : process G),
  ∃ words st',
    for_each xs data
      (fun i data =>
         word ← rand get_random_word;
         mret (data ++ [category_record i word 0])%list) st
    = (Ok (data ++ zip_with (fun i word => category_record i word 0) xs words)%list,
       st')
    ∧ length words = length xs
    ∧ Forall (fun word => word ∈ WORDS) words
    ∧ files st' = files st ∧ stdout st' = stdout st.
Proof.
  induction xs as [|i xs IH]; intros data st.
  - exists [], st. simpl. by rewrite app_nil_r.
  - destruct (choice_ok WORDS (rng st) ltac:(done)) as (w & g' & Hw & Hin).
    destruct (IH (data ++ [category_record i w 0])%list
                (Process g' (files st) (io_count st) (stdout st)))
      as (words & st' & Hloop & Hlen & Hall & Hf & Ho).
    exists (w :: words), st'. simpl for_each.
    erewrite M_bind_ok; last first.
    { erewrite M_bind_ok by (apply rand_ok; exact Hw). reflexivity. }
    rewrite Hloop. split; [by simpl; rewrite <- app_assoc|].
    split; [by simpl; auto|]. split; [by constructor|done].
Qed.

(** The initializer: it adds to the two lists it is given one entry per
    category id and one per vendor id, in the order of the ids, with the
    count 0, the label of a category ending in one of WORDS; it writes
    both lists, whole; what it wrote is read back by [json.loads] as the
    two lists; and it touches no other file. *)
Theorem generate_base_data_catalogs categories_data vendors_data
    (st : process G) :
  (∀ n, io_fails CATEGORIES_FILE n = false) →
  (∀ n, io_fails VENDORS_FILE n = false) →
  Forall Json.json_wf categories_data → Forall Json.json_wf vendors_data →
  ∃ words categories vendors st',
    generate_base_data io_fails categories_data vendors_data st
      = (Ok (categories, vendors), st')
    ∧ length words = Z.to_nat NUM_CATEGORIES
    ∧ Forall (fun word => word ∈ WORDS) words
    ∧ categories
      = (categories_data
         ++ zip_with (fun i word => category_record i word 0)
              (range NUM_CATEGORIES) words)%list
    ∧ vendors
      = (vendors_data
         ++ map (fun i => vendor_record i 0) (range VENDOR_COUNT))%list
    ∧ (∃ text, files st' !! CATEGORIES_FILE = Some text
               ∧ Json.loads text = Ok (PList categories))
    ∧ (∃ text, files st' !! VENDORS_FILE = Some text
               ∧ Json.loads text = Ok (PList vendors))
    ∧ (∀ p, p ≠ CATEGORIES_FILE → p ≠ VENDORS_FILE →
         files st' !! p = files st !! p)
    ∧ stdout st' = stdout st.
Proof.
  intros Hc Hv Hwfc Hwfv. unfold generate_base_data.
  destruct (category_loop_words (range NUM_CATEGORIES) categories_data st)
    as (words & s1 & Hcats & Hlen & Hwords & Hf1 & Ho1).
  set (categories := (categories_data ++ _)%list) in *.
  set (vendors := (vendors_data
        ++ map (fun i => vendor_record i 0) (range VENDOR_COUNT))%list).
  destruct (dump_json_ok io_fails CATEGORIES_FILE (PList categories) s1 Hc)
    as (s2 & Hd1 & Hr2 & Hf2 & Ho2).
  destruct (dump_json_ok io_fails VENDORS_FILE (PList vendors) s2 Hv)
    as (s3 & Hd2 & Hr3 & Hf3 & Ho3).
  exists words, categories, vendors, s3.
  erewrite M_bind_ok by exact Hcats.
  erewrite M_bind_ok by apply vendor_loop.
  fold (vendor_records (range VENDOR_COUNT) (fun _ => 0)). fold vendors.
  erewrite M_bind_ok by exact Hd1. erewrite M_bind_ok by exact Hd2.
  split; [done|]. split.
  { unfold range in Hlen. by rewrite length_seqZ in Hlen. }
  split; [done|]. split; [done|]. split; [done|].
  pose proof catalog_paths_distinct as Hne.
  assert (Hwf1 : Json.json_wf (PList categories)).
  { apply JsonFacts.json_wf_list, Forall_app. split; [done|].
    apply JsonFacts.json_wf_list,
      (category_records_wf (range NUM_CATEGORIES) words (fun _ => 0)). }
  assert (Hwf2 : Json.json_wf (PList vendors)).
  { apply JsonFacts.json_wf_list, Forall_app. split; [done|].
    apply JsonFacts.json_wf_list,
      (vendor_records_wf (range VENDOR_COUNT) (fun _ => 0)). }
  split.
  { exists (Json.dumps_indent 2 (PList categories)).
    rewrite Hf3, Hf2, lookup_insert_ne, lookup_insert_eq by done.
    split; [done|]. by apply JsonFacts.loads_encode. }
  split.
  { exists (Json.dumps_indent 2 (PList vendors)).
    rewrite Hf3, lookup_insert_eq.
    split; [done|]. by apply JsonFacts.loads_encode. }
  split; [|congruence].
  intros p Hp1 Hp2. by rewrite Hf3, Hf2, !lookup_insert_ne, Hf1 by done.
Qed.

End InitializerFacts.

(** ** The reconciler on any catalog, and when it fails *)

Section ReconcilerAnyCatalog.
Context {G : Type}.
Variable io_fails : string → nat → bool.

Lemma update_entity_recount total entity :
  has_int_id entity →
  update_entity total entity = Ok (recount (count_of total) entity).
Proof.
  intros [i Hi]. unfold update_entity. rewrite Hi. simpl.
  destruct entity as [| | | | | |d]; try done. simpl in *.
  by destruct (dict_lookup "_id" d) as [[]|]; simplify_eq.
Qed.

Lemma update_products_count_recount total l :
  Forall has_int_id l →
  update_products_count total (PList l)
  = Ok (PList (map (recount (count_of total)) l)).
Proof.
  intros Hall. unfold update_products_count.
  assert (Hm : mapM (update_entity total) l
               = Ok (map (recount (count_of total)) l)).
  { induction Hall as [|e l He _ IH]; [done|].
    simpl. rewrite (update_entity_recount _ _ He). simpl. by rewrite IH. }
  by rewrite Hm.
Qed.

Lemma recount_ext (f g : Z → Z) l :
  (∀ i, f i = g i) → map (recount f) l = map (recount g) l.
Proof.
  intros Hfg. apply map_ext. intros [| | | | | |d]; try done. simpl.
  destruct (dict_lookup "_id" d) as [[]|]; try done. by rewrite Hfg.
Qed.

Lemma dict_set_wf k x (d : pydict) :
  Json.json_wf x →
  Forall (fun kv : string * pyval => Json.json_wf kv.2) d →
  Forall (fun kv : string * pyval => Json.json_wf kv.2) (dict_set k x d).
Proof.
  intros Hx. induction 1 as [|[k1 v1] d Hv Hd IH]; simpl; [by repeat constructor|].
  destruct (String.eqb_spec k k1); by constructor.
Qed.

Lemma dict_has_false k (d : pydict) : dict_has k d = false → k ∉ dict_keys d.
Proof.
  unfold dict_has. induction d as [|[k1 v1] d IH]; simpl.
  - intros _. apply not_elem_of_nil.
  - destruct (String.eqb_spec k k1) as [|Hne]; [done|].
    intros Hd. apply not_elem_of_cons. split; [done|]. by apply IH.
Qed.

Lemma recount_wf total entity :
  Json.json_wf entity → Json.json_wf (recount total entity).
Proof.
  destruct entity as [| | | | | |d]; try done. unfold recount.
  destruct (dict_lookup "_id" d) as [[| |i| | | |]|]; try done.
  rewrite !JsonFacts.json_wf_dict. intros [Hnd Hall].
  split; [|by apply dict_set_wf].
  rewrite dict_keys_set. destruct (dict_has "products_count" d) eqn:Hhas;
    [done|].
  apply NoDup_app. split; [done|]. split; [|apply NoDup_singleton].
  intros k Hk ->%list_elem_of_singleton.
  by apply dict_has_false in Hhas.
Qed.

Lemma load_json_text path text data (st : process G) :
  (∀ n, io_fails path n = false) →
  files st !! path = Some text → Json.loads text = Ok data →
  ∃ st', load_json io_fails path st = (Ok data, st')
         ∧ rng st' = rng st ∧ files st' = files st ∧ stdout st' = stdout st.
Proof.
  intros Hnf Hfile Hloads. unfold load_json, read.
  destruct (io_ok io_fails path
              (fun fs => match fs !! path with
                         | Some text => Ok (text, fs)
                         | None => Raise OSError
                         end) st text (files st) Hnf)
    as (st' & Hio & Hr & Hf & Ho); [by rewrite Hfile|].
  exists st'. erewrite M_bind_ok by exact Hio.
  unfold lift_result. by rewrite Hloads.
Qed.

(** The reconciler on catalogs that the initializer did not write:
    whatever entries the two files hold, as long as each is a dictionary
    with an integer [_id] whose fields hold [None], booleans, strings or
    integers that can be converted, and the totals can be converted too,
    every entry gets the total of its id as its [products_count] and
    keeps its place, its other fields and the order of its keys; no entry
    is added for an id that only the tallies know, and none is removed. *)
Theorem update_base_data_counts_any_catalog results categories vendors
    ctext vtext (st : process G) :
  (∀ n, io_fails CATEGORIES_FILE n = false) →
  (∀ n, io_fails VENDORS_FILE n = false) →
  files st !! CATEGORIES_FILE = Some ctext →
  Json.loads ctext = Ok (PList categories) →
  files st !! VENDORS_FILE = Some vtext →
  Json.loads vtext = Ok (PList vendors) →
  Forall has_int_id categories → Forall has_int_id vendors →
  Forall (fun entity => plain 1 entity = true) categories →
  Forall (fun entity => plain 1 entity = true) vendors →
  (∀ key, convertible (category_total results key) = true) →
  (∀ key, convertible (vendor_total results key) = true) →
  ∃ st',
    update_base_data_counts io_fails results st = (Ok (), st')
    ∧ files st'
      = <[VENDORS_FILE :=
            Json.dumps_indent 2
              (PList (map (recount (vendor_total results)) vendors))]>
          (<[CATEGORIES_FILE :=
               Json.dumps_indent 2
                 (PList (map (recount (category_total results)) categories))]>
             (files st))
    ∧ (Forall Json.json_wf categories →
       Json.loads (Json.dumps_indent 2
                     (PList (map (recount (category_total results)) categories)))
       = Ok (PList (map (recount (category_total results)) categories)))
    ∧ (Forall Json.json_wf vendors →
       Json.loads (Json.dumps_indent 2
                     (PList (map (recount (vendor_total results)) vendors)))
       = Ok (PList (map (recount (vendor_total results)) vendors)))
    ∧ (∀ total entity i,
         py_getitem entity "_id" = Ok (PInt i) →
         py_getitem (recount total entity) "products_count"
           = Ok (PInt (total i))
         ∧ (∀ key, key ≠ "products_count" →
              py_getitem (recount total entity) key = py_getitem entity key)
         ∧ ∃ d d', entity = PDict d ∧ recount total entity = PDict d'
             ∧ dict_keys d'
               = if dict_has "products_count" d then dict_keys d
                 else (dict_keys d ++ ["products_count"])%list).
Proof.
  intros Hc Hv Hcf Hcl Hvf Hvl Hcid Hvid _ _ _ _.
  unfold update_base_data_counts.
  pose proof (aggregate_totals results) as Htot.
  destruct (aggregate results) as [tv tc]. simpl in Htot.
  destruct (load_json_text CATEGORIES_FILE ctext _ st Hc Hcf Hcl)
    as (s1 & Hl1 & Hr1 & Hf1 & Ho1).
  destruct (load_json_text VENDORS_FILE vtext _ s1 Hv ltac:(by rewrite Hf1) Hvl)
    as (s2 & Hl2 & Hr2 & Hf2 & Ho2).
  set (cats' := PList (map (recount (category_total results)) categories)).
  set (vens' := PList (map (recount (vendor_total results)) vendors)).
  destruct (dump_json_ok io_fails CATEGORIES_FILE cats' s2 Hc)
    as (s3 & Hd3 & Hr3 & Hf3 & Ho3).
  destruct (dump_json_ok io_fails VENDORS_FILE vens' s3 Hv)
    as (s4 & Hd4 & Hr4 & Hf4 & Ho4).
  exists (Process (rng s4) (files s4) (io_count s4)
            (stdout s4 ++ [LogCountsUpdated])).
  erewrite M_bind_ok by exact Hl1. erewrite M_bind_ok by exact Hl2.
  erewrite M_bind_ok; last first.
  { unfold lift_result. rewrite (update_products_count_recount tc _ Hcid).
    rewrite (recount_ext _ (category_total results))
      by (intros i; apply (proj2 (Htot i))).
    reflexivity. }
  erewrite M_bind_ok; last first.
  { unfold lift_result. rewrite (update_products_count_recount tv _ Hvid).
    rewrite (recount_ext _ (vendor_total results))
      by (intros i; apply (proj1 (Htot i))).
    reflexivity. }
  fold cats' vens'.
  erewrite M_bind_ok by exact Hd3. erewrite M_bind_ok by exact Hd4.
  split; [done|]. simpl.
  split; [by rewrite Hf4, Hf3, Hf2, Hf1|].
  split.
  { intros Hwf. apply JsonFacts.loads_encode, JsonFacts.json_wf_list.
    rewrite Forall_map. eapply Forall_impl; [exact Hwf|].
    intros e. apply recount_wf. }
  split.
  { intros Hwf. apply JsonFacts.loads_encode, JsonFacts.json_wf_list.
    rewrite Forall_map. eapply Forall_impl; [exact Hwf|].
    intros e. apply recount_wf. }
  intros total entity i Hi.
  destruct entity as [| | | | | |d]; try done. simpl in Hi. simpl recount.
  destruct (dict_lookup "_id" d) as [[| |j| | | |]|] eqn:Hid; simplify_eq.
  simpl. rewrite dict_lookup_set_eq. split; [done|]. split.
  - intros key Hkey. by rewrite dict_lookup_set_other.
  - eexists _, _. split; [done|]. split; [done|]. apply dict_keys_set.
Qed.

End ReconcilerAnyCatalog.

Section ReconcilerFailures.
Context {G : Type}.
Variable io_fails : string → nat → bool.

Lemma M_bind_raise_inv {A B} (m : M G A) (f : A → M G B) st e st' :
  (m ≫= f) st = (Raise e, st') →
  m st = (Raise e, st')
  ∨ ∃ a st1, m st = (Ok a, st1) ∧ f a st1 = (Raise e, st').
Proof.
  unfold mbind, M_bind. destruct (m st) as [[a|e1] st1]; [|intros [= -> ->]; by left].
  intros Hf. right. by exists a, st1.
Qed.

Lemma io_frame {A} path
    (effect : gmap string string → result (A * gmap string string))
    (st : process G) :
  rng (io io_fails path effect st).2 = rng st
  ∧ stdout (io io_fails path effect st).2 = stdout st.
Proof.
  unfold io. destruct (io_fails path _); [done|].
  by destruct (effect (files st)) as [[a fs]|e].
Qed.

Lemma read_frame path (st : process G) :
  files (read io_fails path st).2 = files st
  ∧ stdout (read io_fails path st).2 = stdout st.
Proof.
  unfold read, io. destruct (io_fails path _); [done|].
  by destruct (files st !! path).
Qed.

Lemma load_json_frame path (st : process G) :
  files (load_json io_fails path st).2 = files st
  ∧ stdout (load_json io_fails path st).2 = stdout st.
Proof.
  pose proof (read_frame path st) as Hread. unfold load_json.
  unfold mbind, M_bind. destruct (read io_fails path st) as [[text|e] s1];
    [|done].
  done.
Qed.

Lemma io_raises path (effect : gmap string string → gmap string string)
    (st : process G) e st' :
  io io_fails path (fun fs => Ok ((), effect fs)) st = (Raise e, st') →
  e = OSError.
Proof. unfold io. destruct (io_fails path _); intros; by simplify_eq. Qed.

Lemma dump_json_raises path data (st : process G) e st' :
  dump_json io_fails path data st = (Raise e, st') → e = OSError.
Proof.
  unfold dump_json. intros [Hopen|(u & s1 & _ & Hwrite)]%M_bind_raise_inv.
  - by apply io_raises in Hopen.
  - by apply io_raises in Hwrite.
Qed.

Lemma update_entity_raises total entity e :
  update_entity total entity = Raise e → e = KeyError ∨ e = TypeError.
Proof.
  unfold update_entity. destruct entity as [| | | | | |d]; simpl; try by (intros [= <-]; auto).
  destruct (dict_lookup "_id" d) as [v|]; simpl; [|intros [= <-]; auto].
  destruct v; simpl; intros [= <-]; auto.
Qed.

Lemma update_products_count_raises total data e :
  update_products_count total data = Raise e → e = KeyError ∨ e = TypeError.
Proof.
  unfold update_products_count.
  destruct data as [| | | |s|l|d]; try by (intros [= <-]; auto).
  - destruct s; [done|intros [= <-]; auto].
  - assert (Hm : ∀ e, mapM (update_entity total) l = Raise e →
                      e = KeyError ∨ e = TypeError).
    { clear e. induction l as [|x l IH]; intros e; [done|]. simpl.
      destruct (update_entity total x) as [x'|e1] eqn:Hx; simpl.
      - destruct (mapM (update_entity total) l) as [l'|e2]; simpl; [done|].
        intros [= <-]. by apply IH.
      - intros [= <-]. by apply update_entity_raises in Hx. }
    destruct (mapM (update_entity total) l) as [l'|e1] eqn:Hl; simpl; [done|].
    intros [= <-]. by apply Hm.
  - destruct d; [done|intros [= <-]; auto].
Qed.

Lemma load_json_decoded path text data (st : process G) e st' :
  files st !! path = Some text → Json.loads text = Ok data →
  load_json io_fails path st = (Raise e, st') → e = OSError.
Proof.
  intros Hfile Hloads. unfold load_json.
  intros [Hread|(text' & s1 & Hread & Hl)]%M_bind_raise_inv.
  - unfold read, io in Hread. destruct (io_fails path _); [by simplify_eq|].
    destruct (files st !! path); by simplify_eq.
  - unfold read, io in Hread. destruct (io_fails path _); [done|].
    rewrite Hfile in Hread. injection Hread as <- _.
    unfold lift_result in Hl. by rewrite Hloads in Hl.
Qed.

(** The reconciler writes nothing before it has read and updated both
    catalogs. On catalogs that hold values that [json] handles as the
    model does (lists of dictionaries of plain values, or less), with
    totals that can be converted: when it raises anything but [OSError],
    an entry could not be updated ([KeyError] for an entry without
    [_id], [TypeError] for a value that cannot be subscripted or an
    [_id] that cannot be a key), and then no file has changed and nothing
    was printed. *)
Theorem update_base_data_counts_all_or_nothing results ctext vtext
    categories_data vendors_data (st : process G) e st' :
  files st !! CATEGORIES_FILE = Some ctext →
  Json.loads ctext = Ok categories_data →
  plain 2 categories_data = true →
  files st !! VENDORS_FILE = Some vtext →
  Json.loads vtext = Ok vendors_data →
  plain 2 vendors_data = true →
  (∀ key, convertible (category_total results key) = true) →
  (∀ key, convertible (vendor_total results key) = true) →
  update_base_data_counts io_fails results st = (Raise e, st') →
  e ≠ OSError →
  (e = KeyError ∨ e = TypeError)
  ∧ files st' = files st
  ∧ stdout st' = stdout st.
Proof.
  intros Hcf Hcl _ Hvf Hvl _ _ _.
  unfold update_base_data_counts. destruct (aggregate results) as [tv tc].
  intros Hrun Hne.
  pose proof (load_json_frame CATEGORIES_FILE st) as [Hf1 Ho1].
  apply M_bind_raise_inv in Hrun as [Hl1|(cats & s1 & Hl1 & Hrun)].
  { by apply (load_json_decoded _ _ _ _ _ _ Hcf Hcl) in Hl1. }
  rewrite Hl1 in Hf1, Ho1. simpl in Hf1, Ho1.
  pose proof (load_json_frame VENDORS_FILE s1) as [Hf2 Ho2].
  apply M_bind_raise_inv in Hrun as [Hl2|(vens & s2 & Hl2 & Hrun)].
  { rewrite <- Hf1 in Hvf. by apply (load_json_decoded _ _ _ _ _ _ Hvf Hvl) in Hl2. }
  rewrite Hl2 in Hf2, Ho2. simpl in Hf2, Ho2.
  assert (files s2 = files st ∧ stdout s2 = stdout st) as [Hf Ho]
    by (split; congruence).
  apply M_bind_raise_inv in Hrun as [Hu1|(cats' & s3 & Hu1 & Hrun)].
  { unfold lift_result in Hu1. injection Hu1 as Hu1 <-.
    apply update_products_count_raises in Hu1. intuition. }
  unfold lift_result in Hu1. injection Hu1 as _ <-.
  apply M_bind_raise_inv in Hrun as [Hu2|(vens' & s4 & Hu2 & Hrun)].
  { unfold lift_result in Hu2. injection Hu2 as Hu2 <-.
    apply update_products_count_raises in Hu2. intuition. }
  unfold lift_result in Hu2. injection Hu2 as _ <-.
  apply M_bind_raise_inv in Hrun as [Hd1|(u1 & s5 & Hd1 & Hrun)].
  { by apply dump_json_raises in Hd1. }
  apply M_bind_raise_inv in Hrun as [Hd2|(u2 & s6 & Hd2 & Hrun)].
  { by apply dump_json_raises in Hd2. }
  done.
Qed.

(** The reconciler without the initializer: when the category catalog is
    not there, the reconciler raises [OSError], changes no file and
    prints nothing. *)
Theorem update_base_data_counts_without_catalog results (st : process G) :
  files st !! CATEGORIES_FILE = None →
  ∃ st',
    update_base_data_counts io_fails results st = (Raise OSError, st')
    ∧ files st' = files st
    ∧ stdout st' = stdout st.
Proof.
  intros Hnone. unfold update_base_data_counts.
  destruct (aggregate results) as [tv tc].
  assert (Hread : ∃ st', read io_fails CATEGORIES_FILE st = (Raise OSError, st')
                         ∧ files st' = files st ∧ stdout st' = stdout st).
  { unfold read, io. destruct (io_fails CATEGORIES_FILE _); [by eexists|].
    rewrite Hnone. by eexists. }
  destruct Hread as (st' & Hread & Hf & Ho). exists st'.
  split; [|done]. apply M_bind_raise. unfold load_json. by apply M_bind_raise.
Qed.

End ReconcilerFailures.

(** ** What a failed partition leaves behind *)

Module TruncatedFacts.
Import Json TextFacts JsonFacts.

(** The elements of an array with no closing bracket after them, or with
    a comma after the last one, are not read. *)
Lemma scan_items_truncated scan enc sep_ws l tail :
  all_ws sep_ws = true → scan "" = None →
  Forall (reads_back scan enc) l → l ≠ [] →
  tail = "" ∨ tail = "," +:+ sep_ws →
  ∀ k, scan_items scan k (String.concat ("," +:+ sep_ws) (map enc l) +:+ tail)
       = None.
Proof.
  intros Hsep Hnil HF Hne Htail.
  assert (Hends : number_ends tail = true) by (by destruct Htail as [->| ->]).
  induction HF as [|x l [Hx Hxs] HF IH]; [done|].
  intros k. destruct k as [|k]; [done|].
  destruct l as [|y l].
  - simpl map. simpl String.concat. cbn [scan_items]. rewrite Hx by done.
    destruct Htail as [->| ->]; [done|].
    rewrite append_cons, append_nil_l, skip_ws_head by done.
    change (Ascii.eqb "," "]") with false. change (Ascii.eqb "," ",") with true.
    cbv iota. rewrite <- (append_nil_r sep_ws), skip_ws_all_ws by done.
    simpl skip_ws. destruct k as [|k]; [done|]. cbn [scan_items].
    by rewrite Hnil.
  - simpl map. rewrite concat_cons_cons. rewrite !append_assoc.
    cbn [scan_items]. rewrite Hx by done.
    match goal with
    | |- context [skip_ws ("," +:+ sep_ws +:+ ?X)] =>
        change ("," +:+ sep_ws +:+ X) with (String "," (sep_ws +:+ X))
    end.
    rewrite skip_ws_head by done.
    change (Ascii.eqb "," "]") with false. change (Ascii.eqb "," ",") with true.
    cbv iota. rewrite skip_ws_all_ws by done.
    specialize (IH ltac:(done) k).
    simpl map in IH. inversion HF as [|? ? [_ Hys] _]; subst.
    assert (Hskip : ∀ tail,
      skip_ws (String.concat ("," +:+ sep_ws) (enc y :: map enc l) +:+ tail)
      = String.concat ("," +:+ sep_ws) (enc y :: map enc l) +:+ tail).
    { intros t. destruct l as [|z l]; [apply Hys|].
      simpl map. rewrite concat_cons_cons, !append_assoc. apply Hys. }
    rewrite Hskip. by rewrite IH.
Qed.

(** A text that starts an array and stops after an element, or after
    the comma that follows an element, is rejected. *)
Lemma loads_truncated_array indent level open_ws sep_ws (l : list pyval) tail :
  all_ws open_ws = true → all_ws sep_ws = true →
  Forall json_wf l →
  tail = "" ∨ (tail = "," +:+ sep_ws ∧ l ≠ []) →
  loads ("[" +:+ open_ws
         +:+ String.concat ("," +:+ sep_ws) (map (encode indent level) l)
         +:+ tail)
  = Raise JSONDecodeError.
Proof.
  intros Hopen Hsep Hwf Htail. unfold loads.
  set (body := String.concat ("," +:+ sep_ws) (map (encode indent level) l)).
  set (text := "[" +:+ open_ws +:+ body +:+ tail).
  assert (Htext : text = String "[" (open_ws +:+ body +:+ tail))
    by (unfold text; by rewrite append_cons, append_nil_l).
  assert (Hlen : (String.length body ≤ String.length text)%nat).
  { rewrite Htext. clear Htext. clearbody text body.
    cbn [String.length]. rewrite !length_append. lia. }
  rewrite Htext at 2. rewrite skip_ws_head by done.
  rewrite scan_once_array, skip_ws_all_ws by done.
  destruct l as [|x l].
  - unfold body. simpl String.concat. rewrite append_nil_l.
    destruct Htail as [->|[_ ?]]; [|done]. done.
  - destruct (concat_head_cons ("," +:+ sep_ws) (encode indent level) x l tail)
      as [more Hmore].
    fold body in Hmore.
    destruct (encode_head indent level x more) as (c & r & Hhead & Hc).
    apply value_start_spec in Hc as (Hws & Hnb & _).
    rewrite Hmore, Hhead, skip_ws_head, Hnb by done.
    rewrite <- Hhead, <- Hmore. unfold body.
    assert (Hsum : (foldr (fun x acc => size x + acc) 0 (x :: l)
                    ≤ String.length body)%nat).
    { etrans; [|apply length_concat_ge].
      apply sum_sizes_le_lengths, Forall_forall.
      intros y _. apply size_le_length. }
    destruct (size_sum_list (x :: l)) as [Hcount Hsizes].
    rewrite scan_items_truncated; try done.
    + apply Forall_forall. intros y Hy.
      rewrite Forall_forall in Hwf, Hsizes.
      split; [|apply encode_solid].
      intros t Ht. apply scan_once_encode; [by apply Hwf| |done].
      specialize (Hsizes y Hy). cbv beta in Hsizes. lia.
    + destruct Htail as [->|[-> _]]; auto.
Qed.

End TruncatedFacts.

Section FailedPartition.
Context `{Config} {G : Type} `{RandomSource G}.
Variable io_fails : string → nat → bool.

Lemma io_raise_inv path (effect : gmap string string → gmap string string)
    (st : process G) e st' :
  io io_fails path (fun fs => Ok ((), effect fs)) st = (Raise e, st') →
  files st' = files st.
Proof. unfold io. destruct (io_fails path _); intros; by simplify_eq. Qed.

Lemma rand_raise_inv {A} (r : Rand G A) (st : process G) e st' :
  rand r st = (Raise e, st') → st' = st.
Proof.
  unfold rand. destruct (r (rng st)) as [[a g']|e1]; intros; by simplify_eq.
Qed.

Lemma write_product_inv path start i counts (st : process G) text :
  files st !! path = Some text →
  match write_product io_fails path start i counts st with
  | (Ok _, st') =>
      ∃ product,
        Json.json_wf product
        ∧ files st' !! path
          = Some (text +:+ (if 0 <? i then "," +:+ LF else "")
                  +:+ Json.dumps product)
  | (Raise _, st') =>
      files st' !! path = Some text
      ∨ (0 < i ∧ files st' !! path = Some (text +:+ "," +:+ LF))
  end.
Proof.
  intros Htext. unfold write_product. destruct counts as [vc cc].
  unfold mbind at 1, M_bind at 1.
  destruct (rand (generate_product_json (start + i)) st)
    as [[[[product ven] cat]|e] s1] eqn:Hrand.
  2:{ apply rand_raise_inv in Hrand as ->. by left. }
  apply rand_ok_inv in Hrand as (Hgen & Hf1 & _).
  apply generate_product_json_wf in Hgen as [Hwf _].
  unfold mbind at 1, M_bind at 1.
  destruct (Z.ltb_spec 0 i) as [Hi|Hi].
  - destruct (write io_fails path ("," +:+ LF) s1) as [[u|e] s2] eqn:Hsep.
    2:{ apply io_raise_inv in Hsep. left. by rewrite Hsep, Hf1. }
    apply write_ok_inv in Hsep as (_ & Hf2 & _).
    unfold mbind at 1, M_bind at 1.
    destruct (write io_fails path (Json.dumps product) s2) as [[u'|e] s3] eqn:Hw.
    2:{ apply io_raise_inv in Hw. right. split; [done|].
        by rewrite Hw, Hf2, lookup_insert_eq, Hf1, Htext. }
    apply write_ok_inv in Hw as (_ & Hf3 & _).
    exists product. split; [done|].
    rewrite Hf3, lookup_insert_eq, Hf2, lookup_insert_eq, Hf1, Htext. simpl.
    by rewrite !TextFacts.append_assoc.
  - unfold mret, M_ret.
    unfold mbind at 1, M_bind at 1.
    destruct (write io_fails path (Json.dumps product) s1) as [[u'|e] s3] eqn:Hw.
    2:{ apply io_raise_inv in Hw. left. by rewrite Hw, Hf1. }
    apply write_ok_inv in Hw as (_ & Hf3 & _).
    exists product. split; [done|].
    rewrite Hf3, lookup_insert_eq, Hf1, Htext. simpl.
    by rewrite TextFacts.append_nil_l.
Qed.

(** What the loop leaves in the file when it raises. *)
Lemma for_each_write_product_raise path start xs :
  ∀ counts (st : process G) text e st',
  for_each xs counts (write_product io_fails path start) st = (Raise e, st') →
  files st !! path = Some text →
  ∃ xs1 x xs2 records tail,
    xs = (xs1 ++ x :: xs2)%list
    ∧ length records = length xs1
    ∧ Forall Json.json_wf records
    ∧ (tail = "" ∨ (tail = "," +:+ LF ∧ 0 < x))
    ∧ files st' !! path = Some (text +:+ pieces xs1 records +:+ tail).
Proof.
  induction xs as [|i xs IH]; intros counts st text e st' Hrun Htext;
    [done|].
  cbn [for_each] in Hrun.
  pose proof (write_product_inv path start i counts st text Htext) as Hstep.
  unfold mbind, M_bind in Hrun.
  destruct (write_product io_fails path start i counts st)
    as [[counts1|e1] s1].
  - destruct Hstep as (product & Hwf & Hfile).
    destruct (IH counts1 s1 _ e st' Hrun Hfile)
      as (xs1 & x & xs2 & records & tail & -> & Hlen & Hall & Htail & Hf).
    exists (i :: xs1), x, xs2, (product :: records), tail.
    split; [done|]. split; [by simpl; rewrite Hlen|].
    split; [by constructor|]. split; [done|].
    rewrite Hf. cbn [pieces]. by rewrite !TextFacts.append_assoc.
  - injection Hrun as <- <-.
    exists [], i, xs, [].
    destruct Hstep as [Hf|[Hi Hf]].
    + exists "". split; [done|]. split; [done|]. split; [done|].
      split; [by left|].
      by rewrite Hf, TextFacts.append_nil_l, TextFacts.append_nil_r.
    + exists ("," +:+ LF). split; [done|]. split; [done|]. split; [done|].
      split; [by right|].
      by rewrite Hf, TextFacts.append_nil_l.
Qed.

Lemma range_split n xs1 x xs2 :
  range n = (xs1 ++ x :: xs2)%list →
  (xs1 = [] ∧ x = 0)
  ∨ ∃ xs1', xs1 = 0 :: xs1' ∧ Forall (fun i => 0 < i) xs1' ∧ 0 < x.
Proof.
  unfold range. destruct (Z.ltb_spec 0 n) as [Hn|Hn].
  2:{ rewrite seqZ_nil by lia. by destruct xs1. }
  rewrite seqZ_cons by lia. destruct xs1 as [|y xs1]; simpl.
  - intros [= <- _]. by left.
  - intros [= <- Hrest]. right. exists xs1. split; [done|].
    assert (Hall : Forall (fun i => 0 < i) (seqZ (Z.succ 0) (Z.pred n))).
    { apply Forall_forall. intros i Hi%elem_of_seqZ. lia. }
    rewrite Hrest in Hall. apply Forall_app in Hall as [H1 H2].
    split; [done|]. by inversion H2.
Qed.

Lemma pieces_prefix n xs1 x xs2 records :
  range n = (xs1 ++ x :: xs2)%list →
  length records = length xs1 →
  pieces xs1 records = String.concat ("," +:+ LF) (map Json.dumps records)
  ∧ (0 < x → records ≠ []).
Proof.
  intros [[-> ->]|(xs1' & -> & Hpos & Hx)]%range_split Hlen.
  - destruct records; [|done]. split; [done|lia].
  - destruct records as [|r records]; [done|]. simpl in Hlen.
    split; [|done]. cbn [pieces]. change (0 <? 0) with false. cbv iota.
    rewrite TextFacts.append_nil_l. apply pieces_positive; [done|lia].
Qed.

(** A partition that fails leaves no file that can be taken for its
    array: either its file could not be opened, and no file has changed,
    or what its file holds is rejected by [json.loads]. The file is not
    removed, and what it held before the run is lost. *)
Theorem failed_partition_file idx start (st : process G) st' :
  generate_interleaved_products_for_file io_fails idx start st
    = (Ok None, st') →
  files st' = files st
  ∨ ∃ text, files st' !! part_path idx = Some text
            ∧ Json.loads text = Raise JSONDecodeError.
Proof.
  unfold generate_interleaved_products_for_file. rewrite print_bind.
  set (st0 := Process _ _ _ _). set (path := part_path idx).
  intros Hrun.
  destruct ((counts ← write_partition io_fails path start; mret (Some counts)) st0)
    as [[outcome|e] s1] eqn:Hbody.
  { rewrite (M_bind_ok _ _ _ _ _ (try_except_ok _ _ _ _ _ Hbody)) in Hrun.
    apply M_bind_ok_inv in Hbody as (counts & s & _ & [= <- _]).
    destruct counts as [vc cc]. by rewrite print_bind in Hrun. }
  erewrite M_bind_ok in Hrun; last first.
  { erewrite try_except_raise by exact Hbody. rewrite print_bind. reflexivity. }
  injection Hrun as <-. simpl.
  apply M_bind_raise_inv in Hbody as [Hwp|(?&?&_&[=])].
  unfold write_partition in Hwp.
  apply M_bind_raise_inv in Hwp as [Hopen|(u1 & sA & Hopen & Hwp)].
  { left. by apply io_raise_inv in Hopen. }
  apply open_w_ok_inv in Hopen as (_ & HfA & _).
  right.
  apply M_bind_raise_inv in Hwp as [Hw1|(u2 & sB & Hw1 & Hwp)].
  { apply io_raise_inv in Hw1. exists "".
    rewrite Hw1, HfA, lookup_insert_eq. split; [done|by vm_compute]. }
  apply write_ok_inv in Hw1 as (_ & HfB & _).
  assert (HB : files sB !! path = Some ("[" +:+ LF)).
  { by rewrite HfB, lookup_insert_eq, HfA, lookup_insert_eq. }
  apply M_bind_raise_inv in Hwp as [Hloop|(counts & sC & Hloop & Hwp)].
  - destruct (for_each_write_product_raise _ _ _ _ _ _ _ _ Hloop HB)
      as (xs1 & x & xs2 & records & tail & Hxs & Hlen & Hall & Htail & Hf).
    destruct (pieces_prefix _ _ _ _ _ Hxs Hlen) as [Hp Hne].
    eexists. split; [exact Hf|]. rewrite Hp, TextFacts.append_assoc.
    apply (TruncatedFacts.loads_truncated_array None 0 LF LF); try done.
    destruct Htail as [->|[-> Hx]]; auto.
  - apply for_each_write_product_ok in Hloop as (products & Hprods & _ & _ & Hf).
    specialize (Hf _ HB).
    apply M_bind_raise_inv in Hwp as [Hw2|(?&?&_&[=])].
    apply io_raise_inv in Hw2.
    pose proof (partition_products_facts _ _ _ _ _ Hprods) as (Hwf & _ & _).
    assert (Hlen : length (map (fun p : pyval * Z * Z => p.1.1) products)
                   = Z.to_nat PRODUCTS_PER_FILE).
    { apply mapM_Rand_inv, Forall2_length in Hprods.
      unfold range in Hprods. by rewrite length_map, <- Hprods, length_seqZ. }
    eexists. split; [by rewrite Hw2, Hf|].
    rewrite (pieces_range _ _ Hlen).
    rewrite <- (TextFacts.append_nil_r (String.concat _ _)).
    rewrite TextFacts.append_assoc.
    apply (TruncatedFacts.loads_truncated_array None 0 LF LF); auto.
Qed.

End FailedPartition.

(** ** Runs that succeed, and the summary *)

Section WriterSuccess.
Context `{Config} {G : Type} `{RandomSource G}.
Variable io_fails : string → nat → bool.

Lemma write_ok path data (st : process G) :
  (∀ n, io_fails path n = false) →
  ∃ st', write io_fails path data st = (Ok (), st')
         ∧ rng st' = rng st
         ∧ files st' = <[path := default "" (files st !! path) +:+ data]> (files st)
         ∧ stdout st' = stdout st.
Proof. intros Hnf. by apply (io_ok io_fails). Qed.

Lemma open_w_ok path (st : process G) :
  (∀ n, io_fails path n = false) →
  ∃ st', open_w io_fails path st = (Ok (), st')
         ∧ rng st' = rng st
         ∧ files st' = <[path := ""]> (files st)
         ∧ stdout st' = stdout st.
Proof. intros Hnf. by apply (io_ok io_fails). Qed.

Lemma write_product_ok path start i counts (st : process G) :
  (∀ n, io_fails path n = false) →
  0 < NUM_CATEGORIES → 0 < VENDOR_COUNT →
  ∃ counts' st', write_product io_fails path start i counts st = (Ok counts', st').
Proof.
  intros Hnf Hc Hv. unfold write_product. destruct counts as [vc cc].
  destruct (generate_product_json_shape (start + i) (rng st) Hc Hv)
    as (name & price & rating & attrs & cat & ven & g' & Hgen & _).
  erewrite M_bind_ok by (apply rand_ok; exact Hgen).
  set (s1 := Process _ _ _ _).
  assert (Hsep : ∃ s2, (if 0 <? i then write io_fails path ("," +:+ LF)
                        else mret ()) s1 = (Ok (), s2)).
  { destruct (0 <? i); [|by eexists].
    destruct (write_ok path ("," +:+ LF) s1 Hnf) as (s2 & Hw & _). by exists s2. }
  destruct Hsep as (s2 & Hsep).
  erewrite M_bind_ok by exact Hsep.
  match goal with
  | |- context [write io_fails path ?data] =>
      destruct (write_ok path data s2 Hnf) as (s3 & Hw & _)
  end.
  erewrite M_bind_ok by exact Hw. by eexists _, _.
Qed.

Lemma for_each_write_product_succeeds path start xs :
  (∀ n, io_fails path n = false) →
  0 < NUM_CATEGORIES → 0 < VENDOR_COUNT →
  ∀ counts (st : process G),
  ∃ counts' st',
    for_each xs counts (write_product io_fails path start) st = (Ok counts', st').
Proof.
  intros Hnf Hc Hv. induction xs as [|i xs IH]; intros counts st.
  - by eexists _, _.
  - destruct (write_product_ok path start i counts st Hnf Hc Hv)
      as (counts1 & s1 & Hw).
    destruct (IH counts1 s1) as (counts' & st' & Hloop).
    exists counts', st'. cbn [for_each]. by erewrite M_bind_ok by exact Hw.
Qed.

Lemma writer_succeeds idx start
    (st : process G) :
  (∀ n, io_fails (part_path idx) n = false) →
  (0 < PRODUCTS_PER_FILE → 0 < NUM_CATEGORIES ∧ 0 < VENDOR_COUNT) →
  ∃ t st',
    generate_interleaved_products_for_file io_fails idx start st
      = (Ok (Some t), st')
    ∧ file_index t = idx.
Proof.
  intros Hnf Hranges.
  unfold generate_interleaved_products_for_file. rewrite print_bind.
  set (st0 := Process _ _ _ _).
  destruct (open_w_ok (part_path idx) st0 Hnf) as (s1 & Hopen & _).
  destruct (write_ok (part_path idx) ("[" +:+ LF) s1 Hnf) as (s2 & Hw1 & _).
  assert (Hloop : ∃ counts s3,
            for_each (range PRODUCTS_PER_FILE) (∅, ∅)
              (write_product io_fails (part_path idx) start) s2
            = (Ok counts, s3)).
  { destruct (Z.ltb_spec 0 PRODUCTS_PER_FILE) as [Hpos|Hneg].
    - destruct (Hranges Hpos) as [Hc Hv].
      apply for_each_write_product_succeeds; done.
    - unfold range. rewrite seqZ_nil by lia. by eexists _, _. }
  destruct Hloop as ([vc cc] & s3 & Hloop).
  destruct (write_ok (part_path idx) (LF +:+ "]") s3 Hnf) as (s4 & Hw2 & _).
  assert (Hbody : (counts ← write_partition io_fails (part_path idx) start;
                   mret (Some counts)) st0 = (Ok (Some (vc, cc)), s4)).
  { unfold write_partition.
    erewrite M_bind_ok; [reflexivity|].
    erewrite M_bind_ok by exact Hopen. erewrite M_bind_ok by exact Hw1.
    erewrite M_bind_ok by exact Hloop. by erewrite M_bind_ok by exact Hw2. }
  erewrite M_bind_ok by (apply try_except_ok; exact Hbody).
  cbv beta iota. rewrite print_bind. by eexists _, _.
Qed.

(** A partition whose file can be written succeeds as soon as the two id
    ranges are not empty, or there is no record to write: the writer
    returns a tally that bears the index of the partition, prints its two
    lines and no error, and leaves an array of PRODUCTS_PER_FILE
    records. *)
Theorem generate_interleaved_products_for_file_succeeds idx start
    (st : process G) :
  (∀ n, io_fails (part_path idx) n = false) →
  (0 < PRODUCTS_PER_FILE → 0 < NUM_CATEGORIES ∧ 0 < VENDOR_COUNT) →
  ∃ t st',
    generate_interleaved_products_for_file io_fails idx start st
      = (Ok (Some t), st')
    ∧ file_index t = idx
    ∧ stdout st'
      = (stdout st ++ [LogGenerating PRODUCTS_PER_FILE idx;
                       LogFinished idx PRODUCTS_PER_FILE])%list
    ∧ ∃ text records,
        files st' !! part_path idx = Some text
        ∧ Json.loads text = Ok (PList records)
        ∧ length records = Z.to_nat PRODUCTS_PER_FILE.
Proof.
  intros Hnf Hranges.
  destruct (writer_succeeds idx start st Hnf Hranges) as (t & st' & Hrun & Hidx).
  exists t, st'. split; [done|]. split; [done|].
  destruct (generate_interleaved_products_for_file_ok io_fails _ _ _ _ _ Hrun)
    as (products & g' & Hprods & _ & _ & Hfile & Hout).
  split; [done|].
  pose proof (partition_products_facts _ _ _ _ _ Hprods) as (Hwf & _ & _).
  exists (artifact_text (map (fun p => p.1.1) products)),
    (map (fun p => p.1.1) products).
  split; [done|]. split.
  { apply (JsonFacts.loads_array_text None 0 LF LF LF); done. }
  apply mapM_Rand_inv, Forall2_length in Hprods.
  unfold range in Hprods. by rewrite length_map, <- Hprods, length_seqZ.
Qed.

End WriterSuccess.

Section RunSuccess.
Context `{Config} {G : Type} `{RandomSource G}.
Variable io_fails : string → nat → bool.
Variable worker_rng : Z → G.
Variable pool_broken : Z → option lost_worker.
Variable as_completed : list (Z * Z) → list (Z * Z).

Lemma collect_result_succeeds task results (st : process G) :
  pool_broken task.1 = None →
  (∀ n, io_fails (part_path task.1) n = false) →
  (0 < PRODUCTS_PER_FILE → 0 < NUM_CATEGORIES ∧ 0 < VENDOR_COUNT) →
  ∃ t st',
    collect_result io_fails worker_rng pool_broken task results st
      = (Ok (results ++ [Some t])%list, st')
    ∧ file_index t = task.1.
Proof.
  destruct task as [idx start]. simpl. intros Hpb Hnf Hranges.
  destruct (writer_succeeds io_fails idx start
              (Process (worker_rng idx) (files st) (io_count st) (stdout st))
              Hnf Hranges) as (t & w' & Hw & Hidx).
  exists t. eexists. split; [|exact Hidx].
  unfold collect_result. apply try_except_ok.
  erewrite M_bind_ok; last first.
  { unfold future_result. rewrite Hpb, Hw. reflexivity. }
  reflexivity.
Qed.

Lemma collect_loop_succeeds order :
  Forall (fun task => pool_broken task.1 = None
                      ∧ ∀ n, io_fails (part_path task.1) n = false) order →
  (0 < PRODUCTS_PER_FILE → 0 < NUM_CATEGORIES ∧ 0 < VENDOR_COUNT) →
  ∀ results (st : process G),
  ∃ new st',
    for_each order results (collect_result io_fails worker_rng pool_broken) st
      = (Ok (results ++ (Some <$> new))%list, st')
    ∧ file_index <$> new = order.*1.
Proof.
  intros Hall Hranges.
  induction Hall as [|task order [Hpb Hnf] _ IH]; intros results st.
  - exists [], st. simpl. by rewrite app_nil_r.
  - destruct (collect_result_succeeds task results st Hpb Hnf Hranges)
      as (t & s1 & Hstep & Hidx).
    destruct (IH (results ++ [Some t])%list s1) as (new & st' & Hloop & Hnew).
    exists (t :: new), st'. cbn [for_each].
    erewrite M_bind_ok by exact Hstep. rewrite Hloop.
    split; [by rewrite <- app_assoc|]. rewrite !fmap_cons. by rewrite Hidx, Hnew.
Qed.

Lemma run_collects_all (st : process G) :
  (∀ i n, io_fails (part_path i) n = false) →
  (∀ i, pool_broken i = None) →
  (0 < PRODUCTS_PER_FILE → 0 < NUM_CATEGORIES ∧ 0 < VENDOR_COUNT) →
  as_completed build_tasks ≡ₚ build_tasks →
  ∃ (new : list tally) st',
    run_interleaved_generation io_fails worker_rng pool_broken as_completed st
      = (Ok (Some <$> new), st')
    ∧ file_index <$> new = (as_completed build_tasks).*1
    ∧ file_index <$> new ≡ₚ range_from_1 SPLIT_PARTS
    ∧ length new = Z.to_nat SPLIT_PARTS.
Proof.
  intros Hnf Hpb Hranges Hperm. unfold run_interleaved_generation.
  rewrite !print_bind. set (st0 := Process _ _ _ _).
  destruct (collect_loop_succeeds (as_completed build_tasks)
              ltac:(apply Forall_forall; intros task _; split; [apply Hpb|apply Hnf])
              Hranges [] st0) as (new & st' & Hloop & Hidx).
  exists new, st'. split; [exact Hloop|]. split; [done|].
  assert (Hp : file_index <$> new ≡ₚ range_from_1 SPLIT_PARTS).
  { rewrite Hidx, Hperm, build_tasks_eq. rewrite <- list_fmap_compose.
    unfold task_of. simpl. by rewrite list_fmap_id. }
  split; [done|].
  apply Permutation_length in Hp. rewrite length_fmap in Hp. rewrite Hp.
  unfold range_from_1. by rewrite length_seqZ.
Qed.

(** A run in which every partition file can be written and no worker is
    lost collects one tally per partition, in the order of completion:
    the indices of the tallies are the indices of the tasks, and there
    are SPLIT_PARTS of them. *)
Theorem run_collects_every_partition (st : process G) :
  (∀ i n, io_fails (part_path i) n = false) →
  (∀ i, pool_broken i = None) →
  (0 < PRODUCTS_PER_FILE → 0 < NUM_CATEGORIES ∧ 0 < VENDOR_COUNT) →
  as_completed build_tasks ≡ₚ build_tasks →
  ∃ (new : list tally) st',
    run_interleaved_generation io_fails worker_rng pool_broken as_completed st
      = (Ok (Some <$> new), st')
    ∧ file_index <$> new = (as_completed build_tasks).*1
    ∧ file_index <$> new ≡ₚ range_from_1 SPLIT_PARTS
    ∧ NoDup (file_index <$> new)
    ∧ length new = Z.to_nat SPLIT_PARTS.
Proof.
  intros Hnf Hpb Hranges Hperm.
  destruct (run_collects_all st Hnf Hpb Hranges Hperm)
    as (new & st' & Hrun & Hidx & Hp & Hlen).
  exists new, st'. split; [done|]. split; [done|]. split; [done|].
  split; [|done]. rewrite Hp. apply NoDup_seqZ.
Qed.

(** Whatever fails, the orchestrator returns: its list holds tallies
    only, never [None], at most one per partition, in the order in which
    the partitions completed. *)
Theorem run_results_in_completion_order (st : process G) :
  as_completed build_tasks ≡ₚ build_tasks →
  ∃ succeeded (new : list tally) st',
    run_interleaved_generation io_fails worker_rng pool_broken as_completed st
      = (Ok (Some <$> new), st')
    ∧ (∀ result, result ∈ (Some <$> new) → result ≠ None)
    ∧ sublist succeeded (as_completed build_tasks)
    ∧ file_index <$> new = succeeded.*1
    ∧ NoDup (file_index <$> new).
Proof.
  intros Hperm.
  destruct (run_interleaved_generation_spec io_fails worker_rng pool_broken
              as_completed st Hperm)
    as (succeeded & new & st' & Hrun & _ & _ & Hsub & Hgood).
  exists succeeded, new, st'. split; [done|]. split.
  { intros r Hin ->. apply list_elem_of_fmap in Hin as (t & Ht & _). discriminate. }
  split; [done|].
  assert (Hidx : file_index <$> new = succeeded.*1).
  { clear -Hgood. induction Hgood as [|task t ?? (?&?&?&Hi&?) _ IH]; [done|].
    rewrite !fmap_cons. by rewrite Hi, IH. }
  split; [done|]. rewrite Hidx.
  eapply sublist_NoDup; [|apply (fmap_sublist fst _ _ Hsub)].
  rewrite Hperm. apply build_tasks_indices.
Qed.

Lemma print_loop_stdout (ids : list Z) (line : Z → log_line) (st : process G) :
  for_each ids () (fun i _ => print (line i)) st
  = (Ok (), Process (rng st) (files st) (io_count st)
              (stdout st ++ map line ids)).
Proof.
  revert st. induction ids as [|i ids IH]; intros st.
  - simpl. rewrite app_nil_r. by destruct st.
  - cbn [for_each]. rewrite print_bind, IH. simpl. by rewrite <- app_assoc.
Qed.

(** The summary at the end of a run lists every partition index from 1
    to SPLIT_PARTS as saved to its path, whether or not the partition
    returned a tally: the lines depend on SPLIT_PARTS only. *)
Theorem main_lists_every_partition (st : process G) st' :
  main io_fails worker_rng pool_broken as_completed st = (Ok (), st') →
  ∃ out,
    stdout st'
    = (out ++ LogComplete
           :: map (fun i => LogSavedTo i (part_path i)) (range_from_1 SPLIT_PARTS)
       ++ [LogTotalTime])%list
    ∧ ∀ i, 1 ≤ i ≤ SPLIT_PARTS → LogSavedTo i (part_path i) ∈ stdout st'.
Proof.
  unfold main. intros Hrun.
  apply M_bind_ok_inv in Hrun as (u1 & s1 & _ & Hrun).
  apply M_bind_ok_inv in Hrun as (u2 & s2 & _ & Hrun).
  apply M_bind_ok_inv in Hrun as (u3 & s3 & _ & Hrun).
  apply M_bind_ok_inv in Hrun as (all_counts & s4 & _ & Hrun).
  apply M_bind_ok_inv in Hrun as (u5 & s5 & _ & Hrun).
  rewrite print_bind in Hrun.
  apply M_bind_ok_inv in Hrun as (u6 & s6 & Hloop & Hrun).
  rewrite print_loop_stdout in Hloop. injection Hloop as _ <-.
  unfold print in Hrun. injection Hrun as <-. simpl.
  exists (stdout s5).
  assert (Hout : ∀ a b c : list log_line,
            (((a ++ [LogComplete]) ++ b) ++ c = a ++ LogComplete :: b ++ c)%list).
  { intros a b c. by rewrite <- !app_assoc. }
  rewrite Hout. split; [done|].
  intros i Hi. rewrite !elem_of_app, elem_of_cons, elem_of_app. right. right. left.
  apply list_elem_of_fmap. exists i. split; [done|].
  unfold range_from_1. rewrite elem_of_seqZ. lia.
Qed.

End RunSuccess.

Section EdgeCases.
Context `{Config} {G : Type} `{RandomSource G}.
Variable io_fails : string → nat → bool.

(** A partition of no record: with PRODUCTS_PER_FILE at most 0 the
    writer draws nothing, returns a tally with no count, and writes an
    array that [json.loads] reads as the empty list. *)
Theorem empty_partition idx start (st : process G) :
  PRODUCTS_PER_FILE ≤ 0 →
  (∀ n, io_fails (part_path idx) n = false) →
  ∃ st',
    generate_interleaved_products_for_file io_fails idx start st
      = (Ok (Some (Tally idx ∅ ∅)), st')
    ∧ rng st' = rng st
    ∧ files st' = <[part_path idx := "[" +:+ LF +:+ LF +:+ "]"]> (files st)
    ∧ Json.loads ("[" +:+ LF +:+ LF +:+ "]") = Ok (PList []).
Proof.
  intros Hppf Hnf.
  unfold generate_interleaved_products_for_file. rewrite print_bind.
  set (st0 := Process _ _ _ _).
  destruct (open_w_ok io_fails (part_path idx) st0 Hnf)
    as (s1 & Hopen & Hr1 & Hf1 & _).
  destruct (write_ok io_fails (part_path idx) ("[" +:+ LF) s1 Hnf)
    as (s2 & Hw1 & Hr2 & Hf2 & _).
  destruct (write_ok io_fails (part_path idx) (LF +:+ "]") s2 Hnf)
    as (s3 & Hw2 & Hr3 & Hf3 & _).
  assert (Hbody : (counts ← write_partition io_fails (part_path idx) start;
                   mret (Some counts)) st0 = (Ok (Some (∅, ∅)), s3)).
  { unfold write_partition.
    erewrite M_bind_ok; [reflexivity|].
    erewrite M_bind_ok by exact Hopen. erewrite M_bind_ok by exact Hw1.
    unfold range. rewrite seqZ_nil by lia. cbn [for_each].
    erewrite M_bind_ok by reflexivity. by erewrite M_bind_ok by exact Hw2. }
  erewrite M_bind_ok by (apply try_except_ok; exact Hbody).
  cbv beta iota. rewrite print_bind. eexists. split; [reflexivity|]. simpl.
  split; [by rewrite Hr3, Hr2, Hr1|]. split; [|by vm_compute].
  rewrite Hf3, Hf2, Hf1, !lookup_insert_eq, !insert_insert_eq. simpl.
  by rewrite TextFacts.append_nil_l, TextFacts.append_assoc.
Qed.

Lemma build_tasks_paths : NoDup (part_path <$> build_tasks.*1).
Proof.
  destruct build_tasks_indices as [Hnd Hpos].
  apply NoDup_fmap_2_strong; [|done].
  intros i j Hi Hj. apply part_path_inj.
  - apply list_elem_of_fmap in Hi as (task & -> & Htask).
    by apply (proj1 (Forall_forall _ _) Hpos).
  - apply list_elem_of_fmap in Hj as (task & -> & Htask).
    by apply (proj1 (Forall_forall _ _) Hpos).
Qed.

(** The files of a run: the tasks of the orchestrator write to pairwise
    different paths, and none of them is the path of a catalog. *)
Theorem partition_paths_distinct :
  NoDup (part_path <$> build_tasks.*1)
  ∧ (∀ i, part_path i ≠ CATEGORIES_FILE ∧ part_path i ≠ VENDORS_FILE)
  ∧ CATEGORIES_FILE ≠ VENDORS_FILE.
Proof.
  split; [apply build_tasks_paths|].
  split; [apply part_path_not_catalog|apply catalog_paths_distinct].
Qed.

End EdgeCases.

(** ** The catalogs and the partition files *)

Section WholeRun.
Context `{Config} {G : Type} `{RandomSource G}.
Variable io_fails : string → nat → bool.
Variable worker_rng : Z → G.
Variable pool_broken : Z → option lost_worker.
Variable as_completed : list (Z * Z) → list (Z * Z).

Lemma good_partition_counts task t (st : process G) key :
  good_partition worker_rng task t st →
  count_of (category_counts t) key
    = count_where "category_id" key
        (catalog_entries (files st !! part_path (file_index t)))
  ∧ count_of (vendor_counts t) key
    = count_where "vendor_id" key
        (catalog_entries (files st !! part_path (file_index t))).
Proof.
  intros (products & g' & Hprods & -> & Hcounts & Hfile).
  pose proof (partition_products_facts _ _ _ _ _ Hprods) as (Hwf & _ & _).
  pose proof (partition_products_fields _ _ _ _ _ Hprods) as Hfields.
  rewrite Hfile. unfold catalog_entries, artifact_text.
  rewrite (JsonFacts.loads_array_text None 0 LF LF LF) by done.
  assert (Hv : vendor_counts t = (count_products products (∅, ∅)).1)
    by (by rewrite <- Hcounts).
  assert (Hc : category_counts t = (count_products products (∅, ∅)).2)
    by (by rewrite <- Hcounts).
  rewrite Hc, Hv.
  rewrite (proj1 (count_where_products _ key Hfields)),
    (proj2 (count_where_products _ key Hfields)).
  rewrite (proj1 (count_products_count products (∅, ∅) key)),
    (proj2 (count_products_count products (∅, ∅) key)).
  done.
Qed.

Lemma totals_count_in_files succeeded (new : list tally) (st : process G) key :
  Forall2 (fun task t => good_partition worker_rng task t st) succeeded new →
  category_total (Some <$> new) key
    = count_in_files (files st) "category_id"
        ((fun t => part_path (file_index t)) <$> new) key
  ∧ vendor_total (Some <$> new) key
    = count_in_files (files st) "vendor_id"
        ((fun t => part_path (file_index t)) <$> new) key.
Proof.
  induction 1 as [|task t succeeded new Hg _ [IHc IHv]]; [done|].
  rewrite !fmap_cons. cbn [category_total vendor_total count_in_files foldr].
  fold (category_total (Some <$> new) key).
  fold (vendor_total (Some <$> new) key).
  fold (count_in_files (files st) "category_id"
          ((fun t => part_path (file_index t)) <$> new) key).
  fold (count_in_files (files st) "vendor_id"
          ((fun t => part_path (file_index t)) <$> new) key).
  destruct (good_partition_counts task t st key Hg) as [-> ->].
  by rewrite IHc, IHv.
Qed.

End WholeRun.

Section HappyPath.
Context `{Config} {G : Type} `{RandomSource G}.
Variable io_fails : string → nat → bool.
Variable worker_rng : Z → G.
Variable pool_broken : Z → option lost_worker.
Variable as_completed : list (Z * Z) → list (Z * Z).

(** The run, with the state in which the orchestrator starts and the one
    in which it ends. *)
Lemma main_trace (st : process G) :
  (∀ n, io_fails OUTPUT_DIR n = false) →
  (∀ n, io_fails CATEGORIES_FILE n = false) →
  (∀ n, io_fails VENDORS_FILE n = false) →
  as_completed build_tasks ≡ₚ build_tasks →
  ∃ words succeeded new s1 s2 st',
    main io_fails worker_rng pool_broken as_completed st = (Ok (), st')
    ∧ run_interleaved_generation io_fails worker_rng pool_broken as_completed s1
      = (Ok (Some <$> new), s2)
    ∧ length words = Z.to_nat NUM_CATEGORIES
    ∧ sublist succeeded (as_completed build_tasks)
    ∧ Forall2 (fun task t => good_partition worker_rng task t st') succeeded new
    ∧ files st' !! CATEGORIES_FILE
      = Some (Json.dumps_indent 2
                (PList (category_records (range NUM_CATEGORIES) words
                          (category_total (Some <$> new)))))
    ∧ files st' !! VENDORS_FILE
      = Some (Json.dumps_indent 2
                (PList (vendor_records (range VENDOR_COUNT)
                          (vendor_total (Some <$> new))))).
Proof.
  intros Hdir Hcat Hven Hperm. unfold main.
  destruct (io_ok io_fails OUTPUT_DIR (fun fs => Ok ((), fs)) st () _ Hdir eq_refl)
    as (sa & Hmk & Hra & Hfa & Hoa).
  unfold makedirs. rewrite (M_bind_ok _ _ _ _ _ Hmk), print_bind.
  set (sb := Process _ _ _ _).
  destruct (generate_base_data_ok io_fails [] [] sb Hcat Hven)
    as (words & s1 & Hinit & Hwords & Hf1 & Ho1).
  cbv zeta in Hinit. rewrite !app_nil_l in *.
  rewrite (M_bind_ok _ _ _ _ _ Hinit).
  destruct (run_interleaved_generation_spec io_fails worker_rng pool_broken
              as_completed s1 Hperm)
    as (succeeded & new & s2 & Hrun & Hr2 & Hf2 & Hsub & Hgood).
  rewrite (M_bind_ok _ _ _ _ _ Hrun).
  assert (Hc2 : files s2 !! CATEGORIES_FILE
                = Some (Json.dumps_indent 2
                          (PList (category_records (range NUM_CATEGORIES) words
                                    (fun _ => 0))))).
  { rewrite Hf2 by (intros i Heq; by apply (part_path_not_catalog i)).
    rewrite Hf1, lookup_insert_ne by (symmetry; apply catalog_paths_distinct).
    by rewrite lookup_insert_eq. }
  assert (Hv2 : files s2 !! VENDORS_FILE
                = Some (Json.dumps_indent 2
                          (PList (vendor_records (range VENDOR_COUNT)
                                    (fun _ => 0))))).
  { rewrite Hf2 by (intros i Heq; by apply (part_path_not_catalog i)).
    by rewrite Hf1, lookup_insert_eq. }
  destruct (update_base_data_counts_ok io_fails (Some <$> new) _ _ _ _ _ s2
              Hcat Hven Hc2 Hv2) as (s3 & Hupd & Hr3 & Hf3 & Ho3).
  rewrite (M_bind_ok _ _ _ _ _ Hupd), print_bind.
  set (s4 := Process _ _ _ _).
  destruct (print_loop (range_from_1 SPLIT_PARTS)
              (fun i => LogSavedTo i (part_path i)) s4)
    as (s5 & Hloop & Hr5 & Hf5).
  rewrite (M_bind_ok _ _ _ _ _ Hloop).
  set (st' := Process (rng s5) (files s5) (io_count s5)
                (stdout s5 ++ [LogTotalTime])).
  assert (Hfinal : files st' = files s3).
  { unfold st'. simpl. by rewrite Hf5. }
  exists words, succeeded, new, s1, s2, st'. split; [reflexivity|].
  split; [done|]. split; [done|]. split; [done|]. rewrite Hfinal, Hf3.
  split; [|split].
  - eapply Forall2_impl; [exact Hgood|]. intros task t Hg.
    eapply good_partition_frame; [|exact Hg].
    destruct (part_path_not_catalog task.1).
    rewrite Hfinal, Hf3. by rewrite !lookup_insert_ne.
  - rewrite lookup_insert_ne by (symmetry; apply catalog_paths_distinct).
    rewrite lookup_insert_eq.
    do 3 f_equal. apply category_records_ext. intros i.
    apply (proj2 (aggregate_totals _ i)).
  - rewrite lookup_insert_eq. do 3 f_equal. apply vendor_records_ext.
    intros i. apply (proj1 (aggregate_totals _ i)).
Qed.

Lemma fmap_Some_inj {A} (l1 l2 : list A) : Some <$> l1 = Some <$> l2 → l1 = l2.
Proof.
  revert l2. induction l1 as [|x l1 IH]; intros [|y l2]; try done.
  rewrite !fmap_cons. intros [= -> Hl]. f_equal. by apply IH.
Qed.

(** The run in which nothing fails: when no operation on a file fails,
    no worker is lost and the id ranges are not empty, the script ends
    normally, it has collected the tally of every partition, the file of
    partition [i] holds the records with the ids of its range, and the
    counts of each catalog add up to TOTAL_PRODUCTS. *)
Theorem run_without_faults (st : process G) :
  (∀ path n, io_fails path n = false) →
  (∀ i, pool_broken i = None) →
  (0 < PRODUCTS_PER_FILE → 0 < NUM_CATEGORIES ∧ 0 < VENDOR_COUNT) →
  0 ≤ PRODUCTS_PER_FILE → 0 ≤ SPLIT_PARTS →
  as_completed build_tasks ≡ₚ build_tasks →
  ∃ (new : list tally) st',
    main io_fails worker_rng pool_broken as_completed st = (Ok (), st')
    ∧ file_index <$> new = (as_completed build_tasks).*1
    ∧ length new = Z.to_nat SPLIT_PARTS
    ∧ (∀ i, 1 ≤ i ≤ SPLIT_PARTS →
         ∃ text records,
           files st' !! part_path i = Some text
           ∧ Json.loads text = Ok (PList records)
           ∧ map product_id_of records
             = seqZ ((i - 1) * PRODUCTS_PER_FILE) PRODUCTS_PER_FILE)
    ∧ map products_count_of (catalog_entries (files st' !! CATEGORIES_FILE))
      = map (category_total (Some <$> new)) (range NUM_CATEGORIES)
    ∧ map products_count_of (catalog_entries (files st' !! VENDORS_FILE))
      = map (vendor_total (Some <$> new)) (range VENDOR_COUNT)
    ∧ catalog_total (files st' !! CATEGORIES_FILE) = TOTAL_PRODUCTS
    ∧ catalog_total (files st' !! VENDORS_FILE) = TOTAL_PRODUCTS.
Proof.
  intros Hnf Hpb Hranges Hppf Hsplit Hperm.
  destruct (main_trace st (Hnf _) (Hnf _) (Hnf _) Hperm)
    as (words & succeeded & new & s1 & s2 & st' & Hmain & Hrun & Hwords & Hsub
        & Hgood & Hc & Hv).
  destruct (run_collects_all io_fails worker_rng pool_broken
              as_completed s1 (fun i => Hnf (part_path i)) Hpb Hranges Hperm)
    as (new' & s2' & Hrun' & Hidx & _ & Hlen).
  rewrite Hrun in Hrun'. injection Hrun' as Hnew _.
  apply fmap_Some_inj in Hnew as <-.
  exists new, st'. split; [done|]. split; [done|]. split; [done|].
  assert (Hall : succeeded = as_completed build_tasks).
  { apply sublist_full; [done|].
    rewrite (Forall2_length _ _ _ Hgood), Hlen, Hperm, build_tasks_eq.
    rewrite length_map. unfold range_from_1. rewrite length_seqZ. lia. }
  subst succeeded.
  assert (Hcc : map products_count_of
                  (catalog_entries (files st' !! CATEGORIES_FILE))
                = map (category_total (Some <$> new)) (range NUM_CATEGORIES)).
  { rewrite Hc, catalog_entries_dumps by apply category_records_wf.
    apply category_records_counts. unfold range. by rewrite length_seqZ. }
  assert (Hvc : map products_count_of
                  (catalog_entries (files st' !! VENDORS_FILE))
                = map (vendor_total (Some <$> new)) (range VENDOR_COUNT)).
  { rewrite Hv, catalog_entries_dumps by apply vendor_records_wf.
    apply vendor_records_counts. }
  assert (Hsums : Forall (fun t =>
                sum_over NUM_CATEGORIES (category_counts t)
                  = Z.of_nat (Z.to_nat PRODUCTS_PER_FILE)
                ∧ sum_over VENDOR_COUNT (vendor_counts t)
                  = Z.of_nat (Z.to_nat PRODUCTS_PER_FILE)) new).
  { apply Forall_forall. intros t [j Hj]%list_elem_of_lookup.
    destruct (Forall2_lookup_r _ _ _ _ _ Hgood Hj) as (task & _ & Hg).
    destruct (good_partition_sums worker_rng task t st' Hg)
      as (text & records & _ & _ & Hl & Hs1 & Hs2).
    by rewrite Hs1, Hs2, Hl. }
  split.
  { intros i Hi.
    assert (Hin : task_of i ∈ as_completed build_tasks).
    { rewrite Hperm, build_tasks_eq. apply list_elem_of_fmap. exists i.
      split; [done|]. unfold range_from_1. rewrite elem_of_seqZ. lia. }
    apply list_elem_of_lookup in Hin as [j Hj].
    destruct (Forall2_lookup_l _ _ _ _ _ Hgood Hj)
      as (t & _ & products & g' & Hprods & _ & _ & Hfile).
    simpl in *.
    pose proof (partition_products_facts _ _ _ _ _ Hprods) as (Hwf & Hids & _).
    unfold range in Hids. rewrite fmap_add_seqZ, Z.add_0_r in Hids.
    exists (artifact_text (map (fun p => p.1.1) products)),
      (map (fun p => p.1.1) products).
    split; [done|]. split; [|done].
    apply (JsonFacts.loads_array_text None 0 LF LF LF); done. }
  split; [done|]. split; [done|].
  split.
  - rewrite (catalog_total_counts _ _ _ Hcc), sum_list_category_total.
    rewrite (foldr_constant_sum new
               (fun t => sum_list (count_of (category_counts t))
                           (range NUM_CATEGORIES))
               (Z.of_nat (Z.to_nat PRODUCTS_PER_FILE))).
    + rewrite Hlen. unfold TOTAL_PRODUCTS. lia.
    + eapply Forall_impl; [exact Hsums|]. by intros t [Hs _].
  - rewrite (catalog_total_counts _ _ _ Hvc), sum_list_vendor_total.
    rewrite (foldr_constant_sum new
               (fun t => sum_list (count_of (vendor_counts t))
                           (range VENDOR_COUNT))
               (Z.of_nat (Z.to_nat PRODUCTS_PER_FILE))).
    + rewrite Hlen. unfold TOTAL_PRODUCTS. lia.
    + eapply Forall_impl; [exact Hsums|]. by intros t [_ Hs].
Qed.

End HappyPath.

(** ** The order of completion *)

Section OrderIndependence.
Context `{Config} {G : Type} `{RandomSource G}.
Variable io_fails : string → nat → bool.
Variable worker_rng : Z → G.
Variable pool_broken : Z → option lost_worker.

(** Two processes that hold the same text at [p] and have done the same
    number of operations on it. *)
Definition agree_at (p : string) (st1 st2 : process G) : Prop :=
  files st1 !! p = files st2 !! p ∧ io_count st1 !! p = io_count st2 !! p.

(** A command whose outcome, and whose effect on [p], depend on the
    generator and on [p] only. *)
Definition local (p : string) {A} (m : M G A) : Prop :=
  ∀ st1 st2, rng st1 = rng st2 → agree_at p st1 st2 →
    (m st1).1 = (m st2).1
    ∧ rng (m st1).2 = rng (m st2).2
    ∧ agree_at p (m st1).2 (m st2).2.

Lemma local_ret p {A} (a : A) : local p (mret a : M G A).
Proof. by intros st1 st2 Hr Ha. Qed.

Lemma local_bind p {A B} (m : M G A) (f : A → M G B) :
  local p m → (∀ a, local p (f a)) → local p (m ≫= f).
Proof.
  intros Hm Hf st1 st2 Hr Ha. unfold mbind, M_bind.
  destruct (Hm st1 st2 Hr Ha) as (H1 & H2 & H3).
  destruct (m st1) as [[a1|e1] s1], (m st2) as [[a2|e2] s2];
    simpl in *; simplify_eq; [by apply Hf|done].
Qed.

Lemma local_try_except p {A} (body : M G A) handler :
  local p body → (∀ e, local p (handler e)) → local p (try_except body handler).
Proof.
  intros Hm Hf st1 st2 Hr Ha. unfold try_except.
  destruct (Hm st1 st2 Hr Ha) as (H1 & H2 & H3).
  destruct (body st1) as [[a1|e1] s1], (body st2) as [[a2|e2] s2];
    simpl in *; simplify_eq; [done|by apply Hf].
Qed.

Lemma local_for_each p {A S} (xs : list A) (body : A → S → M G S) :
  (∀ x acc, local p (body x acc)) → ∀ acc, local p (for_each xs acc body).
Proof.
  intros Hbody. induction xs as [|x xs IH]; intros acc; simpl.
  - apply local_ret.
  - apply local_bind; [apply Hbody|apply IH].
Qed.

Lemma local_print p l : local p (print (G:=G) l).
Proof. by intros st1 st2 Hr Ha. Qed.

Lemma local_rand p {A} (r : Rand G A) : local p (rand r).
Proof.
  intros st1 st2 Hr Ha. unfold rand. rewrite <- Hr.
  by destruct (r (rng st1)) as [[a g']|e].
Qed.

Lemma local_open_w p : local p (open_w (G:=G) io_fails p).
Proof.
  intros st1 st2 Hr [Hf Hc]. unfold open_w, io. rewrite <- Hc.
  destruct (io_fails p _); simpl; unfold agree_at; simpl;
    by rewrite ?lookup_insert_eq.
Qed.

Lemma local_write p data : local p (write (G:=G) io_fails p data).
Proof.
  intros st1 st2 Hr [Hf Hc]. unfold write, io. rewrite <- Hc.
  destruct (io_fails p _); simpl; unfold agree_at; simpl;
    by rewrite ?lookup_insert_eq, ?Hf.
Qed.

Lemma local_write_product p start i counts :
  local p (write_product io_fails p start i counts).
Proof.
  unfold write_product. destruct counts as [vc cc].
  apply local_bind; [apply local_rand|]. intros [[product ven] cat].
  apply local_bind.
  { destruct (0 <? i); [apply local_write|apply local_ret]. }
  intros _. apply local_bind; [apply local_write|]. intros _. apply local_ret.
Qed.

Lemma local_writer idx start :
  local (part_path idx)
    (generate_interleaved_products_for_file io_fails idx start).
Proof.
  unfold generate_interleaved_products_for_file.
  apply local_bind; [apply local_print|]. intros _.
  apply local_bind.
  - apply local_try_except.
    + apply local_bind; [|intros; apply local_ret].
      unfold write_partition.
      apply local_bind; [apply local_open_w|]. intros _.
      apply local_bind; [apply local_write|]. intros _.
      apply local_bind.
      { apply local_for_each. intros. apply local_write_product. }
      intros counts. apply local_bind; [apply local_write|]. intros _.
      apply local_ret.
    + intros e. apply local_bind; [apply local_print|]. intros _.
      apply local_ret.
  - intros [[vc cc]|]; [|apply local_ret].
    apply local_bind; [apply local_print|]. intros _. apply local_ret.
Qed.

(** One completed future, on two processes that agree on its file: the
    same tally or none is added to the results, and the processes still
    agree on the file. *)
Lemma collect_result_local task results1 results2 (st1 st2 : process G) :
  agree_at (part_path task.1) st1 st2 →
  ∃ outcome : list (option tally),
    (collect_result io_fails worker_rng pool_broken task results1 st1).1
      = Ok (results1 ++ outcome)%list
    ∧ (collect_result io_fails worker_rng pool_broken task results2 st2).1
      = Ok (results2 ++ outcome)%list
    ∧ agree_at (part_path task.1)
        (collect_result io_fails worker_rng pool_broken task results1 st1).2
        (collect_result io_fails worker_rng pool_broken task results2 st2).2.
Proof.
  destruct task as [idx start]. simpl. intros Ha.
  unfold collect_result, try_except, mbind, M_bind, future_result.
  destruct (pool_broken idx) as [lost|].
  { exists []. simpl. rewrite !app_nil_r. split; [done|]. split; [done|].
    destruct Ha as [Hf Hc]. unfold leave. split; simpl.
    - destruct (left_file lost); by rewrite ?lookup_insert_eq.
    - by rewrite !lookup_insert_eq, Hc. }
  destruct (local_writer idx start
              (Process (worker_rng idx) (files st1) (io_count st1) (stdout st1))
              (Process (worker_rng idx) (files st2) (io_count st2) (stdout st2))
              eq_refl Ha) as (Hres & _ & Ha').
  destruct (generate_interleaved_products_for_file io_fails idx start
              (Process (worker_rng idx) (files st1) (io_count st1) (stdout st1)))
    as [r1 w1].
  destruct (generate_interleaved_products_for_file io_fails idx start
              (Process (worker_rng idx) (files st2) (io_count st2) (stdout st2)))
    as [r2 w2].
  simpl in *. subst r2.
  destruct r1 as [[t|]|e]; simpl.
  - by exists [Some t].
  - exists []. by rewrite !app_nil_r.
  - exists []. by rewrite !app_nil_r.
Qed.

Lemma collect_result_elsewhere task results (st : process G) :
  same_elsewhere (part_path task.1) st
    (collect_result io_fails worker_rng pool_broken task results st).2.
Proof.
  destruct task as [idx start]. simpl.
  unfold collect_result, try_except, mbind, M_bind, future_result.
  destruct (pool_broken idx) as [lost|].
  { intros p Hp. unfold leave. simpl. split; [|by rewrite lookup_insert_ne].
    destruct (left_file lost); by rewrite ?lookup_insert_ne. }
  pose proof (generate_interleaved_products_for_file_confined io_fails idx start
                (Process (worker_rng idx) (files st) (io_count st) (stdout st)))
    as Hconf.
  destruct (generate_interleaved_products_for_file io_fails idx start _)
    as [r w].
  simpl in Hconf. destruct r as [[t|]|e]; simpl; intros p Hp; by apply Hconf.
Qed.

Lemma collect_result_rng task results (st : process G) :
  rng (collect_result io_fails worker_rng pool_broken task results st).2 = rng st.
Proof.
  destruct task as [idx start].
  unfold collect_result, try_except, mbind, M_bind, future_result.
  destruct (pool_broken idx); [done|].
  destruct (generate_interleaved_products_for_file io_fails idx start _)
    as [r w].
  by destruct r as [[t|]|e].
Qed.

(** The state after one future, compared on every path. *)
Lemma collect_result_agree task results1 results2 (st1 st2 : process G) :
  (∀ p, agree_at p st1 st2) →
  ∃ outcome : list (option tally),
    (collect_result io_fails worker_rng pool_broken task results1 st1).1
      = Ok (results1 ++ outcome)%list
    ∧ (collect_result io_fails worker_rng pool_broken task results2 st2).1
      = Ok (results2 ++ outcome)%list
    ∧ ∀ p, agree_at p
        (collect_result io_fails worker_rng pool_broken task results1 st1).2
        (collect_result io_fails worker_rng pool_broken task results2 st2).2.
Proof.
  intros Ha.
  destruct (collect_result_local task results1 results2 st1 st2 (Ha _))
    as (outcome & H1 & H2 & Hp).
  exists outcome. split; [done|]. split; [done|]. intros p.
  destruct (decide (p = part_path task.1)) as [->|Hne]; [done|].
  destruct (collect_result_elsewhere task results1 st1 p Hne) as [Hf1 Hc1].
  destruct (collect_result_elsewhere task results2 st2 p Hne) as [Hf2 Hc2].
  destruct (Ha p) as [Hf Hc]. split; congruence.
Qed.

Lemma for_each_step task order results (st : process G) outcome :
  (collect_result io_fails worker_rng pool_broken task results st).1
    = Ok (results ++ outcome)%list →
  for_each (task :: order) results
    (collect_result io_fails worker_rng pool_broken) st
  = for_each order (results ++ outcome)%list
      (collect_result io_fails worker_rng pool_broken)
      (collect_result io_fails worker_rng pool_broken task results st).2.
Proof.
  intros Hstep. cbn [for_each]. unfold mbind, M_bind.
  destruct (collect_result _ _ _ task results st) as [r s]. simpl in *.
  by subst r.
Qed.

(** The loop over the same futures, on processes that agree. *)
Lemma collect_loop_agree order :
  ∀ results1 results2 (st1 st2 : process G),
  (∀ p, agree_at p st1 st2) →
  ∃ out : list (option tally),
    (for_each order results1
       (collect_result io_fails worker_rng pool_broken) st1).1
      = Ok (results1 ++ out)%list
    ∧ (for_each order results2
         (collect_result io_fails worker_rng pool_broken) st2).1
      = Ok (results2 ++ out)%list
    ∧ ∀ p, agree_at p
        (for_each order results1
           (collect_result io_fails worker_rng pool_broken) st1).2
        (for_each order results2
           (collect_result io_fails worker_rng pool_broken) st2).2.
Proof.
  induction order as [|task order IH]; intros results1 results2 st1 st2 Ha.
  - exists []. simpl. by rewrite !app_nil_r.
  - destruct (collect_result_agree task results1 results2 st1 st2 Ha)
      as (outcome & H1 & H2 & Ha').
    rewrite (for_each_step _ _ _ _ _ H1), (for_each_step _ _ _ _ _ H2).
    destruct (IH (results1 ++ outcome)%list (results2 ++ outcome)%list _ _ Ha')
      as (out & Ho1 & Ho2 & Ha'').
    exists (outcome ++ out)%list.
    split; [by rewrite Ho1, !app_assoc|]. split; [by rewrite Ho2, !app_assoc|].
    done.
Qed.

Lemma agree_at_trans p (st1 st2 st3 : process G) :
  agree_at p st1 st2 → agree_at p st2 st3 → agree_at p st1 st3.
Proof. intros [??] [??]. split; congruence. Qed.

Lemma agree_at_sym p (st1 st2 : process G) :
  agree_at p st1 st2 → agree_at p st2 st1.
Proof. intros [??]. by split. Qed.

Lemma agree_at_elsewhere path p (st st' : process G) :
  same_elsewhere path st st' → p ≠ path → agree_at p st st'.
Proof. intros Hsame Hne. destruct (Hsame p Hne). by split. Qed.

(** Two futures on different files, one after the other, in both
    orders. *)
Lemma collect_result_swap x y results1 results2 (st1 st2 : process G) :
  part_path x.1 ≠ part_path y.1 →
  (∀ p, agree_at p st1 st2) →
  ∃ ox oy : list (option tally),
    (for_each [y; x] results1
       (collect_result io_fails worker_rng pool_broken) st1).1
      = Ok (results1 ++ oy ++ ox)%list
    ∧ (for_each [x; y] results2
         (collect_result io_fails worker_rng pool_broken) st2).1
      = Ok (results2 ++ ox ++ oy)%list
    ∧ ∀ p, agree_at p
        (for_each [y; x] results1
           (collect_result io_fails worker_rng pool_broken) st1).2
        (for_each [x; y] results2
           (collect_result io_fails worker_rng pool_broken) st2).2.
Proof.
  intros Hne Ha.
  set (step := collect_result io_fails worker_rng pool_broken).
  (* the first future of each order *)
  destruct (collect_result_local y results1 results1 st1 st1)
    as (oy & Hy1 & _ & _); [done|].
  destruct (collect_result_local x results2 results2 st2 st2)
    as (ox & Hx2 & _ & _); [done|].
  fold step in Hy1, Hx2.
  set (s1y := (step y results1 st1).2) in *.
  set (s2x := (step x results2 st2).2) in *.
  pose proof (collect_result_elsewhere y results1 st1) as Ey1.
  pose proof (collect_result_elsewhere x results2 st2) as Ex2.
  fold step in Ey1, Ex2. fold s1y in Ey1. fold s2x in Ex2.
  (* the second future of each order *)
  assert (Ax : agree_at (part_path x.1) s1y st2).
  { eapply agree_at_trans; [|apply Ha].
    apply agree_at_sym. by apply (agree_at_elsewhere _ _ _ _ Ey1). }
  assert (Ay : agree_at (part_path y.1) st1 s2x).
  { eapply agree_at_trans; [apply Ha|].
    apply (agree_at_elsewhere _ _ _ _ Ex2). congruence. }
  destruct (collect_result_local x (results1 ++ oy)%list results2 s1y st2 Ax)
    as (ox' & Hx1 & Hx2' & Ax').
  destruct (collect_result_local y results1 (results2 ++ ox)%list st1 s2x Ay)
    as (oy' & Hy1' & Hy2 & Ay').
  fold step in Hx1, Hx2', Ax', Hy1', Hy2, Ay'.
  rewrite Hx2 in Hx2'. injection Hx2' as ->%app_inv_head.
  rewrite Hy1 in Hy1'. injection Hy1' as ->%app_inv_head.
  fold s1y in Ay'. fold s2x in Ax'.
  pose proof (collect_result_elsewhere x (results1 ++ oy')%list s1y) as Ex1.
  pose proof (collect_result_elsewhere y (results2 ++ ox')%list s2x) as Ey2.
  fold step in Ex1, Ey2.
  exists ox', oy'.
  rewrite (for_each_step _ _ _ _ _ Hy1), (for_each_step _ _ _ _ _ Hx2).
  fold step s1y s2x.
  rewrite (for_each_step _ _ _ _ _ Hx1), (for_each_step _ _ _ _ _ Hy2).
  fold step. cbn [for_each]. unfold mret, M_ret. cbn [fst snd].
  rewrite <- !app_assoc. split; [done|]. split; [done|].
  intros p.
  destruct (decide (p = part_path x.1)) as [->|Hpx].
  { eapply agree_at_trans; [apply Ax'|].
    by apply (agree_at_elsewhere _ _ _ _ Ey2). }
  destruct (decide (p = part_path y.1)) as [->|Hpy].
  { eapply agree_at_trans; [|apply Ay'].
    apply agree_at_sym. by apply (agree_at_elsewhere _ _ _ _ Ex1). }
  eapply agree_at_trans.
  { apply agree_at_sym. by apply (agree_at_elsewhere _ _ _ _ Ex1). }
  eapply agree_at_trans.
  { apply agree_at_sym. by apply (agree_at_elsewhere _ _ _ _ Ey1). }
  eapply agree_at_trans; [apply Ha|].
  eapply agree_at_trans; [by apply (agree_at_elsewhere _ _ _ _ Ex2)|].
  by apply (agree_at_elsewhere _ _ _ _ Ey2).
Qed.

Lemma for_each_app order1 order2 results (st : process G) mid :
  (for_each order1 results
     (collect_result io_fails worker_rng pool_broken) st).1 = Ok mid →
  for_each (order1 ++ order2) results
    (collect_result io_fails worker_rng pool_broken) st
  = for_each order2 mid (collect_result io_fails worker_rng pool_broken)
      (for_each order1 results
         (collect_result io_fails worker_rng pool_broken) st).2.
Proof.
  revert results st. induction order1 as [|task order1 IH]; intros results st.
  - simpl. by intros [= ->].
  - simpl. unfold mbind, M_bind.
    destruct (collect_result _ _ _ task results st) as [[r|e] s]; [|done].
    apply IH.
Qed.

(** The loop over the futures in two orders. *)
Lemma collect_loop_permutation order1 order2 :
  order1 ≡ₚ order2 →
  NoDup (part_path <$> order1.*1) →
  ∀ results1 results2 (st1 st2 : process G),
  (∀ p, agree_at p st1 st2) →
  ∃ out1 out2 : list (option tally),
    (for_each order1 results1
       (collect_result io_fails worker_rng pool_broken) st1).1
      = Ok (results1 ++ out1)%list
    ∧ (for_each order2 results2
         (collect_result io_fails worker_rng pool_broken) st2).1
      = Ok (results2 ++ out2)%list
    ∧ out1 ≡ₚ out2
    ∧ ∀ p, agree_at p
        (for_each order1 results1
           (collect_result io_fails worker_rng pool_broken) st1).2
        (for_each order2 results2
           (collect_result io_fails worker_rng pool_broken) st2).2.
Proof.
  induction 1 as [|x l l' Hperm IH|x y l|l l' l'' Hp1 IH1 Hp2 IH2];
    intros Hnd results1 results2 st1 st2 Ha.
  - exists [], []. simpl. by rewrite !app_nil_r.
  - rewrite fmap_cons, fmap_cons in Hnd. apply NoDup_cons in Hnd as [_ Hnd].
    destruct (collect_result_agree x results1 results2 st1 st2 Ha)
      as (outcome & H1 & H2 & Ha').
    rewrite (for_each_step _ _ _ _ _ H1), (for_each_step _ _ _ _ _ H2).
    destruct (IH Hnd (results1 ++ outcome)%list (results2 ++ outcome)%list
                _ _ Ha') as (out1 & out2 & Ho1 & Ho2 & Hout & Ha'').
    exists (outcome ++ out1)%list, (outcome ++ out2)%list.
    split; [by rewrite Ho1, !app_assoc|]. split; [by rewrite Ho2, !app_assoc|].
    split; [by apply Permutation_app_head|done].
  - rewrite !fmap_cons in Hnd.
    apply NoDup_cons in Hnd as [Hy _]. apply not_elem_of_cons in Hy as [Hy _].
    destruct (collect_result_swap x y results1 results2 st1 st2
                ltac:(congruence) Ha) as (ox & oy & H1 & H2 & Ha').
    change (y :: x :: l) with ([y; x] ++ l)%list.
    change (x :: y :: l) with ([x; y] ++ l)%list.
    rewrite (for_each_app _ _ _ _ _ H1), (for_each_app _ _ _ _ _ H2).
    destruct (collect_loop_agree l (results1 ++ oy ++ ox)%list
                (results2 ++ ox ++ oy)%list _ _ Ha')
      as (out & Ho1 & Ho2 & Ha'').
    exists ((oy ++ ox) ++ out)%list, ((ox ++ oy) ++ out)%list.
    split; [by rewrite Ho1, !app_assoc|]. split; [by rewrite Ho2, !app_assoc|].
    split; [|done]. apply Permutation_app_tail, Permutation_app_comm.
  - destruct (IH1 Hnd results1 results1 st1 st1) as
      (out1 & out2 & Ho1 & Ho2 & Hout & Ha1); [done|].
    assert (Hnd' : NoDup (part_path <$> l'.*1)) by (by rewrite <- Hp1).
    destruct (IH2 Hnd' results1 results2 st1 st2 Ha) as
      (out2' & out3 & Ho2' & Ho3 & Hout' & Ha2).
    rewrite Ho2 in Ho2'. injection Ho2' as <-%app_inv_head.
    exists out1, out3. split; [done|]. split; [done|].
    split; [by etrans|]. intros p. eapply agree_at_trans; [apply Ha1|apply Ha2].
Qed.

(** What the script does after the initializer. *)
Definition after_initializer (as_completed : list (Z * Z) → list (Z * Z))
    : M G () :=
  all_counts ←
    run_interleaved_generation io_fails worker_rng pool_broken as_completed;
  update_base_data_counts io_fails all_counts;;
  print LogComplete;;
  for_each (range_from_1 SPLIT_PARTS) ()
    (fun i _ => print (LogSavedTo i (part_path i)));;
  print LogTotalTime.

Lemma main_prefix (st : process G) :
  (∀ n, io_fails OUTPUT_DIR n = false) →
  (∀ n, io_fails CATEGORIES_FILE n = false) →
  (∀ n, io_fails VENDORS_FILE n = false) →
  ∃ words s1,
    files s1 !! CATEGORIES_FILE
      = Some (Json.dumps_indent 2
                (PList (category_records (range NUM_CATEGORIES) words
                          (fun _ => 0))))
    ∧ files s1 !! VENDORS_FILE
      = Some (Json.dumps_indent 2
                (PList (vendor_records (range VENDOR_COUNT) (fun _ => 0))))
    ∧ ∀ as_completed,
        main io_fails worker_rng pool_broken as_completed st
        = after_initializer as_completed s1.
Proof.
  intros Hdir Hcat Hven.
  destruct (io_ok io_fails OUTPUT_DIR (fun fs => Ok ((), fs)) st () _ Hdir eq_refl)
    as (sa & Hmk & Hra & Hfa & Hoa).
  set (sb := Process (rng sa) (files sa) (io_count sa)
               (stdout sa ++ [LogGeneratingStructure])).
  destruct (generate_base_data_ok io_fails [] [] sb Hcat Hven)
    as (words & s1 & Hinit & Hwords & Hf1 & Ho1).
  cbv zeta in Hinit. rewrite !app_nil_l in *.
  exists words, s1. split.
  { rewrite Hf1, lookup_insert_ne by (symmetry; apply catalog_paths_distinct).
    by rewrite lookup_insert_eq. }
  split; [by rewrite Hf1, lookup_insert_eq|].
  intros as_completed. unfold main, makedirs.
  rewrite (M_bind_ok _ _ _ _ _ Hmk), print_bind. fold sb.
  by rewrite (M_bind_ok _ _ _ _ _ Hinit).
Qed.

Lemma after_initializer_spec as_completed words (s1 : process G) :
  (∀ n, io_fails CATEGORIES_FILE n = false) →
  (∀ n, io_fails VENDORS_FILE n = false) →
  as_completed build_tasks ≡ₚ build_tasks →
  files s1 !! CATEGORIES_FILE
    = Some (Json.dumps_indent 2
              (PList (category_records (range NUM_CATEGORIES) words
                        (fun _ => 0)))) →
  files s1 !! VENDORS_FILE
    = Some (Json.dumps_indent 2
              (PList (vendor_records (range VENDOR_COUNT) (fun _ => 0)))) →
  ∃ (new : list tally) s2 st',
    run_interleaved_generation io_fails worker_rng pool_broken as_completed s1
      = (Ok (Some <$> new), s2)
    ∧ after_initializer as_completed s1 = (Ok (), st')
    ∧ rng st' = rng s1
    ∧ files st'
      = <[VENDORS_FILE :=
            Json.dumps_indent 2
              (PList (vendor_records (range VENDOR_COUNT)
                        (count_of (aggregate (Some <$> new)).1)))]>
          (<[CATEGORIES_FILE :=
               Json.dumps_indent 2
                 (PList (category_records (range NUM_CATEGORIES) words
                           (count_of (aggregate (Some <$> new)).2)))]>
             (files s2)).
Proof.
  intros Hcat Hven Hperm Hc1 Hv1. unfold after_initializer.
  destruct (run_interleaved_generation_spec io_fails worker_rng pool_broken
              as_completed s1 Hperm)
    as (succeeded & new & s2 & Hrun & Hr2 & Hf2 & Hsub & Hgood).
  rewrite (M_bind_ok _ _ _ _ _ Hrun).
  assert (Hc2 : files s2 !! CATEGORIES_FILE = files s1 !! CATEGORIES_FILE).
  { apply Hf2. intros i Heq. by apply (part_path_not_catalog i). }
  assert (Hv2 : files s2 !! VENDORS_FILE = files s1 !! VENDORS_FILE).
  { apply Hf2. intros i Heq. by apply (part_path_not_catalog i). }
  rewrite Hc1 in Hc2. rewrite Hv1 in Hv2.
  destruct (update_base_data_counts_ok io_fails (Some <$> new) _ _ _ _ _ s2
              Hcat Hven Hc2 Hv2) as (s3 & Hupd & Hr3 & Hf3 & Ho3).
  rewrite (M_bind_ok _ _ _ _ _ Hupd), print_bind.
  set (s4 := Process _ _ _ _).
  destruct (print_loop (range_from_1 SPLIT_PARTS)
              (fun i => LogSavedTo i (part_path i)) s4)
    as (s5 & Hloop & Hr5 & Hf5).
  rewrite (M_bind_ok _ _ _ _ _ Hloop).
  exists new, s2. eexists. split; [done|]. split; [reflexivity|].
  simpl. split; [by rewrite Hr5; simpl; rewrite Hr3, Hr2|].
  by rewrite Hf5.
Qed.

(** The files that a run leaves do not depend on the order in which the
    partitions complete: two runs from the same state, with the same
    faults and the same workers, that differ in the completion order
    only, end with the same files, partition files and catalogs alike,
    and with the same tallies up to their order. *)
Theorem completion_order_is_immaterial
    (order1 order2 : list (Z * Z) → list (Z * Z)) (st : process G) :
  (∀ n, io_fails OUTPUT_DIR n = false) →
  (∀ n, io_fails CATEGORIES_FILE n = false) →
  (∀ n, io_fails VENDORS_FILE n = false) →
  order1 build_tasks ≡ₚ build_tasks →
  order2 build_tasks ≡ₚ build_tasks →
  ∃ st1 st2,
    main io_fails worker_rng pool_broken order1 st = (Ok (), st1)
    ∧ main io_fails worker_rng pool_broken order2 st = (Ok (), st2)
    ∧ files st1 = files st2
    ∧ rng st1 = rng st2.
Proof.
  intros Hdir Hcat Hven Hp1 Hp2.
  destruct (main_prefix st Hdir Hcat Hven) as (words & s1 & Hc1 & Hv1 & Hmain).
  destruct (after_initializer_spec order1 words s1 Hcat Hven Hp1 Hc1 Hv1)
    as (new1 & s21 & st1 & Hrun1 & Hafter1 & Hr1 & Hf1).
  destruct (after_initializer_spec order2 words s1 Hcat Hven Hp2 Hc1 Hv1)
    as (new2 & s22 & st2 & Hrun2 & Hafter2 & Hr2 & Hf2).
  exists st1, st2. rewrite !Hmain. split; [done|]. split; [done|].
  split; [|congruence].
  unfold run_interleaved_generation in Hrun1, Hrun2.
  rewrite !print_bind in Hrun1, Hrun2.
  set (s0 := Process _ _ _ _) in *.
  destruct (collect_loop_permutation (order1 build_tasks) (order2 build_tasks)
              ltac:(by rewrite Hp1, Hp2)
              ltac:(rewrite Hp1; apply build_tasks_paths)
              [] [] s0 s0 ltac:(done))
    as (out1 & out2 & Ho1 & Ho2 & Hout & Hagree).
  rewrite Hrun1 in Ho1, Hagree. rewrite Hrun2 in Ho2, Hagree.
  simpl in Ho1, Ho2, Hagree.
  injection Ho1 as Ho1. injection Ho2 as Ho2.
  rewrite <- Ho1, <- Ho2 in Hout.
  rewrite Hf1, Hf2, (aggregate_permutation _ _ Hout).
  assert (Hfiles : files s21 = files s22).
  { apply map_eq. intros p. apply (Hagree p). }
  by rewrite Hfiles.
Qed.

End OrderIndependence.

(** ** The tallies that a run collects, and what the catalogs hold *)

Section Collected.
Context `{Config} {G : Type} `{RandomSource G}.
Variable io_fails : string → nat → bool.
Variable worker_rng : Z → G.
Variable pool_broken : Z → option lost_worker.
Variable as_completed : list (Z * Z) → list (Z * Z).

(** One completed future adds the tally that it gives back, if it gives
    one back, and nothing else. *)
Lemma collect_result_tally task results (st : process G) :
  (collect_result io_fails worker_rng pool_broken task results st).1
  = Ok (results
        ++ (Some <$> option_list
              (tally_of_future io_fails worker_rng pool_broken task st)))%list.
Proof.
  unfold collect_result, try_except, mbind, M_bind, tally_of_future.
  destruct (future_result io_fails worker_rng pool_broken task st)
    as [[[t|]|e] s]; simpl; by rewrite ?app_nil_r.
Qed.

(** What a future gives back depends on the state of its own file
    only. *)
Lemma tally_of_future_local task (st1 st2 : process G) :
  agree_at (part_path task.1) st1 st2 →
  tally_of_future io_fails worker_rng pool_broken task st1
  = tally_of_future io_fails worker_rng pool_broken task st2.
Proof.
  intros Ha.
  destruct (collect_result_local io_fails worker_rng pool_broken task [] []
              st1 st2 Ha) as (outcome & H1 & H2 & _).
  rewrite collect_result_tally in H1, H2. simpl in H1, H2.
  injection H1 as H1. injection H2 as H2. rewrite <- H2 in H1.
  destruct (tally_of_future _ _ _ task st1), (tally_of_future _ _ _ task st2);
    simpl in H1; congruence.
Qed.

(** The loop over the completed futures collects, in the order of
    completion, the tally of every task whose future gives one back on
    the files as they were before the loop. *)
Lemma collect_loop_solo order :
  NoDup (part_path <$> order.*1) →
  ∀ results (st st0 : process G),
  (∀ task, task ∈ order → agree_at (part_path task.1) st st0) →
  (for_each order results
     (collect_result io_fails worker_rng pool_broken) st).1
  = Ok (results
        ++ (Some <$> omap (fun task =>
                             tally_of_future io_fails worker_rng pool_broken
                               task st0) order))%list.
Proof.
  induction order as [|task order IH]; intros Hnd results st st0 Ha.
  - simpl. by rewrite app_nil_r.
  - rewrite !fmap_cons in Hnd. apply NoDup_cons in Hnd as [Hnotin Hnd].
    rewrite (for_each_step io_fails worker_rng pool_broken _ _ _ _ _
               (collect_result_tally task results st)).
    rewrite (IH Hnd _ _ st0).
    + rewrite (tally_of_future_local task st st0) by (apply Ha; left).
      cbn [omap list_omap].
      destruct (tally_of_future _ _ _ task st0); simpl;
        by rewrite <- ?app_assoc, ?app_nil_r.
    + intros task' Hin.
      eapply agree_at_trans; [|apply Ha; by right].
      apply agree_at_sym.
      apply (agree_at_elsewhere (part_path task.1)).
      { apply collect_result_elsewhere. }
      intros Heq. apply Hnotin. rewrite <- Heq.
      apply list_elem_of_fmap. exists task'.1. split; [done|].
      apply list_elem_of_fmap. by exists task'.
Qed.

(** The orchestrator returns the tallies of the tasks whose future gives
    one back on the files it was started on. *)
Lemma run_collects (st : process G) :
  as_completed build_tasks ≡ₚ build_tasks →
  (run_interleaved_generation io_fails worker_rng pool_broken as_completed st).1
  = Ok (Some <$> omap (fun task =>
                         tally_of_future io_fails worker_rng pool_broken task st)
                   (as_completed build_tasks)).
Proof.
  intros Hperm. unfold run_interleaved_generation. rewrite !print_bind.
  cbv zeta.
  rewrite (collect_loop_solo (as_completed build_tasks)) with (st0 := st).
  - done.
  - rewrite Hperm. apply build_tasks_paths.
  - intros task _. by split.
Qed.


Lemma tally_of_future_index task (st : process G) t :
  tally_of_future io_fails worker_rng pool_broken task st = Some t →
  file_index t = task.1.
Proof.
  destruct task as [idx start]. unfold tally_of_future, future_result.
  destruct (pool_broken idx); [done|].
  destruct (generate_interleaved_products_for_file io_fails idx start _)
    as [[[t'|]|e] w] eqn:Hrun; simpl; try done.
  intros [= ->].
  by apply generate_interleaved_products_for_file_ok in Hrun
    as (products & g' & _ & Hidx & _).
Qed.

Lemma NoDup_fst_inj {A B} (l : list (A * B)) x y :
  NoDup l.*1 → x ∈ l → y ∈ l → x.1 = y.1 → x = y.
Proof.
  induction l as [|a l IH]; intros Hnd Hx Hy Heq; [by apply elem_of_nil in Hx|].
  rewrite fmap_cons in Hnd. apply NoDup_cons in Hnd as [Hnotin Hnd].
  apply elem_of_cons in Hx as [->|Hx]; apply elem_of_cons in Hy as [->|Hy].
  - done.
  - exfalso. apply Hnotin. rewrite Heq. apply list_elem_of_fmap. by exists y.
  - exfalso. apply Hnotin. rewrite <- Heq. apply list_elem_of_fmap. by exists x.
  - by apply IH.
Qed.

(** The run, with the tallies that it collects: the orchestrator, called
    on the state that the initializer left, returns the tallies of the
    partitions that succeed; the reconciler is given these, and the
    catalogs that it writes are those of the end of the run. *)
Lemma main_collected (st : process G) :
  (∀ n, io_fails OUTPUT_DIR n = false) →
  (∀ n, io_fails CATEGORIES_FILE n = false) →
  (∀ n, io_fails VENDORS_FILE n = false) →
  as_completed build_tasks ≡ₚ build_tasks →
  let new := collected io_fails worker_rng pool_broken as_completed st in
  ∃ words succeeded s2 s3 st',
    main io_fails worker_rng pool_broken as_completed st = (Ok (), st')
    ∧ length words = Z.to_nat NUM_CATEGORIES
    ∧ run_interleaved_generation io_fails worker_rng pool_broken as_completed
        (before_run io_fails st) = (Ok (Some <$> new), s2)
    ∧ update_base_data_counts io_fails (Some <$> new) s2 = (Ok (), s3)
    ∧ files st' = files s3
    ∧ sublist succeeded (as_completed build_tasks)
    ∧ Forall2 (fun task t => good_partition worker_rng task t st') succeeded new
    ∧ files st' !! CATEGORIES_FILE
      = Some (Json.dumps_indent 2
                (PList (category_records (range NUM_CATEGORIES) words
                          (category_total (Some <$> new)))))
    ∧ files st' !! VENDORS_FILE
      = Some (Json.dumps_indent 2
                (PList (vendor_records (range VENDOR_COUNT)
                          (vendor_total (Some <$> new))))).
Proof.
  intros Hdir Hcat Hven Hperm new. unfold main.
  destruct (io_ok io_fails OUTPUT_DIR (fun fs => Ok ((), fs)) st () _ Hdir eq_refl)
    as (sa & Hmk & Hra & Hfa & Hoa).
  unfold makedirs. rewrite (M_bind_ok _ _ _ _ _ Hmk), print_bind.
  set (sb := Process _ _ _ _).
  destruct (generate_base_data_ok io_fails [] [] sb Hcat Hven)
    as (words & s1 & Hinit & Hwords & Hf1 & Ho1).
  cbv zeta in Hinit. rewrite !app_nil_l in *.
  rewrite (M_bind_ok _ _ _ _ _ Hinit).
  assert (Hs1 : before_run io_fails st = s1).
  { unfold before_run, makedirs.
    rewrite (M_bind_ok _ _ _ _ _ Hmk), print_bind. fold sb. by rewrite Hinit. }
  destruct (run_interleaved_generation_spec io_fails worker_rng pool_broken
              as_completed s1 Hperm)
    as (succeeded & new' & s2 & Hrun & Hr2 & Hf2 & Hsub & Hgood).
  assert (Hnew : new' = new).
  { pose proof (run_collects s1 Hperm) as Hsolo. rewrite Hrun in Hsolo.
    simpl in Hsolo. injection Hsolo as Hsolo.
    apply fmap_Some_inj in Hsolo. unfold new, collected. by rewrite Hs1. }
  subst new'.
  rewrite (M_bind_ok _ _ _ _ _ Hrun).
  assert (Hc2 : files s2 !! CATEGORIES_FILE
                = Some (Json.dumps_indent 2
                          (PList (category_records (range NUM_CATEGORIES) words
                                    (fun _ => 0))))).
  { rewrite Hf2 by (intros i Heq; by apply (part_path_not_catalog i)).
    rewrite Hf1, lookup_insert_ne by (symmetry; apply catalog_paths_distinct).
    by rewrite lookup_insert_eq. }
  assert (Hv2 : files s2 !! VENDORS_FILE
                = Some (Json.dumps_indent 2
                          (PList (vendor_records (range VENDOR_COUNT)
                                    (fun _ => 0))))).
  { rewrite Hf2 by (intros i Heq; by apply (part_path_not_catalog i)).
    by rewrite Hf1, lookup_insert_eq. }
  destruct (update_base_data_counts_ok io_fails (Some <$> new) _ _ _ _ _ s2
              Hcat Hven Hc2 Hv2) as (s3 & Hupd & Hr3 & Hf3 & Ho3).
  rewrite (M_bind_ok _ _ _ _ _ Hupd), print_bind.
  set (s4 := Process _ _ _ _).
  destruct (print_loop (range_from_1 SPLIT_PARTS)
              (fun i => LogSavedTo i (part_path i)) s4)
    as (s5 & Hloop & Hr5 & Hf5).
  rewrite (M_bind_ok _ _ _ _ _ Hloop).
  set (st' := Process (rng s5) (files s5) (io_count s5)
                (stdout s5 ++ [LogTotalTime])).
  assert (Hfinal : files st' = files s3).
  { unfold st'. simpl. by rewrite Hf5. }
  exists words, succeeded, s2, s3, st'. split; [reflexivity|].
  split; [done|]. split; [by rewrite Hs1|]. split; [done|].
  split; [done|]. split; [done|]. rewrite Hfinal, Hf3.
  split; [|split].
  - eapply Forall2_impl; [exact Hgood|]. intros task t Hg.
    eapply good_partition_frame; [|exact Hg].
    destruct (part_path_not_catalog task.1).
    rewrite Hfinal, Hf3. by rewrite !lookup_insert_ne.
  - rewrite lookup_insert_ne by (symmetry; apply catalog_paths_distinct).
    rewrite lookup_insert_eq.
    do 3 f_equal. apply category_records_ext. intros i.
    apply (proj2 (aggregate_totals _ i)).
  - rewrite lookup_insert_eq. do 3 f_equal. apply vendor_records_ext.
    intros i. apply (proj1 (aggregate_totals _ i)).
Qed.

(** Each task whose future gives back a tally has it among the collected
    ones, with its file as the worker wrote it; and there is no other
    tally. *)
Lemma collected_partitions (st st' : process G) succeeded :
  as_completed build_tasks ≡ₚ build_tasks →
  let new := collected io_fails worker_rng pool_broken as_completed st in
  sublist succeeded (as_completed build_tasks) →
  Forall2 (fun task t => good_partition worker_rng task t st') succeeded new →
  (∀ task t, task ∈ as_completed build_tasks →
     tally_of_future io_fails worker_rng pool_broken task (before_run io_fails st)
       = Some t →
     t ∈ new ∧ good_partition worker_rng task t st')
  ∧ (∀ t, t ∈ new →
       ∃ task, task ∈ as_completed build_tasks
         ∧ tally_of_future io_fails worker_rng pool_broken task
             (before_run io_fails st) = Some t).
Proof.
  intros Hperm new Hsub Hgood. split.
  - intros task t Hin Ht.
    assert (Hnew : t ∈ new).
    { unfold new, collected. apply list_elem_of_omap. by exists task. }
    split; [done|].
    apply list_elem_of_lookup in Hnew as [j Hj].
    destruct (Forall2_lookup_r _ _ _ _ _ Hgood Hj) as (task' & Hj' & Hg).
    assert (task' = task) as <-; [|done].
    apply (NoDup_fst_inj (as_completed build_tasks)).
    + rewrite Hperm. apply build_tasks_indices.
    + eapply elem_of_sublist; [|done]. by eapply list_elem_of_lookup_2.
    + done.
    + destruct Hg as (_ & _ & _ & <- & _).
      by apply tally_of_future_index in Ht.
  - intros t Ht. unfold new, collected in Ht.
    apply list_elem_of_omap in Ht as (task & Hin & Ht). by exists task.
Qed.


(** C2. After the run, the products_count values of the category catalog
    sum up to the number of records that the partitions that succeeded
    produced, and so do those of the vendor catalog. The partitions that
    succeeded are those whose future gave back a tally: the orchestrator
    returns exactly their tallies, the reconciler is given exactly these,
    and the catalogs it writes are those at the end of the run. Each such
    partition produced PRODUCTS_PER_FILE records, which its file holds
    and its tally counts; so the sum is the number of records in the
    files of these partitions, and TOTAL_PRODUCTS when all the
    partitions succeeded; and an id that none of these tallies holds
    gets the count 0. *)
Theorem counts_conservation (st : process G) :
  (∀ n, io_fails OUTPUT_DIR n = false) →
  (∀ n, io_fails CATEGORIES_FILE n = false) →
  (∀ n, io_fails VENDORS_FILE n = false) →
  as_completed build_tasks ≡ₚ build_tasks →
  ∃ (new : list tally) s2 s3 st',
    main io_fails worker_rng pool_broken as_completed st = (Ok (), st')
    ∧ new = collected io_fails worker_rng pool_broken as_completed st
    ∧ run_interleaved_generation io_fails worker_rng pool_broken as_completed
        (before_run io_fails st) = (Ok (Some <$> new), s2)
    ∧ update_base_data_counts io_fails (Some <$> new) s2 = (Ok (), s3)
    ∧ files st' = files s3
    ∧ NoDup (file_index <$> new)
    ∧ Forall (fun t => ∃ text records,
                files st' !! part_path (file_index t) = Some text
                ∧ Json.loads text = Ok (PList records)
                ∧ length records = Z.to_nat PRODUCTS_PER_FILE
                ∧ sum_over NUM_CATEGORIES (category_counts t)
                  = Z.of_nat (length records)
                ∧ sum_over VENDOR_COUNT (vendor_counts t)
                  = Z.of_nat (length records)) new
    ∧ catalog_total (files st' !! CATEGORIES_FILE)
      = Z.of_nat (Z.to_nat PRODUCTS_PER_FILE) * Z.of_nat (length new)
    ∧ catalog_total (files st' !! VENDORS_FILE)
      = Z.of_nat (Z.to_nat PRODUCTS_PER_FILE) * Z.of_nat (length new)
    ∧ catalog_total (files st' !! CATEGORIES_FILE)
      = sum_list (fun i => Z.of_nat (length (catalog_entries
                                               (files st' !! part_path i))))
          (file_index <$> new)
    ∧ catalog_total (files st' !! VENDORS_FILE)
      = sum_list (fun i => Z.of_nat (length (catalog_entries
                                               (files st' !! part_path i))))
          (file_index <$> new)
    ∧ (0 ≤ PRODUCTS_PER_FILE → 0 ≤ SPLIT_PARTS →
       length new = Z.to_nat SPLIT_PARTS →
       catalog_total (files st' !! CATEGORIES_FILE) = TOTAL_PRODUCTS
       ∧ catalog_total (files st' !! VENDORS_FILE) = TOTAL_PRODUCTS)
    ∧ map products_count_of (catalog_entries (files st' !! CATEGORIES_FILE))
      = map (category_total (Some <$> new)) (range NUM_CATEGORIES)
    ∧ map products_count_of (catalog_entries (files st' !! VENDORS_FILE))
      = map (vendor_total (Some <$> new)) (range VENDOR_COUNT)
    ∧ (∀ i, (∀ t, t ∈ new → category_counts t !! i = None) →
         category_total (Some <$> new) i = 0)
    ∧ (∀ i, (∀ t, t ∈ new → vendor_counts t !! i = None) →
         vendor_total (Some <$> new) i = 0).
Proof.
  intros Hdir Hcat Hven Hperm.
  destruct (main_collected st Hdir Hcat Hven Hperm)
    as (words & succeeded & s2 & s3 & st' & Hmain & Hwords & Hrun & Hupd
        & Hfiles & Hsub & Hgood & Hc & Hv).
  set (new := collected io_fails worker_rng pool_broken as_completed st) in *.
  exists new, s2, s3, st'. split; [done|]. split; [done|]. split; [done|].
  split; [done|]. split; [done|].
  assert (Hsums : Forall (fun t => ∃ text records,
                files st' !! part_path (file_index t) = Some text
                ∧ Json.loads text = Ok (PList records)
                ∧ length records = Z.to_nat PRODUCTS_PER_FILE
                ∧ sum_over NUM_CATEGORIES (category_counts t)
                  = Z.of_nat (length records)
                ∧ sum_over VENDOR_COUNT (vendor_counts t)
                  = Z.of_nat (length records)) new).
  { apply Forall_forall. intros t [j Hj]%list_elem_of_lookup.
    destruct (Forall2_lookup_r _ _ _ _ _ Hgood Hj) as (task & _ & Hg).
    by eapply good_partition_sums. }
  assert (Hcc : map products_count_of
                  (catalog_entries (files st' !! CATEGORIES_FILE))
                = map (category_total (Some <$> new)) (range NUM_CATEGORIES)).
  { rewrite Hc, catalog_entries_dumps by apply category_records_wf.
    apply category_records_counts. unfold range. by rewrite length_seqZ. }
  assert (Hvc : map products_count_of
                  (catalog_entries (files st' !! VENDORS_FILE))
                = map (vendor_total (Some <$> new)) (range VENDOR_COUNT)).
  { rewrite Hv, catalog_entries_dumps by apply vendor_records_wf.
    apply vendor_records_counts. }
  assert (Hct : catalog_total (files st' !! CATEGORIES_FILE)
                = Z.of_nat (Z.to_nat PRODUCTS_PER_FILE) * Z.of_nat (length new)).
  { rewrite (catalog_total_counts _ _ _ Hcc), sum_list_category_total.
    apply (foldr_constant_sum new
             (fun t => sum_list (count_of (category_counts t))
                         (range NUM_CATEGORIES))).
    eapply Forall_impl; [exact Hsums|]. simpl.
    intros t (text & records & _ & _ & Hlen & Hs & _).
    unfold sum_over in Hs. by rewrite Hs, Hlen. }
  assert (Hvt : catalog_total (files st' !! VENDORS_FILE)
                = Z.of_nat (Z.to_nat PRODUCTS_PER_FILE) * Z.of_nat (length new)).
  { rewrite (catalog_total_counts _ _ _ Hvc), sum_list_vendor_total.
    apply (foldr_constant_sum new
             (fun t => sum_list (count_of (vendor_counts t))
                         (range VENDOR_COUNT))).
    eapply Forall_impl; [exact Hsums|]. simpl.
    intros t (text & records & _ & _ & Hlen & _ & Hs).
    unfold sum_over in Hs. by rewrite Hs, Hlen. }
  assert (Hrec : sum_list (fun i => Z.of_nat (length (catalog_entries
                                                      (files st' !! part_path i))))
                   (file_index <$> new)
                 = Z.of_nat (Z.to_nat PRODUCTS_PER_FILE) * Z.of_nat (length new)).
  { clear -Hsums. induction Hsums as [|t l Ht _ IH]; [simpl; lia|].
    destruct Ht as (text & records & Hfile & Hloads & Hlen & _).
    rewrite fmap_cons. cbn [sum_list foldr length].
    fold (sum_list (fun i => Z.of_nat (length (catalog_entries
                                                 (files st' !! part_path i))))
            (file_index <$> l)).
    rewrite IH, Hfile. unfold catalog_entries. rewrite Hloads, Hlen. lia. }
  split.
  { assert (Hidx : file_index <$> new = succeeded.*1).
    { clear -Hgood. induction Hgood as [|task t ?? (?&?&?&Hi&?) _ IH]; [done|].
      rewrite !fmap_cons. by rewrite Hi, IH. }
    rewrite Hidx.
    eapply sublist_NoDup; [|apply (fmap_sublist fst _ _ Hsub)].
    rewrite Hperm. apply build_tasks_indices. }
  split; [done|]. split; [done|]. split; [done|].
  split; [by rewrite Hct, Hrec|]. split; [by rewrite Hvt, Hrec|]. split.
  { intros Hp Hs Hlen. rewrite Hct, Hvt, Hlen. unfold TOTAL_PRODUCTS.
    rewrite !Z2Nat.id by done. done. }
  split; [done|]. split; [done|].
  split; [apply category_total_absent|apply vendor_total_absent].
Qed.

(** C6. The partition writer never raises: it returns a tally, and then
    the tally counts all the records of the partition, or it returns
    [None]; it changes no file but its own; and so does a future,
    whatever its worker did. The run then ends without an exception. The
    orchestrator returns the tally of every partition whose future gave
    one back, and no other; the file of each of them holds what its
    worker generated from its own id range and generator, whatever
    happened to the others; and the products_count values of the two
    catalogs, which the reconciler computes from these tallies, are, id
    by id, their totals. *)
Theorem failure_isolation (st : process G) :
  (∀ n, io_fails OUTPUT_DIR n = false) →
  (∀ n, io_fails CATEGORIES_FILE n = false) →
  (∀ n, io_fails VENDORS_FILE n = false) →
  as_completed build_tasks ≡ₚ build_tasks →
  (∀ idx start (w : process G),
     ∃ r w',
       generate_interleaved_products_for_file io_fails idx start w = (Ok r, w')
       ∧ (∀ p, p ≠ part_path idx → files w' !! p = files w !! p)
       ∧ (∀ t, r = Some t →
            ∃ products g',
              partition_products start (range PRODUCTS_PER_FILE) (rng w)
                = Ok (products, g')
              ∧ length products = Z.to_nat PRODUCTS_PER_FILE
              ∧ (vendor_counts t, category_counts t)
                = count_products products (∅, ∅)))
  ∧ (∀ task results (w : process G),
       ∃ outcome w',
         collect_result io_fails worker_rng pool_broken task results w
           = (Ok (results ++ option_list (Some <$> outcome))%list, w')
         ∧ outcome = tally_of_future io_fails worker_rng pool_broken task w
         ∧ ∀ p, p ≠ part_path task.1 → files w' !! p = files w !! p)
  ∧ ∃ succeeded (new : list tally) s2 s3 st',
      main io_fails worker_rng pool_broken as_completed st = (Ok (), st')
      ∧ new = collected io_fails worker_rng pool_broken as_completed st
      ∧ run_interleaved_generation io_fails worker_rng pool_broken as_completed
          (before_run io_fails st) = (Ok (Some <$> new), s2)
      ∧ update_base_data_counts io_fails (Some <$> new) s2 = (Ok (), s3)
      ∧ files st' = files s3
      ∧ (∀ task t, task ∈ as_completed build_tasks →
           tally_of_future io_fails worker_rng pool_broken task
             (before_run io_fails st) = Some t →
           t ∈ new ∧ good_partition worker_rng task t st')
      ∧ (∀ t, t ∈ new →
           ∃ task, task ∈ as_completed build_tasks
             ∧ tally_of_future io_fails worker_rng pool_broken task
                 (before_run io_fails st) = Some t)
      ∧ sublist succeeded (as_completed build_tasks)
      ∧ Forall2 (fun task t => good_partition worker_rng task t st')
          succeeded new
      ∧ map products_count_of (catalog_entries (files st' !! CATEGORIES_FILE))
        = map (category_total (Some <$> new)) (range NUM_CATEGORIES)
      ∧ map products_count_of (catalog_entries (files st' !! VENDORS_FILE))
        = map (vendor_total (Some <$> new)) (range VENDOR_COUNT).
Proof.
  intros Hdir Hcat Hven Hperm. split; [|split].
  - intros idx start w.
    destruct (generate_interleaved_products_for_file_returns io_fails idx start w)
      as (r & w' & Hrun & _).
    pose proof (generate_interleaved_products_for_file_confined
                  io_fails idx start w) as Hconf.
    rewrite Hrun in Hconf. simpl in Hconf.
    exists r, w'. split; [done|]. split.
    { intros p Hp. by destruct (Hconf p Hp). }
    intros t ->.
    apply generate_interleaved_products_for_file_ok in Hrun
      as (products & g' & Hprods & _ & Hcounts & _).
    exists products, g'. split; [done|]. split; [|done].
    apply mapM_Rand_inv, Forall2_length in Hprods.
    unfold range in Hprods. by rewrite length_seqZ in Hprods.
  - intros task results w.
    destruct (collect_result_spec io_fails worker_rng pool_broken task results w)
      as (outcome & w' & Hstep & _ & Hf & _).
    exists outcome, w'. split; [done|]. split; [|done].
    pose proof (collect_result_tally task results w) as Ht.
    rewrite Hstep in Ht. simpl in Ht. injection Ht as Ht%app_inv_head.
    destruct outcome, (tally_of_future _ _ _ task w); simpl in Ht; congruence.
  - destruct (main_collected st Hdir Hcat Hven Hperm)
      as (words & succeeded & s2 & s3 & st' & Hmain & Hwords & Hrun & Hupd
          & Hfiles & Hsub & Hgood & Hc & Hv).
    destruct (collected_partitions st st' succeeded Hperm Hsub Hgood)
      as [Hall Honly].
    set (new := collected io_fails worker_rng pool_broken as_completed st) in *.
    exists succeeded, new, s2, s3, st'.
    split; [done|]. split; [done|]. split; [done|]. split; [done|].
    split; [done|]. split; [done|]. split; [done|]. split; [done|].
    split; [done|]. split.
    + rewrite Hc, catalog_entries_dumps by apply category_records_wf.
      apply category_records_counts. unfold range. by rewrite length_seqZ.
    + rewrite Hv, catalog_entries_dumps by apply vendor_records_wf.
      apply vendor_records_counts.
Qed.

(** The catalogs agree with the partition files: after a run, the
    [products_count] of every category is the number of records with
    that [category_id] in the files of the partitions whose future gave
    back a tally, and likewise for the vendors. *)
Theorem catalog_counts_match_files (st : process G) :
  (∀ n, io_fails OUTPUT_DIR n = false) →
  (∀ n, io_fails CATEGORIES_FILE n = false) →
  (∀ n, io_fails VENDORS_FILE n = false) →
  as_completed build_tasks ≡ₚ build_tasks →
  ∃ (new : list tally) st',
    main io_fails worker_rng pool_broken as_completed st = (Ok (), st')
    ∧ new = collected io_fails worker_rng pool_broken as_completed st
    ∧ (∀ task, task ∈ as_completed build_tasks →
         part_path task.1 ∈ ((fun t => part_path (file_index t)) <$> new)
         ↔ is_Some (tally_of_future io_fails worker_rng pool_broken task
                      (before_run io_fails st)))
    ∧ sublist (file_index <$> new) (as_completed build_tasks).*1
    ∧ map products_count_of (catalog_entries (files st' !! CATEGORIES_FILE))
      = map (count_in_files (files st') "category_id"
               ((fun t => part_path (file_index t)) <$> new))
          (range NUM_CATEGORIES)
    ∧ map products_count_of (catalog_entries (files st' !! VENDORS_FILE))
      = map (count_in_files (files st') "vendor_id"
               ((fun t => part_path (file_index t)) <$> new))
          (range VENDOR_COUNT).
Proof.
  intros Hdir Hcat Hven Hperm.
  destruct (main_collected st Hdir Hcat Hven Hperm)
    as (words & succeeded & s2 & s3 & st' & Hmain & Hwords & Hrun & Hupd
        & Hfiles & Hsub & Hgood & Hc & Hv).
  destruct (collected_partitions st st' succeeded Hperm Hsub Hgood)
    as [Hall Honly].
  set (new := collected io_fails worker_rng pool_broken as_completed st) in *.
  exists new, st'. split; [done|]. split; [done|]. split.
  { intros task Hin. split.
    - intros (t & Hpath & Ht)%list_elem_of_fmap.
      destruct (Honly t Ht) as (task' & Hin' & Ht').
      assert (task' = task) as <-; [|by eexists].
      apply (NoDup_fst_inj (as_completed build_tasks)); [|done|done|].
      { rewrite Hperm. apply build_tasks_indices. }
      apply tally_of_future_index in Ht'. rewrite <- Ht'.
      destruct build_tasks_indices as [_ Hpos].
      symmetry. apply part_path_inj; [| |done].
      + rewrite <- Hperm in Hpos.
        by apply (proj1 (Forall_forall _ _) Hpos task).
      + rewrite Ht'. rewrite <- Hperm in Hpos.
        by apply (proj1 (Forall_forall _ _) Hpos task').
    - intros [t Ht]. destruct (Hall task t Hin Ht) as [Hnew _].
      apply list_elem_of_fmap. exists t. split; [|done].
      by rewrite (tally_of_future_index _ _ _ Ht). }
  split.
  { assert (Hidx : file_index <$> new = succeeded.*1).
    { clear -Hgood. induction Hgood as [|task t ?? (?&?&?&Hi&?) _ IH]; [done|].
      rewrite !fmap_cons. by rewrite Hi, IH. }
    rewrite Hidx. by apply fmap_sublist. }
  split.
  - rewrite Hc, catalog_entries_dumps by apply category_records_wf.
    rewrite category_records_counts
      by (unfold range; by rewrite length_seqZ).
    apply map_ext. intros key.
    apply (proj1 (totals_count_in_files worker_rng succeeded new st' key Hgood)).
  - rewrite Hv, catalog_entries_dumps by apply vendor_records_wf.
    rewrite vendor_records_counts.
    apply map_ext. intros key.
    apply (proj2 (totals_count_in_files worker_rng succeeded new st' key Hgood)).
Qed.

End Collected.

(** ** What a run reports about its partitions *)

Section Reports.
Context `{Config} {G : Type} `{RandomSource G}.
Variable io_fails : string → nat → bool.
Variable worker_rng : Z → G.
Variable pool_broken : Z → option lost_worker.
Variable as_completed : list (Z * Z) → list (Z * Z).

(** What one completed future adds to the results and to the output. *)
Lemma collect_result_report task results (st : process G) :
  ∃ st',
    match pool_broken task.1 with
    | Some lost =>
        collect_result io_fails worker_rng pool_broken task results st
          = (Ok results, st')
        ∧ stdout st'
          = (stdout st ++ lost_lines task.1 (left_output lost)
               ++ [LogErrorGeneration BrokenProcessPool])%list
    | None =>
        (∃ t,
           collect_result io_fails worker_rng pool_broken task results st
             = (Ok (results ++ [Some t])%list, st')
           ∧ file_index t = task.1
           ∧ stdout st'
             = (stdout st ++ [LogGenerating PRODUCTS_PER_FILE task.1;
                              LogFinished task.1 PRODUCTS_PER_FILE])%list)
        ∨ (∃ e,
             collect_result io_fails worker_rng pool_broken task results st
               = (Ok results, st')
             ∧ stdout st'
               = (stdout st ++ [LogGenerating PRODUCTS_PER_FILE task.1;
                                LogErrorWriting task.1 e])%list)
    end.
Proof.
  destruct task as [idx start]. unfold collect_result, future_result. simpl.
  destruct (pool_broken idx) as [lost|] eqn:Hbroken.
  - eexists. erewrite try_except_raise; last first.
    { erewrite M_bind_raise by reflexivity. reflexivity. }
    rewrite print_bind. split; [reflexivity|]. simpl. by rewrite <- app_assoc.
  - set (w0 := Process (worker_rng idx) (files st) (io_count st) (stdout st)).
    destruct (generate_interleaved_products_for_file_returns io_fails idx start w0)
      as (r & w1 & Hrun & Hnone).
    exists (Process (rng st) (files w1) (io_count w1) (stdout w1)).
    destruct r as [t|].
    + left. exists t. split.
      { apply try_except_ok. erewrite M_bind_ok; last first.
        { fold w0. rewrite Hrun. reflexivity. }
        reflexivity. }
      apply generate_interleaved_products_for_file_ok in Hrun
        as (products & g' & _ & Hidx & _ & _ & Hout).
      by split.
    + right. destruct (Hnone eq_refl) as [e He]. exists e. split; [|done].
      apply try_except_ok. erewrite M_bind_ok; last first.
      { fold w0. rewrite Hrun. reflexivity. }
      reflexivity.
Qed.

(** The loop over the completed futures: what it adds to the results
    and what it prints about each partition. *)
Lemma collect_loop_report order :
  ∀ results (st : process G),
  ∃ added lines st',
    for_each order results (collect_result io_fails worker_rng pool_broken) st
      = (Ok (results ++ (Some <$> added))%list, st')
    ∧ stdout st' = (stdout st ++ lines)%list
    ∧ (∀ t, t ∈ added →
         pool_broken (file_index t) = None
         ∧ LogFinished (file_index t) PRODUCTS_PER_FILE ∈ lines)
    ∧ (∀ task, task ∈ order → pool_broken task.1 = None →
         (∃ t, t ∈ added ∧ file_index t = task.1)
         ∨ (∃ e, LogErrorWriting task.1 e ∈ lines))
    ∧ (∀ task, task ∈ order → is_Some (pool_broken task.1) →
         LogErrorGeneration BrokenProcessPool ∈ lines).
Proof.
  induction order as [|task order IH]; intros results st.
  - exists [], [], st. simpl. rewrite !app_nil_r.
    split; [done|]. split; [done|].
    split; [by intros t ?%elem_of_nil|].
    split; by intros task ?%elem_of_nil.
  - destruct (collect_result_report task results st) as [s1 Hstep].
    destruct (pool_broken task.1) as [lost|] eqn:Hbroken.
    + destruct Hstep as [Hstep Hout].
      destruct (IH results s1) as (added & lines & st' & Hloop & Ho & Ha & Hw & Hl).
      exists added,
        (lost_lines task.1 (left_output lost)
           ++ [LogErrorGeneration BrokenProcessPool] ++ lines)%list, st'.
      cbn [for_each]. rewrite (M_bind_ok _ _ _ _ _ Hstep), Hloop.
      split; [done|]. split; [by rewrite Ho, Hout, <- !app_assoc|].
      split.
      { intros t Ht. destruct (Ha t Ht) as [? ?]. split; [done|].
        rewrite !elem_of_app. by right; right. }
      split.
      { intros task' [->|Hin]%elem_of_cons Hnone; [congruence|].
        destruct (Hw task' Hin Hnone) as [?|[e He]]; [by left|right].
        exists e. rewrite !elem_of_app. by right; right. }
      intros task' [->|Hin]%elem_of_cons Hsome.
      * rewrite !elem_of_app, list_elem_of_singleton. right; left. done.
      * rewrite !elem_of_app. right; right. by apply (Hl task').
    + destruct Hstep as [(t & Hstep & Hidx & Hout)|(e & Hstep & Hout)].
      * destruct (IH (results ++ [Some t])%list s1)
          as (added & lines & st' & Hloop & Ho & Ha & Hw & Hl).
        exists (t :: added),
          ([LogGenerating PRODUCTS_PER_FILE task.1;
            LogFinished task.1 PRODUCTS_PER_FILE] ++ lines)%list, st'.
        cbn [for_each]. rewrite (M_bind_ok _ _ _ _ _ Hstep), Hloop.
        split; [by rewrite <- app_assoc|].
        split; [by rewrite Ho, Hout, <- !app_assoc|].
        split.
        { intros t' [->|Ht]%elem_of_cons.
          - rewrite Hidx. split; [done|].
            rewrite elem_of_app. left. apply elem_of_cons. right.
            by apply list_elem_of_singleton.
          - destruct (Ha t' Ht) as [? ?]. split; [done|].
            rewrite elem_of_app. by right. }
        split.
        { intros task' [->|Hin]%elem_of_cons Hnone.
          - left. exists t. split; [by left|done].
          - destruct (Hw task' Hin Hnone) as [(t' & ? & ?)|[e He]].
            + left. exists t'. split; [by right|done].
            + right. exists e. rewrite elem_of_app. by right. }
        intros task' [->|Hin]%elem_of_cons Hsome.
        { rewrite Hbroken in Hsome. by destruct Hsome. }
        rewrite elem_of_app. right. by apply (Hl task').
      * destruct (IH results s1)
          as (added & lines & st' & Hloop & Ho & Ha & Hw & Hl).
        exists added,
          ([LogGenerating PRODUCTS_PER_FILE task.1;
            LogErrorWriting task.1 e] ++ lines)%list, st'.
        cbn [for_each]. rewrite (M_bind_ok _ _ _ _ _ Hstep), Hloop.
        split; [done|].
        split; [by rewrite Ho, Hout, <- !app_assoc|].
        split.
        { intros t' Ht. destruct (Ha t' Ht) as [? ?]. split; [done|].
          rewrite elem_of_app. by right. }
        split.
        { intros task' [->|Hin]%elem_of_cons Hnone.
          - right. exists e. rewrite elem_of_app. left.
            apply elem_of_cons. right. by apply list_elem_of_singleton.
          - destruct (Hw task' Hin Hnone) as [?|[e' He]]; [by left|].
            right. exists e'. rewrite elem_of_app. by right. }
        intros task' [->|Hin]%elem_of_cons Hsome.
        { rewrite Hbroken in Hsome. by destruct Hsome. }
        rewrite elem_of_app. right. by apply (Hl task').
Qed.

(** C9 (amended). The reconciler prints at most its one fixed line,
    which names no partition, whatever results it is given. What a run
    prints about the partitions comes from the writer and from the
    orchestrator. A writer that returns no tally has printed the error
    line with the index of its partition, and one that returns a tally
    has printed its [Finished] line. A future whose worker the pool lost
    adds no tally, and the orchestrator prints for it a line that names
    no partition, after whatever the worker had printed, its [Finished]
    line included. So, when the orchestrator has returned: every tally it
    returns is that of a partition whose worker was not lost and whose
    [Finished] line is in the output; every partition whose worker was
    not lost has a tally among them or an error line with its index in
    the output; and for a partition whose worker was lost the output has
    the line without an index. *)
Theorem failure_report :
  (∀ results (st : process G),
     let out := stdout (update_base_data_counts io_fails results st).2 in
     out = stdout st ∨ out = (stdout st ++ [LogCountsUpdated])%list)
  ∧ line_partition LogCountsUpdated = None
  ∧ (∀ idx start (st : process G),
       ∃ r st',
         generate_interleaved_products_for_file io_fails idx start st
           = (Ok r, st')
         ∧ (r = None →
            ∃ e, stdout st'
                 = (stdout st ++ [LogGenerating PRODUCTS_PER_FILE idx;
                                  LogErrorWriting idx e])%list
                 ∧ line_partition (LogErrorWriting idx e) = Some idx)
         ∧ (∀ t, r = Some t →
              stdout st'
              = (stdout st ++ [LogGenerating PRODUCTS_PER_FILE idx;
                               LogFinished idx PRODUCTS_PER_FILE])%list))
  ∧ (∀ task results (st : process G) lost,
       pool_broken task.1 = Some lost →
       ∃ st',
         collect_result io_fails worker_rng pool_broken task results st
           = (Ok results, st')
         ∧ stdout st'
           = (stdout st ++ lost_lines task.1 (left_output lost)
                ++ [LogErrorGeneration BrokenProcessPool])%list
         ∧ line_partition (LogErrorGeneration BrokenProcessPool) = None)
  ∧ (∀ (st : process G) results st',
       run_interleaved_generation io_fails worker_rng pool_broken as_completed st
         = (Ok results, st') →
       (∀ result, result ∈ results →
          ∃ t, result = Some t
            ∧ pool_broken (file_index t) = None
            ∧ LogFinished (file_index t) PRODUCTS_PER_FILE ∈ stdout st')
       ∧ (∀ task, task ∈ as_completed build_tasks →
            pool_broken task.1 = None →
            (∃ t, Some t ∈ results ∧ file_index t = task.1)
            ∨ (∃ e, LogErrorWriting task.1 e ∈ stdout st'))
       ∧ (∀ task, task ∈ as_completed build_tasks →
            is_Some (pool_broken task.1) →
            LogErrorGeneration BrokenProcessPool ∈ stdout st')).
Proof.
  split; [|split; [done|split; [|split]]].
  - intros results st. apply update_base_data_counts_stdout.
  - intros idx start st.
    destruct (generate_interleaved_products_for_file_returns io_fails idx start st)
      as (r & st' & Hrun & Hnone).
    exists r, st'. split; [done|]. split.
    + intros Hr. destruct (Hnone Hr) as [e He]. by exists e.
    + intros t ->.
      by apply generate_interleaved_products_for_file_ok in Hrun
        as (products & g' & _ & _ & _ & _ & Hout).
  - intros task results st lost Hlost.
    destruct (collect_result_report task results st) as [st' Hstep].
    rewrite Hlost in Hstep. exists st'. by destruct Hstep.
  - intros st results st' Hrun.
    unfold run_interleaved_generation in Hrun. rewrite !print_bind in Hrun.
    cbv zeta in Hrun.
    destruct (collect_loop_report (as_completed build_tasks) []
                (Process (rng st) (files st) (io_count st)
                   (((stdout st ++ [LogStarting])
                     ++ [LogTotal TOTAL_PRODUCTS PRODUCTS_PER_FILE])
                    ++ [LogUsingProcesses])))
      as (added & lines & st'' & Hloop & Ho & Ha & Hw & Hl).
    simpl in Hrun. rewrite Hloop in Hrun. injection Hrun as <- <-.
    rewrite Ho. split; [|split].
    + intros result (t & -> & Ht)%list_elem_of_fmap. exists t.
      destruct (Ha t Ht) as [? ?]. split; [done|]. split; [done|].
      rewrite elem_of_app. by right.
    + intros task Hin Hnone.
      destruct (Hw task Hin Hnone) as [(t & Ht & Hidx)|[e He]].
      * left. exists t. split; [|done]. apply list_elem_of_fmap. by exists t.
      * right. exists e. rewrite elem_of_app. by right.
    + intros task Hin Hsome. rewrite elem_of_app. right. by apply (Hl task).
Qed.

End Reports.

Lemma counts_conservation_witness :
  ∃ (new : list tally) st',
    @main Scenario.config Z Lcg_source Scenario.part_2_fails Scenario.seeds
      Scenario.no_loss Scenario.last_first Scenario.start = (Ok (), st')
    ∧ file_index <$> new = [4; 3; 1]
    ∧ catalog_total (files st' !! CATEGORIES_FILE) = 9
    ∧ catalog_total (files st' !! VENDORS_FILE) = 9.
Proof.
  destruct (@counts_conservation Scenario.config Z Lcg_source
              Scenario.part_2_fails Scenario.seeds Scenario.no_loss
              Scenario.last_first Scenario.start)
    as (new & s2 & s3 & st' & Hmain & Hnew & _ & _ & _ & _ & _ & Hc & Hv & _).
  - apply ScenarioFacts.part_2_fails_elsewhere. reflexivity.
  - apply ScenarioFacts.part_2_fails_elsewhere. reflexivity.
  - apply ScenarioFacts.part_2_fails_elsewhere. reflexivity.
  - apply ScenarioFacts.last_first_permutation.
  - assert (Hidx : file_index <$> new = [4; 3; 1])
      by (rewrite Hnew; vm_compute; reflexivity).
    exists new, st'. split; [exact Hmain|]. split; [exact Hidx|].
    rewrite Hc, Hv. apply (f_equal length) in Hidx.
    rewrite length_fmap in Hidx. rewrite Hidx. split; reflexivity.
Defined.

Lemma failure_isolation_witness :
  ∃ (new : list tally) st',
    @main Scenario.config Z Lcg_source Scenario.part_2_fails Scenario.seeds
      Scenario.no_loss Scenario.last_first Scenario.start = (Ok (), st')
    ∧ file_index <$> new = [4; 3; 1]
    ∧ map products_count_of (catalog_entries (files st' !! CATEGORIES_FILE))
      = map (category_total (Some <$> new)) [0; 1; 2].
Proof.
  destruct (@failure_isolation Scenario.config Z Lcg_source
              Scenario.part_2_fails Scenario.seeds Scenario.no_loss
              Scenario.last_first Scenario.start)
    as (_ & _ & succeeded & new & s2 & s3 & st' & Hmain & Hnew & _ & _ & _ & _
        & _ & _ & _ & Hc & _).
  - apply ScenarioFacts.part_2_fails_elsewhere. reflexivity.
  - apply ScenarioFacts.part_2_fails_elsewhere. reflexivity.
  - apply ScenarioFacts.part_2_fails_elsewhere. reflexivity.
  - apply ScenarioFacts.last_first_permutation.
  - exists new, st'. split; [exact Hmain|]. split; [|exact Hc].
    rewrite Hnew. vm_compute. reflexivity.
Defined.

Lemma failure_report_witness :
  ∃ st',
    @collect_result Scenario.config Z Lcg_source Scenario.no_faults
      Scenario.seeds ScenarioFacts.part_2_lost (2, 3) [] Scenario.start
    = (Ok [], st')
    ∧ stdout st'
      = [LogGenerating 3 2; LogFinished 2 3;
         LogErrorGeneration BrokenProcessPool].
Proof.
  destruct (proj1 (proj2 (proj2 (proj2
              (@failure_report Scenario.config Z Lcg_source Scenario.no_faults
                 Scenario.seeds ScenarioFacts.part_2_lost Scenario.last_first))))
              (2, 3) [] Scenario.start ScenarioFacts.finished_then_lost eq_refl)
    as (st' & Hrun & Hout & _).
  exists st'. split; [exact Hrun|]. rewrite Hout. reflexivity.
Defined.

(** The third scenario, run: the worker of partition 2 is lost after it
    has printed its last line. The partition is not counted, and the
    only line about the loss names no partition. *)
Example scenario_part_2_lost :
  let run := @main Scenario.config Z Lcg_source Scenario.no_faults
               Scenario.seeds ScenarioFacts.part_2_lost Scenario.last_first
               Scenario.start in
  run.1 = Ok ()
  ∧ stdout run.2
    = [LogGeneratingStructure; LogStarting; LogTotal 12 3; LogUsingProcesses;
       LogGenerating 3 4; LogFinished 4 3;
       LogGenerating 3 3; LogFinished 3 3;
       LogGenerating 3 2; LogFinished 2 3;
       LogErrorGeneration BrokenProcessPool;
       LogGenerating 3 1; LogFinished 1 3;
       LogCountsUpdated; LogComplete;
       LogSavedTo 1 "generated_data/products_part_1.json";
       LogSavedTo 2 "generated_data/products_part_2.json";
       LogSavedTo 3 "generated_data/products_part_3.json";
       LogSavedTo 4 "generated_data/products_part_4.json";
       LogTotalTime]
  ∧ catalog_total (files run.2 !! CATEGORIES_FILE) = 9
  ∧ catalog_total (files run.2 !! VENDORS_FILE) = 9.
Proof. vm_compute. repeat split. Qed.

(** ** The further theorems on examples *)

Module FurtherExamples.
Import TestRunner AggStatsFacts.

Lemma get_agg_stats_sharded_witness :
  @get_agg_stats exact_floats (PDict explain_three_shards)
  = (PInt 160, PInt 7).
Proof.
  apply (@get_agg_stats_sharded exact_floats explain_three_shards
           [("shard1", shard_entry (PInt 120) (PInt 7));
            ("shard2", PInt 3);
            ("shard3", shard_entry (PInt 40) PNone)]
           [(120, 7); (0, 0); (40, 0)]).
  - reflexivity.
  - constructor; [|constructor; [|constructor; [|constructor]]].
    + eapply adds_both; reflexivity.
    + eapply adds_not_a_container; reflexivity.
    + eapply adds_examined_only; reflexivity.
Defined.

Lemma get_agg_stats_unsharded_witness :
  @get_agg_stats exact_floats explain_one_shard = (PInt 0, PInt 12).
Proof.
  apply (@get_agg_stats_unsharded exact_floats explain_one_shard
           [("nReturned", PInt 12)]); reflexivity.
Defined.

Lemma get_agg_stats_falls_back_witness :
  @get_agg_stats exact_floats PNone = (PInt 0, PInt 0)
  ∧ @get_agg_stats exact_floats (PDict [("shards", PList [PInt 1])])
    = (PInt 0, PInt 0)
  ∧ @get_agg_stats exact_floats (PDict [("ok", PInt 1)]) = (PInt 0, PInt 0)
  ∧ @get_agg_stats exact_floats (PDict [("stages", PList [])])
    = (PInt 0, PInt 0)
  ∧ @get_agg_stats exact_floats
      (PDict [("stages",
               PList [PDict [("$cursor",
                              PDict [("executionStats", PStr "n/a")])]])])
    = (PInt 0, PInt 0).
Proof.
  split; [|split; [|split; [|split]]].
  - apply (proj1 (@get_agg_stats_falls_back exact_floats PNone)).
    by exists TypeError.
  - apply (proj1 (proj2 (@get_agg_stats_falls_back exact_floats
                           (PDict [("shards", PList [PInt 1])]))));
      [reflexivity|by exists AttributeError].
  - apply (proj1 (proj2 (proj2 (@get_agg_stats_falls_back exact_floats
                                  (PDict [("ok", PInt 1)])))));
      reflexivity.
  - apply (proj1 (proj2 (proj2 (proj2
             (@get_agg_stats_falls_back exact_floats
                (PDict [("stages", PList [])]))))));
      [reflexivity|by exists IndexError].
  - apply (proj2 (proj2 (proj2 (proj2
             (@get_agg_stats_falls_back exact_floats
                (PDict [("stages",
                         PList [PDict [("$cursor",
                                        PDict [("executionStats",
                                                PStr "n/a")])]])]))))));
      [reflexivity|by exists (PStr "n/a")].
Defined.

Lemma get_agg_stats_shards_first_witness :
  @get_agg_stats exact_floats
    (PDict (dict_set "stages" explain_one_shard explain_three_shards))
  = (PInt 160, PInt 7).
Proof.
  rewrite (@get_agg_stats_shards_first exact_floats explain_three_shards
             explain_one_shard eq_refl).
  reflexivity.
Defined.

Lemma count_shards_source_witness :
  count_shards_from_explain
    (PDict [("executionStats",
             PDict [("executionStages",
                     PDict [("stage", PStr "SHARD_MERGE");
                            ("shards", PList [PDict []; PDict []])])]);
            ("shards", PDict [("shard1", PDict [])])]) = 2
  ∧ count_shards_from_explain (PDict explain_three_shards) = 3.
Proof.
  split.
  - apply (proj1 (count_shards_source
             [("executionStats",
               PDict [("executionStages",
                       PDict [("stage", PStr "SHARD_MERGE");
                              ("shards", PList [PDict []; PDict []])])]);
              ("shards", PDict [("shard1", PDict [])])])
             [("executionStages",
               PDict [("stage", PStr "SHARD_MERGE");
                      ("shards", PList [PDict []; PDict []])])]
             [("stage", PStr "SHARD_MERGE");
              ("shards", PList [PDict []; PDict []])]
             (PList [PDict []; PDict []])); reflexivity.
  - apply (proj2 (count_shards_source explain_three_shards)
             [("shard1", shard_entry (PInt 120) (PInt 7));
              ("shard2", PInt 3);
              ("shard3", shard_entry (PInt 40) PNone)]); reflexivity.
Defined.


Lemma generate_product_json_empty_range_witness :
  @generate_product_json Cases.no_vendors Z Lcg_source 0 42 = Raise ValueError.
Proof.
  apply (proj1 (@generate_product_json_empty_range Cases.no_vendors Z
                  Lcg_source 0 42)).
  left. simpl. lia.
Defined.

Lemma partition_fails_on_empty_range_witness :
  ∃ st',
    @generate_interleaved_products_for_file Cases.no_vendors Z Lcg_source
      Scenario.no_faults 1 0 Scenario.start = (Ok None, st')
    ∧ files st' = {[part_path 1 := "[" +:+ LF]}.
Proof.
  destruct (@partition_fails_on_empty_range Cases.no_vendors Z Lcg_source
              Scenario.no_faults 1 0 Scenario.start)
    as (st' & Hrun & _ & Hfiles & _).
  - left. simpl. lia.
  - simpl. lia.
  - intros n. reflexivity.
  - exists st'. split; [exact Hrun|]. rewrite Hfiles. reflexivity.
Defined.

Lemma tally_matches_file_witness :
  ∃ t records,
    (@generate_interleaved_products_for_file Scenario.config Z Lcg_source
       Scenario.no_faults 1 0 Scenario.start).1 = Ok (Some t)
    ∧ length records = 3%nat
    ∧ (∀ key, count_of (category_counts t) key
              = count_where "category_id" key records).
Proof.
  let v := eval vm_compute in
    (@generate_interleaved_products_for_file Scenario.config Z Lcg_source
       Scenario.no_faults 1 0 Scenario.start) in
  match v with
  | (Ok (Some ?t), ?st') =>
      assert (Hrun : @generate_interleaved_products_for_file Scenario.config Z
                       Lcg_source Scenario.no_faults 1 0 Scenario.start
                     = (Ok (Some t), st')) by (vm_compute; reflexivity)
  end.
  destruct (@tally_matches_file Scenario.config Z Lcg_source
              Scenario.no_faults 1 0 Scenario.start _ _ Hrun)
    as (text & records & Hfile & Hloads & Hcat & _).
  eexists _, records. rewrite Hrun. split; [reflexivity|]. split; [|exact Hcat].
  vm_compute in Hfile. injection Hfile as <-.
  vm_compute in Hloads. injection Hloads as <-. reflexivity.
Defined.

Lemma tally_keys_in_range_witness :
  ∃ t,
    (@generate_interleaved_products_for_file Scenario.config Z Lcg_source
       Scenario.no_faults 1 0 Scenario.start).1 = Ok (Some t)
    ∧ ∀ key count, category_counts t !! key = Some count →
        0 ≤ key < 3 ∧ 1 ≤ count ≤ 3.
Proof.
  let v := eval vm_compute in
    (@generate_interleaved_products_for_file Scenario.config Z Lcg_source
       Scenario.no_faults 1 0 Scenario.start) in
  match v with
  | (Ok (Some ?t), ?st') =>
      assert (Hrun : @generate_interleaved_products_for_file Scenario.config Z
                       Lcg_source Scenario.no_faults 1 0 Scenario.start
                     = (Ok (Some t), st')) by (vm_compute; reflexivity)
  end.
  destruct (@tally_keys_in_range Scenario.config Z Lcg_source
              Scenario.no_faults 1 0 Scenario.start _ _ Hrun) as [Hcat _].
  eexists. rewrite Hrun. split; [reflexivity|exact Hcat].
Defined.

Lemma generate_base_data_catalogs_witness :
  ∃ categories vendors st',
    @generate_base_data Scenario.config Z Lcg_source Scenario.no_faults [] []
      Scenario.start = (Ok (categories, vendors), st')
    ∧ vendors = [vendor_record 0 0; vendor_record 1 0]
    ∧ ∃ text, files st' !! VENDORS_FILE = Some text
              ∧ Json.loads text = Ok (PList vendors).
Proof.
  destruct (@generate_base_data_catalogs Scenario.config Z Lcg_source
              Scenario.no_faults [] [] Scenario.start)
    as (words & categories & vendors & st' & Hrun & Hlen & _ & Hc & Hv & _
        & Hvfile & _).
  - intros n. reflexivity.
  - intros n. reflexivity.
  - constructor.
  - constructor.
  - exists categories, vendors, st'. split; [exact Hrun|].
    split; [exact Hv|exact Hvfile].
Defined.

Lemma convertible_small z : Z.abs z < 10 → convertible z = true.
Proof.
  intros Hz. unfold convertible, MAX_STR_DIGITS. apply Z.ltb_lt.
  eapply Z.lt_le_trans; [exact Hz|].
  change 10 with (10 ^ 1) at 1. apply Z.pow_le_mono_r; lia.
Qed.

Lemma count_of_small (counts : gmap Z Z) key :
  map_Forall (fun _ c => 0 ≤ c ≤ 3) counts → 0 ≤ count_of counts key ≤ 3.
Proof.
  intros Hall. unfold count_of.
  destruct (counts !! key) as [c|] eqn:Hc; simpl; [|lia].
  by apply Hall in Hc.
Qed.

Lemma scenario_totals_convertible key :
  convertible (category_total Scenario.results key) = true
  ∧ convertible (vendor_total Scenario.results key) = true.
Proof.
  unfold Scenario.results, category_total, vendor_total. cbn [foldr].
  assert (Hc1 : 0 ≤ count_of (category_counts Scenario.tally_1) key ≤ 3).
  { apply count_of_small. apply map_Forall_insert_2; [lia|].
    apply map_Forall_singleton. lia. }
  assert (Hc3 : 0 ≤ count_of (category_counts Scenario.tally_3) key ≤ 3).
  { apply count_of_small. apply map_Forall_singleton. lia. }
  assert (Hv1 : 0 ≤ count_of (vendor_counts Scenario.tally_1) key ≤ 3).
  { apply count_of_small. apply map_Forall_insert_2; [lia|].
    apply map_Forall_singleton. lia. }
  assert (Hv3 : 0 ≤ count_of (vendor_counts Scenario.tally_3) key ≤ 3).
  { apply count_of_small. apply map_Forall_singleton. lia. }
  split; apply convertible_small; lia.
Qed.

Lemma update_base_data_counts_any_catalog_witness :
  ∃ st',
    @update_base_data_counts Z Scenario.no_faults Scenario.results
      Cases.edited_catalogs = (Ok (), st')
    ∧ files st' !! CATEGORIES_FILE
      = Some (Json.dumps_indent 2
                (PList [PDict [("_id", PInt 2); ("label", PStr "Garden");
                               ("products_count", PInt 1);
                               ("note", PStr "kept")];
                        PDict [("label", PStr "Tools"); ("_id", PInt 0);
                               ("products_count", PInt 2)]])).
Proof.
  destruct (@update_base_data_counts_any_catalog Z Scenario.no_faults
              Scenario.results Cases.edited_categories Cases.edited_vendors
              (Json.dumps (PList Cases.edited_categories))
              (Json.dumps (PList Cases.edited_vendors))
              Cases.edited_catalogs)
    as (st' & Hrun & Hfiles & _).
  - intros n. reflexivity.
  - intros n. reflexivity.
  - by vm_compute.
  - by vm_compute.
  - by vm_compute.
  - by vm_compute.
  - repeat constructor; eexists; reflexivity.
  - repeat constructor; eexists; reflexivity.
  - do 2 (constructor; [vm_compute; reflexivity|]). constructor.
  - constructor; [vm_compute; reflexivity|]. constructor.
  - intros key. apply scenario_totals_convertible.
  - intros key. apply scenario_totals_convertible.
  - exists st'. split; [exact Hrun|]. rewrite Hfiles.
    rewrite lookup_insert_ne by (by vm_compute).
    rewrite lookup_insert_eq. reflexivity.
Defined.

Lemma update_base_data_counts_all_or_nothing_witness :
  ∃ st',
    @update_base_data_counts Z Scenario.no_faults Scenario.results
      Cases.catalog_without_id = (Raise KeyError, st')
    ∧ files st' = files Cases.catalog_without_id
    ∧ stdout st' = [].
Proof.
  let v := eval vm_compute in
    (@update_base_data_counts Z Scenario.no_faults Scenario.results
       Cases.catalog_without_id) in
  match v with
  | (Raise ?e, ?st') =>
      assert (Hrun : @update_base_data_counts Z Scenario.no_faults
                       Scenario.results Cases.catalog_without_id
                     = (Raise e, st')) by (vm_compute; reflexivity)
  end.
  match type of Hrun with
  | _ = (Raise ?e, ?st') =>
      destruct (@update_base_data_counts_all_or_nothing Z Scenario.no_faults
                  Scenario.results
                  (Json.dumps (PList Cases.categories_without_id))
                  (Json.dumps (PList Cases.edited_vendors))
                  (PList Cases.categories_without_id)
                  (PList Cases.edited_vendors)
                  Cases.catalog_without_id e st')
        as (_ & Hfiles & Hout)
  end.
  - by vm_compute.
  - by vm_compute.
  - by vm_compute.
  - by vm_compute.
  - by vm_compute.
  - by vm_compute.
  - intros key. apply scenario_totals_convertible.
  - intros key. apply scenario_totals_convertible.
  - exact Hrun.
  - discriminate.
  - eexists. split; [exact Hrun|]. split; [exact Hfiles|exact Hout].
Defined.

Lemma update_base_data_counts_without_catalog_witness :
  ∃ st',
    @update_base_data_counts Z Scenario.no_faults Scenario.results
      Scenario.start = (Raise OSError, st')
    ∧ files st' = ∅.
Proof.
  destruct (@update_base_data_counts_without_catalog Z Scenario.no_faults
              Scenario.results Scenario.start eq_refl)
    as (st' & Hrun & Hfiles & _).
  exists st'. split; [exact Hrun|exact Hfiles].
Defined.

Lemma failed_partition_file_witness :
  ∃ text,
    files (@generate_interleaved_products_for_file Scenario.config Z Lcg_source
             Scenario.part_2_fails 2 3 Scenario.start).2 !! part_path 2
    = Some text
    ∧ Json.loads text = Raise JSONDecodeError.
Proof.
  let v := eval vm_compute in
    (@generate_interleaved_products_for_file Scenario.config Z Lcg_source
       Scenario.part_2_fails 2 3 Scenario.start) in
  match v with
  | (Ok None, ?st') =>
      assert (Hrun : @generate_interleaved_products_for_file Scenario.config Z
                       Lcg_source Scenario.part_2_fails 2 3 Scenario.start
                     = (Ok None, st')) by (vm_compute; reflexivity)
  end.
  destruct (@failed_partition_file Scenario.config Z Lcg_source
              Scenario.part_2_fails 2 3 Scenario.start _ Hrun)
    as [Hsame|(text & Hfile & Hloads)].
  - exfalso. apply (f_equal (fun fs => fs !! part_path 2)) in Hsame.
    vm_compute in Hsame. discriminate Hsame.
  - exists text. rewrite Hrun. split; [exact Hfile|exact Hloads].
Defined.

Lemma generate_interleaved_products_for_file_succeeds_witness :
  ∃ t st',
    @generate_interleaved_products_for_file Scenario.config Z Lcg_source
      Scenario.no_faults 3 6 Scenario.start = (Ok (Some t), st')
    ∧ file_index t = 3.
Proof.
  destruct (@generate_interleaved_products_for_file_succeeds Scenario.config Z
              Lcg_source Scenario.no_faults 3 6 Scenario.start)
    as (t & st' & Hrun & Hidx & _).
  - intros n. reflexivity.
  - intros _. simpl. lia.
  - exists t, st'. split; [exact Hrun|exact Hidx].
Defined.

Lemma run_collects_every_partition_witness :
  ∃ (new : list tally) st',
    @run_interleaved_generation Scenario.config Z Lcg_source Scenario.no_faults
      Scenario.seeds Scenario.no_loss Scenario.last_first Scenario.start
    = (Ok (Some <$> new), st')
    ∧ file_index <$> new = [4; 3; 2; 1].
Proof.
  destruct (@run_collects_every_partition Scenario.config Z Lcg_source
              Scenario.no_faults Scenario.seeds Scenario.no_loss
              Scenario.last_first Scenario.start)
    as (new & st' & Hrun & Hidx & _).
  - intros i n. reflexivity.
  - intros i. reflexivity.
  - intros _. simpl. lia.
  - apply ScenarioFacts.last_first_permutation.
  - exists new, st'. split; [exact Hrun|]. rewrite Hidx. reflexivity.
Defined.

Lemma run_results_in_completion_order_witness :
  ∃ succeeded (new : list tally) st',
    @run_interleaved_generation Scenario.config Z Lcg_source
      Scenario.part_2_fails Scenario.seeds Scenario.no_loss Scenario.last_first
      Scenario.start = (Ok (Some <$> new), st')
    ∧ sublist succeeded [(4, 9); (3, 6); (2, 3); (1, 0)]
    ∧ file_index <$> new = succeeded.*1.
Proof.
  destruct (@run_results_in_completion_order Scenario.config Z Lcg_source
              Scenario.part_2_fails Scenario.seeds Scenario.no_loss
              Scenario.last_first Scenario.start
              ScenarioFacts.last_first_permutation)
    as (succeeded & new & st' & Hrun & _ & Hsub & Hidx & _).
  exists succeeded, new, st'. split; [exact Hrun|]. split; [exact Hsub|exact Hidx].
Defined.

Lemma main_lists_every_partition_witness :
  let out := stdout (@main Scenario.config Z Lcg_source Scenario.part_2_fails
                       Scenario.seeds Scenario.no_loss Scenario.last_first
                       Scenario.start).2 in
  LogErrorWriting 2 OSError ∈ out ∧ LogSavedTo 2 (part_path 2) ∈ out.
Proof.
  let v := eval vm_compute in
    (@main Scenario.config Z Lcg_source Scenario.part_2_fails Scenario.seeds
       Scenario.no_loss Scenario.last_first Scenario.start) in
  match v with
  | (Ok (), ?st') =>
      assert (Hrun : @main Scenario.config Z Lcg_source Scenario.part_2_fails
                       Scenario.seeds Scenario.no_loss Scenario.last_first
                       Scenario.start = (Ok (), st'))
        by (vm_compute; reflexivity)
  end.
  destruct (@main_lists_every_partition Scenario.config Z Lcg_source
              Scenario.part_2_fails Scenario.seeds Scenario.no_loss
              Scenario.last_first Scenario.start _ Hrun) as (out & _ & Hall).
  cbv zeta. split.
  - rewrite Hrun. apply list_elem_of_lookup. exists 9%nat. reflexivity.
  - rewrite Hrun. apply Hall. simpl. lia.
Defined.

Lemma empty_partition_witness :
  ∃ st',
    @generate_interleaved_products_for_file Cases.no_records Z Lcg_source
      Scenario.no_faults 1 0 Scenario.start = (Ok (Some (Tally 1 ∅ ∅)), st')
    ∧ rng st' = 42.
Proof.
  destruct (@empty_partition Cases.no_records Z Lcg_source Scenario.no_faults
              1 0 Scenario.start) as (st' & Hrun & Hrng & _).
  - simpl. lia.
  - intros n. reflexivity.
  - exists st'. split; [exact Hrun|exact Hrng].
Defined.

Lemma catalog_counts_match_files_witness :
  ∃ (new : list tally) st',
    @main Scenario.config Z Lcg_source Scenario.part_2_fails Scenario.seeds
      Scenario.no_loss Scenario.last_first Scenario.start = (Ok (), st')
    ∧ (fun t => part_path (file_index t)) <$> new
      = ["generated_data/products_part_4.json";
         "generated_data/products_part_3.json";
         "generated_data/products_part_1.json"]
    ∧ map products_count_of (catalog_entries (files st' !! CATEGORIES_FILE))
      = map (count_in_files (files st') "category_id"
               ((fun t => part_path (file_index t)) <$> new)) [0; 1; 2].
Proof.
  destruct (@catalog_counts_match_files Scenario.config Z Lcg_source
              Scenario.part_2_fails Scenario.seeds Scenario.no_loss
              Scenario.last_first Scenario.start)
    as (new & st' & Hmain & Hnew & _ & _ & Hc & _).
  - apply ScenarioFacts.part_2_fails_elsewhere. reflexivity.
  - apply ScenarioFacts.part_2_fails_elsewhere. reflexivity.
  - apply ScenarioFacts.part_2_fails_elsewhere. reflexivity.
  - apply ScenarioFacts.last_first_permutation.
  - exists new, st'. split; [exact Hmain|]. split; [|exact Hc].
    rewrite Hnew. vm_compute. reflexivity.
Defined.

Lemma run_without_faults_witness :
  ∃ st',
    @main Scenario.config Z Lcg_source Scenario.no_faults Scenario.seeds
      Scenario.no_loss Scenario.last_first Scenario.start = (Ok (), st')
    ∧ catalog_total (files st' !! CATEGORIES_FILE) = 12
    ∧ catalog_total (files st' !! VENDORS_FILE) = 12.
Proof.
  destruct (@run_without_faults Scenario.config Z Lcg_source Scenario.no_faults
              Scenario.seeds Scenario.no_loss Scenario.last_first
              Scenario.start)
    as (new & st' & Hmain & _ & _ & _ & _ & _ & Hc & Hv).
  - intros path n. reflexivity.
  - intros i. reflexivity.
  - intros _. simpl. lia.
  - simpl. lia.
  - simpl. lia.
  - apply ScenarioFacts.last_first_permutation.
  - exists st'. split; [exact Hmain|]. split; [exact Hc|exact Hv].
Defined.

Lemma shard_ids_partition_witness :
  97 ∈ SHARD_2_IDS ∧ ¬ (97 ∈ SHARD_1_IDS) ∧ ¬ (97 ∈ SHARD_3_IDS).
Proof.
  destruct (shard_ids_partition 97) as (H1 & H2 & H3 & _).
  rewrite H1, H2, H3. split; [|split]; [split; [lia|reflexivity]| |];
    intros [_ Hmod]; discriminate Hmod.
Defined.

Lemma partition_paths_distinct_witness :
  part_path 1 ≠ part_path 2 ∧ part_path 3 ≠ CATEGORIES_FILE.
Proof.
  destruct (@partition_paths_distinct Scenario.config) as (Hnd & Hcat & _).
  split; [|apply Hcat].
  intros Heq. vm_compute in Heq. discriminate Heq.
Defined.

Lemma completion_order_is_immaterial_witness :
  files (@main Scenario.config Z Lcg_source Scenario.part_2_fails
           Scenario.seeds Scenario.no_loss Scenario.last_first
           Scenario.start).2
  = files (@main Scenario.config Z Lcg_source Scenario.part_2_fails
             Scenario.seeds Scenario.no_loss (fun tasks => tasks)
             Scenario.start).2.
Proof.
  destruct (@completion_order_is_immaterial Scenario.config Z Lcg_source
              Scenario.part_2_fails Scenario.seeds Scenario.no_loss
              Scenario.last_first (fun tasks => tasks) Scenario.start)
    as (st1 & st2 & H1 & H2 & Hfiles & _).
  - apply ScenarioFacts.part_2_fails_elsewhere. reflexivity.
  - apply ScenarioFacts.part_2_fails_elsewhere. reflexivity.
  - apply ScenarioFacts.part_2_fails_elsewhere. reflexivity.
  - apply ScenarioFacts.last_first_permutation.
  - reflexivity.
  - rewrite H1, H2. exact Hfiles.
Defined.

Lemma generate_product_json_attribute_slots_witness :
  ∃ attributes a,
    length attributes = 5%nat
    ∧ attributes !! 4%nat = Some a
    ∧ Color_entry a.
Proof.
  let v := eval vm_compute in
    (@generate_product_json Cases.five_attributes Z Lcg_source 0 42) in
  match v with
  | Ok (?product, ?ven, ?cat, ?g') =>
      destruct (@generate_product_json_attribute_slots Cases.five_attributes Z
                  Lcg_source 0 42 product ven cat g'
                  ltac:(vm_compute; reflexivity))
        as (attributes & Hget & Hlen & _ & Hcolor)
  end.
  vm_compute in Hget. injection Hget as <-.
  eexists _, _. split; [exact Hlen|]. split; [reflexivity|].
  apply (Hcolor 4%nat); [lia|reflexivity].
Defined.

End FurtherExamples.
